(* ===== verification/_CoqProject ===== *)
-Q . S2P
Prelude.v
IntUtil.v
Varint.v
Keccak.v
TreeHash.v
Base58.v
Median.v
Difficulty.v
HardFork.v
Serialization.v
Basic.v
Typing.v
TxExtra.v
FormatUtils.v
Reward.v
Address.v
Checkpoints.v
TxPool.v
Database.v
ChainRules.v
TxVerify.v
Blockchain.v
ChainInvariant.v
ForkChoice.v
BlockTemplate.v
Prepare.v
Miner.v
ChainQueries.v
Core.v
CurveField.v
CurveScalar.v
CurvePrime.v
