(* ===== verification/Prelude.v ===== *)
(** * CitiCash: a verification of the consensus core

    CitiCash is a CryptoNote currency with ring confidential transactions.
    This library models the parts of the node that decide which bytes are a
    valid block or transaction, and proves what they promise each other.  Each
    file is a translation of source files under [src/]; every definition keeps
    the name of the function it translates.

    ** The program and the files that model it

    - [Prelude.v] (this file): machine words ([u8] .. [u64], the wrapping
      operations [+w], [-w], [*w], [<<w], [>>w]), bytes, lists, options, the
      tactics and the hint databases.
    - [IntUtil.v]: src/common/int-util.h, 64x64 bit products, divisions, byte
      swaps and rotations.
    - [Varint.v]: src/common/varint.h, variable-length integers.
    - [Keccak.v]: src/crypto/keccak.c and [cn_fast_hash] of src/crypto/hash.c.
      The class [FastHash] is what the other files use of the hash; Keccak is an
      instance of it.
    - [TreeHash.v]: src/crypto/tree-hash.c, the Merkle tree of a block.
    - [Base58.v]: src/common/base58.cpp, the text form of addresses.
    - [Median.v]: the median of contrib/epee/include/misc_language.h.
    - [Difficulty.v]: src/cryptonote_core/difficulty.cpp, the proof-of-work test
      and the difficulty of the next block.
    - [HardFork.v]: src/cryptonote_core/hardfork.cpp, the schedule of versions
      and the vote of the last blocks, with the table of the database it uses.
    - [Serialization.v]: src/serialization, the binary archive: readers and
      writers of integers, blobs, strings, vectors and variants.
    - [Basic.v]: src/cryptonote_core/cryptonote_basic.h and the serialization of
      src/ringct/rctTypes.h, transactions and blocks.
    - [Typing.v]: proofs about what the readers of [Basic.v] return.
    - [TxExtra.v]: src/cryptonote_core/tx_extra.h and the functions of
      cryptonote_format_utils.cpp on the extra field.
    - [FormatUtils.v]: src/cryptonote_core/cryptonote_format_utils.cpp, hashes of
      transactions and blocks, checks, offsets, amounts.
    - [Reward.v]: the emission curve of cryptonote_basic_impl.cpp, the miner
      transaction of cryptonote_format_utils.cpp and its checks in
      blockchain.cpp.
    - [Address.v]: the address strings of cryptonote_basic_impl.cpp.
    - [Checkpoints.v]: src/cryptonote_core/checkpoints.cpp.
    - [TxPool.v]: src/cryptonote_core/tx_pool.cpp, the memory pool.
    - [Database.v]: src/blockchain_db, the tables of blocks, transactions,
      outputs, key images and aliases, and what adding and popping a block does
      to them, with transactions and batches.
    - [ChainRules.v]: the reads of blockchain.cpp that the rules are made of: the
      difficulty with its cache, timestamps, sizes, fees, unlock times, and the
      search for a common block.
    - [TxVerify.v]: the verification of the inputs of a transaction in
      blockchain.cpp, up to the verification of the ring signature.
    - [Blockchain.v]: the class [Blockchain] of blockchain.cpp: appending and
      popping blocks, other branches and the switch to them, on a state with the
      database, the pool, the hard forks and the checkpoints.
    - [ChainInvariant.v], [ForkChoice.v]: proofs about [Blockchain.v].
    - [BlockTemplate.v]: [create_block_template] of blockchain.cpp.
    - [Prepare.v]: [prepare_handle_incoming_blocks] of blockchain.cpp and the
      workers it starts.
    - [Miner.v]: src/cryptonote_core/miner.cpp, the templates and the counters of
      the miner and its threads, which interleave at every access to shared state.
    - [ChainQueries.v]: the operations of blockchain.cpp that only read: blocks and
      transactions by id and height, the answers to other nodes and the outputs
      drawn for rings.
    - [Core.v]: src/cryptonote_core/cryptonote_core.cpp, the object that takes the
      bytes of transactions and blocks and holds pool, chain and miner.
    - [CurveField.v], [CurveScalar.v]: src/crypto/crypto-ops.c, the arithmetic of
      the field of 2^255-19 elements and of the scalars modulo the order of the
      group.
    - [CurvePrime.v]: 2^255-19 is a prime.

    ** How the code is modelled

    A w-bit integer is a [Z] in range, and arithmetic that may wrap is written
    with the wrapping operations.  Bytes are [list Z].  A function that can fail
    returns an [option]; where the code leaves state behind on failure, the
    state is returned too.  Mutable objects are records passed along.  Doubles
    are the IEEE numbers of the standard library's [SpecFloat].  Maps are
    [gmap]s, or association lists where the order matters.  Assertions and
    exceptions of the code are failures of the model.

    Loops over data are structural recursions.  A loop on a number or on the
    rest of an input has fuel, chosen so that it cannot run out: the number of
    bits or digits of a 64-bit word ([Varint.write_varint_loop],
    [Base58.encode_loop], [TreeHash.halve_count], the digit loops of
    [FormatUtils]), the length of the input ([Keccak.absorb_loop], the parser of
    [TxExtra], [FormatUtils.lower_bound], [Reward.merge_outs]) or the number of
    forks ([HardFork.find_version]), the height of the chain
    ([Blockchain.pop_to_height], [Blockchain.pop_to_block]) or the number of
    recorded blocks ([Blockchain.alternative_chain]).  The theorems state the
    result and not only what holds if there is one, which shows that the fuel is
    enough.  Switching to a branch and recording the blocks of the old one call
    each other; [Blockchain.SWITCH_FUEL] bounds the depth, and
    [add_new_block_returns] shows that it is not reached.

    A theorem that depends on collision resistance says that two objects are
    equal or that two of the messages hashed for them, which it names, collide;
    the theorems of [ForkChoice.v] are about any set of blocks with different
    hashes.  The curve, the verification of ring signatures and the proof-of-work
    hash are classes ([Database.DbCrypto], [TxVerify.RctVerify],
    [Blockchain.PowHash], [Core.KeyMultiples]); nothing is assumed of them.

    ** What the theorems show

    - Integers and hashes: the word-level code computes the mathematical
      functions ([keccakf_correct] against the step mappings of the standard,
      [keccak_sponge], [tree_hash_correct] against a recursive tree).
    - Formats: what is written is read back ([read_write_varint],
      [transaction_round_trip], [block_round_trip], [decode_encode],
      [address_round_trip], [integrated_address_round_trip],
      [add_extra_round_trip], [print_parse_money]), and what is accepted is
      canonical ([read_varint_canonical], [encode_decode], [encode_decode_addr]).
      Whatever the bytes, what the parser returns is well-formed
      ([parsed_well_formed]).
    - Identity: an id determines the transaction or block
      ([get_transaction_hash_binding], [get_block_hash_binding],
      [tree_hash_binding]).
    - Consensus rules: the proof-of-work test ([check_hash_correct]), the
      difficulty ([next_difficulty_bounds], [next_difficulty_timestamps]), the
      reward ([get_block_reward_correct], [validate_miner_transaction_correct],
      [generated_coins_capped]), the block a miner builds ([miner_tx_accepted]),
      the hard fork vote ([add_correct], [reorganize_restores],
      [init_restores]) and the checkpoints.
    - The memory pool: an invariant on its five containers, kept by every
      operation that adds or removes transactions ([add_tx_correct],
      [take_tx_correct], [remove_stuck_transactions_correct], [init_store]), and
      the block template has no double spend ([fill_block_template_correct]).
    - The database: after every history of adding and popping blocks the tables
      hold exactly the stack of blocks ([database_history]), key images are never
      spent twice ([no_double_spend]), popping undoes adding
      ([pop_block_undoes_add_block]) and a refused block leaves no trace outside a
      batch ([add_block_atomic]).
    - The rules read from the database are the rules of the chain it holds
      ([get_difficulty_for_next_block_correct], [alternative_difficulty_agrees],
      [alternative_timestamp_agrees], [sync_finds_common_block]), and the inputs
      of a transaction are accepted exactly when their rings are
      ([check_tx_inputs_correct]).
    - The whole node: whatever bytes arrive, in whatever order, the chain satisfies
      the rules and the pool is consistent ([core_always_valid], which rests on
      [chain_always_valid]'s invariant); a transaction enters the pool only after
      every check ([handle_incoming_tx_correct]); a block extends the chain or leaves it
      ([handle_block_to_main_chain_correct]); the node moves to another branch
      only for more work ([add_new_block_chooses]) and always answers
      ([add_new_block_returns]).  A block mined on a template of the node is
      accepted by it with the full reward ([mined_template_accepted]), and the
      tables prepared for a batch of blocks hold what the database and the
      proof-of-work hash would give ([prepare_handle_incoming_blocks_correct]).
      Other nodes get the blocks they ask for, complete
      ([handle_get_objects_correct]).
    - The miner: however its threads interleave with new templates, pauses and
      stops, a block it hands on has the work its template asks for
      ([found_blocks_have_work]).

    ** What is not modelled

    Network, RPC, wallet, daemon and files are input and output around this
    core.  The elliptic curve, the ring signatures and the proof-of-work hash
    are arguments or classes where the modelled code calls them.  Of [Blockchain],
    [core] and [miner], the start-up and the options are left out.  LMDB itself is the finite
    maps of [Database.tables].  Locks and logging have no counterpart: each
    operation is one step, and threads that work on separate parts are run one
    after the other, except for the threads of the miner. *)
From Stdlib Require Export ZArith Lia Bool.
From stdpp Require Export base numbers list.
Export ListNotations.

Declare Scope cword_scope.
Delimit Scope cword_scope with cw.
#[global] Open Scope Z_scope.

Create HintDb cword discriminated.
Create HintDb bytes discriminated.
Create Rewrite HintDb cword.

(** * Tactics *)

(** [lia] after the Euclidean equations of every [/] and [mod] in sight. *)
Ltac dlia := Z.to_euclidean_division_equations; lia.
Ltac dnia := Z.to_euclidean_division_equations; nia.

(** Case analysis on the boolean comparisons of the code. *)
Ltac case_bool :=
  match goal with
  | |- context [if ?b then _ else _] => destruct b eqn:?
  | H : context [if ?b then _ else _] |- _ => destruct b eqn:?
  end.
Ltac reflect_bools :=
  repeat match goal with
  | H : (_ && _)%bool = true |- _ => apply andb_true_iff in H; destruct H
  | H : (_ || _)%bool = false |- _ => apply orb_false_iff in H; destruct H
  | H : negb _ = true |- _ => apply negb_true_iff in H
  | H : negb _ = false |- _ => apply negb_false_iff in H
  | H : (_ =? _) = true |- _ => apply Z.eqb_eq in H
  | H : (_ =? _) = false |- _ => apply Z.eqb_neq in H
  | H : (_ <? _) = true |- _ => apply Z.ltb_lt in H
  | H : (_ <? _) = false |- _ => apply Z.ltb_ge in H
  | H : (_ <=? _) = true |- _ => apply Z.leb_le in H
  | H : (_ <=? _) = false |- _ => apply Z.leb_gt in H
  end.

(** * Options *)

Lemma bind_eq {A B} (m : option A) (f : A -> option B) x y : m = Some x -> f x = y -> m ≫= f = y.
Proof. by intros -> <-. Qed.

(** * Machine integers

    A value of an unsigned C type of [w] bits is a [Z] in [0, 2^w); the
    arithmetic of the type is that of [Z] followed by [wrap w].  A value of a
    signed type of [w] bits is a [Z] in [-2^(w-1), 2^(w-1)), and [swrap w] is
    the conversion to it. *)

Definition wrap (w z : Z) : Z := z mod 2 ^ w.
Definition swrap (w z : Z) : Z := (z + 2 ^ (w - 1)) mod 2 ^ w - 2 ^ (w - 1).
Definition word (w z : Z) : Prop := 0 <= z < 2 ^ w.

Abbreviation u8 := (wrap 8).
Abbreviation u16 := (wrap 16).
Abbreviation u32 := (wrap 32).
Abbreviation u64 := (wrap 64).
Abbreviation i32 := (swrap 32).
Abbreviation i64 := (swrap 64).
Abbreviation is_u8 := (word 8).
Abbreviation is_u32 := (word 32).
Abbreviation is_u64 := (word 64).

(** [uint64_t] arithmetic: each operator wraps its own result. *)
Notation "x +w y" := (u64 (x + y)) (at level 50, left associativity) : cword_scope.
Notation "x -w y" := (u64 (x - y)) (at level 50, left associativity) : cword_scope.
Notation "x *w y" := (u64 (x * y)) (at level 40, left associativity) : cword_scope.
Notation "x <<w n" := (u64 (Z.shiftl x n)) (at level 36, left associativity) : cword_scope.
Notation "x >>w n" := (Z.shiftr x n) (at level 36, left associativity) : cword_scope.
#[global] Open Scope cword_scope.

Lemma wrap_word w z : 0 <= w -> word w (wrap w z).
Proof. intros Hw. apply Z.mod_pos_bound. lia. Qed.

Lemma wrap_u64 z : is_u64 (u64 z).
Proof. by apply wrap_word. Qed.

Lemma wrap_u32 z : is_u32 (u32 z).
Proof. by apply wrap_word. Qed.

Lemma wrap_u8 z : is_u8 (u8 z).
Proof. by apply wrap_word. Qed.

Lemma wrap_small w z : word w z -> wrap w z = z.
Proof. apply Z.mod_small. Qed.

Lemma wrap_wrap w z : 0 <= w -> wrap w (wrap w z) = wrap w z.
Proof. intros. by apply wrap_small, wrap_word. Qed.

Lemma wrap_add_l w x y : wrap w (wrap w x + y) = wrap w (x + y).
Proof. apply Zplus_mod_idemp_l. Qed.

Lemma wrap_add_r w x y : wrap w (x + wrap w y) = wrap w (x + y).
Proof. apply Zplus_mod_idemp_r. Qed.

Lemma wrap_sub_r w x y : wrap w (x - wrap w y) = wrap w (x - y).
Proof. apply Zminus_mod_idemp_r. Qed.

Lemma wrap_sub_l w x y : wrap w (wrap w x - y) = wrap w (x - y).
Proof. apply Zminus_mod_idemp_l. Qed.

Lemma wrap_sub_neg w x y :
  word w x -> word w y -> x < y -> wrap w (x - y) = x - y + 2 ^ w.
Proof.
  unfold word, wrap. intros. symmetry.
  apply (Z.mod_unique_pos _ _ (-1)); lia.
Qed.

Lemma swrap_small w z :
  - 2 ^ (w - 1) <= z < 2 ^ (w - 1) -> 0 < w -> swrap w z = z.
Proof.
  unfold swrap. intros Hz Hw.
  assert (2 ^ w = 2 * 2 ^ (w - 1)) by (rewrite <- Z.pow_succ_r; f_equal; lia).
  rewrite Z.mod_small; lia.
Qed.

#[export] Hint Resolve wrap_u64 wrap_u32 wrap_u8 : cword.
#[export] Hint Rewrite wrap_wrap wrap_add_l wrap_add_r wrap_sub_l wrap_sub_r
  using lia : cword.

(** Turns the hypotheses and goals on words into inequalities for [lia]. *)
Ltac words := unfold word, wrap in *; change (2 ^ 64) with 18446744073709551616 in *;
  change (2 ^ 32) with 4294967296 in *; change (2 ^ 16) with 65536 in *;
  change (2 ^ 8) with 256 in *.

Lemma mul_bound x y A B : 0 <= x < A -> 0 <= y < B -> 0 <= x * y < A * B.
Proof. intros. split; [apply Z.mul_nonneg_nonneg | apply Z.mul_lt_mono_nonneg]; lia. Qed.

(** ** Bit operations as arithmetic *)

Lemma land_ones_mod a n : 0 <= n -> Z.land a (Z.ones n) = a mod 2 ^ n.
Proof. apply Z.land_ones. Qed.

Lemma land_low_high a b n : 0 <= n -> 0 <= a < 2 ^ n -> Z.land a (b * 2 ^ n) = 0.
Proof.
  intros Hn Ha. apply Z.bits_inj'. intros i Hi. rewrite Z.land_spec, Z.bits_0.
  destruct (Z.ltb_spec i n).
  - rewrite (Z.mul_pow2_bits_low b n i) by lia. apply andb_false_r.
  - rewrite <- (Z.mod_small a (2 ^ n)) by lia.
    rewrite Z.mod_pow2_bits_high by lia. done.
Qed.

(** Or-ing a value into bits that are known to be zero is addition. *)
Lemma lor_low_high a b n :
  0 <= n -> 0 <= a < 2 ^ n -> Z.lor a (b * 2 ^ n) = a + b * 2 ^ n.
Proof.
  intros Hn Ha. symmetry. apply Z.add_nocarry_lor. by apply land_low_high.
Qed.

Lemma lor_high_low a b n :
  0 <= n -> 0 <= a < 2 ^ n -> Z.lor (b * 2 ^ n) a = b * 2 ^ n + a.
Proof. intros. rewrite Z.lor_comm, lor_low_high by lia. lia. Qed.

Lemma lor_low_shiftl a b n :
  0 <= n -> 0 <= a < 2 ^ n -> Z.lor a (Z.shiftl b n) = a + b * 2 ^ n.
Proof. intros. rewrite Z.shiftl_mul_pow2 by lia. by apply lor_low_high. Qed.

Lemma testbit_word_high w z i : word w z -> w <= i -> 0 <= w -> Z.testbit z i = false.
Proof.
  intros Hz Hi Hw. rewrite <- (wrap_small w z) by done.
  apply Z.mod_pow2_bits_high. lia.
Qed.

Lemma wrap_testbit w z i :
  0 <= w -> Z.testbit (wrap w z) i = (i <? w) && Z.testbit z i.
Proof.
  intros Hw. unfold wrap. destruct (Z.ltb_spec i w).
  - by rewrite Z.mod_pow2_bits_low.
  - rewrite Z.mod_pow2_bits_high by lia. done.
Qed.

(** Bits are compared one index at a time on a fixed width. *)
Lemma bits_ext w x y :
  word w x -> word w y -> 0 <= w ->
  (forall i, 0 <= i < w -> Z.testbit x i = Z.testbit y i) -> x = y.
Proof.
  intros Hx Hy Hw H. apply Z.bits_inj'. intros i Hi. destruct (Z.ltb_spec i w).
  - apply H. lia.
  - by rewrite !(testbit_word_high w) by (done || lia).
Qed.

(** A non-negative number is a word when its high bits are clear. *)
Lemma word_bits w z :
  0 <= w -> (forall i, w <= i -> Z.testbit z i = false) -> word w z.
Proof.
  intros Hw H. replace z with (wrap w z); [by apply wrap_word|].
  apply Z.bits_inj'. intros i Hi. rewrite wrap_testbit by done.
  destruct (Z.ltb_spec i w); [done|]. by rewrite H.
Qed.

Lemma lor_word w x y : word w x -> word w y -> 0 <= w -> word w (Z.lor x y).
Proof.
  intros Hx Hy Hw. apply word_bits; [done|]. intros i Hi.
  by rewrite Z.lor_spec, !(testbit_word_high w).
Qed.

Lemma lxor_word w x y : word w x -> word w y -> 0 <= w -> word w (Z.lxor x y).
Proof.
  intros Hx Hy Hw. apply word_bits; [done|]. intros i Hi.
  by rewrite Z.lxor_spec, !(testbit_word_high w).
Qed.

Lemma land_word w x y : word w y -> 0 <= w -> word w (Z.land x y).
Proof.
  intros Hy Hw. apply word_bits; [done|]. intros i Hi.
  by rewrite Z.land_spec, (testbit_word_high w y), andb_false_r.
Qed.

Lemma shiftr_word w z n : word w z -> 0 <= n -> 0 <= w -> word w (Z.shiftr z n).
Proof.
  intros Hz Hn Hw. apply word_bits; [done|]. intros i Hi.
  rewrite Z.shiftr_spec, (testbit_word_high w z) by (done || lia). done.
Qed.

#[export] Hint Resolve lor_word lxor_word land_word shiftr_word wrap_word : cword.

(** Bit expressions over words are words. *)
Ltac solve_word :=
  repeat first
    [ assumption | apply wrap_word; lia | apply lor_word | apply lxor_word
    | apply shiftr_word | apply land_word | lia | (unfold word; lia) ].

(** * Bytes

    A byte string is a list of [Z] in [0, 256). *)

Abbreviation bytes := (Forall is_u8).

(** A decidable fact about a byte is checked on the 256 of them. *)
Lemma forall_u8 (P : Z -> bool) :
  forallb P (seqZ 0 256) = true -> forall b, is_u8 b -> P b = true.
Proof.
  intros H b Hb. rewrite forallb_forall in H. apply H.
  rewrite <- list_elem_of_In. apply elem_of_seqZ. words. lia.
Qed.

(** Little-endian value of a byte string, and its digits. *)
Fixpoint le_val (l : list Z) : Z :=
  match l with
  | [] => 0
  | b :: l' => b + 256 * le_val l'
  end.

Fixpoint le_bytes (n : nat) (z : Z) : list Z :=
  match n with
  | O => []
  | S n' => z mod 256 :: le_bytes n' (z / 256)
  end.

(** Big-endian counterparts. *)
Definition be_val (l : list Z) : Z := le_val (rev l).
Definition be_bytes (n : nat) (z : Z) : list Z := rev (le_bytes n z).

Lemma length_le_bytes n z : length (le_bytes n z) = n.
Proof. revert z. induction n as [|n IH]; intros z; simpl; auto. Qed.

Lemma le_bytes_bytes n z : bytes (le_bytes n z).
Proof.
  revert z. induction n as [|n IH]; intros z; simpl; constructor; auto.
  apply Z.mod_pos_bound. lia.
Qed.

Lemma pow256_S n : 256 ^ Z.of_nat (S n) = 256 * 256 ^ Z.of_nat n.
Proof. rewrite Nat2Z.inj_succ, Z.pow_succ_r; lia. Qed.

Lemma le_val_bound l : bytes l -> 0 <= le_val l < 256 ^ Z.of_nat (length l).
Proof.
  induction 1 as [|b l Hb Hl IH]; cbn [le_val length]; [lia|].
  rewrite pow256_S. words. lia.
Qed.

Lemma le_val_le_bytes n z : le_val (le_bytes n z) = z mod 256 ^ Z.of_nat n.
Proof.
  revert z. induction n as [|n IH]; intros z; cbn [le_val le_bytes].
  - by rewrite Z.mod_1_r.
  - rewrite IH, pow256_S, Z.rem_mul_r by lia. done.
Qed.

Lemma le_bytes_le_val l : bytes l -> le_bytes (length l) (le_val l) = l.
Proof.
  induction 1 as [|b l Hb Hl IH]; cbn [le_val le_bytes length]; [done|].
  words. f_equal.
  - dlia.
  - rewrite (Z.mul_comm 256), Z.div_add, Z.div_small by lia. done.
Qed.

Lemma take_le_bytes n m z : (n <= m)%nat -> take n (le_bytes m z) = le_bytes n z.
Proof.
  revert m z. induction n as [|n IH]; intros m z Hm; [done|].
  destruct m as [|m]; [lia|]. cbn. by rewrite IH by lia.
Qed.

Lemma le_val_inj l1 l2 :
  bytes l1 -> bytes l2 -> length l1 = length l2 -> le_val l1 = le_val l2 -> l1 = l2.
Proof.
  intros H1 H2 Hlen Hv. rewrite <- (le_bytes_le_val l1), <- (le_bytes_le_val l2) by done.
  by rewrite Hlen, Hv.
Qed.

Lemma le_val_app l1 l2 :
  le_val (l1 ++ l2) = le_val l1 + 256 ^ Z.of_nat (length l1) * le_val l2.
Proof.
  induction l1 as [|b l1 IH]; cbn [app le_val length]; [lia|].
  rewrite IH, pow256_S. lia.
Qed.

Lemma be_val_cons b l : be_val (b :: l) = b * 256 ^ Z.of_nat (length l) + be_val l.
Proof. unfold be_val. cbn [rev]. rewrite le_val_app, length_rev. cbn. lia. Qed.

Lemma be_val_snoc l b : be_val (l ++ [b]) = be_val l * 256 + b.
Proof. unfold be_val. rewrite rev_app_distr. cbn. lia. Qed.

Lemma bytes_rev l : bytes l -> bytes (rev l).
Proof. apply Forall_rev. Qed.

Lemma be_val_bound l : bytes l -> 0 <= be_val l < 256 ^ Z.of_nat (length l).
Proof.
  intros H. unfold be_val. rewrite <- (length_rev l). by apply le_val_bound, bytes_rev.
Qed.

Lemma length_be_bytes n z : length (be_bytes n z) = n.
Proof. unfold be_bytes. by rewrite length_rev, length_le_bytes. Qed.

Lemma be_bytes_bytes n z : bytes (be_bytes n z).
Proof. apply bytes_rev, le_bytes_bytes. Qed.

Lemma be_val_be_bytes n z : be_val (be_bytes n z) = z mod 256 ^ Z.of_nat n.
Proof. unfold be_val, be_bytes. by rewrite rev_involutive, le_val_le_bytes. Qed.

Lemma be_bytes_be_val l : bytes l -> be_bytes (length l) (be_val l) = l.
Proof.
  intros H. unfold be_bytes, be_val. rewrite <- (length_rev l).
  rewrite le_bytes_le_val by by apply bytes_rev. apply rev_involutive.
Qed.

(** Bit [i] of a little-endian value is bit [i mod 8] of byte [i / 8]. *)
Lemma le_val_testbit l i :
  bytes l -> 0 <= i ->
  Z.testbit (le_val l) i = Z.testbit (List.nth (Z.to_nat (i / 8)) l 0) (i mod 8).
Proof.
  intros Hl. revert i. induction Hl as [|b l Hb Hl IH]; intros i Hi; cbn [le_val].
  { destruct (Z.to_nat (i / 8)); by rewrite !Z.bits_0. }
  replace (b + 256 * le_val l) with (Z.lor b (Z.shiftl (le_val l) 8))
    by (rewrite lor_low_shiftl by (done || words; lia); lia).
  rewrite Z.lor_spec, Z.shiftl_spec by lia. destruct (Z.ltb_spec i 8).
  - rewrite (Z.testbit_neg_r _ (i - 8)) by lia. rewrite Z.div_small, Z.mod_small by lia.
    apply orb_false_r.
  - rewrite (testbit_word_high 8) by (done || lia). rewrite IH by lia.
    replace (i / 8) with (1 + (i - 8) / 8) by dlia.
    rewrite Z2Nat.inj_add by dlia. cbn. f_equal. dlia.
Qed.

Lemma le_bytes_testbit n x k j :
  (k < n)%nat -> 0 <= j < 8 ->
  Z.testbit (List.nth k (le_bytes n x) 0) j = Z.testbit x (8 * Z.of_nat k + j).
Proof.
  revert x k. induction n as [|n IH]; intros x k Hk Hj; [lia|]. destruct k as [|k]; cbn.
  - change 256 with (2 ^ 8). rewrite Z.mod_pow2_bits_low by lia. f_equal.
  - rewrite IH by lia. change 256 with (2 ^ 8).
    rewrite Z.div_pow2_bits by lia. f_equal. lia.
Qed.

#[export] Hint Resolve le_bytes_bytes be_bytes_bytes bytes_rev : bytes.

(** * Lists *)

(** The loop [for (i = start; i < start + n; i++) acc = f(acc, i)] *)
Definition for_range {A} (start : Z) (n : nat) (f : A -> Z -> A) (a : A) : A :=
  fold_left f (seqZ start (Z.of_nat n)) a.

Fixpoint sumZ (l : list Z) : Z :=
  match l with
  | [] => 0
  | x :: l' => x + sumZ l'
  end.

Lemma sumZ_app l1 l2 : sumZ (l1 ++ l2) = sumZ l1 + sumZ l2.
Proof. induction l1; cbn; lia. Qed.

Lemma sumZ_nonneg l : Forall (fun z => 0 <= z) l -> 0 <= sumZ l.
Proof. induction 1; cbn; lia. Qed.

Lemma nth_take_lt {A} (l : list A) i n d :
  (i < n)%nat -> List.nth i (take n l) d = List.nth i l d.
Proof.
  revert l n. induction i as [|i IH]; intros [|x l] [|n] Hn; cbn; try lia; try done.
  apply IH. lia.
Qed.
