(* ===== verification/IntUtil.v ===== *)
(** * Integer utilities

    Model of [src/common/int-util.h]: rotations, 64x64->128 bit
    multiplication, 128/32 bit division, and byte swapping.  Every [uint32_t]
    and [uint64_t] is a [Z] and every C operation is followed by the wrap of
    its type; a pointer result is a component of the returned tuple. *)
From S2P Require Import Prelude.

Module IntUtil.

(** ** Rotations *)

Definition rol32 (x r : Z) : Z :=
  Z.lor (u32 (Z.shiftl x (Z.land r 31))) (Z.shiftr x (Z.land (- r) 31)).

Definition rol64 (x r : Z) : Z :=
  Z.lor (u64 (Z.shiftl x (Z.land r 63))) (Z.shiftr x (Z.land (- r) 63)).

(** ** Double-word multiplication and division *)

Definition hi_dword (val : Z) : Z := Z.shiftr val 32.
Definition lo_dword (val : Z) : Z := Z.land val 0xFFFFFFFF.

(** Returns [(product_lo, product_hi)]. *)
Definition mul128 (multiplier multiplicand : Z) : Z * Z :=
  let a := hi_dword multiplier in
  let b := lo_dword multiplier in
  let c := hi_dword multiplicand in
  let d := lo_dword multiplicand in
  let ac := a *w c in
  let ad := a *w d in
  let bc := b *w c in
  let bd := b *w d in
  let adbc := ad +w bc in
  let adbc_carry := if adbc <? ad then 1 else 0 in
  let product_lo := bd +w (adbc <<w 32) in
  let product_lo_carry := if product_lo <? bd then 1 else 0 in
  let product_hi := ac +w (adbc >>w 32) +w (adbc_carry <<w 32) +w product_lo_carry in
  (product_lo, product_hi).

(** Returns the quotient and the new value of [*remainder]; the quotient is
    the [uint64_t] quotient of the source. *)
Definition div_with_reminder (dividend divisor remainder : Z) : Z * Z :=
  let dividend := Z.lor dividend (u64 (Z.shiftl remainder 32)) in
  (dividend / divisor, u32 (dividend mod divisor)).

(** Long division with base 2^32: [(remainder, quotient_hi, quotient_lo)]. *)
Definition div128_32 (dividend_hi dividend_lo divisor : Z) : Z * Z * Z :=
  let d3 := hi_dword dividend_hi in
  let d2 := lo_dword dividend_hi in
  let d1 := hi_dword dividend_lo in
  let d0 := lo_dword dividend_lo in
  let (q3, remainder) := div_with_reminder d3 divisor 0 in
  let quotient_hi := q3 <<w 32 in
  let (q2, remainder) := div_with_reminder d2 divisor remainder in
  let quotient_hi := Z.lor quotient_hi q2 in
  let (q1, remainder) := div_with_reminder d1 divisor remainder in
  let quotient_lo := q1 <<w 32 in
  let (q0, remainder) := div_with_reminder d0 divisor remainder in
  let quotient_lo := Z.lor quotient_lo q0 in
  (remainder, quotient_hi, quotient_lo).

(** ** Byte order *)

(** The macros [SWAP32] and [SWAP64]. *)
Definition SWAP32 (x : Z) : Z :=
  Z.lor (Z.lor (Z.lor
    (u32 (Z.shiftl (Z.land x 0x000000ff) 24))
    (u32 (Z.shiftl (Z.land x 0x0000ff00) 8)))
    (Z.shiftr (Z.land x 0x00ff0000) 8))
    (Z.shiftr (Z.land x 0xff000000) 24).

Definition SWAP64 (x : Z) : Z :=
  Z.lor (Z.lor (Z.lor (Z.lor (Z.lor (Z.lor (Z.lor
    (u64 (Z.shiftl (Z.land x 0x00000000000000ff) 56))
    (u64 (Z.shiftl (Z.land x 0x000000000000ff00) 40)))
    (u64 (Z.shiftl (Z.land x 0x0000000000ff0000) 24)))
    (u64 (Z.shiftl (Z.land x 0x00000000ff000000) 8)))
    (Z.shiftr (Z.land x 0x000000ff00000000) 8))
    (Z.shiftr (Z.land x 0x0000ff0000000000) 24))
    (Z.shiftr (Z.land x 0x00ff000000000000) 40))
    (Z.shiftr (Z.land x 0xff00000000000000) 56).

(** The inline functions [swap32] and [swap64]. *)
Definition swap32 (x : Z) : Z :=
  let x := Z.lor (u32 (Z.shiftl (Z.land x 0x00ff00ff) 8))
                 (Z.shiftr (Z.land x 0xff00ff00) 8) in
  Z.lor (u32 (Z.shiftl x 16)) (Z.shiftr x 16).

Definition swap64 (x : Z) : Z :=
  let x := Z.lor (u64 (Z.shiftl (Z.land x 0x00ff00ff00ff00ff) 8))
                 (Z.shiftr (Z.land x 0xff00ff00ff00ff00) 8) in
  let x := Z.lor (u64 (Z.shiftl (Z.land x 0x0000ffff0000ffff) 16))
                 (Z.shiftr (Z.land x 0xffff0000ffff0000) 16) in
  Z.lor (u64 (Z.shiftl x 32)) (Z.shiftr x 32).

(** The array versions: a buffer of [n] words is a list of words, and the loop
    swaps the first [n] of them. *)
Definition mem_inplace_swap32 (mem : list Z) (n : nat) : list Z :=
  map swap32 (take n mem) ++ drop n mem.
Definition mem_inplace_swap64 (mem : list Z) (n : nat) : list Z :=
  map swap64 (take n mem) ++ drop n mem.
Definition memcpy_swap32 (src : list Z) (n : nat) : list Z := map swap32 (take n src).
Definition memcpy_swap64 (src : list Z) (n : nat) : list Z := map swap64 (take n src).

(** * Properties *)

Lemma hi_dword_div z : hi_dword z = z / 2 ^ 32.
Proof. apply Z.shiftr_div_pow2. lia. Qed.

Lemma lo_dword_mod z : lo_dword z = z mod 2 ^ 32.
Proof. unfold lo_dword. change 0xFFFFFFFF with (Z.ones 32). by apply Z.land_ones. Qed.

Lemma shiftr32_div z : Z.shiftr z 32 = z / 2 ^ 32.
Proof. by apply Z.shiftr_div_pow2. Qed.

Lemma shiftl32_mul z : Z.shiftl z 32 = z * 2 ^ 32.
Proof. by apply Z.shiftl_mul_pow2. Qed.

Lemma dword_split z :
  is_u64 z -> is_u32 (hi_dword z) /\ is_u32 (lo_dword z) /\
              z = hi_dword z * 2 ^ 32 + lo_dword z.
Proof. rewrite hi_dword_div, lo_dword_mod. words. intros. dlia. Qed.

(** A product of two 32-bit values fits a 64-bit word, with room to spare. *)
Lemma mul_u32 x y :
  is_u32 x -> is_u32 y -> 0 <= x * y <= (2 ^ 32 - 1) * (2 ^ 32 - 1).
Proof. words. nia. Qed.

(** Adding two words and testing [sum < addend] computes the carry. *)
Lemma add_carry x y :
  is_u64 x -> is_u64 y ->
  (x +w y) + 2 ^ 64 * (if (x +w y) <? x then 1 else 0) = x + y.
Proof. intros Hx Hy. case_bool; reflect_bools; words; dlia. Qed.

Lemma shl32_word z : is_u64 z -> z <<w 32 = z mod 2 ^ 32 * 2 ^ 32.
Proof. intros. rewrite shiftl32_mul. words. dlia. Qed.

Lemma mul128_spec x y :
  is_u64 x -> is_u64 y ->
  let '(lo, hi) := mul128 x y in
  is_u64 lo /\ is_u64 hi /\ hi * 2 ^ 64 + lo = x * y /\
  hi_dword x *w hi_dword y <= hi.
Proof.
  intros Hx Hy. unfold mul128. cbv zeta iota.
  destruct (dword_split x Hx) as (Ha & Hb & Ex), (dword_split y Hy) as (Hc & Hd & Ey).
  pose proof (mul_bound x y _ _ Hx Hy) as Hxy.
  set (a := hi_dword x) in *; set (b := lo_dword x) in *.
  set (c := hi_dword y) in *; set (d := lo_dword y) in *.
  clearbody a b c d. subst x y.
  pose proof (mul_u32 a c Ha Hc). pose proof (mul_u32 a d Ha Hd).
  pose proof (mul_u32 b c Hb Hc). pose proof (mul_u32 b d Hb Hd).
  rewrite !(wrap_small 64 (_ * _)) by (unfold word; lia).
  pose proof (add_carry (a * d) (b * c) ltac:(words; lia) ltac:(words; lia)) as E1.
  set (s1 := a * d +w b * c) in *.
  assert (is_u64 s1) by apply wrap_u64.
  rewrite shl32_word by done.
  pose proof (add_carry (b * d) (s1 mod 2 ^ 32 * 2 ^ 32)
    ltac:(words; lia) ltac:(words; dlia)) as E2.
  set (s2 := b * d +w s1 mod 2 ^ 32 * 2 ^ 32) in *.
  assert (is_u64 s2) by apply wrap_u64.
  rewrite shiftr32_div, shiftl32_mul.
  set (c1 := if s1 <? a * d then 1 else 0) in *.
  set (c2 := if s2 <? b * d then 1 else 0) in *.
  assert (0 <= c1 <= 1 /\ 0 <= c2 <= 1) by (unfold c1, c2; split; case_bool; lia).
  assert (E : (a * c + s1 / 2 ^ 32 + c1 * 2 ^ 32 + c2) * 2 ^ 64 + s2 =
    (a * 2 ^ 32 + b) * (c * 2 ^ 32 + d)).
  { clear -E1 E2. replace (s1 mod 2 ^ 32) with (s1 - 2 ^ 32 * (s1 / 2 ^ 32)) in E2
      by (rewrite Z.mod_eq; lia). lia. }
  assert (0 <= s1 / 2 ^ 32 < 2 ^ 32) by (words; dlia).
  rewrite <- E in Hxy.
  clearbody s1 s2 c1 c2. set (q := s1 / 2 ^ 32) in *. clearbody q.
  rewrite (wrap_small 64 (c1 * 2 ^ 32)), (wrap_small 64 (a * c + q)),
    (wrap_small 64 (a * c + q + _)), wrap_small by (words; lia).
  repeat split; try (words; lia).
Qed.

(** [mul128] is the full 128-bit product of two 64-bit words: both halves
    are words, they recompose to the exact product, and the [assert] at the
    end of the function holds. *)
Theorem mul128_correct x y :
  is_u64 x -> is_u64 y ->
  let '(lo, hi) := mul128 x y in
  is_u64 lo /\ is_u64 hi /\ hi * 2 ^ 64 + lo = x * y /\
  hi_dword x *w hi_dword y <= hi.
Proof. apply mul128_spec. Qed.

Lemma mul128_correct_witness :
  let '(lo, hi) := mul128 (2 ^ 64 - 1) (2 ^ 64 - 1) in
  is_u64 lo /\ is_u64 hi /\ hi * 2 ^ 64 + lo = (2 ^ 64 - 1) * (2 ^ 64 - 1) /\
  hi_dword (2 ^ 64 - 1) *w hi_dword (2 ^ 64 - 1) <= hi.
Proof. apply (mul128_correct (2 ^ 64 - 1) (2 ^ 64 - 1)); words; lia. Defined.

Lemma div_with_reminder_spec dividend divisor remainder :
  is_u32 dividend -> is_u32 divisor -> 0 <= remainder < divisor ->
  let '(q, r) := div_with_reminder dividend divisor remainder in
  is_u32 q /\ 0 <= r < divisor /\ remainder * 2 ^ 32 + dividend = q * divisor + r.
Proof.
  intros Hn Hd Hr. unfold div_with_reminder. cbv zeta iota.
  rewrite shiftl32_mul, (wrap_small 64) by (words; lia).
  rewrite lor_low_high by (done || lia).
  set (n := dividend + remainder * 2 ^ 32).
  pose proof (Z.mod_pos_bound n divisor ltac:(lia)).
  rewrite wrap_small by (words; lia).
  pose proof (Z.div_mod n divisor ltac:(lia)).
  repeat split; try lia.
  - apply Z.div_pos; words; lia.
  - apply Z.div_lt_upper_bound; words; nia.
Qed.

(** Two 32-bit quotient digits assembled by [<< 32] and [|=]. *)
Lemma join_dwords h l : is_u32 h -> is_u32 l -> Z.lor (h <<w 32) l = h * 2 ^ 32 + l.
Proof.
  intros Hh Hl. rewrite shiftl32_mul, wrap_small by (words; lia).
  by apply lor_high_low.
Qed.

(** [div128_32] divides a 128-bit dividend by a 32-bit divisor: the two
    quotient words and the remainder satisfy the Euclidean equation, and the
    remainder is below the divisor. *)
Theorem div128_32_correct dividend_hi dividend_lo divisor :
  is_u64 dividend_hi -> is_u64 dividend_lo -> is_u32 divisor -> 0 < divisor ->
  let n := dividend_hi * 2 ^ 64 + dividend_lo in
  let '(r, q_hi, q_lo) := div128_32 dividend_hi dividend_lo divisor in
  is_u64 q_hi /\ is_u64 q_lo /\
  q_hi * 2 ^ 64 + q_lo = n / divisor /\ r = n mod divisor.
Proof.
  intros Hh Hl Hd Hd0 n. unfold div128_32. cbv zeta.
  destruct (dword_split _ Hh) as (H3 & H2 & Eh), (dword_split _ Hl) as (H1 & H0 & El).
  pose proof (div_with_reminder_spec (hi_dword dividend_hi) divisor 0 H3 Hd ltac:(lia)) as S3.
  destruct (div_with_reminder (hi_dword dividend_hi) divisor 0) as [q3 r3].
  destruct S3 as (Hq3 & Hr3 & E3).
  pose proof (div_with_reminder_spec (lo_dword dividend_hi) divisor r3 H2 Hd Hr3) as S2.
  destruct (div_with_reminder (lo_dword dividend_hi) divisor r3) as [q2 r2].
  destruct S2 as (Hq2 & Hr2 & E2).
  pose proof (div_with_reminder_spec (hi_dword dividend_lo) divisor r2 H1 Hd Hr2) as S1.
  destruct (div_with_reminder (hi_dword dividend_lo) divisor r2) as [q1 r1].
  destruct S1 as (Hq1 & Hr1 & E1).
  pose proof (div_with_reminder_spec (lo_dword dividend_lo) divisor r1 H0 Hd Hr1) as S0.
  destruct (div_with_reminder (lo_dword dividend_lo) divisor r1) as [q0 r0].
  destruct S0 as (Hq0 & Hr0 & E0).
  rewrite !join_dwords by done.
  assert (E : n = divisor * ((q3 * 2 ^ 32 + q2) * 2 ^ 64 + (q1 * 2 ^ 32 + q0)) + r0)
    by (subst n; lia).
  repeat split; try (words; lia).
  - by apply (Z.div_unique_pos _ _ _ r0).
  - by eapply Z.mod_unique_pos.
Qed.

Lemma div128_32_correct_witness :
  let n := (2 ^ 64 - 1) * 2 ^ 64 + 12345 in
  let '(r, q_hi, q_lo) := div128_32 (2 ^ 64 - 1) 12345 58 in
  is_u64 q_hi /\ is_u64 q_lo /\ q_hi * 2 ^ 64 + q_lo = n / 58 /\ r = n mod 58.
Proof. apply (div128_32_correct (2 ^ 64 - 1) 12345 58); words; lia. Defined.

(** ** Byte swapping *)

Lemma forall_below64 (P : Z -> Prop) :
  Forall P (seqZ 0 64) -> forall i, 0 <= i < 64 -> P i.
Proof. intros H i Hi. rewrite Forall_forall in H. apply H. apply elem_of_seqZ. lia. Qed.

(** Total forms of the shift specifications, which rewrite unconditionally. *)
Lemma shiftl_testbit a n i : Z.testbit (Z.shiftl a n) i = (0 <=? i) && Z.testbit a (i - n).
Proof.
  destruct (Z.leb_spec 0 i); [by rewrite Z.shiftl_spec|]. by rewrite Z.testbit_neg_r.
Qed.

Lemma shiftr_testbit a n i : Z.testbit (Z.shiftr a n) i = (0 <=? i) && Z.testbit a (i + n).
Proof.
  destruct (Z.leb_spec 0 i); [by rewrite Z.shiftr_spec|]. by rewrite Z.testbit_neg_r.
Qed.

(** Decides an equation between two bit expressions over [x], at every index
    below 64: [testbit] is pushed to the leaves, the indices are enumerated,
    and the masks are evaluated. *)
Ltac enumerate_bits x i Hi :=
  repeat rewrite ?Z.lor_spec, ?Z.land_spec, ?(wrap_testbit 64), ?(wrap_testbit 32),
    ?shiftl_testbit, ?shiftr_testbit by lia;
  generalize (Z.testbit x); intros tb; revert i Hi; apply forall_below64;
  repeat constructor; vm_compute;
  repeat match goal with |- context [tb ?k] => destruct (tb k) end; reflexivity.

(** Bit [i] of a byte-swapped word is bit [swap_index i] of the word. *)
Definition swap_index (i : Z) : Z := 56 - 8 * (i / 8) + i mod 8.

Lemma swap64_bit x i :
  0 <= i < 64 -> Z.testbit (swap64 x) i = Z.testbit x (swap_index i).
Proof. intros Hi. unfold swap64. cbv zeta. enumerate_bits x i Hi. Qed.

Lemma SWAP64_bit x i :
  0 <= i < 64 -> Z.testbit (SWAP64 x) i = Z.testbit x (swap_index i).
Proof. intros Hi. unfold SWAP64. enumerate_bits x i Hi. Qed.

Lemma swap_index_invol i : 0 <= i < 64 -> swap_index (swap_index i) = i.
Proof. unfold swap_index. intros. dlia. Qed.

Lemma swap_index_range i : 0 <= i < 64 -> 0 <= swap_index i < 64.
Proof. unfold swap_index. intros. dlia. Qed.

Lemma swap64_word x : is_u64 x -> is_u64 (swap64 x).
Proof. intros. unfold swap64. cbv zeta. solve_word. Qed.

Lemma SWAP64_word x : is_u64 (SWAP64 x).
Proof. unfold SWAP64. solve_word. Qed.

Lemma be_val_le_bytes_bit x i :
  0 <= i < 64 -> Z.testbit (be_val (le_bytes 8 x)) i = Z.testbit x (swap_index i).
Proof.
  intros Hi. unfold be_val. rewrite le_val_testbit by (auto with bytes; lia).
  rewrite rev_nth by (rewrite length_le_bytes; dlia). rewrite length_le_bytes.
  rewrite le_bytes_testbit by dlia. unfold swap_index. f_equal. dlia.
Qed.

Lemma be_val_le_bytes_word x : is_u64 (be_val (le_bytes 8 x)).
Proof. apply (be_val_bound (le_bytes 8 x)). auto with bytes. Qed.

Lemma swap64_be_val x : is_u64 x -> swap64 x = be_val (le_bytes 8 x).
Proof.
  intros Hx. apply (bits_ext 64); auto using swap64_word, be_val_le_bytes_word; [lia|].
  intros i Hi. by rewrite swap64_bit, be_val_le_bytes_bit.
Qed.

Lemma SWAP64_swap64 x : is_u64 x -> SWAP64 x = swap64 x.
Proof.
  intros Hx. apply (bits_ext 64); auto using swap64_word, SWAP64_word; [lia|].
  intros i Hi. by rewrite swap64_bit, SWAP64_bit.
Qed.

(** The three ways the header reverses the bytes of a 64-bit word agree:
    the macro [SWAP64], the function [swap64] and reading the little-endian
    bytes of the word back as big-endian; and swapping twice is the identity. *)
Theorem swap64_correct x :
  is_u64 x ->
  SWAP64 x = swap64 x /\ swap64 x = be_val (le_bytes 8 x) /\ swap64 (swap64 x) = x.
Proof.
  intros Hx. repeat split; auto using SWAP64_swap64, swap64_be_val.
  apply (bits_ext 64); auto using swap64_word; [lia|]. intros i Hi.
  by rewrite !swap64_bit, swap_index_invol by auto using swap_index_range.
Qed.

Lemma swap64_correct_witness :
  is_u64 0x0102030405060708 /\
  (SWAP64 0x0102030405060708 = swap64 0x0102030405060708 /\
   swap64 0x0102030405060708 = be_val (le_bytes 8 0x0102030405060708) /\
   swap64 (swap64 0x0102030405060708) = 0x0102030405060708).
Proof.
  split; [unfold word; lia|]. apply (swap64_correct 0x0102030405060708). unfold word; lia.
Defined.

(** ** Rotation *)

Lemma rol64_word x r : is_u64 x -> is_u64 (rol64 x r).
Proof.
  intros Hx. unfold rol64. change 63 with (Z.ones 6). rewrite !Z.land_ones by lia.
  pose proof (Z.mod_pos_bound (- r) (2 ^ 6)). solve_word.
Qed.

(** [rol64] rotates: bit [i] of the result is bit [i - r] of the
    argument, indices taken modulo 64, for every rotation count. *)
Theorem rol64_bits x r i :
  is_u64 x -> 0 <= i < 64 ->
  is_u64 (rol64 x r) /\ Z.testbit (rol64 x r) i = Z.testbit x ((i - r) mod 64).
Proof.
  intros Hx Hi. split; [by apply rol64_word|]. unfold rol64. change 63 with (Z.ones 6). rewrite !Z.land_ones by lia.
  change (2 ^ 6) with 64.
  rewrite Z.lor_spec, wrap_testbit, shiftl_testbit, shiftr_testbit by lia.
  rewrite (proj2 (Z.ltb_lt i 64)), (proj2 (Z.leb_le 0 i)) by lia. cbn [andb].
  destruct (Z.ltb_spec i (r mod 64)).
  - rewrite Z.testbit_neg_r by lia. cbn [orb]. f_equal.
    rewrite <- Zminus_mod_idemp_r. dlia.
  - destruct (Z.eq_dec (r mod 64) 0) as [E|E].
    + rewrite E, Z.sub_0_r. replace ((- r) mod 64) with 0 by dlia.
      rewrite Z.add_0_r, orb_diag. f_equal. dlia.
    + rewrite (testbit_word_high 64 x (i + _)) by (done || dlia). rewrite orb_false_r.
      f_equal. dlia.
Qed.

Lemma rol64_bits_witness :
  is_u64 (rol64 0x8000000000000001 1) /\
  Z.testbit (rol64 0x8000000000000001 1) 0 = Z.testbit 0x8000000000000001 ((0 - 1) mod 64).
Proof. apply (rol64_bits 0x8000000000000001 1 0); unfold word; lia. Defined.

End IntUtil.
