(* ===== verification/Varint.v ===== *)
(** * Variable-length integers

    Model of [src/common/varint.h].  A stream of [char] is a list of bytes;
    the output iterator of [write_varint] is the list it appends to, and
    [read_varint] returns the [int] result of the C++ function, the value left
    in [write] and the position [first] has reached. *)
From S2P Require Import Prelude.

Module Varint.

Definition EVARINT_OVERFLOW : Z := -1.
Definition EVARINT_REPRESENT : Z := -2.

(** The loop of [write_varint]; [fuel] bounds its iterations. *)
Fixpoint write_varint_loop (fuel : nat) (i : Z) : list Z :=
  match fuel with
  | O => [u8 i]
  | S fuel =>
      if 0x80 <=? i
      then Z.lor (Z.land (u8 i) 0x7f) 0x80 :: write_varint_loop fuel (Z.shiftr i 7)
      else [u8 i]
  end.

(** Each iteration drops seven bits, so [log2 i] iterations are enough: see
    [write_varint_eq], where the bound has disappeared. *)
Definition write_varint (i : Z) : list Z :=
  write_varint_loop (S (Z.to_nat (Z.log2 i))) i.

Definition get_varint_data (v : Z) : list Z := write_varint v.

(** The loop of [read_varint<bits>]: the result of the function, the value of
    [write] and the unread input. *)
Fixpoint read_varint_loop (bits shift read write : Z) (input : list Z) : Z * Z * list Z :=
  match input with
  | [] => (read, write, [])
  | byte :: input' =>
      let read := read + 1 in
      if (bits <=? shift + 7) && (Z.shiftl 1 (bits - shift) <=? byte)
      then (EVARINT_OVERFLOW, write, input')
      else if (byte =? 0) && negb (shift =? 0)
      then (EVARINT_REPRESENT, write, input')
      else
        let write := Z.lor write (wrap bits (Z.shiftl (Z.land byte 0x7f) shift)) in
        if Z.land byte 0x80 =? 0
        then (read, write, input')
        else read_varint_loop bits (shift + 7) read write input'
  end.

Definition read_varint (bits : Z) (input : list Z) : Z * Z * list Z :=
  read_varint_loop bits 0 0 0 input.

(** * Properties *)

Lemma land_7f b : Z.land b 0x7f = b mod 128.
Proof. change 0x7f with (Z.ones 7). by apply Z.land_ones. Qed.

Lemma shiftr7 i : Z.shiftr i 7 = i / 128.
Proof. by apply Z.shiftr_div_pow2. Qed.

Lemma land_80 b : is_u8 b -> (Z.land b 0x80 =? 0) = (b <? 128).
Proof.
  intros Hb. apply eqb_prop. revert b Hb.
  apply (forall_u8 (fun b => eqb (Z.land b 0x80 =? 0) (b <? 128))). by vm_compute.
Qed.

Lemma lor_80 b : 0 <= b < 128 -> Z.lor b 0x80 = b + 128.
Proof. intros. change 0x80 with (1 * 2 ^ 7). by apply lor_low_high. Qed.

(** A continuation byte of [write_varint]. *)
Lemma write_byte i : Z.lor (Z.land (u8 i) 0x7f) 0x80 = i mod 128 + 128.
Proof.
  rewrite land_7f, lor_80 by (apply Z.mod_pos_bound; lia). f_equal. words. dlia.
Qed.

Lemma write_varint_loop_fuel n m i :
  0 <= i < 2 ^ Z.of_nat n -> 0 <= i < 2 ^ Z.of_nat m ->
  write_varint_loop n i = write_varint_loop m i.
Proof.
  revert m i. induction n as [|n IH]; intros m i Hn Hm.
  - replace i with 0 by lia. by destruct m.
  - destruct m as [|m]; [by replace i with 0 by lia|]. cbn [write_varint_loop].
    destruct (Z.leb_spec 0x80 i); [|done]. f_equal.
    rewrite Nat2Z.inj_succ, Z.pow_succ_r in Hn, Hm by lia.
    rewrite shiftr7. apply IH; split; dlia.
Qed.

Lemma write_varint_fuel n i :
  0 <= i < 2 ^ Z.of_nat n -> write_varint i = write_varint_loop n i.
Proof.
  intros Hi. apply write_varint_loop_fuel; [|done]. split; [lia|].
  destruct (Z.eq_dec i 0) as [->|]; [by vm_compute|].
  rewrite Nat2Z.inj_succ, Z2Nat.id by apply Z.log2_nonneg.
  by apply Z.log2_spec; lia.
Qed.

(** The loop runs to completion: the recursive equation of the source holds
    with no bound on the number of iterations. *)
Lemma write_varint_eq i :
  0 <= i ->
  write_varint i =
    if 0x80 <=? i then i mod 128 + 128 :: write_varint (i / 128) else [i].
Proof.
  intros Hi. assert (Hb : 0 <= i < 2 ^ Z.of_nat (S (Z.to_nat (Z.log2 i)))).
  { split; [done|]. destruct (Z.eq_dec i 0) as [->|]; [by vm_compute|].
    rewrite Nat2Z.inj_succ, Z2Nat.id by apply Z.log2_nonneg. apply Z.log2_spec. lia. }
  rewrite (write_varint_fuel _ i Hb). cbn [write_varint_loop].
  rewrite write_byte, shiftr7. destruct (Z.leb_spec 0x80 i).
  - f_equal. symmetry. apply write_varint_fuel.
    rewrite Nat2Z.inj_succ, Z.pow_succ_r in Hb by lia. split; dlia.
  - rewrite wrap_small by (words; lia). done.
Qed.

(** Induction along the iterations of [write_varint]. *)
Lemma varint_ind (P : Z -> Prop) :
  (forall i, 0 <= i < 128 -> P i) ->
  (forall i, 128 <= i -> P (i / 128) -> P i) ->
  forall i, 0 <= i -> P i.
Proof.
  intros Hbase Hstep. apply Zlt_0_ind. intros i IH Hi. destruct (Z.ltb_spec i 128); [auto with lia|].
  apply Hstep; [lia|]. apply IH; dlia.
Qed.

Lemma write_varint_bytes i : 0 <= i -> bytes (write_varint i).
Proof.
  revert i. apply varint_ind.
  - intros i Hi. rewrite write_varint_eq by lia.
    destruct (Z.leb_spec 0x80 i); [lia|]. repeat constructor; words; lia.
  - intros i Hi IH. rewrite write_varint_eq by lia.
    destruct (Z.leb_spec 0x80 i); [|lia]. constructor; [words; dlia|done].
Qed.

(** One iteration of [read_varint] that accepts [byte]: the next seven bits
    are added above the bits read so far. *)
Lemma read_accumulate bits shift w byte :
  0 <= shift -> 0 <= w < 2 ^ shift -> byte mod 128 * 2 ^ shift < 2 ^ bits ->
  Z.lor w (wrap bits (Z.shiftl (Z.land byte 0x7f) shift)) = w + byte mod 128 * 2 ^ shift.
Proof.
  intros Hs Hw Hb. rewrite land_7f, Z.shiftl_mul_pow2 by done.
  pose proof (Z.mod_pos_bound byte 128 ltac:(lia)).
  rewrite wrap_small by (unfold word; nia). apply lor_low_high; lia.
Qed.

(** The test [shift + 7 >= bits && byte >= 1 << (bits - shift)]. *)
Lemma overflow_test bits shift byte :
  shift <= bits ->
  (bits <=? shift + 7) && (Z.shiftl 1 (bits - shift) <=? byte) =
  bool_decide (bits - shift <= 7 /\ 2 ^ (bits - shift) <= byte).
Proof.
  intros. rewrite Z.shiftl_mul_pow2, Z.mul_1_l by lia. apply eq_true_iff_eq.
  rewrite andb_true_iff, bool_decide_eq_true, !Z.leb_le. lia.
Qed.

Lemma pow_split a b : 0 <= b <= a -> 2 ^ a = 2 ^ (a - b) * 2 ^ b.
Proof. intros. rewrite <- Z.pow_add_r by lia. f_equal. lia. Qed.

Lemma not_overflow_bound bits shift byte :
  0 <= shift <= bits -> is_u8 byte ->
  ~ (bits - shift <= 7 /\ 2 ^ (bits - shift) <= byte) ->
  byte mod 128 * 2 ^ shift < 2 ^ bits.
Proof.
  intros Hs Hb Hn. pose proof (Z.mod_pos_bound byte 128 ltac:(lia)).
  rewrite (pow_split bits shift) by lia.
  apply Z.mul_lt_mono_pos_r; [lia|].
  destruct (Z.le_gt_cases (bits - shift) 7) as [Hle|Hgt].
  - words. dlia.
  - pose proof (Z.pow_le_mono_r 2 7 (bits - shift) ltac:(lia) ltac:(lia)). lia.
Qed.

(** One iteration of the loop, in arithmetic form. *)
Lemma read_step bits shift read w byte input :
  0 <= shift <= bits -> is_u8 byte -> 0 <= w < 2 ^ shift ->
  read_varint_loop bits shift read w (byte :: input) =
  if bool_decide (bits - shift <= 7 /\ 2 ^ (bits - shift) <= byte)
  then (EVARINT_OVERFLOW, w, input)
  else if (byte =? 0) && negb (shift =? 0) then (EVARINT_REPRESENT, w, input)
  else if byte <? 128 then (read + 1, w + byte * 2 ^ shift, input)
  else read_varint_loop bits (shift + 7) (read + 1) (w + (byte - 128) * 2 ^ shift) input.
Proof.
  intros Hs Hb Hw. cbn [read_varint_loop]. rewrite overflow_test, land_80 by (done || lia).
  case_bool_decide as Hov; [done|].
  rewrite read_accumulate by (done || lia || by apply not_overflow_bound).
  destruct ((byte =? 0) && negb (shift =? 0)); [done|].
  destruct (Z.ltb_spec byte 128); repeat f_equal; words; dlia.
Qed.

(** The accumulator after a continuation byte. *)
Lemma read_acc_bound shift w byte :
  0 <= shift -> 0 <= w < 2 ^ shift -> 128 <= byte < 256 ->
  0 <= w + (byte - 128) * 2 ^ shift < 2 ^ (shift + 7).
Proof. intros. rewrite Z.pow_add_r by lia. change (2 ^ 7) with 128. nia. Qed.

Lemma wide_continues n i : 128 <= i -> i < 2 ^ n -> 7 < n.
Proof.
  intros Hi Hn. apply Z.nle_gt. intros Hle.
  pose proof (Z.pow_le_mono_r 2 n 7 ltac:(lia) Hle). lia.
Qed.

Lemma read_write_loop i :
  0 <= i -> forall bits shift read w rest,
  0 <= shift <= bits -> i < 2 ^ (bits - shift) -> (shift = 0 \/ 0 < i) ->
  0 <= w < 2 ^ shift ->
  read_varint_loop bits shift read w (write_varint i ++ rest) =
  (read + Z.of_nat (length (write_varint i)), w + i * 2 ^ shift, rest).
Proof.
  revert i. refine (varint_ind _ _ _).
  - intros i Hi bits shift read w rest Hs Hb Hz Hw. rewrite write_varint_eq by lia.
    destruct (Z.leb_spec 0x80 i); [lia|]. cbn [app length].
    rewrite read_step, bool_decide_eq_false_2 by (done || words; lia).
    replace ((i =? 0) && negb (shift =? 0)) with false by (destruct Hz; lia).
    by rewrite (proj2 (Z.ltb_lt i 128)) by lia.
  - intros i Hi IH bits shift read w rest Hs Hb Hz Hw. rewrite write_varint_eq by lia.
    destruct (Z.leb_spec 0x80 i); [|lia]. cbn [app length].
    pose proof (wide_continues _ _ Hi Hb). pose proof (Z.mod_pos_bound i 128 ltac:(lia)).
    rewrite read_step, bool_decide_eq_false_2 by (done || words; lia).
    replace (i mod 128 + 128 =? 0) with false by lia. cbn [andb].
    replace (i mod 128 + 128 <? 128) with false by lia.
    rewrite IH.
    + f_equal. f_equal; [lia|]. rewrite Z.pow_add_r by lia. change (2 ^ 7) with 128.
      rewrite (Z.div_mod i 128) at 3 by lia. lia.
    + lia.
    + replace (bits - (shift + 7)) with (bits - shift - 7) by lia.
      rewrite (pow_split (bits - shift) 7) in Hb by lia. dlia.
    + right. dlia.
    + apply read_acc_bound; lia.
Qed.

Lemma read_write_spec bits i rest :
  0 <= i < 2 ^ bits -> 0 <= bits ->
  read_varint bits (write_varint i ++ rest) =
  (Z.of_nat (length (write_varint i)), i, rest).
Proof.
  intros Hi Hb. unfold read_varint.
  rewrite read_write_loop by (rewrite ?Z.sub_0_r; lia). repeat f_equal; lia.
Qed.

(** Round trip: reading the encoding of a [bits]-wide value, whatever
    bytes follow it, returns the number of bytes written, the value and
    exactly the bytes that follow. *)
Theorem read_write_varint bits i rest :
  0 <= i < 2 ^ bits -> 0 <= bits ->
  read_varint bits (write_varint i ++ rest) =
  (Z.of_nat (length (write_varint i)), i, rest).
Proof. apply read_write_spec. Qed.

Lemma read_write_varint_witness :
  0 <= 300 < 2 ^ 64 /\
  read_varint 64 (write_varint 300 ++ [7]) = (Z.of_nat (length (write_varint 300)), 300, [7]).
Proof. split; [lia|]. apply (read_write_varint 64 300 [7]); lia. Defined.

(** What a successful run of the loop has consumed: the encoding of the value
    above the accumulator (non-zero after the first byte), or, when the input
    ends in the middle of a varint, continuation bytes only. *)
Definition consumed (shift : Z) (p rest : list Z) (i : Z) : Prop :=
  (p = write_varint i /\ (shift <> 0 -> 0 < i)) \/
  (rest = [] /\ Forall (fun b => 128 <= b) p).

Lemma read_loop_consumes input :
  bytes input -> forall bits shift read w n v rest,
  0 <= shift <= bits -> 0 <= w < 2 ^ shift -> 0 <= read -> 0 <= n ->
  read_varint_loop bits shift read w input = (n, v, rest) ->
  exists p i, input = p ++ rest /\ n = read + Z.of_nat (length p) /\
    v = w + i * 2 ^ shift /\ 0 <= i < 2 ^ (bits - shift) /\ consumed shift p rest i.
Proof.
  unfold consumed.
  induction 1 as [|byte input Hb Hin IH]; intros bits shift read w n v rest Hs Hw Hr Hn E.
  - injection E as <- <- <-. exists [], 0. cbn. repeat split; try lia. right. by split.
  - rewrite read_step in E by done.
    case_bool_decide as Hov; [injection E as <- <- <-; done|].
    destruct ((byte =? 0) && negb (shift =? 0)) eqn:Ez; [injection E as <- <- <-; done|].
    destruct (Z.ltb_spec byte 128) as [Hlt|Hge].
    + injection E as <- <- <-. exists [byte], byte. cbn [length app]. repeat split; try (words; lia).
      * pose proof (not_overflow_bound bits shift byte Hs Hb Hov) as Hx.
        rewrite (pow_split bits shift) in Hx by lia.
        apply Z.mul_lt_mono_pos_r in Hx; [|lia]. words. by rewrite Z.mod_small in Hx by lia.
      * left. rewrite write_varint_eq by (words; lia).
        destruct (Z.leb_spec 0x80 byte); [lia|]. split; [done|]. words. lia.
    + assert (7 < bits - shift).
      { apply Z.nle_gt. intros Hle. apply Hov. split; [done|].
        pose proof (Z.pow_le_mono_r 2 (bits - shift) 7 ltac:(lia) Hle). lia. }
      apply IH in E as (p & i & -> & -> & -> & Hi & Hc); try lia;
        [|apply read_acc_bound; words; lia].
      replace (bits - (shift + 7)) with (bits - shift - 7) in Hi by lia.
      exists (byte :: p), (byte - 128 + i * 128). cbn [length app]. repeat split; try (words; lia).
      * rewrite Z.pow_add_r by lia. change (2 ^ 7) with 128. lia.
      * rewrite (pow_split (bits - shift) 7) by lia. words. lia.
      * destruct Hc as [[-> Hc]|[-> Hc]]; [left|right; by repeat constructor].
        specialize (Hc ltac:(lia)). split; [|words; lia].
        rewrite (write_varint_eq (_ + _)) by (words; lia).
        replace ((byte - 128 + i * 128) / 128) with i by (words; dlia).
        replace ((byte - 128 + i * 128) mod 128) with (byte - 128) by (words; dlia).
        destruct (Z.leb_spec 0x80 (byte - 128 + i * 128)); [f_equal; lia|words; lia].
Qed.

Lemma read_varint_consumed bits input n v rest :
  bytes input -> 0 <= bits -> 0 <= n -> read_varint bits input = (n, v, rest) ->
  exists p, input = p ++ rest /\ n = Z.of_nat (length p) /\ 0 <= v < 2 ^ bits /\
    (p = write_varint v \/ (rest = [] /\ Forall (fun b => 128 <= b) p)).
Proof.
  intros Hin Hb Hn E.
  apply read_loop_consumes in E as (p & i & -> & -> & -> & Hi & Hc); try done; try lia.
  rewrite Z.sub_0_r in Hi. exists p. rewrite Z.add_0_l, Z.mul_1_r in *.
  repeat split; try lia. destruct Hc as [[-> _]|Hc]; auto.
Qed.

(** Canonicity: whenever [read_varint] reports success, the bytes it
    consumed are the encoding [write_varint] produces for the value returned,
    so no value has two accepted encodings; the only other success is an input
    that ends inside a varint, which is consumed whole. *)
Theorem read_varint_canonical bits input n v rest :
  bytes input -> 0 <= bits -> 0 <= n -> read_varint bits input = (n, v, rest) ->
  exists p, input = p ++ rest /\ n = Z.of_nat (length p) /\ 0 <= v < 2 ^ bits /\
    (p = write_varint v \/ (rest = [] /\ Forall (fun b => 128 <= b) p)).
Proof. apply read_varint_consumed. Qed.

Lemma read_varint_canonical_witness :
  read_varint 64 [0xac; 0x02; 9] = (2, 300, [9]) /\
  exists p, [0xac; 0x02; 9] = p ++ [9] /\ 2 = Z.of_nat (length p) /\ 0 <= 300 < 2 ^ 64 /\
    (p = write_varint 300 \/ ([9] = [] /\ Forall (fun b => 128 <= b) p)).
Proof.
  split; [reflexivity|].
  apply (read_varint_canonical 64 [0xac; 0x02; 9] 2 300 [9]); try lia; try reflexivity.
  repeat constructor; unfold word; lia.
Defined.

Lemma read_overflow_loop i :
  0 <= i -> forall bits shift read w rest,
  0 <= shift < bits -> 2 ^ (bits - shift) <= i -> 0 <= w < 2 ^ shift ->
  (read_varint_loop bits shift read w (write_varint i ++ rest)).1.1 = EVARINT_OVERFLOW.
Proof.
  revert i. refine (varint_ind _ _ _).
  - intros i Hi bits shift read w rest Hs Hb Hw. rewrite write_varint_eq by lia.
    destruct (Z.leb_spec 0x80 i); [lia|]. cbn [app].
    rewrite read_step, bool_decide_eq_true_2; try (done || words; lia).
    split; [|done]. apply Z.nlt_ge. intros Hlt.
    pose proof (Z.pow_le_mono_r 2 7 (bits - shift) ltac:(lia) ltac:(lia)). lia.
  - intros i Hi IH bits shift read w rest Hs Hb Hw. rewrite write_varint_eq by lia.
    destruct (Z.leb_spec 0x80 i); [|lia]. cbn [app].
    pose proof (Z.mod_pos_bound i 128 ltac:(lia)).
    rewrite read_step by (done || words; lia). case_bool_decide as Hov; [done|].
    assert (7 < bits - shift).
    { apply Z.nle_gt. intros Hle. apply Hov. split; [done|].
      pose proof (Z.pow_le_mono_r 2 (bits - shift) 7 ltac:(lia) Hle). lia. }
    replace (i mod 128 + 128 =? 0) with false by lia. cbn [andb].
    replace (i mod 128 + 128 <? 128) with false by lia.
    apply IH; [lia| |apply read_acc_bound; lia].
    replace (bits - (shift + 7)) with (bits - shift - 7) by lia.
    rewrite (pow_split (bits - shift) 7) in Hb by lia. dlia.
Qed.

(** Overflow: the encoding of a value that does not fit the requested
    width is rejected with [EVARINT_OVERFLOW], whatever follows it. *)
Theorem read_varint_overflow bits i rest :
  0 < bits -> 2 ^ bits <= i ->
  (read_varint bits (write_varint i ++ rest)).1.1 = EVARINT_OVERFLOW.
Proof.
  intros Hb Hi. apply read_overflow_loop; rewrite ?Z.sub_0_r; try lia.
Qed.

Lemma read_varint_overflow_witness :
  (read_varint 32 (write_varint (2 ^ 32) ++ [1])).1.1 = EVARINT_OVERFLOW.
Proof. apply (read_varint_overflow 32 (2 ^ 32) [1]); lia. Defined.

End Varint.
