(* ===== verification/Keccak.v ===== *)
(** * Keccak

    Model of [src/crypto/keccak.c] and [src/crypto/hash.c]: the permutation
    [keccakf], the sponge [keccak] and [cn_fast_hash], the hash that every
    identifier of the program is computed with.

    The arrays [st] and [bc] are lists of words that the loops update in
    place; [keccak] returns [None] when the code would write outside its
    [temp] buffer. *)
From S2P Require Import Prelude IntUtil.
Import IntUtil.

Create HintDb keccak discriminated.

Module Keccak.

Definition KECCAK_ROUNDS : nat := 24.
Definition HASH_SIZE : nat := 32.
Definition HASH_DATA_AREA : Z := 136.

Definition keccakf_rndc : list Z :=
  [ 0x0000000000000001; 0x0000000000008082; 0x800000000000808a;
    0x8000000080008000; 0x000000000000808b; 0x0000000080000001;
    0x8000000080008081; 0x8000000000008009; 0x000000000000008a;
    0x0000000000000088; 0x0000000080008009; 0x000000008000000a;
    0x000000008000808b; 0x800000000000008b; 0x8000000000008089;
    0x8000000000008003; 0x8000000000008002; 0x8000000000000080;
    0x000000000000800a; 0x800000008000000a; 0x8000000080008081;
    0x8000000000008080; 0x0000000080000001; 0x8000000080008008 ].

Definition keccakf_rotc : list Z :=
  [ 1;  3;  6;  10; 15; 21; 28; 36; 45; 55; 2;  14;
    27; 41; 56; 8;  25; 43; 62; 18; 39; 61; 20; 44 ].

Definition keccakf_piln : list nat :=
  [ 10; 7;  11; 17; 18; 3; 5;  16; 8;  21; 24; 4;
    15; 23; 19; 13; 12; 2; 20; 14; 22; 9;  6;  1 ]%nat.

Definition ROTL64 (x y : Z) : Z := Z.lor (x <<w y) (x >>w (64 - y)).

(** [a[i]] and [a[i] ^= v] on an array of words. *)
Definition at_ (a : list Z) (i : nat) : Z := List.nth i a 0.
Definition xor_at (a : list Z) (i : nat) (v : Z) : list Z :=
  <[i := Z.lxor (at_ a i) v]> a.

(** The five values [0, 5, 10, 15, 20] of the loops over rows. *)
Definition rows : list nat := [0; 5; 10; 15; 20]%nat.
Definition cols : list nat := [0; 1; 2; 3; 4]%nat.

Definition theta (st : list Z) : list Z :=
  let bc := map (fun i => Z.lxor (Z.lxor (Z.lxor (Z.lxor (at_ st i) (at_ st (i + 5)))
                 (at_ st (i + 10))) (at_ st (i + 15))) (at_ st (i + 20))) cols in
  fold_left (fun st i =>
    let t := Z.lxor (at_ bc ((i + 4) mod 5)) (ROTL64 (at_ bc ((i + 1) mod 5)) 1) in
    fold_left (fun st j => xor_at st (j + i) t) rows st) cols st.

Definition rho_pi (st : list Z) : list Z :=
  fst (fold_left (fun '(st, t) i =>
    let j := List.nth i keccakf_piln 0%nat in
    (<[j := ROTL64 t (List.nth i keccakf_rotc 0)]> st, at_ st j))
    (seq 0 24) (st, at_ st 1)).

Definition chi (st : list Z) : list Z :=
  fold_left (fun st j =>
    let bc := map (fun i => at_ st (j + i)) cols in
    fold_left (fun st i =>
      xor_at st (j + i) (Z.land (u64 (Z.lnot (at_ bc ((i + 1) mod 5)))) (at_ bc ((i + 2) mod 5))))
      cols st) rows st.

Definition iota (st : list Z) (round : nat) : list Z :=
  xor_at st 0 (List.nth round keccakf_rndc 0).

Definition keccakf (st : list Z) (rounds : nat) : list Z :=
  fold_left (fun st round => iota (chi (rho_pi (theta st))) round) (seq 0 rounds) st.

(** Reading a buffer of bytes as an array of [n] little-endian words, and a
    state of words as bytes. *)
Fixpoint words_of (n : nat) (buf : list Z) : list Z :=
  match n with
  | O => []
  | S n => le_val (take 8 buf) :: words_of n (drop 8 buf)
  end.
Definition bytes_of (st : list Z) : list Z := concat (map (le_bytes 8) st).

(** [for (i = 0; i < rsizw; i++) st[i] ^= ((uint64_t * ) in)[i]], with
    [rsizw] the length of [ws]. *)
Definition absorb_block (st ws : list Z) : list Z :=
  fold_left (fun st i => xor_at st i (at_ ws i)) (seq 0 (length ws)) st.

(** The loop over the full input blocks: the state and the unread input. *)
Fixpoint absorb_loop (fuel : nat) (rsiz : nat) (st input : list Z) : list Z * list Z :=
  match fuel with
  | O => (st, input)
  | S fuel =>
      if (rsiz <=? length input)%nat
      then absorb_loop fuel rsiz
             (keccakf (absorb_block st (words_of (rsiz / 8) input)) KECCAK_ROUNDS)
             (drop rsiz input)
      else (st, input)
  end.

(** The size of the [temp] buffer. *)
Definition temp_size : Z := 144.

(** The last block: [in], a 1, zeros up to [rsiz], the top bit of the last
    byte set. *)
Definition last_block (rsiz : nat) (input : list Z) : list Z :=
  let temp := input ++ [1] ++ repeat 0 (rsiz - (length input + 1)) in
  <[(rsiz - 1)%nat := Z.lor (at_ temp (rsiz - 1)) 0x80]> temp.

Definition keccak (input : list Z) (mdlen : Z) : option (list Z) :=
  let rsiz := if 200 =? mdlen then HASH_DATA_AREA else 200 - 2 * mdlen in
  let rsizw := rsiz / 8 in
  if (rsiz <? 1) || (temp_size <? rsiz) then None else
  let rsiz := Z.to_nat rsiz in
  let st := repeat 0 25 in
  let (st, input) := absorb_loop (S (length input)) rsiz st input in
  let st := absorb_block st (words_of (Z.to_nat rsizw) (last_block rsiz input)) in
  let st := keccakf st KECCAK_ROUNDS in
  Some (take (Z.to_nat mdlen) (bytes_of st)).

Definition keccak1600 (input : list Z) : option (list Z) := keccak input 200.

Definition hash_permutation (state : list Z) : list Z := keccakf state 24.
Definition hash_process (buf : list Z) : option (list Z) := keccak1600 buf.
Definition cn_fast_hash (data : list Z) : option (list Z) :=
  state ← hash_process data; Some (take HASH_SIZE state).

Example cn_fast_hash_empty :
  cn_fast_hash [] = Some
    [0xc5; 0xd2; 0x46; 0x01; 0x86; 0xf7; 0x23; 0x3c; 0x92; 0x7e; 0x7d; 0xb2; 0xdc; 0xc7;
     0x03; 0xc0; 0xe5; 0x00; 0xb6; 0x53; 0xca; 0x82; 0x27; 0x3b; 0x7b; 0xfa; 0xd8; 0x04;
     0x5d; 0x85; 0xa4; 0x70].
Proof. vm_compute. reflexivity. Qed.

(** * The permutation against its specification

    [Spec] is the Keccak permutation as the standard defines it: lanes indexed
    by coordinates modulo 5, rotation offsets from the walk
    [(x, y) -> (y, 2x + 3y)], round constants from the degree-8 shift register.
    None of the tables of the implementation appears in it. *)
Module Spec.

Definition lane (A : list Z) (x y : nat) : Z := List.nth (x mod 5 + 5 * (y mod 5)) A 0.
Definition tab (f : nat -> nat -> Z) : list Z :=
  map (fun k => f (k mod 5) (k / 5))%nat (seq 0 25).

Definition theta_map (A : list Z) : list Z :=
  let C x := Z.lxor (Z.lxor (Z.lxor (Z.lxor (lane A x 0) (lane A x 1)) (lane A x 2))
               (lane A x 3)) (lane A x 4) in
  let D x := Z.lxor (C (x + 4)%nat) (rol64 (C (x + 1)%nat) 1) in
  tab (fun x y => Z.lxor (lane A x y) (D x)).

(** The offset of the lane met at step [t] of the walk is [(t+1)(t+2)/2]. *)
Fixpoint walk_offset (n t x y x0 y0 : nat) : Z :=
  match n with
  | O => 0
  | S n =>
      if (x =? x0)%nat && (y =? y0)%nat then Z.of_nat ((t + 1) * (t + 2) / 2) mod 64
      else walk_offset n (t + 1) y ((2 * x + 3 * y) mod 5) x0 y0
  end.
Definition offset (x y : nat) : Z := walk_offset 24 0 1 0 x y.

Definition rho (A : list Z) : list Z := tab (fun x y => rol64 (lane A x y) (offset x y)).

(** [B[y, 2x + 3y] = A[x, y]], that is [B[x, y] = A[x + 3y, x]]. *)
Definition pi (A : list Z) : list Z := tab (fun x y => lane A (x + 3 * y) x).

Definition chi_map (A : list Z) : list Z :=
  tab (fun x y => Z.lxor (lane A x y)
    (Z.land (u64 (Z.lnot (lane A (x + 1) y))) (lane A (x + 2) y))).

(** The register [x^t mod x^8 + x^6 + x^5 + x^4 + 1]. *)
Fixpoint lfsr (t : nat) : Z :=
  match t with
  | O => 1
  | S t => let r := 2 * lfsr t in if 256 <=? r then Z.lxor r 0x171 else r
  end.
Definition round_constant (r : nat) : Z :=
  fold_left (fun acc j =>
    Z.lor acc (Z.shiftl (Z.land (lfsr (j + 7 * r)) 1) (2 ^ Z.of_nat j - 1))) (seq 0 7) 0.

Definition iota_map (A : list Z) (r : nat) : list Z :=
  tab (fun x y => if (x =? 0)%nat && (y =? 0)%nat
                  then Z.lxor (lane A x y) (round_constant r) else lane A x y).

Definition round (A : list Z) (r : nat) : list Z := iota_map (chi_map (pi (rho (theta_map A)))) r.
Definition keccak_f (A : list Z) : list Z := fold_left round (seq 0 24) A.

End Spec.

(** The sponge of the specification: the padded message is cut into blocks of
    [rate] bytes, each absorbed into the first lanes of the state. *)
Module Sponge.

(** Padding [10*1], in the byte order of the original Keccak. *)
Definition pad (rate : nat) (msg : list Z) : list Z :=
  let p := (rate - length msg mod rate)%nat in
  msg ++ (if (p =? 1)%nat then [0x81] else [1] ++ repeat 0 (p - 2) ++ [0x80]).

Fixpoint blocks (n rate : nat) (l : list Z) : list (list Z) :=
  match n with
  | O => []
  | S n => take rate l :: blocks n rate (drop rate l)
  end.

Definition absorb (rate : nat) (A block : list Z) : list Z :=
  let ws := words_of (rate / 8) block in
  Spec.keccak_f (zip_with Z.lxor A (ws ++ repeat 0 (25 - length ws))).

Definition sponge (rate : nat) (msg : list Z) : list Z :=
  fold_left (absorb rate) (blocks (length msg / rate + 1) rate (pad rate msg)) (repeat 0 25).

End Sponge.

(** A Keccak state: 25 words. *)
Definition state_ok (st : list Z) : Prop := length st = 25%nat /\ Forall is_u64 st.

Ltac destruct25 st H :=
  do 25 (destruct st as [|? st]; [discriminate H|]); destruct st; [|discriminate H].

Lemma ROTL64_rol64 x y : 0 < y < 64 -> ROTL64 x y = rol64 x y.
Proof.
  intros Hy. unfold ROTL64, rol64. change 63 with (Z.ones 6). rewrite !Z.land_ones by lia.
  change (2 ^ 6) with 64. rewrite Z.mod_small by lia.
  replace ((- y) mod 64) with (64 - y) by dlia. done.
Qed.

Lemma rol64_0 x : is_u64 x -> rol64 x 0 = x.
Proof.
  intros Hx. unfold rol64. change (Z.land 0 63) with 0. change (Z.land (- 0) 63) with 0.
  rewrite Z.shiftl_0_r, Z.shiftr_0_r, wrap_small, Z.lor_diag by done. done.
Qed.

(** Both sides of a step are compared lane by lane, the word operations left
    opaque. *)
Ltac lanes st H :=
  destruct25 st H; cbv -[Z.lxor Z.land Z.lnot wrap rol64 ROTL64];
  rewrite ?ROTL64_rol64 by lia.

Lemma theta_spec st : length st = 25%nat -> theta st = Spec.theta_map st.
Proof. intros H. lanes st H. reflexivity. Qed.

Lemma rho_pi_spec st : state_ok st -> rho_pi st = Spec.pi (Spec.rho st).
Proof.
  intros [H Hw]. assert (E : rol64 (at_ st 0) 0 = at_ st 0).
  { apply rol64_0. destruct st; [done|]. by inversion Hw. }
  clear Hw. revert E. lanes st H. intros ->. reflexivity.
Qed.

Lemma chi_spec st : length st = 25%nat -> chi st = Spec.chi_map st.
Proof. intros H. lanes st H. reflexivity. Qed.

Lemma rndc_spec r : (r < 24)%nat -> List.nth r keccakf_rndc 0 = Spec.round_constant r.
Proof.
  intros Hr. do 24 (destruct r as [|r]; [vm_compute; reflexivity|]). lia.
Qed.

Lemma iota_spec st r : length st = 25%nat -> (r < 24)%nat -> iota st r = Spec.iota_map st r.
Proof.
  intros H Hr. unfold iota, Spec.iota_map. rewrite rndc_spec by done.
  generalize (Spec.round_constant r). intros c. lanes st H. reflexivity.
Qed.

Lemma nth_word (l : list Z) i : Forall is_u64 l -> is_u64 (List.nth i l 0).
Proof.
  intros Hl. destruct (nth_in_or_default i l 0) as [Hin| ->]; [|unfold word; lia].
  apply list_elem_of_In in Hin. by apply (Forall_forall is_u64 l).
Qed.

Lemma lane_word A x y : Forall is_u64 A -> is_u64 (Spec.lane A x y).
Proof. apply nth_word. Qed.

Lemma tab_ok f : (forall x y, is_u64 (f x y)) -> state_ok (Spec.tab f).
Proof. intros Hf. split; [done|]. apply Forall_fmap, Forall_true. intros k. apply Hf. Qed.

Lemma round_constant_word r : (r < 24)%nat -> is_u64 (Spec.round_constant r).
Proof.
  intros Hr. rewrite <- rndc_spec by done. apply nth_word.
  repeat constructor; unfold word; lia.
Qed.

#[local] Hint Resolve lane_word rol64_word : cword.

Lemma spec_theta_ok A : state_ok A -> state_ok (Spec.theta_map A).
Proof.
  intros [_ H]. apply tab_ok. intros x y.
  repeat first [ apply lxor_word | apply rol64_word | by apply lane_word | lia ].
Qed.

Lemma spec_rho_ok A : state_ok A -> state_ok (Spec.rho A).
Proof. intros [_ H]. apply tab_ok. auto with cword. Qed.

Lemma spec_pi_ok A : state_ok A -> state_ok (Spec.pi A).
Proof. intros [_ H]. apply tab_ok. auto with cword. Qed.

Lemma spec_chi_ok A : state_ok A -> state_ok (Spec.chi_map A).
Proof.
  intros [_ H]. apply tab_ok. intros x y. apply lxor_word; [auto with cword| |lia].
  apply land_word; [auto with cword|lia].
Qed.

Lemma spec_iota_ok A r : state_ok A -> (r < 24)%nat -> state_ok (Spec.iota_map A r).
Proof.
  intros [_ H] Hr. apply tab_ok. intros x y. case_match; [|auto with cword].
  apply lxor_word; auto using round_constant_word with cword lia.
Qed.

#[local] Hint Resolve spec_theta_ok spec_rho_ok spec_pi_ok spec_chi_ok spec_iota_ok : keccak.

Lemma spec_round_ok A r : state_ok A -> (r < 24)%nat -> state_ok (Spec.round A r).
Proof. unfold Spec.round. auto 10 with keccak. Qed.

Lemma round_spec st r :
  state_ok st -> (r < 24)%nat -> iota (chi (rho_pi (theta st))) r = Spec.round st r.
Proof.
  intros H Hr. assert (Ht : state_ok (Spec.theta_map st)) by auto with keccak.
  assert (Hp : state_ok (Spec.pi (Spec.rho (Spec.theta_map st)))) by auto with keccak.
  rewrite theta_spec, rho_pi_spec, chi_spec by (apply H || apply Hp || done).
  apply iota_spec; [|done]. apply spec_chi_ok, Hp.
Qed.

Lemma keccakf_rounds st n :
  state_ok st -> (n <= 24)%nat ->
  keccakf st n = fold_left Spec.round (seq 0 n) st /\ state_ok (keccakf st n).
Proof.
  intros H. unfold keccakf. induction n as [|n IH]; intros Hn; [done|].
  destruct IH as [E Hok]; [lia|]. rewrite seq_S, !fold_left_app. cbn [fold_left Nat.add].
  rewrite round_spec by (done || lia). split; [by rewrite <- E|].
  apply spec_round_ok; [done|lia].
Qed.

Lemma keccakf_24 st :
  state_ok st ->
  keccakf st KECCAK_ROUNDS = Spec.keccak_f st /\ state_ok (keccakf st KECCAK_ROUNDS).
Proof. intros H. by apply keccakf_rounds. Qed.

(** [C31] The in-place, table-driven [keccakf] computes the Keccak-f[1600]
    permutation of the specification, and maps states of 25 words to states
    of 25 words. *)
Theorem keccakf_correct st :
  state_ok st ->
  keccakf st KECCAK_ROUNDS = Spec.keccak_f st /\ state_ok (keccakf st KECCAK_ROUNDS).
Proof. apply keccakf_24. Qed.

Lemma keccakf_correct_witness :
  state_ok (repeat 0 25) /\
  (keccakf (repeat 0 25) KECCAK_ROUNDS = Spec.keccak_f (repeat 0 25) /\
   state_ok (keccakf (repeat 0 25) KECCAK_ROUNDS)).
Proof.
  assert (H : state_ok (repeat 0 25)) by (split; [done|]; repeat constructor; unfold word; lia).
  split; [exact H|]. apply (keccakf_correct (repeat 0 25) H).
Defined.

(** ** The sponge *)

#[local] Opaque keccakf Spec.keccak_f.

Lemma zip_xor_zero (st : list Z) : zip_with Z.lxor st ([] ++ repeat 0 (length st)) = st.
Proof. cbn [app]. induction st as [|x st IH]; [done|]. cbn. by rewrite Z.lxor_0_r, IH. Qed.

Lemma fold_xor_at ws : forall (st0 pre st : list Z),
  length pre = length st0 -> (length ws <= length st)%nat ->
  fold_left (fun s i => xor_at s i (at_ (st0 ++ ws) i)) (seq (length st0) (length ws)) (pre ++ st)
  = pre ++ zip_with Z.lxor st (ws ++ repeat 0 (length st - length ws)).
Proof.
  induction ws as [|w ws IH]; intros st0 pre st Hp Hl; cbn [length seq fold_left].
  - by rewrite Nat.sub_0_r, zip_xor_zero.
  - destruct st as [|x st]; [cbn in Hl; lia|].
    replace (xor_at (pre ++ x :: st) (length st0) (at_ (st0 ++ w :: ws) (length st0)))
      with ((pre ++ [Z.lxor x w]) ++ st).
    + rewrite (cons_middle w st0 ws), (app_assoc st0 [w] ws).
      replace (S (length st0)) with (length (st0 ++ [w])) by (rewrite length_app; cbn; lia).
      rewrite IH by (rewrite ?length_app; cbn in *; lia).
      rewrite <- app_assoc. cbn. done.
    + unfold xor_at, at_. rewrite <- Hp at 1. rewrite insert_app_r_alt by lia.
      rewrite Hp, Nat.sub_diag. cbn. rewrite <- app_assoc. cbn. f_equal. f_equal.
      rewrite <- Hp at 1. by rewrite !nth_middle.
Qed.

Lemma absorb_block_zip st ws :
  length st = 25%nat -> (length ws <= 25)%nat ->
  absorb_block st ws = zip_with Z.lxor st (ws ++ repeat 0 (25 - length ws)).
Proof.
  intros Hst Hw. unfold absorb_block. rewrite <- Hst.
  apply (fold_xor_at ws [] [] st); [done|lia].
Qed.

Lemma length_words_of n buf : length (words_of n buf) = n.
Proof. revert buf. induction n as [|n IH]; intros buf; cbn; auto. Qed.

Lemma words_of_words n buf : bytes buf -> Forall is_u64 (words_of n buf).
Proof.
  revert buf. induction n as [|n IH]; intros buf Hb; cbn; constructor.
  - pose proof (le_val_bound (take 8 buf) ltac:(by apply Forall_take)) as [H1 H2].
    split; [done|]. eapply Z.lt_le_trans; [exact H2|].
    change (2 ^ 64) with (256 ^ 8). apply Z.pow_le_mono_r; [lia|].
    rewrite length_take. lia.
  - apply IH. by apply Forall_drop.
Qed.

Lemma absorb_block_ok st ws :
  state_ok st -> (length ws <= 25)%nat -> Forall is_u64 ws -> state_ok (absorb_block st ws).
Proof.
  intros [Hl Hst] Hw Hws. rewrite absorb_block_zip by done. split.
  - rewrite length_zip_with, length_app, repeat_length. lia.
  - assert (Hz : Forall is_u64 (ws ++ repeat 0 (25 - length ws))).
    { apply Forall_app. split; [done|]. apply Forall_forall. intros x Hx.
      apply list_elem_of_In, repeat_spec in Hx as ->. unfold word; lia. }
    rewrite Forall_lookup in Hst, Hz |- *. intros i z (x & y & -> & Hx & Hy)%lookup_zip_with_Some.
    apply lxor_word; eauto with lia.
Qed.

Lemma absorb_step rate st buf :
  state_ok st -> bytes buf -> (rate <= 200)%nat ->
  keccakf (absorb_block st (words_of (rate / 8) buf)) KECCAK_ROUNDS = Sponge.absorb rate st buf
  /\ state_ok (Sponge.absorb rate st buf).
Proof.
  intros Hst Hb Hr.
  assert (Hlen : (length (words_of (rate / 8) buf) <= 25)%nat).
  { rewrite length_words_of. apply Nat.Div0.div_le_upper_bound. lia. }
  pose proof (keccakf_24 (absorb_block st (words_of (rate / 8) buf))
    (absorb_block_ok _ _ Hst Hlen (words_of_words _ _ Hb))) as [E Hok].
  rewrite absorb_block_zip in E, Hok by (apply Hst || done).
  unfold Sponge.absorb. rewrite <- E, absorb_block_zip by (apply Hst || done).
  exact (conj eq_refl Hok).
Qed.

Lemma pad_block rate msg :
  (0 < rate <= length msg)%nat ->
  Sponge.pad rate msg = take rate msg ++ Sponge.pad rate (drop rate msg).
Proof.
  intros H. unfold Sponge.pad. cbv zeta. rewrite length_drop, (app_assoc (take rate msg)), take_drop.
  replace (length msg mod rate)%nat with ((length msg - rate) mod rate)%nat; [done|].
  replace (length msg) with (length msg - rate + 1 * rate)%nat at 2 by lia.
  by rewrite Nat.Div0.mod_add.
Qed.

Lemma pad_last rate msg :
  (length msg < rate)%nat -> Sponge.pad rate msg = last_block rate msg.
Proof.
  intros H. unfold Sponge.pad, last_block. rewrite Nat.mod_small by done.
  destruct (Nat.eqb_spec (rate - length msg) 1) as [E|E].
  - replace (rate - (length msg + 1))%nat with 0%nat by lia. cbn [repeat app].
    replace (rate - 1)%nat with (length msg) by lia.
    unfold at_. rewrite nth_middle, insert_app_r_alt, Nat.sub_diag by lia. done.
  - replace (rate - (length msg + 1))%nat with (S (rate - length msg - 2)) by lia.
    set (p := (rate - length msg - 2)%nat).
    replace (S p) with (p + 1)%nat by lia. rewrite repeat_app. cbn [repeat].
    replace (rate - 1)%nat with (length (msg ++ [1] ++ repeat 0 p))
      by (rewrite !length_app, repeat_length; cbn; lia).
    rewrite !app_assoc. unfold at_. rewrite nth_middle, insert_app_r_alt, Nat.sub_diag by lia.
    done.
Qed.

Lemma words_of_take n m l : (8 * n <= m)%nat -> words_of n (take m l) = words_of n l.
Proof.
  revert m l. induction n as [|n IH]; intros m l Hm; [done|]. cbn [words_of]. f_equal.
  - f_equal. rewrite take_take. f_equal. lia.
  - replace m with (8 + (m - 8))%nat by lia.
    rewrite <- take_drop_commute. apply IH. lia.
Qed.

Lemma last_block_bytes rate msg : bytes msg -> bytes (last_block rate msg).
Proof.
  intros Hm. unfold last_block. cbv zeta.
  assert (H : bytes (msg ++ [1] ++ repeat 0 (rate - (length msg + 1)))).
  { repeat apply Forall_app_2; [done| |].
    - repeat constructor; unfold word; lia.
    - apply Forall_forall. intros x Hx.
      apply list_elem_of_In, repeat_spec in Hx as ->. unfold word; lia. }
  apply Forall_insert; [done|]. apply lor_word; [|unfold word; lia|lia].
  unfold at_. destruct (nth_in_or_default (rate - 1) (msg ++ [1] ++ repeat 0 (rate - (length msg + 1))) 0)
    as [Hin| ->]; [|unfold word; lia].
  apply list_elem_of_In in Hin. by eapply Forall_forall in Hin.
Qed.

Lemma length_last_block rate msg :
  (length msg < rate)%nat -> length (last_block rate msg) = rate.
Proof.
  intros. unfold last_block. rewrite length_insert, !length_app, repeat_length. cbn. lia.
Qed.

Lemma blocks_cons n rate b l :
  length b = rate -> Sponge.blocks (S n) rate (b ++ l) = b :: Sponge.blocks n rate l.
Proof. intros <-. cbn [Sponge.blocks]. by rewrite take_app_length, drop_app_length. Qed.

Lemma absorb_take rate st buf : Sponge.absorb rate st (take rate buf) = Sponge.absorb rate st buf.
Proof.
  unfold Sponge.absorb. rewrite words_of_take; [reflexivity|]. apply Nat.Div0.mul_div_le.
Qed.

#[local] Opaque Sponge.absorb.

(** The loop over full blocks followed by the last block absorbs exactly the
    blocks of the padded message. *)
Lemma absorb_loop_spec rate : (0 < rate <= 200)%nat ->
  forall fuel st msg, (length msg < fuel)%nat -> state_ok st -> bytes msg ->
  let '(st', rest) := absorb_loop fuel rate st msg in
  keccakf (absorb_block st' (words_of (rate / 8) (last_block rate rest))) KECCAK_ROUNDS =
  fold_left (Sponge.absorb rate)
    (Sponge.blocks (length msg / rate + 1) rate (Sponge.pad rate msg)) st.
Proof.
  intros Hr. induction fuel as [|fuel IH]; intros st msg Hf Hst Hm; [lia|].
  cbn [absorb_loop]. destruct (Nat.leb_spec rate (length msg)) as [Hle|Hgt].
  - destruct (absorb_step rate st msg Hst Hm) as [E Hok]; [lia|].
    rewrite E. rewrite pad_block by lia.
    replace (length msg / rate)%nat with (S (length (drop rate msg) / rate)).
    + cbn [Nat.add]. rewrite blocks_cons by (rewrite length_take; lia). cbn [fold_left].
      rewrite absorb_take.
      apply IH; [rewrite length_drop; lia|exact Hok|by apply Forall_drop].
    + rewrite length_drop.
      replace (length msg) with (length msg - rate + 1 * rate)%nat at 2 by lia.
      rewrite Nat.div_add by lia. lia.
  - rewrite (Nat.div_small (length msg)) by lia. cbn [Nat.add Sponge.blocks fold_left].
    rewrite pad_last, take_ge by (rewrite ?length_last_block; lia).
    apply absorb_step; [exact Hst|by apply last_block_bytes|lia].
Qed.

Lemma zero_state_ok : state_ok (repeat 0 25).
Proof. split; [done|]. repeat constructor; unfold word; lia. Qed.

(** The rate in bytes that [keccak] uses for a digest length. *)
Definition rate_of (mdlen : Z) : Z :=
  if 200 =? mdlen then HASH_DATA_AREA else 200 - 2 * mdlen.

Lemma keccak_sponge_ok msg mdlen :
  bytes msg -> 1 <= rate_of mdlen <= temp_size ->
  keccak msg mdlen =
  Some (take (Z.to_nat mdlen) (bytes_of (Sponge.sponge (Z.to_nat (rate_of mdlen)) msg))).
Proof.
  intros Hm Hr. unfold keccak. fold (rate_of mdlen). cbv zeta.
  replace ((rate_of mdlen <? 1) || (temp_size <? rate_of mdlen)) with false by lia.
  pose proof (absorb_loop_spec (Z.to_nat (rate_of mdlen)) ltac:(unfold temp_size in Hr; lia)
    (S (length msg)) (repeat 0 25) msg ltac:(lia) zero_state_ok Hm) as E.
  destruct (absorb_loop _ _ _ _) as [st rest]. rewrite Z2Nat.inj_div by lia.
  change (Z.to_nat 8) with 8%nat. rewrite E. reflexivity.
Qed.

Lemma keccak_sponge_total msg :
  bytes msg -> keccak msg 200 = Some (take 200 (bytes_of (Sponge.sponge 136 msg))).
Proof. intros Hm. apply (keccak_sponge_ok msg 200 Hm). unfold rate_of, temp_size, HASH_DATA_AREA. cbn. lia. Qed.

(** [keccak] is the sponge of the specification, for every message and
    every digest length whose rate fits the 144-byte buffer of the function:
    the buffer is never overrun, the loop over blocks ends, and the digest is
    the prefix of the state that has absorbed the padded message. *)
Theorem keccak_sponge msg mdlen :
  bytes msg -> 1 <= rate_of mdlen <= temp_size ->
  keccak msg mdlen =
  Some (take (Z.to_nat mdlen) (bytes_of (Sponge.sponge (Z.to_nat (rate_of mdlen)) msg))).
Proof. apply keccak_sponge_ok. Qed.

Lemma keccak_sponge_witness :
  keccak [1; 2; 3] 32 =
  Some (take (Z.to_nat 32) (bytes_of (Sponge.sponge (Z.to_nat (rate_of 32)) [1; 2; 3]))).
Proof.
  apply (keccak_sponge [1; 2; 3] 32); [|unfold rate_of, temp_size; simpl; lia].
  repeat constructor; unfold word; lia.
Defined.

Lemma bytes_of_bytes st : bytes (bytes_of st).
Proof.
  unfold bytes_of. apply Forall_concat, Forall_fmap, Forall_true. intros x.
  apply (le_bytes_bytes 8 x).
Qed.

Lemma length_bytes_of st : length (bytes_of st) = (8 * length st)%nat.
Proof.
  unfold bytes_of. induction st as [|x st IH]; [done|].
  cbn [map concat]. rewrite length_app, length_le_bytes, IH. cbn. lia.
Qed.

#[local] Transparent Spec.keccak_f Sponge.absorb.

Lemma length_round A r : length (Spec.round A r) = 25%nat.
Proof. reflexivity. Qed.

Lemma length_keccak_f A : length (Spec.keccak_f A) = 25%nat.
Proof.
  unfold Spec.keccak_f. change (seq 0 24) with (seq 0 23 ++ [23%nat]).
  rewrite fold_left_app. cbn [fold_left]. apply length_round.
Qed.

#[local] Opaque Spec.keccak_f.

Lemma length_absorb rate A b : length (Sponge.absorb rate A b) = 25%nat.
Proof. apply length_keccak_f. Qed.

#[local] Opaque Sponge.absorb.

Lemma length_absorb_all rate l A :
  length A = 25%nat -> length (fold_left (Sponge.absorb rate) l A) = 25%nat.
Proof.
  revert A. induction l as [|b l IH]; intros A HA; [exact HA|].
  apply (IH (Sponge.absorb rate A b)), length_absorb.
Qed.

Lemma length_sponge rate msg : length (Sponge.sponge rate msg) = 25%nat.
Proof. apply length_absorb_all, repeat_length. Qed.

(** [cn_fast_hash] is total on byte strings, it is the Keccak sponge of
    rate 136 truncated to 32 bytes, and its result is 32 bytes long. *)
Theorem cn_fast_hash_correct data :
  bytes data ->
  cn_fast_hash data = Some (take HASH_SIZE (bytes_of (Sponge.sponge 136 data))) /\
  length (take HASH_SIZE (bytes_of (Sponge.sponge 136 data))) = HASH_SIZE /\
  bytes (take HASH_SIZE (bytes_of (Sponge.sponge 136 data))).
Proof.
  intros Hd. unfold cn_fast_hash, hash_process, keccak1600.
  rewrite keccak_sponge_total by done. cbn [mbind option_bind]. split; [|split].
  - rewrite take_take. reflexivity.
  - rewrite length_take, length_bytes_of, length_sponge. reflexivity.
  - apply Forall_take, bytes_of_bytes.
Qed.

Lemma cn_fast_hash_correct_witness :
  cn_fast_hash [0x63; 0x63] = Some (take HASH_SIZE (bytes_of (Sponge.sponge 136 [0x63; 0x63]))) /\
  length (take HASH_SIZE (bytes_of (Sponge.sponge 136 [0x63; 0x63]))) = HASH_SIZE /\
  bytes (take HASH_SIZE (bytes_of (Sponge.sponge 136 [0x63; 0x63]))).
Proof.
  apply (cn_fast_hash_correct [0x63; 0x63]). repeat constructor; unfold word; lia.
Defined.

End Keccak.

(** * The hash interface

    What the other components use of [cn_fast_hash]: a function from byte
    strings to 32-byte strings.  Their theorems are proved for every such
    function; [keccak_FastHash] is the one the program links. *)
Class FastHash := {
  fast_hash : list Z -> list Z;
  fast_hash_length : forall data, bytes data -> length (fast_hash data) = 32%nat;
  fast_hash_bytes : forall data, bytes data -> bytes (fast_hash data)
}.

#[export] Hint Resolve fast_hash_bytes : bytes.

(** Two different messages, one hashed by each of two computations, with the
    same hash. *)
Definition collide `{FastHash} (M1 M2 : list (list Z)) : Prop :=
  exists x y, x ∈ M1 /\ y ∈ M2 /\ x <> y /\ fast_hash x = fast_hash y.

Lemma collide_mono `{FastHash} M1 M2 N1 N2 : M1 ⊆ N1 -> M2 ⊆ N2 -> collide M1 M2 -> collide N1 N2.
Proof. intros S1 S2 (x & y & Hx & Hy & ?). exists x, y. auto. Qed.

(** A collision found among some of the messages is one among all of them. *)
Ltac by_collision :=
  right; match goal with C : collide _ _ |- _ => revert C end; clear; apply collide_mono;
  intros ?; repeat (rewrite elem_of_app || rewrite elem_of_cons || rewrite elem_of_nil); tauto.

Lemma fast_hash_binds `{FastHash} x y : fast_hash x = fast_hash y -> x = y \/ collide [x] [y].
Proof.
  intros E. destruct (decide (x = y)); [by left|right].
  exists x, y. rewrite !list_elem_of_singleton. done.
Qed.

(** Another function of the interface, with collisions that are easy to find:
    the first 32 bytes of the message. *)
Definition truncating_FastHash : FastHash.
Proof.
  refine {| fast_hash data := take 32 (data ++ repeat 0 32) |}.
  - intros data _. rewrite length_take, length_app, repeat_length. lia.
  - intros data Hd. apply Forall_take, Forall_app_2; [done|].
    by repeat constructor.
Defined.

Lemma cn_fast_hash_some data :
  bytes data ->
  exists h, Keccak.cn_fast_hash data = Some h /\ length h = 32%nat /\ bytes h.
Proof.
  intros Hd. unfold Keccak.cn_fast_hash, Keccak.hash_process, Keccak.keccak1600.
  rewrite Keccak.keccak_sponge_total by done. cbn [mbind option_bind].
  eexists. split; [reflexivity|]. rewrite take_take. split.
  - rewrite length_take, Keccak.length_bytes_of, Keccak.length_sponge. reflexivity.
  - apply Forall_take, Keccak.bytes_of_bytes.
Qed.

#[export] Instance keccak_FastHash : FastHash.
Proof.
  refine {| fast_hash data := default [] (Keccak.cn_fast_hash data) |}.
  - intros data Hd. by destruct (cn_fast_hash_some data Hd) as (h & -> & Hh & _).
  - intros data Hd. by destruct (cn_fast_hash_some data Hd) as (h & -> & _ & Hh).
Defined.
