(* ===== verification/TreeHash.v ===== *)
(** * Merkle tree hash

    Model of [src/crypto/tree-hash.c], the root hash of the transactions of a
    block.  An array of hashes is a list of byte strings; the loops update the
    array [ints] in place, index by index, as the code does.  [None] is a
    failed [assert]. *)
From S2P Require Import Prelude Keccak.

Module TreeHash.

Definition ispowerof2_size_t (x : Z) : bool :=
  negb (x =? 0) && (Z.land x (x - 1) =? 0).

(** The loop that counts how often [tmp] can be halved, from [jj]. *)
Fixpoint halve_count (fuel : nat) (tmp jj : Z) : Z :=
  match fuel with
  | O => jj
  | S fuel => if tmp =? 0 then jj else halve_count fuel (tmp / 2) (jj + 1)
  end.

(** [1 << (jj - 2)] is an [int], converted to [size_t]. *)
Definition tree_hash_cnt (count : Z) : option Z :=
  if count <? 3 then None else
  let tmp := count - 1 in
  let jj := halve_count 64 tmp 1 in
  let cnt := u64 (i32 (Z.shiftl 1 (jj - 2))) in
  if (0 <? cnt) && (count / 2 <=? cnt) && (cnt <=? count) && ispowerof2_size_t cnt
  then Some cnt else None.

Section WithHash.
Context {HF : FastHash}.

(** [cn_fast_hash(a[i], 64, _)]: the hash of the 64 bytes at [a[i]]. *)
Definition hash64 (a : list (list Z)) (i : nat) : list Z :=
  fast_hash (List.nth i a [] ++ List.nth (i + 1) a []).

(** [for (j = 0, i = 0; j < n; i += 2, ++j) cn_fast_hash(src[i], 64, ints[j])]
    where [src] is [ints] itself. *)
Definition reduce_level (n : nat) (ints : list (list Z)) : list (list Z) :=
  fold_left (fun ints j => <[j := hash64 ints (2 * j)]> ints) (seq 0 n) ints.

(** [while (cnt > 2) { cnt >>= 1; ... }] *)
Fixpoint reduce_levels (fuel : nat) (cnt : Z) (ints : list (list Z)) : list (list Z) :=
  match fuel with
  | O => ints
  | S fuel =>
      if 2 <? cnt
      then let cnt := Z.shiftr cnt 1 in
           reduce_levels fuel cnt (reduce_level (Z.to_nat cnt) ints)
      else ints
  end.

Definition tree_hash (hashes : list (list Z)) : option (list Z) :=
  let count := Z.of_nat (length hashes) in
  if count =? 0 then None
  else if count =? 1 then Some (List.nth 0 hashes [])
  else if count =? 2 then Some (hash64 hashes 0)
  else
    cnt ← tree_hash_cnt count;
    let keep := Z.to_nat (2 * cnt - count) in
    let ints := repeat (repeat 0 32) (Z.to_nat cnt) in
    let ints := take keep hashes ++ drop keep ints in
    let (ints, i) :=
      fold_left (fun '(ints, i) j => (<[j := hash64 hashes i]> ints, i + 2)%nat)
        (seq keep (Z.to_nat cnt - keep)) (ints, keep) in
    if (i =? length hashes)%nat
    then Some (hash64 (reduce_levels 64 cnt ints) 0)
    else None.

End WithHash.

(** * Properties *)

(** ** The number of nodes of the first full level *)

Lemma halve_count_log2 fuel tmp jj :
  0 < tmp < 2 ^ Z.of_nat fuel -> halve_count fuel tmp jj = jj + Z.log2 tmp + 1.
Proof.
  revert tmp jj. induction fuel as [|fuel IH]; intros tmp jj Ht; [lia|].
  cbn [halve_count]. destruct (Z.eqb_spec tmp 0); [lia|].
  rewrite Nat2Z.inj_succ, Z.pow_succ_r in Ht by lia.
  destruct (Z.eq_dec tmp 1) as [->|].
  - change (1 / 2) with 0. destruct fuel; cbn; lia.
  - rewrite IH by (split; dlia).
    assert (Z.log2 tmp = Z.log2 (tmp / 2) + 1); [|lia].
    rewrite <- Z.div2_div, Z.div2_spec, Z.log2_shiftr by lia.
    assert (1 <= Z.log2 tmp) by (apply Z.log2_le_pow2; lia). lia.
Qed.

Lemma ispowerof2_pow k : 0 <= k -> ispowerof2_size_t (2 ^ k) = true.
Proof.
  intros Hk. unfold ispowerof2_size_t. apply andb_true_iff. split; [lia|].
  replace (2 ^ k - 1) with (Z.ones k) by (rewrite Z.ones_equiv; lia).
  rewrite Z.land_ones, Z.mod_same by lia. done.
Qed.

Lemma tree_hash_cnt_pow count :
  3 <= count <= 2 ^ 31 ->
  tree_hash_cnt count = Some (2 ^ Z.log2 (count - 1)).
Proof.
  intros Hc. unfold tree_hash_cnt. destruct (Z.ltb_spec count 3); [lia|].
  rewrite halve_count_log2 by (change (Z.of_nat 64) with 64; lia).
  replace (1 + Z.log2 (count - 1) + 1 - 2) with (Z.log2 (count - 1)) by lia.
  rewrite Z.shiftl_1_l. pose proof (Z.log2_spec (count - 1) ltac:(lia)) as Hl.
  pose proof (Z.log2_nonneg (count - 1)) as Hn. rewrite Z.pow_succ_r in Hl by done.
  rewrite swrap_small, wrap_small by (unfold word; lia).
  rewrite ispowerof2_pow by done.
  set (p := 2 ^ Z.log2 (count - 1)) in *. clearbody p.
  replace ((0 <? p) && (count / 2 <=? p) && (p <=? count) && true) with true; [done|].
  symmetry. rewrite !andb_true_iff, Z.ltb_lt, !Z.leb_le. repeat split; dlia.
Qed.

(** ** The tree *)

Section Merkle.
Context {HF : FastHash}.

(** Hashes of consecutive pairs. *)
Fixpoint pairs (l : list (list Z)) : list (list Z) :=
  match l with
  | a :: b :: l' => fast_hash (a ++ b) :: pairs l'
  | _ => []
  end.

(** The root of the complete binary tree over [2^k] leaves. *)
Fixpoint merkle (k : nat) (l : list (list Z)) : list Z :=
  match k with
  | O => List.nth 0 l []
  | S k => fast_hash (merkle k (take (2 ^ k) l) ++ merkle k (drop (2 ^ k) l))
  end.

(** The specification: with [2^k < n <= 2^(k+1)] leaves, as many of the last
    leaves are paired as makes the first level a power of two. *)
Definition tree_root (hs : list (list Z)) : list Z :=
  match hs with
  | [h] => h
  | _ =>
      let n := length hs in
      let k := Z.to_nat (Z.log2 (Z.of_nat n - 1)) in
      let keep := (2 ^ (k + 1) - n)%nat in
      merkle k (take keep hs ++ pairs (drop keep hs))
  end.

Lemma pairs_map l m :
  length l = (2 * m)%nat -> pairs l = map (fun j => hash64 l (2 * j)) (seq 0 m).
Proof.
  revert l. induction m as [|m IH]; intros l Hl.
  - by destruct l.
  - destruct l as [|a [|b l]]; cbn in Hl; try lia. cbn [pairs seq map].
    f_equal. rewrite IH by lia. rewrite <- seq_shift, map_map. apply map_ext.
    intros j. unfold hash64. replace (2 * S j)%nat with (S (S (2 * j))) by lia. done.
Qed.

Lemma hash64_drop l n i : hash64 l (n + i) = hash64 (drop n l) i.
Proof. unfold hash64. rewrite <- Nat.add_assoc. by rewrite !nth_skipn. Qed.

Lemma hash64_app_r l1 l2 i : (length l1 <= i)%nat -> hash64 (l1 ++ l2) i = hash64 l2 (i - length l1).
Proof.
  intros Hi. unfold hash64. rewrite !app_nth2 by lia. do 3 f_equal. lia.
Qed.

(** Extending an updated prefix by one element. *)
Lemma insert_next {A} n (pre l : list A) (x : A) :
  length pre = n -> (0 < length l)%nat ->
  <[n := x]> (pre ++ l) = (pre ++ [x]) ++ drop 1 l.
Proof.
  intros <- Hl. destruct l as [|y l]; [cbn in Hl; lia|].
  rewrite insert_app_r_alt, Nat.sub_diag, <- app_assoc by lia. done.
Qed.

(** The level is computed in place: entry [j] is overwritten only after the
    entries [2j] and [2j + 1] it is computed from have been read. *)
Lemma reduce_level_map n l :
  (2 * n <= length l)%nat ->
  reduce_level n l = map (fun j => hash64 l (2 * j)) (seq 0 n) ++ drop n l.
Proof.
  intros Hn. unfold reduce_level. induction n as [|n IH]; [done|].
  rewrite seq_S, fold_left_app, IH, map_app by lia. cbn [fold_left map Nat.add].
  set (pre := map (fun j => hash64 l (2 * j)) (seq 0 n)).
  assert (Hp : length pre = n) by (unfold pre; by rewrite length_map, length_seq).
  rewrite hash64_app_r, Hp, <- hash64_drop by lia.
  replace (n + (2 * n - n))%nat with (2 * n)%nat by lia.
  rewrite insert_next by (rewrite ?length_drop; lia).
  by rewrite drop_drop, Nat.add_comm.
Qed.

Lemma length_reduce_level n l : length (reduce_level n l) = length l.
Proof.
  unfold reduce_level. generalize (seq 0 n). intros js. revert l.
  induction js as [|j js IH]; intros l; [done|]. cbn [fold_left].
  by rewrite IH, length_insert.
Qed.

Lemma reduce_level_pairs n l :
  (2 * n <= length l)%nat -> take n (reduce_level n l) = pairs (take (2 * n) l).
Proof.
  intros Hn. rewrite reduce_level_map by done.
  rewrite take_app_length' by (by rewrite length_map, length_seq).
  rewrite (pairs_map _ n) by (rewrite length_take; lia).
  apply map_ext_in. intros j Hj. apply in_seq in Hj. unfold hash64.
  rewrite !nth_take_lt by lia. done.
Qed.

Lemma pairs_app l1 l2 m : length l1 = (2 * m)%nat -> pairs (l1 ++ l2) = pairs l1 ++ pairs l2.
Proof.
  revert l1. induction m as [|m IH]; intros l1 Hl.
  - by destruct l1.
  - destruct l1 as [|a [|b l1]]; cbn in Hl; try lia. cbn. by rewrite IH by lia.
Qed.

Lemma length_pairs l m : length l = (2 * m)%nat -> length (pairs l) = m.
Proof. intros Hl. by rewrite (pairs_map _ m), length_map, length_seq. Qed.

Lemma merkle_pairs k l : length l = (2 ^ S k)%nat -> merkle (S k) l = merkle k (pairs l).
Proof.
  revert l. induction k as [|k IH]; intros l Hl.
  - destruct l as [|a [|b [|c l]]]; try discriminate. done.
  - change (merkle (S (S k)) l) with
      (fast_hash (merkle (S k) (take (2 ^ S k) l) ++ merkle (S k) (drop (2 ^ S k) l))).
    cbn [Nat.pow] in Hl |- *.
    rewrite !IH by (rewrite ?length_take, ?length_drop; cbn [Nat.pow] in *; lia).
    rewrite <- (take_drop (2 ^ S k) l) at 3. cbn [Nat.pow] in *.
    rewrite (pairs_app _ _ (2 ^ k)) by (rewrite length_take; lia).
    cbn [merkle]. rewrite take_app_length', drop_app_length'; [done|..].
    all: symmetry; apply length_pairs; rewrite length_take; lia.
Qed.

(** The loop of halvings leaves in the first two entries the children of the
    root. *)
Lemma reduce_levels_merkle k : forall fuel l,
  (k < fuel)%nat -> (2 ^ S k <= length l)%nat ->
  hash64 (reduce_levels fuel (2 ^ Z.of_nat (S k)) l) 0 = merkle (S k) (take (2 ^ S k) l).
Proof.
  induction k as [|k IH]; intros fuel l Hf Hl.
  - destruct fuel as [|fuel]; [lia|]. cbn [reduce_levels].
    destruct l as [|a [|b l]]; cbn in Hl; try lia. done.
  - destruct fuel as [|fuel]; [lia|]. cbn [reduce_levels].
    assert (0 < 2 ^ Z.of_nat k) by lia.
    rewrite (Nat2Z.inj_succ (S k)), Z.pow_succ_r by lia.
    destruct (Z.ltb_spec 2 (2 * 2 ^ Z.of_nat (S k))) as [_|Hle].
    2: { rewrite Nat2Z.inj_succ, Z.pow_succ_r in Hle by lia. lia. }
    replace (Z.shiftr (2 * 2 ^ Z.of_nat (S k)) 1) with (2 ^ Z.of_nat (S k))
      by (rewrite Z.shiftr_div_pow2 by lia; change (2 ^ 1) with 2; dlia).
    replace (Z.to_nat (2 ^ Z.of_nat (S k))) with (2 ^ S k)%nat
      by (rewrite <- (Nat2Z.id (2 ^ S k)), Nat2Z.inj_pow; done).
    change (2 ^ S (S k))%nat with (2 * 2 ^ S k)%nat in Hl |- *.
    rewrite IH, reduce_level_pairs by (rewrite ?length_reduce_level; lia).
    rewrite <- merkle_pairs; [done|]. rewrite length_take. cbn [Nat.pow] in *. lia.
Qed.

(** The first level: the leading leaves are copied, the others paired. *)
Lemma first_level_fold hs cnt keep ints :
  (keep <= length ints)%nat -> (cnt <= length ints)%nat -> (keep <= cnt)%nat ->
  fold_left (fun '(ints, i) j => (<[j := hash64 hs i]> ints, i + 2)%nat)
    (seq keep (cnt - keep)) (ints, keep) =
  (take keep ints ++ map (fun m => hash64 hs (keep + 2 * m)) (seq 0 (cnt - keep)) ++ drop cnt ints,
   keep + 2 * (cnt - keep))%nat.
Proof.
  intros Hk Hc Hkc. remember (cnt - keep)%nat as m eqn:Em.
  assert (cnt = keep + m)%nat as -> by lia. clear Em Hkc.
  induction m as [|m IH].
  - cbn. by rewrite !Nat.add_0_r, take_drop.
  - rewrite seq_S, fold_left_app, IH by lia. cbn [fold_left]. f_equal; [|lia].
    rewrite seq_S, map_app, !app_assoc. cbn [map]. rewrite insert_next.
    + rewrite drop_drop, <- !app_assoc. by replace (keep + S m)%nat with (keep + m + 1)%nat by lia.
    + rewrite length_app, length_take, length_map, length_seq. lia.
    + rewrite length_drop. lia.
Qed.

(** The general case of [tree_hash], the level sizes in natural numbers. *)
Lemma levels_merkle hs k :
  let p := (2 ^ S k)%nat in let keep := (2 * p - length hs)%nat in
  (p < length hs <= 2 * p)%nat -> (k < 64)%nat ->
  fold_left (fun '(ints, i) j => (<[j := hash64 hs i]> ints, i + 2)%nat)
    (seq keep (p - keep))
    (take keep hs ++ drop keep (repeat (repeat 0 32) p), keep) =
  (take keep hs ++ pairs (drop keep hs), length hs) /\
  hash64 (reduce_levels 64 (2 ^ Z.of_nat (S k)) (take keep hs ++ pairs (drop keep hs))) 0 =
  merkle (S k) (take keep hs ++ pairs (drop keep hs)).
Proof.
  intros p keep Hp Hk.
  assert (Hpairs : length (pairs (drop keep hs)) = (p - keep)%nat)
    by (apply length_pairs; rewrite length_drop; lia).
  split.
  - rewrite first_level_fold by (rewrite ?length_app, ?length_take, ?length_drop, ?repeat_length; lia).
    f_equal; [|lia]. rewrite take_app_length' by (rewrite length_take; lia).
    rewrite (drop_ge _ p), app_nil_r
      by (rewrite length_app, length_take, length_drop, repeat_length; lia).
    f_equal. rewrite (pairs_map _ (p - keep)) by (rewrite length_drop; lia).
    apply map_ext. intros m. apply hash64_drop.
  - rewrite reduce_levels_merkle by (rewrite ?length_app, ?length_take, ?Hpairs; fold p; lia).
    rewrite take_ge; [done|]. rewrite length_app, length_take, Hpairs. fold p. lia.
Qed.

Lemma tree_hash_root hs :
  (1 <= length hs)%nat -> Z.of_nat (length hs) <= 2 ^ 31 -> tree_hash hs = Some (tree_root hs).
Proof.
  intros H1 H2. unfold tree_hash. cbv zeta.
  destruct hs as [|a [|b [|c l]]]; [cbn in H1; lia|done|done|].
  set (hs := a :: b :: c :: l) in *. set (n := length hs) in *.
  assert (H3 : (3 <= n)%nat) by (unfold n; cbn; lia).
  replace (Z.of_nat n =? 0) with false by lia. replace (Z.of_nat n =? 1) with false by lia.
  replace (Z.of_nat n =? 2) with false by lia.
  rewrite tree_hash_cnt_pow by lia. cbn [mbind option_bind].
  change (tree_root hs) with
    (let k := Z.to_nat (Z.log2 (Z.of_nat n - 1)) in
     merkle k (take (2 ^ (k + 1) - n) hs ++ pairs (drop (2 ^ (k + 1) - n) hs))).
  pose proof (Z.log2_spec (Z.of_nat n - 1) ltac:(lia)) as Hl.
  assert (Hk1 : 1 <= Z.log2 (Z.of_nat n - 1)) by (apply Z.log2_le_pow2; lia).
  assert (Hk2 : Z.log2 (Z.of_nat n - 1) < 31) by (apply Z.log2_lt_pow2; lia).
  assert (Ek : Z.log2 (Z.of_nat n - 1) = Z.of_nat (S (Z.to_nat (Z.log2 (Z.of_nat n - 1) - 1)))) by lia.
  rewrite Ek in Hl, Hk2 |- *. clear Ek Hk1.
  set (k := Z.to_nat (Z.log2 (Z.of_nat n - 1) - 1)) in *. clearbody k. cbv zeta.
  rewrite Z.pow_succ_r, Nat2Z.id in * by lia.
  assert (Ep : 2 ^ Z.of_nat (S k) = Z.of_nat (2 ^ S k)) by (by rewrite Nat2Z.inj_pow).
  replace (2 ^ (S k + 1))%nat with (2 * 2 ^ S k)%nat by (rewrite Nat.add_1_r; done).
  destruct (levels_merkle hs k) as [E1 E2]; [lia|lia|].
  rewrite Ep in Hl.
  replace (Z.to_nat (2 * 2 ^ Z.of_nat (S k) - Z.of_nat n)) with (2 * 2 ^ S k - n)%nat by lia.
  replace (Z.to_nat (2 ^ Z.of_nat (S k))) with (2 ^ S k)%nat by lia.
  fold n in E1, E2. rewrite E1, Nat.eqb_refl, E2. done.
Qed.

(** [C29] [tree_hash] computes the Merkle root of its specification for every
    non-empty list of hashes: no [assert] of the function or of
    [tree_hash_cnt] fails, the in-place reduction of the levels never reads an
    entry it has overwritten, and the root is that of the complete binary
    tree over the first full level. *)
Theorem tree_hash_correct hs :
  (1 <= length hs)%nat -> Z.of_nat (length hs) <= 2 ^ 31 -> tree_hash hs = Some (tree_root hs).
Proof. apply tree_hash_root. Qed.

(** ** Binding *)

Definition is_hash (h : list Z) : Prop := length h = 32%nat /\ bytes h.

(** The messages that are hashed on the way to the root. *)
Fixpoint pair_messages (l : list (list Z)) : list (list Z) :=
  match l with
  | a :: b :: l' => (a ++ b) :: pair_messages l'
  | _ => []
  end.
Fixpoint merkle_messages (k : nat) (l : list (list Z)) : list (list Z) :=
  match k with
  | O => []
  | S k =>
      let l1 := take (2 ^ k) l in let l2 := drop (2 ^ k) l in
      (merkle k l1 ++ merkle k l2) :: merkle_messages k l1 ++ merkle_messages k l2
  end.
Definition tree_messages (hs : list (list Z)) : list (list Z) :=
  let n := length hs in
  let k := Z.to_nat (Z.log2 (Z.of_nat n - 1)) in
  let keep := (2 ^ (k + 1) - n)%nat in
  pair_messages (drop keep hs) ++ merkle_messages k (take keep hs ++ pairs (drop keep hs)).

Ltac by_node_collision := cbn [pair_messages merkle_messages]; by_collision.

Lemma hash_pair_binding a b c d :
  is_hash a -> is_hash b -> is_hash c -> is_hash d ->
  fast_hash (a ++ b) = fast_hash (c ++ d) -> (a = c /\ b = d) \/ collide [a ++ b] [c ++ d].
Proof.
  intros [La Ba] [Lb Bb] [Lc Bc] [Ld Bd] E. apply fast_hash_binds in E as [E|]; [left|by right].
  apply app_inj_1 in E; [done|congruence].
Qed.

Lemma merkle_hash k l : length l = (2 ^ k)%nat -> Forall is_hash l -> is_hash (merkle k l).
Proof.
  revert l. induction k as [|k IH]; intros l Hl Hh; cbn [Nat.pow] in Hl.
  - destruct l as [|h l]; [done|]. by inversion Hh.
  - assert (H1 : is_hash (merkle k (take (2 ^ k) l)))
      by (apply IH; [rewrite length_take; lia|by apply Forall_take]).
    assert (H2 : is_hash (merkle k (drop (2 ^ k) l)))
      by (apply IH; [rewrite length_drop; lia|by apply Forall_drop]).
    cbn [merkle]. split; [apply fast_hash_length|apply fast_hash_bytes];
      apply Forall_app; split; (apply H1 || apply H2).
Qed.

Lemma merkle_binding k l1 l2 :
  length l1 = (2 ^ k)%nat -> length l2 = (2 ^ k)%nat ->
  Forall is_hash l1 -> Forall is_hash l2 ->
  merkle k l1 = merkle k l2 -> l1 = l2 \/ collide (merkle_messages k l1) (merkle_messages k l2).
Proof.
  revert l1 l2. induction k as [|k IH]; intros l1 l2 L1 L2 H1 H2 E; cbn [Nat.pow] in L1, L2.
  - destruct l1 as [|a [|? ?]], l2 as [|b [|? ?]]; try discriminate. cbn in E. left. congruence.
  - cbn [merkle] in E. apply hash_pair_binding in E.
    2-5: apply merkle_hash; [rewrite ?length_take, ?length_drop; lia|
         by (apply Forall_take || apply Forall_drop)].
    cbn [merkle_messages].
    destruct E as [[E1 E2]|]; [|by_node_collision].
    apply IH in E1 as [E1|]; try by_node_collision;
      [|rewrite ?length_take; lia|rewrite ?length_take; lia|by apply Forall_take|by apply Forall_take].
    apply IH in E2 as [E2|]; try by_node_collision;
      [|rewrite ?length_drop; lia|rewrite ?length_drop; lia|by apply Forall_drop|by apply Forall_drop].
    left. by rewrite <- (take_drop (2 ^ k) l1), <- (take_drop (2 ^ k) l2), E1, E2.
Qed.

Lemma pairs_binding m l1 l2 :
  length l1 = (2 * m)%nat -> length l2 = (2 * m)%nat ->
  Forall is_hash l1 -> Forall is_hash l2 -> pairs l1 = pairs l2 ->
  l1 = l2 \/ collide (pair_messages l1) (pair_messages l2).
Proof.
  revert l1 l2. induction m as [|m IH]; intros l1 l2 L1 L2 H1 H2 E.
  - left. by destruct l1, l2.
  - destruct l1 as [|a [|b l1]], l2 as [|c [|d l2]]; cbn in L1, L2; try lia.
    cbn [pairs] in E. injection E as Eh Et.
    rewrite !Forall_cons in H1, H2. destruct H1 as (? & ? & ?), H2 as (? & ? & ?).
    apply hash_pair_binding in Eh as [[-> ->]|]; try done;
      [|by_node_collision].
    apply IH in Et as [->|]; auto; [|lia..]. by_node_collision.
Qed.

Lemma pairs_hashes m l : length l = (2 * m)%nat -> Forall is_hash l -> Forall is_hash (pairs l).
Proof.
  revert l. induction m as [|m IH]; intros l L H; [by destruct l|].
  destruct l as [|a [|b l]]; cbn in L; try lia. rewrite !Forall_cons in H.
  destruct H as ([? ?] & [? ?] & ?). cbn [pairs]. constructor; [|apply IH; done || lia].
  split; [apply fast_hash_length|apply fast_hash_bytes]; by apply Forall_app.
Qed.

(** The two parts of the first level: the leaves that are kept and the number
    of pairs. *)
Lemma first_level_sizes (hs : list (list Z)) :
  (2 <= length hs)%nat ->
  let k := Z.to_nat (Z.log2 (Z.of_nat (length hs) - 1)) in
  (2 ^ k < length hs <= 2 ^ (k + 1))%nat /\ (2 ^ (k + 1) = 2 * 2 ^ k)%nat.
Proof.
  intros Hn k. pose proof (Z.log2_spec (Z.of_nat (length hs) - 1) ltac:(lia)) as Hl.
  pose proof (Z.log2_nonneg (Z.of_nat (length hs) - 1)).
  assert (E : (2 ^ (k + 1) = 2 * 2 ^ k)%nat) by (rewrite Nat.add_1_r; done).
  rewrite Z.pow_succ_r in Hl by lia.
  assert (2 ^ Z.log2 (Z.of_nat (length hs) - 1) = Z.of_nat (2 ^ k)).
  { rewrite Nat2Z.inj_pow. unfold k. rewrite Z2Nat.id by lia. done. }
  lia.
Qed.

Lemma tree_hash_binds hs1 hs2 :
  length hs1 = length hs2 -> (1 <= length hs1)%nat -> Z.of_nat (length hs1) <= 2 ^ 31 ->
  Forall is_hash hs1 -> Forall is_hash hs2 ->
  tree_hash hs1 = tree_hash hs2 -> hs1 = hs2 \/ collide (tree_messages hs1) (tree_messages hs2).
Proof.
  intros L H1 H2 Hh1 Hh2 E. rewrite !tree_hash_root in E by lia. injection E as E.
  destruct hs1 as [|a [|b l1]], hs2 as [|c [|d l2]]; try discriminate; [by left|cbn in E; left; congruence|].
  set (h1 := a :: b :: l1) in *. set (h2 := c :: d :: l2) in *.
  unfold tree_messages. unfold tree_root in E. fold h1 h2 in E. rewrite <- L in *. cbv zeta in E.
  destruct (first_level_sizes h1) as [Hs Ep]; [unfold h1; cbn; lia|].
  set (k := Z.to_nat (Z.log2 (Z.of_nat (length h1) - 1))) in *. clearbody k.
  set (keep := (2 ^ (k + 1) - length h1)%nat) in *.
  assert (D1 : length (drop keep h1) = (2 * (2 ^ k - keep))%nat) by (rewrite length_drop; lia).
  assert (D2 : length (drop keep h2) = (2 * (2 ^ k - keep))%nat) by (rewrite length_drop; lia).
  apply merkle_binding in E.
  2-3: rewrite length_app, length_take; erewrite length_pairs by eassumption; lia.
  2-3: apply Forall_app_2; [by apply Forall_take|];
       eapply pairs_hashes; [eassumption|by apply Forall_drop].
  destruct E as [E|]; [|by_collision].
  apply app_inj_1 in E as [E1 E2]; [|rewrite !length_take; lia].
  eapply pairs_binding in E2 as [E2|];
    [left|by_collision|exact D1|exact D2|by apply Forall_drop..].
  by rewrite <- (take_drop keep h1), <- (take_drop keep h2), E1, E2.
Qed.

(** [C30] The root commits to the list: two lists of equally many 32-byte
    hashes with the same [tree_hash] are equal, unless among the 64-byte
    messages hashed on the way to the two roots there are two different ones
    with the same hash. *)
Theorem tree_hash_binding hs1 hs2 :
  length hs1 = length hs2 -> (1 <= length hs1)%nat -> Z.of_nat (length hs1) <= 2 ^ 31 ->
  Forall is_hash hs1 -> Forall is_hash hs2 ->
  tree_hash hs1 = tree_hash hs2 -> hs1 = hs2 \/ collide (tree_messages hs1) (tree_messages hs2).
Proof. apply tree_hash_binds. Qed.

End Merkle.

Lemma tree_hash_binding_witness :
  let hs1 := [repeat 7 32; repeat 1 32; repeat 8 32] in
  let hs2 := [repeat 7 32; repeat 1 32; repeat 9 32] in
  hs1 <> hs2 /\
  @tree_hash truncating_FastHash hs1 = @tree_hash truncating_FastHash hs2 /\
  (hs1 = hs2 \/ @collide truncating_FastHash (@tree_messages truncating_FastHash hs1)
                  (@tree_messages truncating_FastHash hs2)).
Proof.
  intros hs1 hs2. split; [discriminate|]. split; [reflexivity|].
  apply (@tree_hash_binding truncating_FastHash hs1 hs2); try reflexivity; try (cbn; lia);
    (repeat (apply Forall_cons; split); [..|constructor];
     (split; [reflexivity|repeat constructor; unfold word; lia])).
Defined.

Lemma tree_hash_correct_witness :
  tree_hash [[1]; [2]; [3]; [4]; [5]] = Some (tree_root [[1]; [2]; [3]; [4]; [5]]).
Proof. apply (tree_hash_correct [[1]; [2]; [3]; [4]; [5]]); cbn; lia. Defined.

End TreeHash.
