(* ===== verification/Base58.v ===== *)
(** * Base58

    Model of [src/common/base58.cpp]: the block-wise base-58 encoding of
    addresses and signatures, and the checksummed address format.

    Strings and buffers are lists of bytes.  A pointer into a buffer is a
    segment of it, which the block functions update and the callers put back;
    [None] is a [false] result or a write outside the segment. *)
From Stdlib Require Import String Ascii.
From S2P Require Import Prelude IntUtil Varint Keccak.
Import IntUtil Varint.

(** The character codes of a string literal. *)
Definition codes (s : string) : list Z :=
  map (fun c => Z.of_N (N_of_ascii c)) (list_ascii_of_string s).

Module Base58.

Definition alphabet : list Z :=
  codes "123456789ABCDEFGHJKLMNPQRSTUVWXYZabcdefghijkmnopqrstuvwxyz".
Definition alphabet_size : Z := 58.
Definition encoded_block_sizes : list nat := [0; 2; 3; 5; 6; 7; 9; 10; 11]%nat.
Definition full_block_size : nat := 8.
Definition full_encoded_block_size : nat := 11.
Definition addr_checksum_size : nat := 4.

Definition alpha (i : Z) : Z := List.nth (Z.to_nat i) alphabet 0.
Definition encoded_size (n : nat) : nat := List.nth n encoded_block_sizes 0%nat.

(** The table of [struct reverse_alphabet], filled by its constructor. *)
Definition reverse_alphabet_data : list Z :=
  fold_left (fun m_data i =>
    let idx := Z.to_nat (u64 (alpha i - alpha 0)) in
    <[idx := i]> m_data)
    (seqZ 0 alphabet_size)
    (repeat (-1) (Z.to_nat (alpha (alphabet_size - 1) - alpha 0 + 1))).

(** A letter is a [char]: the byte above 127 is a negative number, which the
    conversion to [size_t] makes a large index. *)
Definition reverse_alphabet (letter : Z) : Z :=
  let idx := u64 (swrap 8 letter - alpha 0) in
  if idx <? Z.of_nat (length reverse_alphabet_data)
  then List.nth (Z.to_nat idx) reverse_alphabet_data 0 else -1.

Definition decoded_block_sizes_data : list Z :=
  fold_left (fun m_data i => <[encoded_size i := Z.of_nat i]> m_data)
    (seq 0 (full_block_size + 1)) (repeat (-1) (full_encoded_block_size + 1)).

Definition decoded_block_sizes (n : nat) : Z := List.nth n decoded_block_sizes_data (-1).

(** The switch with fall-through reads [size] bytes, most significant first. *)
Definition uint_8be_to_64 (data : list Z) : Z :=
  fold_left (fun res b => Z.lor (u64 (Z.shiftl res 8)) b) data 0.

Definition uint_64_to_8be (num : Z) (size : nat) : list Z :=
  drop (8 - size) (le_bytes 8 (SWAP64 num)).

(** [while (0 < num) { res[i] = alphabet[num % 58]; num /= 58; --i; }] *)
Fixpoint encode_loop (fuel : nat) (num i : Z) (res : list Z) : option (list Z) :=
  match fuel with
  | O => None
  | S fuel =>
      if 0 <? num then
        if (0 <=? i) && (i <? Z.of_nat (length res))
        then encode_loop fuel (num / alphabet_size) (i - 1)
               (<[Z.to_nat i := alpha (num mod alphabet_size)]> res)
        else None
      else Some res
  end.

Definition encode_block (block res : list Z) : option (list Z) :=
  let num := uint_8be_to_64 block in
  let i := Z.of_nat (encoded_size (length block)) - 1 in
  encode_loop 64 num i res.

(** The loop from the last character to the first: [letters] is the block
    reversed. *)
Fixpoint decode_loop (letters : list Z) (res_num order : Z) : option Z :=
  match letters with
  | [] => Some res_num
  | letter :: letters =>
      let digit := reverse_alphabet letter in
      if digit <? 0 then None else
      let (product_lo, product_hi) := mul128 order digit in
      let tmp := res_num +w product_lo in
      if (tmp <? res_num) || negb (0 =? product_hi) then None else
      decode_loop letters tmp (order *w alphabet_size)
  end.

Definition decode_block (block : list Z) : option (list Z) :=
  let res_size := decoded_block_sizes (length block) in
  if res_size <=? 0 then None else
  res_num ← decode_loop (rev block) 0 1;
  if (res_size <? Z.of_nat full_block_size) && (Z.shiftl 1 (8 * res_size) <=? res_num) then None
  else Some (uint_64_to_8be res_num (Z.to_nat res_size)).

(** A segment of a buffer, and the buffer with a segment replaced. *)
Definition slice (off len : nat) (buf : list Z) : list Z := take len (drop off buf).
Definition splice (off : nat) (seg buf : list Z) : list Z :=
  take off buf ++ seg ++ drop (off + length seg) buf.

(** [for (i = i0; i < i0 + n; ++i) if (!body(i)) return false;] *)
Fixpoint for_blocks (n i : nat) (body : nat -> list Z -> option (list Z)) (buf : list Z)
  : option (list Z) :=
  match n with
  | O => Some buf
  | S n => buf ← body i buf; for_blocks n (S i) body buf
  end.

(** [encode] and [decode] after their test for the empty string. *)
Definition encode_body (data : list Z) : option (list Z) :=
  let full_block_count := (length data / full_block_size)%nat in
  let last_block_size := (length data mod full_block_size)%nat in
  let res_size := (full_block_count * full_encoded_block_size + encoded_size last_block_size)%nat in
  let block i n m res :=
    seg ← encode_block (slice (i * full_block_size) n data)
            (slice (i * full_encoded_block_size) m res);
    Some (splice (i * full_encoded_block_size) seg res) in
  res ← for_blocks full_block_count 0
          (fun i => block i full_block_size full_encoded_block_size)
          (repeat (alpha 0) res_size);
  if (0 <? last_block_size)%nat
  then block full_block_count last_block_size (encoded_size last_block_size) res
  else Some res.

Definition encode (data : list Z) : option (list Z) :=
  match data with
  | [] => Some []
  | _ => encode_body data
  end.

Definition decode_body (enc : list Z) : option (list Z) :=
  let full_block_count := (length enc / full_encoded_block_size)%nat in
  let last_block_size := (length enc mod full_encoded_block_size)%nat in
  let last_block_decoded_size := decoded_block_sizes last_block_size in
  if last_block_decoded_size <? 0 then None else
  let data_size := (full_block_count * full_block_size + Z.to_nat last_block_decoded_size)%nat in
  let block i n data :=
    seg ← decode_block (slice (i * full_encoded_block_size) n enc);
    Some (splice (i * full_block_size) seg data) in
  data ← for_blocks full_block_count 0 (fun i => block i full_encoded_block_size)
           (repeat 0 data_size);
  if (0 <? last_block_size)%nat then block full_block_count last_block_size data
  else Some data.

Definition decode (enc : list Z) : option (list Z) :=
  match enc with
  | [] => Some []
  | _ => decode_body enc
  end.

Section WithHash.
Context {HF : FastHash}.

Definition encode_addr (tag : Z) (data : list Z) : option (list Z) :=
  let buf := get_varint_data tag ++ data in
  encode (buf ++ take addr_checksum_size (fast_hash buf)).

Definition decode_addr (addr : list Z) : option (Z * list Z) :=
  addr_data ← decode addr;
  if (length addr_data <=? addr_checksum_size)%nat then None else
  let n := (length addr_data - addr_checksum_size)%nat in
  let checksum := drop n addr_data in
  let addr_data := take n addr_data in
  let expected_checksum := take addr_checksum_size (fast_hash addr_data) in
  if negb (bool_decide (expected_checksum = checksum)) then None else
  let '(read, tag, _) := read_varint 64 addr_data in
  if read <=? 0 then None else Some (tag, drop (Z.to_nat read) addr_data).

End WithHash.

Example encode_example : encode [0; 0; 0; 0; 0; 0; 0; 1; 255] = Some (codes "111111111125Q").
Proof. vm_compute. reflexivity. Qed.
Example decode_example : decode (codes "111111111125Q") = Some [0; 0; 0; 0; 0; 0; 0; 1; 255].
Proof. vm_compute. reflexivity. Qed.

(** * Properties *)

(** ** Digits *)

(** Base-58 digits, least significant first, and their value. *)
Fixpoint d58 (n : nat) (z : Z) : list Z :=
  match n with
  | O => []
  | S n => z mod 58 :: d58 n (z / 58)
  end.
Fixpoint v58 (l : list Z) : Z :=
  match l with
  | [] => 0
  | d :: l => d + 58 * v58 l
  end.
Abbreviation digits := (Forall (fun d => 0 <= d < 58)).

Lemma length_d58 n z : length (d58 n z) = n.
Proof. revert z. induction n as [|n IH]; intros z; cbn; auto. Qed.

Lemma d58_digits n z : digits (d58 n z).
Proof.
  revert z. induction n as [|n IH]; intros z; cbn; constructor; auto.
  apply Z.mod_pos_bound. lia.
Qed.

Lemma v58_d58 n z : 0 <= z < 58 ^ Z.of_nat n -> v58 (d58 n z) = z.
Proof.
  revert z. induction n as [|n IH]; intros z Hz; cbn [d58 v58]; [lia|].
  rewrite Nat2Z.inj_succ, Z.pow_succ_r in Hz by lia.
  rewrite IH by (split; dlia). dlia.
Qed.

Lemma d58_v58 l : digits l -> d58 (length l) (v58 l) = l.
Proof.
  induction 1 as [|d l Hd Hl IH]; [done|]. cbn [length d58 v58].
  replace ((d + 58 * v58 l) / 58) with (v58 l) by dlia. rewrite IH. f_equal. dlia.
Qed.

Lemma v58_bound l : digits l -> 0 <= v58 l < 58 ^ Z.of_nat (length l).
Proof.
  induction 1 as [|d l Hd Hl IH]; cbn [length v58]; [lia|].
  rewrite Nat2Z.inj_succ, Z.pow_succ_r by lia. lia.
Qed.

Lemma d58_zero n : d58 n 0 = repeat 0 n.
Proof. induction n as [|n IH]; [done|]. cbn. by rewrite <- IH. Qed.

(** ** The alphabet *)

Lemma forall_digit (P : Z -> bool) :
  forallb P (seqZ 0 58) = true -> forall d, 0 <= d < 58 -> P d = true.
Proof.
  intros H d Hd. rewrite forallb_forall in H. apply H.
  rewrite <- list_elem_of_In. apply elem_of_seqZ. lia.
Qed.

Lemma reverse_alpha d : 0 <= d < 58 -> reverse_alphabet (alpha d) = d.
Proof.
  intros Hd. apply Z.eqb_eq. revert d Hd.
  apply (forall_digit (fun d => reverse_alphabet (alpha d) =? d)). by vm_compute.
Qed.

Lemma alpha_byte d : 0 <= d < 58 -> is_u8 (alpha d).
Proof.
  intros Hd. assert (H : (0 <=? alpha d) && (alpha d <? 256) = true).
  { revert d Hd. apply (forall_digit (fun d => (0 <=? alpha d) && (alpha d <? 256))).
    by vm_compute. }
  unfold word. lia.
Qed.

(** A letter that is accepted is the letter of the digit it stands for. *)
Lemma alpha_reverse c :
  is_u8 c -> reverse_alphabet c < 0 \/
  (0 <= reverse_alphabet c < 58 /\ alpha (reverse_alphabet c) = c).
Proof.
  intros Hc.
  assert (H : (reverse_alphabet c <? 0) || ((0 <=? reverse_alphabet c) && (reverse_alphabet c <? 58)
     && (alpha (reverse_alphabet c) =? c)) = true).
  { revert c Hc. apply (forall_u8 (fun c => (reverse_alphabet c <? 0) ||
      ((0 <=? reverse_alphabet c) && (reverse_alphabet c <? 58)
       && (alpha (reverse_alphabet c) =? c)))). by vm_compute. }
  lia.
Qed.

(** ** Words and bytes *)

Lemma uint_8be_to_64_step n acc l :
  bytes l -> 0 <= acc < 256 ^ Z.of_nat n -> (n + length l <= 8)%nat ->
  fold_left (fun res b => Z.lor (u64 (Z.shiftl res 8)) b) l acc =
  acc * 256 ^ Z.of_nat (length l) + be_val l.
Proof.
  intros Hl. revert n acc. induction Hl as [|b l Hb Hl IH]; intros n acc Ha Hn.
  - cbn. lia.
  - cbn [fold_left length] in *. rewrite be_val_cons, pow256_S.
    assert (Hs : 256 ^ Z.of_nat (S n) <= 2 ^ 64).
    { change (2 ^ 64) with (256 ^ 8). apply Z.pow_le_mono_r; lia. }
    rewrite pow256_S in Hs.
    rewrite Z.shiftl_mul_pow2, wrap_small by (unfold word; lia).
    rewrite lor_high_low by (done || lia).
    rewrite (IH (S n)) by (rewrite ?pow256_S; words; lia). lia.
Qed.

Lemma uint_8be_to_64_val l : bytes l -> (length l <= 8)%nat -> uint_8be_to_64 l = be_val l.
Proof.
  intros Hl Hn. unfold uint_8be_to_64. rewrite (uint_8be_to_64_step 0) by (done || lia). lia.
Qed.

Lemma le_bytes_be_val l : bytes l -> le_bytes (length l) (be_val l) = rev l.
Proof. intros Hl. unfold be_val. rewrite <- length_rev. apply le_bytes_le_val. by apply bytes_rev. Qed.

Lemma uint_64_to_8be_bytes num n :
  is_u64 num -> (n <= 8)%nat -> uint_64_to_8be num n = be_bytes n num.
Proof.
  intros Hnum Hn. unfold uint_64_to_8be. rewrite SWAP64_swap64, swap64_be_val by done.
  rewrite <- (length_le_bytes 8 num) at 2.
  rewrite le_bytes_be_val by apply le_bytes_bytes.
  rewrite skipn_rev, length_le_bytes, take_le_bytes by lia. unfold be_bytes.
  do 2 f_equal. lia.
Qed.

(** ** Blocks *)

(** The letters of the [n] base-58 digits of a number, most significant first. *)
Definition letters58 (n : nat) (z : Z) : list Z := map alpha (rev (d58 n z)).

Lemma encode_loop_spec m : forall fuel num tail,
  0 <= num < 58 ^ Z.of_nat m -> (m < fuel)%nat ->
  encode_loop fuel num (Z.of_nat m - 1) (repeat (alpha 0) m ++ tail) =
  Some (letters58 m num ++ tail).
Proof.
  unfold letters58. induction m as [|m IH]; intros fuel num tail Hn Hf; (destruct fuel as [|fuel]; [lia|]).
  - replace num with 0 by lia. done.
  - cbn [encode_loop]. destruct (Z.ltb_spec 0 num) as [H0|H0].
    + rewrite Nat2Z.inj_succ, Z.pow_succ_r in Hn by lia.
      replace (Z.of_nat (S m) - 1) with (Z.of_nat m) by lia.
      destruct (Z.leb_spec 0 (Z.of_nat m)); [|lia]. cbn [andb].
      destruct (Z.ltb_spec (Z.of_nat m) (Z.of_nat (length (repeat (alpha 0) (S m) ++ tail))));
        [|rewrite length_app, repeat_length in *; lia].
      replace (S m) with (m + 1)%nat at 1 by lia. rewrite repeat_app, <- app_assoc. cbn [repeat app].
      rewrite Nat2Z.id, insert_app_r_alt by (rewrite repeat_length; lia).
      rewrite repeat_length, Nat.sub_diag. cbn [insert list_insert].
      rewrite IH by (unfold alphabet_size; try split; dlia). f_equal.
      cbn [d58 rev]. rewrite map_app, <- app_assoc. done.
    + replace num with 0 by lia. rewrite d58_zero.
      replace (rev (repeat 0 (S m))) with (repeat 0 (S m)); [by rewrite map_repeat|].
      symmetry. apply rev_repeat.
Qed.

(** An encoded block has room for the number it encodes, and a number of one
    byte more would not fit. *)
Lemma encoded_size_fits n : (n <= 8)%nat -> 256 ^ Z.of_nat n <= 58 ^ Z.of_nat (encoded_size n).
Proof. intros Hn. do 9 (destruct n as [|n]; [by vm_compute|]). lia. Qed.

Lemma encoded_size_bound n : (n <= 8)%nat -> (encoded_size n < 64)%nat.
Proof. intros Hn. do 9 (destruct n as [|n]; [cbn; lia|]). lia. Qed.

Lemma encode_block_spec block :
  bytes block -> (length block <= 8)%nat ->
  encode_block block (repeat (alpha 0) (encoded_size (length block))) =
  Some (letters58 (encoded_size (length block)) (be_val block)).
Proof.
  intros Hb Hn. unfold encode_block. rewrite uint_8be_to_64_val by done.
  rewrite <- (app_nil_r (repeat _ _)), encode_loop_spec; [by rewrite app_nil_r| |].
  - pose proof (be_val_bound block Hb). pose proof (encoded_size_fits _ Hn). lia.
  - by apply encoded_size_bound.
Qed.

Lemma decode_loop_digit d letters acc order :
  0 <= d < 58 -> is_u64 acc -> is_u64 order ->
  decode_loop (alpha d :: letters) acc order =
  if acc + order * d <? 2 ^ 64
  then decode_loop letters (acc + order * d) (order *w alphabet_size) else None.
Proof.
  intros Hd Ha Ho. cbn [decode_loop]. rewrite reverse_alpha by done.
  destruct (Z.ltb_spec d 0); [lia|].
  pose proof (mul128_spec order d Ho ltac:(words; lia)) as Hm.
  destruct (mul128 order d) as [lo hi]. destruct Hm as (Hlo & Hhi & E & _).
  assert (0 <= order * d) by (words; nia).
  destruct (Z.ltb_spec (acc + order * d) (2 ^ 64)) as [Hlt|Hge].
  - assert (hi = 0) as -> by (words; nia). replace lo with (order * d) by lia.
    rewrite wrap_small by (words; lia).
    destruct (Z.ltb_spec (acc + order * d) acc); [lia|]. done.
  - destruct (Z.eqb_spec 0 hi) as [<-|]; [|by rewrite orb_true_r].
    replace lo with (order * d) in * by lia.
    replace (acc +w order * d <? acc) with true; [done|]. symmetry. words. dlia.
Qed.

Lemma decode_loop_spec ds : digits ds -> forall k acc,
  (k + length ds <= 11)%nat -> is_u64 acc ->
  decode_loop (map alpha ds) acc (u64 (58 ^ Z.of_nat k)) =
  if acc + 58 ^ Z.of_nat k * v58 ds <? 2 ^ 64
  then Some (acc + 58 ^ Z.of_nat k * v58 ds) else None.
Proof.
  induction 1 as [|d ds Hd Hds IH]; intros k acc Hk Ha; cbn [map v58 length] in *.
  - cbn [decode_loop]. rewrite Z.mul_0_r, Z.add_0_r. destruct (Z.ltb_spec acc (2 ^ 64)); words; [done|lia].
  - assert (Hp : 0 < 58 ^ Z.of_nat k < 2 ^ 64).
    { split; [lia|]. apply Z.le_lt_trans with (58 ^ 10); [|lia]. apply Z.pow_le_mono_r; lia. }
    rewrite (wrap_small 64 (58 ^ _)) by (unfold word; lia).
    rewrite decode_loop_digit by (unfold word in *; lia).
    pose proof (v58_bound ds Hds). set (p := 58 ^ Z.of_nat k) in *.
    destruct (Z.ltb_spec (acc + p * d) (2 ^ 64)) as [Hlt|Hge].
    + assert (Ho : p *w alphabet_size = u64 (58 ^ Z.of_nat (S k))).
      { rewrite Nat2Z.inj_succ, Z.pow_succ_r by lia. unfold alphabet_size, p. f_equal. lia. }
      rewrite Ho, IH by (unfold word in *; nia || lia).
      rewrite Nat2Z.inj_succ, Z.pow_succ_r by lia. fold p.
      replace (acc + p * d + 58 * p * v58 ds) with (acc + p * (d + 58 * v58 ds)) by lia. done.
    + destruct (Z.ltb_spec (acc + p * (d + 58 * v58 ds)) (2 ^ 64)); [nia|done].
Qed.

Lemma decode_loop_invalid letters acc order num :
  bytes letters -> decode_loop letters acc order = Some num ->
  exists ds, digits ds /\ letters = map alpha ds.
Proof.
  intros Hb. revert acc order. induction Hb as [|c letters Hc Hb IH]; intros acc order E.
  - exists []. by split; [constructor|].
  - cbn [decode_loop] in E. destruct (alpha_reverse c Hc) as [Hneg|[Hr Ec]].
    + destruct (Z.ltb_spec (reverse_alphabet c) 0); [done|lia].
    + destruct (Z.ltb_spec (reverse_alphabet c) 0); [lia|].
      destruct (mul128 order (reverse_alphabet c)) as [lo hi].
      case_match; [done|]. apply IH in E as (ds & Hds & ->).
      exists (reverse_alphabet c :: ds). split; [by constructor|]. cbn [map]. by rewrite Ec.
Qed.

(** [e] is the encoding of the block [b]. *)
Definition block_enc (b e : list Z) : Prop :=
  (1 <= length b <= 8)%nat /\ bytes b /\ e = letters58 (encoded_size (length b)) (be_val b).

Lemma length_letters58 n z : length (letters58 n z) = n.
Proof. unfold letters58. by rewrite length_map, length_rev, length_d58. Qed.

Lemma block_enc_length b e : block_enc b e -> length e = encoded_size (length b).
Proof. intros (_ & _ & ->). apply length_letters58. Qed.

Lemma letters58_bytes n z : bytes (letters58 n z).
Proof.
  unfold letters58. apply Forall_fmap. apply (Forall_impl (fun d => 0 <= d < 58)).
  - apply Forall_rev, d58_digits.
  - intros d Hd. by apply alpha_byte.
Qed.

Lemma decoded_encoded_size n : (n <= 8)%nat -> decoded_block_sizes (encoded_size n) = Z.of_nat n.
Proof. intros Hn. do 9 (destruct n as [|n]; [by vm_compute|]). lia. Qed.

(** The decoded sizes the table knows are those of the encoded sizes. *)
Lemma decoded_size_cases m :
  decoded_block_sizes m < 0 \/
  exists n, (n <= 8)%nat /\ m = encoded_size n /\ decoded_block_sizes m = Z.of_nat n.
Proof.
  destruct (Nat.leb_spec 12 m) as [Hm|Hm].
  { left. unfold decoded_block_sizes. rewrite nth_overflow; [lia|]. exact Hm. }
  assert (H : (decoded_block_sizes m <? 0) || existsb (fun n => m =? encoded_size n)%nat (seq 0 9) = true).
  { assert (Hall : forallb (fun m => (decoded_block_sizes m <? 0) ||
      existsb (fun n => m =? encoded_size n)%nat (seq 0 9)) (seq 0 12) = true) by by vm_compute.
    rewrite forallb_forall in Hall. apply Hall, in_seq. lia. }
  apply orb_true_iff in H as [H|H]; [left; lia|right].
  apply existsb_exists in H as (n & Hn & ->%Nat.eqb_eq). apply in_seq in Hn.
  exists n. split; [lia|]. split; [done|]. apply decoded_encoded_size. lia.
Qed.

(** The last test of [decode_block]: the number fits the bytes of the block. *)
Lemma decode_block_digits n ds :
  (1 <= n <= 8)%nat -> length ds = encoded_size n -> digits ds ->
  decode_block (map alpha (rev ds)) =
  if v58 ds <? 256 ^ Z.of_nat n then Some (be_bytes n (v58 ds)) else None.
Proof.
  intros Hn Hl Hds. unfold decode_block. rewrite length_map, length_rev, Hl.
  rewrite decoded_encoded_size by lia. destruct (Z.leb_spec (Z.of_nat n) 0); [lia|].
  rewrite <- map_rev, rev_involutive. change 1 with (u64 (58 ^ Z.of_nat 0)).
  assert (He : (encoded_size n <= 11)%nat)
    by (clear -Hn; do 9 (destruct n as [|n]; [cbn; lia|]); lia).
  rewrite decode_loop_spec by (done || lia || (unfold word; lia)).
  change (58 ^ Z.of_nat 0) with 1. rewrite Z.add_0_l, Z.mul_1_l.
  pose proof (v58_bound ds Hds).
  assert (Hp : 256 ^ Z.of_nat n <= 2 ^ 64)
    by (change (2 ^ 64) with (256 ^ 8); apply Z.pow_le_mono_r; lia).
  destruct (Z.ltb_spec (v58 ds) (2 ^ 64)) as [Hlt|Hge]; cbn [mbind option_bind].
  - rewrite Z.shiftl_mul_pow2, Z.mul_1_l by lia.
    replace (2 ^ (8 * Z.of_nat n)) with (256 ^ Z.of_nat n) by (rewrite Z.pow_mul_r; lia || done).
    unfold full_block_size. rewrite Nat2Z.id, uint_64_to_8be_bytes by (unfold word; lia).
    destruct (Z.ltb_spec (Z.of_nat n) (Z.of_nat 8)) as [Hs|Hs]; cbn [andb].
    + destruct (Z.leb_spec (256 ^ Z.of_nat n) (v58 ds)), (Z.ltb_spec (v58 ds) (256 ^ Z.of_nat n));
        done || lia.
    + assert (n = 8%nat) as -> by lia. destruct (Z.ltb_spec (v58 ds) (256 ^ Z.of_nat 8)); [done|lia].
  - destruct (Z.ltb_spec (v58 ds) (256 ^ Z.of_nat n)); [lia|done].
Qed.

Lemma decode_block_iff e b :
  bytes e -> decode_block e = Some b <-> block_enc b e.
Proof.
  intros He. split.
  - intros E. assert (E' := E). unfold decode_block in E'.
    destruct (decoded_size_cases (length e)) as [Hneg|(n & Hn & Hl & Hd)].
    { destruct (Z.leb_spec (decoded_block_sizes (length e)) 0); [done|lia]. }
    rewrite Hd in E'. destruct (Z.leb_spec (Z.of_nat n) 0); [done|].
    destruct (decode_loop (rev e) 0 1) as [num|] eqn:El; [|done]. clear E'.
    apply decode_loop_invalid in El as (ds & Hds & Ee); [|by apply bytes_rev].
    assert (e = map alpha (rev ds)) as -> by (by rewrite map_rev, <- Ee, rev_involutive).
    rewrite length_map, length_rev in Hl. rewrite (decode_block_digits n) in E by (done || lia).
    destruct (Z.ltb_spec (v58 ds) (256 ^ Z.of_nat n)) as [Hlt|]; [|done]. injection E as <-.
    pose proof (v58_bound ds Hds).
    split; [rewrite length_be_bytes; lia|]. split; [apply be_bytes_bytes|].
    rewrite length_be_bytes, be_val_be_bytes, Z.mod_small, <- Hl by lia.
    unfold letters58. by rewrite d58_v58.
  - intros (Hn & Hb & ->). pose proof (be_val_bound b Hb).
    pose proof (encoded_size_fits (length b) ltac:(lia)).
    unfold letters58. rewrite (decode_block_digits (length b))
      by (rewrite ?length_d58; auto using d58_digits).
    rewrite v58_d58 by lia. destruct (Z.ltb_spec (be_val b) (256 ^ Z.of_nat (length b))); [|lia].
    by rewrite be_bytes_be_val.
Qed.

(** ** Strings *)

(** The loops over blocks, as maps over the block numbers: each block writes a
    segment of [w] bytes of a buffer that was filled with [c]. *)
Lemma for_blocks_mapM (g : nat -> list Z -> option (list Z)) w c n : forall i pre tail,
  (forall j seg, (i <= j < i + n)%nat -> g j (repeat c w) = Some seg -> length seg = w) ->
  length pre = (i * w)%nat ->
  for_blocks n i (fun i buf => seg ← g i (slice (i * w) w buf); Some (splice (i * w) seg buf))
    (pre ++ repeat c (n * w) ++ tail) =
  (segs ← mapM (fun i => g i (repeat c w)) (seq i n); Some (pre ++ concat segs ++ tail)).
Proof.
  induction n as [|n IH]; intros i pre tail Hg Hp; [done|].
  cbn [for_blocks seq mapM Nat.mul]. rewrite repeat_app, <- (app_assoc (repeat c w)).
  replace (slice (i * w) w (pre ++ repeat c w ++ repeat c (n * w) ++ tail)) with (repeat c w).
  2: { unfold slice. rewrite drop_app_length' by done.
       by rewrite take_app_length' by (by rewrite repeat_length). }
  destruct (g i (repeat c w)) as [seg|] eqn:E; [|done]. cbn [mbind option_bind].
  apply Hg in E as Hw; [|lia]. unfold splice. rewrite take_app_length' by done.
  replace (drop (i * w + length seg) (pre ++ repeat c w ++ repeat c (n * w) ++ tail))
    with (repeat c (n * w) ++ tail).
  2: { rewrite (app_assoc pre). symmetry. apply drop_app_length'.
       rewrite length_app, repeat_length. lia. }
  rewrite (app_assoc pre seg).
  rewrite IH; [|intros j ? ?; apply Hg; lia|rewrite length_app; lia].
  destruct (mapM _ _) as [segs|]; [|done]. cbn. by rewrite <- !app_assoc.
Qed.

(** Cutting a concatenation of blocks of [w] bytes gives the blocks back. *)
Lemma mapM_slices (f : list Z -> option (list Z)) w bs es : forall i pre tail,
  Forall2 (fun b e => length b = w /\ f b = Some e) bs es -> length pre = (i * w)%nat ->
  mapM (fun i => f (slice (i * w) w (pre ++ concat bs ++ tail))) (seq i (length bs)) = Some es.
Proof.
  intros i pre tail H. revert i pre. induction H as [|b e bs es [Hb Hf] H IH]; intros i pre Hp; [done|].
  cbn [length seq mapM concat]. rewrite <- (app_assoc b).
  replace (slice (i * w) w (pre ++ b ++ concat bs ++ tail)) with b.
  2: { unfold slice. rewrite drop_app_length' by done. by rewrite take_app_length'. }
  rewrite Hf. cbn [mbind option_bind]. rewrite (app_assoc pre b).
  rewrite IH by (rewrite length_app; lia). done.
Qed.

Lemma concat_slices w n (l : list Z) :
  (n * w <= length l)%nat -> concat (map (fun i => slice (i * w) w l) (seq 0 n)) = take (n * w) l.
Proof.
  induction n as [|n IH]; intros Hn; [done|].
  rewrite seq_S, map_app, concat_app, IH by lia. cbn. rewrite app_nil_r. unfold slice.
  rewrite <- (take_drop (n * w) (take (w + n * w) l)), take_take, Nat.min_l by lia.
  f_equal. rewrite (Nat.add_comm w), <- take_drop_commute. done.
Qed.

(** The encoding as a relation: blocks of eight bytes, each encoded on its own,
    and at most one shorter block at the end. *)
Definition Enc (data enc : list Z) : Prop :=
  exists bs es lb le,
    Forall2 (fun b e => length b = 8%nat /\ block_enc b e) bs es /\
    data = concat bs ++ lb /\ enc = concat es ++ le /\
    ((lb = [] /\ le = []) \/ (block_enc lb le /\ (length lb < 8)%nat)).

Lemma block_enc_8 b e : length b = 8%nat -> block_enc b e -> length e = 11%nat.
Proof. intros Hb He. apply block_enc_length in He. rewrite Hb in He. done. Qed.

Lemma Enc_lengths bs es :
  Forall2 (fun b e => length b = 8%nat /\ block_enc b e) bs es ->
  length (concat bs) = (length bs * 8)%nat /\ length (concat es) = (length bs * 11)%nat /\
  length es = length bs.
Proof.
  induction 1 as [|b e bs es [Hb He] H (IH1 & IH2 & IH3)]; [done|].
  apply block_enc_8 in He; [|done]. cbn. rewrite !length_app. lia.
Qed.

Lemma divmod_blocks n w r : (r < w)%nat -> ((n * w + r) / w = n)%nat /\ ((n * w + r) mod w = r)%nat.
Proof.
  intros Hr. split.
  - rewrite Nat.div_add_l, (Nat.div_small r) by lia. lia.
  - rewrite Nat.add_comm, Nat.Div0.mod_add. by apply Nat.mod_small.
Qed.

Lemma encode_loop_length fuel num i res res' :
  encode_loop fuel num i res = Some res' -> length res' = length res.
Proof.
  revert num i res. induction fuel as [|fuel IH]; intros num i res; cbn [encode_loop]; [done|].
  destruct (0 <? num); [|by intros [= <-]].
  destruct (_ && _); [|done]. intros ->%IH. apply length_insert.
Qed.

Lemma block_enc_encode b e :
  block_enc b e -> encode_block b (repeat (alpha 0) (encoded_size (length b))) = Some e.
Proof. intros (Hl & Hb & ->). apply encode_block_spec; [done|lia]. Qed.

(** The last, shorter block written after the segments of the full ones. *)
Lemma splice_tail n w (segs seg tail : list Z) :
  length segs = (n * w)%nat -> length tail = length seg ->
  splice (n * w) seg (segs ++ tail) = segs ++ seg.
Proof.
  intros Hs Ht. unfold splice. rewrite take_app_length' by done. f_equal.
  rewrite drop_ge; [apply app_nil_r|]. rewrite length_app. lia.
Qed.

Lemma slice_tail n w (segs tail : list Z) :
  length segs = (n * w)%nat -> slice (n * w) (length tail) (segs ++ tail) = tail.
Proof. intros Hs. unfold slice. rewrite drop_app_length' by done. by apply take_ge. Qed.

Lemma encode_eq data : encode data = encode_body data.
Proof. by destruct data. Qed.
Lemma decode_eq enc : decode enc = decode_body enc.
Proof. by destruct enc. Qed.

Lemma Enc_encode data enc : Enc data enc -> encode data = Some enc.
Proof.
  intros (bs & es & lb & le & Hf & -> & -> & Hlast).
  destruct (Enc_lengths _ _ Hf) as (Hbs & Hes & Hl).
  assert (Hlb : (length lb < 8)%nat) by (destruct Hlast as [[-> _]|[_ ?]]; cbn; lia).
  rewrite encode_eq. unfold encode_body, full_block_size, full_encoded_block_size. cbv zeta. rewrite length_app, Hbs.
  destruct (divmod_blocks (length bs) 8 (length lb) Hlb) as [-> ->].
  rewrite repeat_app, <- (app_nil_l (repeat _ _ ++ _)).
  rewrite (for_blocks_mapM (fun i => encode_block (slice (i * 8) 8 (concat bs ++ lb))) 11); [|..|done].
  2: { intros j seg _ Hseg%encode_loop_length. by rewrite repeat_length in Hseg. }
  assert (Hm : mapM (fun i => encode_block (slice (i * 8) 8 (concat bs ++ lb)) (repeat (alpha 0) 11))
    (seq 0 (length bs)) = Some es).
  { apply (mapM_slices (fun b => encode_block b (repeat (alpha 0) 11)) 8 bs es 0 [] lb); [|done].
    apply (Forall2_impl _ _ _ _ Hf). intros b e [Hb He]. split; [done|].
    apply block_enc_encode in He. by rewrite Hb in He. }
  rewrite Hm.
  cbn [mbind option_bind app]. destruct Hlast as [[-> ->]|[He _]].
  { cbn. by rewrite !app_nil_r. }
  destruct (Nat.ltb_spec 0 (length lb)); [|destruct He; lia].
  rewrite slice_tail by done. pose proof (block_enc_length _ _ He) as Hle.
  rewrite <- (repeat_length (alpha 0) (encoded_size (length lb))) at 1.
  rewrite slice_tail by done.
  rewrite (block_enc_encode _ _ He). cbn [mbind option_bind].
  rewrite splice_tail; [done..|by rewrite repeat_length].
Qed.

Lemma block_enc_bytes b e : block_enc b e -> bytes e.
Proof. intros (_ & _ & ->). apply letters58_bytes. Qed.

Lemma block_enc_decode b e : block_enc b e -> decode_block e = Some b.
Proof. intros He. apply decode_block_iff; [by eapply block_enc_bytes|done]. Qed.

Lemma encoded_size_small n : (n < 8)%nat -> (n <= encoded_size n < 11)%nat.
Proof. intros Hn. do 8 (destruct n as [|n]; [cbn; lia|]). lia. Qed.

Lemma Enc_decode data enc : Enc data enc -> decode enc = Some data.
Proof.
  intros (bs & es & lb & le & Hf & -> & -> & Hlast).
  destruct (Enc_lengths _ _ Hf) as (Hbs & Hes & Hl).
  assert (Hlb : (length lb < 8)%nat) by (destruct Hlast as [[-> _]|[_ ?]]; cbn; lia).
  assert (Hle : length le = encoded_size (length lb)).
  { destruct Hlast as [[-> ->]|[He _]]; [done|by apply block_enc_length]. }
  assert (Hle11 : (length le < 11)%nat).
  { rewrite Hle. by apply encoded_size_small. }
  rewrite decode_eq. unfold decode_body, full_block_size, full_encoded_block_size. cbv zeta.
  rewrite length_app, Hes. destruct (divmod_blocks (length bs) 11 (length le) Hle11) as [-> ->].
  assert (Hd : decoded_block_sizes (length le) = Z.of_nat (length lb))
    by (rewrite Hle; apply decoded_encoded_size; lia).
  rewrite Hd.
  destruct (Z.ltb_spec (Z.of_nat (length lb)) 0); [lia|]. rewrite Nat2Z.id.
  assert (Hm : mapM (fun i => decode_block (slice (i * 11) 11 (concat es ++ le))) (seq 0 (length bs))
    = Some bs).
  { rewrite <- Hl. apply (mapM_slices decode_block 11 es bs 0 [] le); [|done].
    apply Forall2_flip, (Forall2_impl _ _ _ _ Hf). intros b e [Hb He].
    split; [by eapply block_enc_8|by apply block_enc_decode]. }
  rewrite repeat_app, <- (app_nil_l (repeat _ _ ++ _)).
  rewrite (for_blocks_mapM (fun i _ => decode_block (slice (i * 11) 11 (concat es ++ le))) 8); [|..|done].
  2: { intros j seg Hj Hseg. apply mapM_Some_1 in Hm.
       destruct (Forall2_lookup_l _ _ _ j j Hm) as (b & Hb & Eb); [apply lookup_seq_lt; lia|].
       cbn in Eb. simplify_eq. by destruct (Forall2_lookup_l _ _ _ _ _ Hf Hb) as (? & _ & ? & _). }
  rewrite Hm. cbn [mbind option_bind app]. destruct Hlast as [[-> ->]|[He _]].
  { cbn. by rewrite !app_nil_r. }
  destruct (Nat.ltb_spec 0 (length le)) as [_|Hz].
  2: { destruct He as [He _]. rewrite Hle in Hz. pose proof (encoded_size_small _ Hlb). lia. }
  rewrite slice_tail by done. rewrite (block_enc_decode _ _ He). cbn [mbind option_bind].
  rewrite splice_tail; [done..|by rewrite repeat_length].
Qed.

Lemma letters58_alphabet n z : Forall (fun c => c ∈ alphabet) (letters58 n z).
Proof.
  unfold letters58. apply Forall_fmap. apply (Forall_impl (fun d => 0 <= d < 58)).
  - apply Forall_rev, d58_digits.
  - intros d Hd. apply list_elem_of_In, nth_In. change (length alphabet) with 58%nat. lia.
Qed.

Lemma Enc_bytes data enc : Enc data enc -> bytes data.
Proof.
  intros (bs & es & lb & le & Hf & -> & _ & Hlast). apply Forall_app. split.
  - clear Hlast. induction Hf as [|b e bs es [_ (_ & Hb & _)] Hf IH]; [done|]. by apply Forall_app.
  - by destruct Hlast as [[-> _]|[(_ & Hb & _) _]].
Qed.

Lemma Enc_alphabet data enc : Enc data enc -> Forall (fun c => c ∈ alphabet) enc.
Proof.
  intros (bs & es & lb & le & Hf & _ & -> & Hlast). apply Forall_app. split.
  - clear Hlast. induction Hf as [|b e bs es [_ (_ & _ & ->)] Hf IH]; [done|].
    apply Forall_app. split; [apply letters58_alphabet|done].
  - destruct Hlast as [[_ ->]|[(_ & _ & ->) _]]; [done|apply letters58_alphabet].
Qed.

Lemma slice_bytes off len l : bytes l -> bytes (slice off len l).
Proof. intros H. unfold slice. by apply Forall_take, Forall_drop. Qed.

Lemma length_slice off len (l : list Z) : (off + len <= length l)%nat -> length (slice off len l) = len.
Proof. intros H. unfold slice. rewrite length_take, length_drop. lia. Qed.

(** The full blocks of a string and its last block. *)
Lemma blocks_split w (l : list Z) :
  (0 < w)%nat ->
  l = concat (map (fun i => slice (i * w) w l) (seq 0 (length l / w))) ++ drop (length l / w * w) l /\
  length (drop (length l / w * w) l) = (length l mod w)%nat.
Proof.
  intros Hw. pose proof (Nat.div_mod_eq (length l) w) as Hdm. split.
  - rewrite concat_slices by lia. by rewrite take_drop.
  - rewrite length_drop. lia.
Qed.

Lemma block_enc_letters b :
  bytes b -> (1 <= length b <= 8)%nat -> block_enc b (letters58 (encoded_size (length b)) (be_val b)).
Proof. intros Hb Hl. split; [lia|done]. Qed.

Lemma Enc_total data : bytes data -> exists enc, Enc data enc.
Proof.
  intros Hb. destruct (blocks_split 8 data) as [Hs Hlast]; [lia|].
  set (bs := map _ _) in Hs. set (lb := drop _ _) in Hs, Hlast.
  assert (Hlb : (length lb < 8)%nat) by (rewrite Hlast; apply Nat.mod_upper_bound; lia).
  pose (enc b := letters58 (encoded_size (length b)) (be_val b)).
  exists (concat (map enc bs) ++ if decide (lb = []) then [] else enc lb), bs, (map enc bs), lb,
    (if decide (lb = []) then [] else enc lb).
  split; [|split; [done|split; [done|]]].
  - apply Forall2_fmap_r, Forall_Forall2_diag, Forall_fmap, Forall_forall. intros i Hi.
    apply elem_of_seq in Hi. assert (Hl : length (slice (i * 8) 8 data) = 8%nat).
    { apply length_slice. pose proof (Nat.div_mod_eq (length data) 8). nia. }
    split; [done|]. apply block_enc_letters; [by apply slice_bytes|lia].
  - case_decide as E; [by left|right]. split; [|done]. apply block_enc_letters.
    + by apply Forall_drop.
    + destruct lb; [done|]. cbn in *. lia.
Qed.

Lemma decode_full_block enc i b :
  bytes enc -> (i * 11 + 11 <= length enc)%nat -> decode_block (slice (i * 11) 11 enc) = Some b ->
  length b = 8%nat /\ block_enc b (slice (i * 11) 11 enc).
Proof.
  intros Hb Hi E. apply decode_block_iff in E; [|by apply slice_bytes]. split; [|done].
  apply block_enc_length in E as Hl. rewrite length_slice in Hl by done.
  destruct E as [[_ Hle] _]. destruct (decide (length b < 8)%nat) as [Hlt|]; [|lia].
  apply encoded_size_small in Hlt. lia.
Qed.

Lemma decode_full_blocks enc n bs :
  bytes enc -> (n * 11 <= length enc)%nat ->
  mapM (fun i => decode_block (slice (i * 11) 11 enc)) (seq 0 n) = Some bs ->
  Forall2 (fun b e => length b = 8%nat /\ block_enc b e) bs
    (map (fun i => slice (i * 11) 11 enc) (seq 0 n)).
Proof.
  intros Hb Hn H%mapM_Some_1. apply Forall2_fmap_r, Forall2_flip.
  apply (Forall2_same_length_lookup_2 _ _ _ (Forall2_length _ _ _ H)).
  intros i j b Hj Hbi. apply (Forall2_lookup_lr _ _ _ _ _ _ H Hj) in Hbi.
  apply lookup_seq in Hj as [-> Hj]. apply decode_full_block; [done|lia|done].
Qed.

Lemma decode_last_block le b m :
  bytes le -> (length le < 11)%nat -> decoded_block_sizes (length le) = Z.of_nat m ->
  decode_block le = Some b -> block_enc b le /\ (length b < 8)%nat /\ m = length b.
Proof.
  intros Hb Hl Hm E. apply decode_block_iff in E; [|done]. split; [done|].
  pose proof (block_enc_length _ _ E) as Hlb. destruct E as [[_ H8] _]. split.
  - destruct (decide (length b = 8)%nat) as [E|]; [|lia]. rewrite E in Hlb. cbn in Hlb. lia.
  - apply Nat2Z.inj. rewrite <- Hm, Hlb. by apply decoded_encoded_size.
Qed.

Lemma decode_Enc enc data : bytes enc -> decode enc = Some data -> Enc data enc.
Proof.
  intros Hb. destruct (blocks_split 11 enc) as [Hs Hlast]; [lia|].
  rewrite decode_eq. unfold decode_body, full_block_size, full_encoded_block_size. cbv zeta.
  assert (Hn : (length enc / 11 * 11 <= length enc)%nat)
    by (pose proof (Nat.div_mod_eq (length enc) 11); lia).
  set (n := (length enc / 11)%nat) in *. rewrite <- Hlast.
  assert (Hle11 : (length (drop (n * 11) enc) < 11)%nat)
    by (rewrite Hlast; apply Nat.mod_upper_bound; lia).
  destruct (decoded_size_cases (length (drop (n * 11) enc))) as [Hneg|(m & Hm & Hle & Hd)].
  { destruct (Z.ltb_spec (decoded_block_sizes (length (drop (n * 11) enc))) 0); [done|lia]. }
  rewrite Hd. destruct (Z.ltb_spec (Z.of_nat m) 0); [lia|]. rewrite Nat2Z.id.
  rewrite repeat_app, <- (app_nil_l (repeat _ _ ++ _)).
  rewrite (for_blocks_mapM (fun i _ => decode_block (slice (i * 11) 11 enc)) 8); [|..|done].
  2: { intros j seg Hj Hseg. apply decode_full_block in Hseg; [tauto|done|lia]. }
  destruct (mapM _ _) as [bs|] eqn:Hbs; [|done]. cbn [mbind option_bind app].
  apply decode_full_blocks in Hbs; [|done..].
  destruct (Enc_lengths _ _ Hbs) as (Hlbs & _ & Hlen).
  rewrite length_map, length_seq in Hlen. rewrite <- Hlen in Hlbs.
  destruct (Nat.ltb_spec 0 (length (drop (n * 11) enc))) as [Hpos|Hz].
  - assert (Hsl : slice (n * 11) (length (drop (n * 11) enc)) enc = drop (n * 11) enc)
      by by apply take_ge.
    rewrite Hsl. destruct (decode_block _) as [b|] eqn:Eb; [|done]. cbn [mbind option_bind].
    intros [= <-].
    destruct (decode_last_block _ _ _ (Forall_drop _ _ _ Hb) Hle11 Hd Eb) as (Henc & Hb8 & ->).
    rewrite splice_tail by (done || by rewrite repeat_length).
    eexists bs, _, b, _. split; [exact Hbs|]. split; [done|]. split; [exact Hs|]. by right.
  - intros [= <-]. assert (Hnil : drop (n * 11) enc = []) by (apply nil_length_inv; lia).
    rewrite Hnil in *. assert (m = 0%nat) as -> by (change (0 = Z.of_nat m) in Hd; lia).
    eexists bs, _, [], []. split; [exact Hbs|]. split; [done|]. split; [exact Hs|]. by left.
Qed.

(** Encoding then decoding a string: [encode] accepts every byte string, the
    result is printable (every character is in the alphabet), and [decode]
    gives the string back. *)
Theorem decode_encode data :
  bytes data ->
  exists enc, encode data = Some enc /\ decode enc = Some data /\ Forall (fun c => c ∈ alphabet) enc.
Proof.
  intros Hb. destruct (Enc_total data Hb) as [enc He]. exists enc.
  split; [by apply Enc_encode|]. split; [by apply Enc_decode|by eapply Enc_alphabet].
Qed.

Lemma decode_encode_witness :
  exists enc, encode [0; 255; 3] = Some enc /\ decode enc = Some [0; 255; 3] /\
    Forall (fun c => c ∈ alphabet) enc.
Proof. apply (decode_encode [0; 255; 3]). repeat constructor; words; lia. Defined.

(** The encoding is canonical: a string that [decode] accepts is the
    encoding of what it returns, so two different strings never decode to the
    same data. *)
Theorem encode_decode enc data :
  bytes enc -> decode enc = Some data -> encode data = Some enc.
Proof. intros Hb He. by apply Enc_encode, decode_Enc. Qed.

Lemma encode_decode_witness : encode [0; 0; 1] = Some (codes "11112").
Proof. apply encode_decode; [repeat constructor; words; lia|by vm_compute]. Defined.

(** ** Addresses *)

Section Addresses.
Context {HF : FastHash}.

Definition checksummed (buf : list Z) : list Z := buf ++ take addr_checksum_size (fast_hash buf).

Lemma checksummed_bytes buf : bytes buf -> bytes (checksummed buf).
Proof. intros Hb. apply Forall_app_2; [done|]. by apply Forall_take, fast_hash_bytes. Qed.

Lemma length_checksummed buf : bytes buf -> length (checksummed buf) = (length buf + addr_checksum_size)%nat.
Proof. intros Hb. unfold checksummed. by rewrite length_app, length_take, fast_hash_length. Qed.

Lemma varint_data_nonempty tag : 0 <= tag -> (0 < length (get_varint_data tag))%nat.
Proof.
  intros Ht. unfold get_varint_data. rewrite write_varint_eq by done.
  destruct (_ <=? _); cbn; lia.
Qed.

Lemma decode_addr_checksummed addr buf :
  bytes buf -> decode addr = Some (checksummed buf) -> (0 < length buf)%nat ->
  decode_addr addr =
  (let '(read, tag, _) := read_varint 64 buf in
   if read <=? 0 then None else Some (tag, drop (Z.to_nat read) buf)).
Proof.
  intros Hbs E Hb. unfold decode_addr. rewrite E. cbn [mbind option_bind].
  rewrite length_checksummed, Nat.add_sub by done.
  destruct (Nat.leb_spec (length buf + addr_checksum_size) addr_checksum_size); [lia|].
  unfold checksummed. rewrite take_app_length, drop_app_length.
  by rewrite bool_decide_eq_true_2.
Qed.

Lemma decode_addr_inv addr tag data :
  decode_addr addr = Some (tag, data) ->
  exists buf rest read, decode addr = Some (checksummed buf) /\
    read_varint 64 buf = (read, tag, rest) /\ 0 < read /\ data = drop (Z.to_nat read) buf.
Proof.
  unfold decode_addr. destruct (decode addr) as [l|]; [|done]. cbn [mbind option_bind].
  destruct (Nat.leb_spec (length l) addr_checksum_size); [done|].
  set (n := (length l - addr_checksum_size)%nat). case_bool_decide as Hc; [|done]. cbn [negb].
  destruct (read_varint 64 (take n l)) as [[read tag'] rest] eqn:Er.
  destruct (Z.leb_spec read 0); [done|]. intros [= <- <-].
  exists (take n l), rest, read. unfold checksummed. by rewrite Hc, take_drop.
Qed.

Lemma Enc_length data enc : Enc data enc ->
  length enc = (length data / 8 * 11 + encoded_size (length data mod 8))%nat.
Proof.
  intros (bs & es & lb & le & H & -> & -> & Hl). destruct (Enc_lengths bs es H) as (L1 & L2 & _).
  rewrite !length_app, L1, L2.
  assert (Hb : (length lb < 8)%nat) by (destruct Hl as [[-> _]|[_ ?]]; [cbn; lia|done]).
  destruct (divmod_blocks (length bs) 8 (length lb) Hb) as [-> ->]. f_equal.
  destruct Hl as [[-> ->]|[He _]]; [done|by apply block_enc_length].
Qed.

Lemma encode_addr_spec tag data :
  is_u64 tag -> bytes data ->
  exists addr, encode_addr tag data = Some addr /\ decode_addr addr = Some (tag, data) /\
    let n := (length (get_varint_data tag) + length data + 4)%nat in
    length addr = (n / 8 * 11 + encoded_size (n mod 8))%nat.
Proof.
  intros Ht Hd. set (buf := get_varint_data tag ++ data).
  pose proof (varint_data_nonempty tag (proj1 Ht)) as Hpos.
  assert (Hb : bytes buf) by (apply Forall_app_2; [apply write_varint_bytes, Ht|done]).
  destruct (Enc_total (checksummed buf)) as [addr Ha]; [by apply checksummed_bytes|].
  exists addr. split; [by apply Enc_encode|]. split.
  2: { rewrite (Enc_length _ _ Ha), length_checksummed by done. unfold buf. by rewrite length_app. }
  rewrite (decode_addr_checksummed _ buf); [|done|by apply Enc_decode|unfold buf; rewrite length_app; lia].
  unfold buf, get_varint_data in *. rewrite read_write_spec by (done || lia).
  destruct (Z.leb_spec (Z.of_nat (length (write_varint tag))) 0); [lia|].
  by rewrite Nat2Z.id, drop_app_length.
Qed.

(** Address round trip: [encode_addr] accepts every tag and payload, and
    [decode_addr] returns the tag and the payload it was given. *)
Theorem decode_encode_addr tag data :
  is_u64 tag -> bytes data ->
  exists addr, encode_addr tag data = Some addr /\ decode_addr addr = Some (tag, data).
Proof. intros Ht Hd. destruct (encode_addr_spec tag data Ht Hd) as (addr & ? & ? & _). by exists addr. Qed.

(** No malleable addresses: a string that [decode_addr] accepts with a
    payload that is not empty is the very string [encode_addr] gives for the
    tag and the payload. *)
Theorem encode_decode_addr addr tag data :
  bytes addr -> data <> [] -> decode_addr addr = Some (tag, data) ->
  encode_addr tag data = Some addr.
Proof.
  intros Ha Hne H. apply decode_addr_inv in H as (buf & rest & read & E & Er & Hr & Hd).
  assert (Hb : bytes buf).
  { apply decode_Enc, Enc_bytes in E; [|done]. by apply Forall_app in E as [? _]. }
  apply read_varint_consumed in Er as (p & -> & -> & Htag & Hp); [|done|lia..].
  rewrite Nat2Z.id, drop_app_length in Hd. subst rest.
  destruct Hp as [->|[-> _]]; [|done]. apply Enc_encode. by apply decode_Enc.
Qed.

End Addresses.

Lemma decode_encode_addr_witness :
  exists addr, encode_addr 18 [1; 2; 3] = Some addr /\ decode_addr addr = Some (18, [1; 2; 3]).
Proof. apply (decode_encode_addr 18 [1; 2; 3]); [words; lia|repeat constructor; words; lia]. Defined.

Lemma encode_decode_addr_witness : exists addr, encode_addr 18 [7] = Some addr.
Proof.
  exists (codes "19yj98Gsm"). apply encode_decode_addr; [repeat constructor; words; lia|done|].
  vm_compute. reflexivity.
Defined.

(** The payload of an accepted address can be a varint that is cut off: the
    byte [0x80] says that another one follows. *)
Example decode_addr_truncated :
  exists addr, encode (checksummed [0x80]) = Some addr /\ decode_addr addr = Some (0, []).
Proof. eexists. split; [vm_compute; reflexivity|vm_compute; reflexivity]. Qed.

End Base58.
