(* ===== verification/Median.v ===== *)
(** * Sorting and the median

    Model of [median] of [contrib/epee/include/misc_language.h], which the
    difficulty, the block size limit and the timestamp check use, and the lemmas
    on sorted lists that its clients share.  [std::sort] on integers is the
    stable merge sort of the library: a sorted permutation of a list of
    integers is unique. *)
From stdpp Require Import sorting.
From S2P Require Import Prelude.

Definition sort (v : list Z) : list Z := merge_sort Z.le v.

(** [type_vec_type] is [uint64_t] or [size_t] in every use. *)
Definition median (v : list Z) : Z :=
  match v with
  | [] => 0
  | [x] => x
  | _ =>
      let n := (length v / 2)%nat in
      let v := sort v in
      if negb (length v mod 2 =? 0)%nat then List.nth n v 0
      else (List.nth (n - 1) v 0 +w List.nth n v 0) / 2
  end.

Example median_example : median [9; 1; 4] = 4 /\ median [8; 1; 4; 2] = 3.
Proof. split; vm_compute; reflexivity. Qed.

(** * Properties *)

Lemma sort_perm v : sort v ≡ₚ v.
Proof. apply merge_sort_Permutation. Qed.

Lemma sort_sorted v : StronglySorted Z.le (sort v).
Proof. apply (StronglySorted_merge_sort _). Qed.

Lemma length_sort v : length (sort v) = length v.
Proof. apply Permutation_length, sort_perm. Qed.

Lemma sort_proper v v' : v ≡ₚ v' -> sort v = sort v'.
Proof.
  intros H. apply (StronglySorted_unique Z.le); try apply sort_sorted.
  by rewrite !sort_perm.
Qed.

#[export] Instance sort_Proper : Proper ((≡ₚ) ==> eq) sort := sort_proper.

Lemma sorted_sort v : StronglySorted Z.le v -> sort v = v.
Proof. intros H. apply (StronglySorted_unique Z.le); [apply sort_sorted|done|apply sort_perm]. Qed.

Lemma sorted_lookup_le v i j x y :
  StronglySorted Z.le v -> (i <= j)%nat -> v !! i = Some x -> v !! j = Some y -> x <= y.
Proof.
  intros Hs. revert i j. induction Hs as [|z v Hs IH Hz]; intros i j Hij Hx Hy; [done|].
  rewrite Forall_forall in Hz. destruct i as [|i]; cbn in Hx.
  - destruct j as [|j]; cbn in Hy; simplify_eq; [lia|]. apply Hz. by eapply list_elem_of_lookup_2.
  - destruct j as [|j]; [lia|]. cbn in Hy. apply (IH i j); [lia|done..].
Qed.

Lemma lookup_nth_lt (v : list Z) i : (i < length v)%nat -> v !! i = Some (List.nth i v 0).
Proof. intros Hi. destruct (nth_lookup_or_length v i 0); [done|lia]. Qed.

Lemma nth_sorted_le v i j :
  StronglySorted Z.le v -> (i <= j < length v)%nat -> List.nth i v 0 <= List.nth j v 0.
Proof.
  intros Hs Hij. apply (sorted_lookup_le v i j); [done|lia|..]; apply lookup_nth_lt; lia.
Qed.

(** The lower and the upper middle element of the sorted list. *)
Definition mid_lo (v : list Z) : Z := List.nth ((length v - 1) / 2) (sort v) 0.
Definition mid_hi (v : list Z) : Z := List.nth (length v / 2) (sort v) 0.

Lemma mid_lo_hi v : v <> [] -> mid_lo v <= mid_hi v.
Proof.
  intros Hv. apply nth_sorted_le; [apply sort_sorted|]. rewrite length_sort.
  destruct v; [done|]. cbn [length]. split; [apply Nat.Div0.div_le_mono; lia|].
  apply Nat.Div0.div_lt_upper_bound; lia.
Qed.

Lemma nth_sort_bound v i a b :
  Forall (fun x => a <= x < b) v -> (i < length v)%nat -> a <= List.nth i (sort v) 0 < b.
Proof.
  rewrite <- (sort_perm v) at 1. rewrite <- (length_sort v), Forall_lookup. intros H Hi.
  apply (H i). by apply lookup_nth_lt.
Qed.

Lemma median_mid v :
  Forall (fun x => 0 <= x < 2 ^ 63) v -> median v = (mid_lo v + mid_hi v) / 2.
Proof.
  intros Hv. destruct v as [|x [|y v]]; [done|..].
  { unfold mid_lo, mid_hi. cbn. replace (x + x) with (x * 2) by lia. by rewrite Z.div_mul. }
  unfold median, mid_lo, mid_hi. set (w := x :: y :: v) in *.
  assert (Hw : (2 <= length w)%nat) by (cbn; lia). clearbody w. rewrite length_sort.
  pose proof (Nat.div_mod_eq (length w) 2) as Hdm.
  pose proof (Nat.mod_upper_bound (length w) 2 ltac:(lia)) as Hm.
  destruct (Nat.eqb_spec (length w mod 2) 0) as [E|E]; cbn [negb].
  - replace ((length w - 1) / 2)%nat with (length w / 2 - 1)%nat.
    2: { apply (Nat.div_unique _ 2 _ 1); lia. }
    pose proof (nth_sort_bound w (length w / 2 - 1) _ _ Hv ltac:(lia)).
    pose proof (nth_sort_bound w (length w / 2) _ _ Hv ltac:(lia)).
    rewrite wrap_small by (unfold word; lia). done.
  - replace ((length w - 1) / 2)%nat with (length w / 2)%nat.
    2: { apply (Nat.div_unique _ 2 _ 0); lia. }
    rewrite Z.add_diag, Z.mul_comm, Z.div_mul by lia. done.
Qed.

Lemma median_bounds v :
  v <> [] -> Forall (fun x => 0 <= x < 2 ^ 63) v -> mid_lo v <= median v <= mid_hi v.
Proof.
  intros Hne Hv. rewrite median_mid by done. pose proof (mid_lo_hi v Hne). dlia.
Qed.

Lemma median_proper v v' : v ≡ₚ v' -> median v = median v'.
Proof.
  intros H. apply Permutation_length in H as Hl. apply sort_proper in H as Hs.
  destruct v as [|x [|y v]], v' as [|x' [|y' v']]; try done.
  - by apply Permutation_singleton_inj in H as [= ->].
  - unfold median. by rewrite Hs, Hl.
Qed.

#[export] Instance median_Proper : Proper ((≡ₚ) ==> eq) median := median_proper.

(** The number of elements of [v] that satisfy [f]. *)
Definition count (f : Z -> bool) (v : list Z) : nat := length (List.filter f v).

Lemma count_app f v w : count f (v ++ w) = (count f v + count f w)%nat.
Proof. unfold count. by rewrite List.filter_app, length_app. Qed.

Lemma count_all f v : Forall (fun x => f x = true) v -> count f v = length v.
Proof. unfold count. induction 1 as [|x v Hx Hv IH]; [done|]. cbn. rewrite Hx. cbn. by f_equal. Qed.

Lemma count_perm f v w : v ≡ₚ w -> count f v = count f w.
Proof.
  unfold count. induction 1; cbn; repeat case_match; cbn; congruence.
Qed.

(** [median] is a median: at least half of the elements are at most the
    result, and at least half are at least the result. *)
Theorem median_correct v :
  v <> [] -> Forall (fun x => 0 <= x < 2 ^ 63) v ->
  (length v <= 2 * count (fun x => x <=? median v)%Z v)%nat /\
  (length v <= 2 * count (fun x => median v <=? x)%Z v)%nat.
Proof.
  intros Hne Hv. pose proof (median_bounds v Hne Hv) as [Hlo Hhi].
  pose proof (Nat.div_mod_eq (length v) 2) as Hdm.
  pose proof (Nat.div_mod_eq (length v - 1) 2) as Hdm'.
  pose proof (Nat.mod_upper_bound (length v) 2 ltac:(lia)).
  pose proof (Nat.mod_upper_bound (length v - 1) 2 ltac:(lia)).
  assert (Hl : (0 < length v)%nat) by (destruct v; [done|cbn; lia]).
  rewrite <- !(count_perm _ _ _ (sort_perm v)). split.
  - rewrite <- (take_drop (S ((length v - 1) / 2)) (sort v)), count_app, count_all.
    { rewrite length_take, length_sort. lia. }
    apply Forall_lookup. intros i x [Hx Hi]%lookup_take_Some.
    apply Z.leb_le. transitivity (mid_lo v); [|done].
    eapply (sorted_lookup_le (sort v) i); [apply sort_sorted| |done|].
    2: { apply lookup_nth_lt. rewrite length_sort. lia. } lia.
  - rewrite <- (take_drop (length v / 2) (sort v)), count_app, (count_all _ (drop _ _)).
    { rewrite length_drop, length_sort. lia. }
    apply Forall_lookup. intros i x Hx. rewrite lookup_drop in Hx.
    apply Z.leb_le. transitivity (mid_hi v); [done|].
    eapply (sorted_lookup_le (sort v)); [apply sort_sorted| | |done].
    2: { apply lookup_nth_lt. rewrite length_sort. lia. } lia.
Qed.

Lemma median_correct_witness :
  (length [5; 1; 9; 7]%Z <= 2 * count (fun x => x <=? median [5; 1; 9; 7])%Z [5; 1; 9; 7]%Z)%nat /\
  (length [5; 1; 9; 7]%Z <= 2 * count (fun x => median [5; 1; 9; 7] <=? x)%Z [5; 1; 9; 7]%Z)%nat.
Proof. apply median_correct; [done|repeat constructor; lia]. Defined.
