(* ===== verification/Difficulty.v ===== *)
(** * Difficulty

    Model of [src/cryptonote_core/difficulty.cpp]: the comparison of a proof of
    work with a target, and the difficulty of the next block.

    A [std::vector] is a list; a read past its end is [None].  [assert] depends
    on the build: [ndebug] says whether it is compiled out. *)
From stdpp Require Import sorting.
From S2P Require Import Prelude IntUtil Median.
Import IntUtil.

Module Difficulty.

Definition DIFFICULTY_TARGET : Z := 60.
Definition DIFFICULTY_WINDOW : nat := 17.
Definition DIFFICULTY_CUT : nat := 6.
Definition DIFFICULTY_BLOCKS_COUNT : nat := DIFFICULTY_WINDOW + DIFFICULTY_CUT * 2.
Definition MAX_AVERAGE_TIMESPAN : Z := DIFFICULTY_TARGET * 6.
Definition MIN_AVERAGE_TIMESPAN : Z := DIFFICULTY_TARGET / 24.

(** ** Proof of work *)

(** [mul] on x86-64: [(low, high)]. *)
Definition mul (a b : Z) : Z * Z := mul128 a b.

(** [mul] on the other platforms. *)
Definition mul_portable (a b : Z) : Z * Z :=
  let aLow := Z.land a 0xFFFFFFFF in
  let aHigh := a >>w 32 in
  let bLow := Z.land b 0xFFFFFFFF in
  let bHigh := b >>w 32 in
  let res := aLow *w bLow in
  let lowRes1 := Z.land res 0xFFFFFFFF in
  let carry := res >>w 32 in
  let res := (aHigh *w bLow) +w carry in
  let highResHigh1 := res >>w 32 in
  let highResLow1 := Z.land res 0xFFFFFFFF in
  let res := aLow *w bHigh in
  let lowRes2 := Z.land res 0xFFFFFFFF in
  let carry := res >>w 32 in
  let res := (aHigh *w bHigh) +w carry in
  let highResHigh2 := res >>w 32 in
  let highResLow2 := Z.land res 0xFFFFFFFF in
  let r := highResLow1 +w lowRes2 in
  let carry := r >>w 32 in
  let low := Z.lor (r <<w 32) lowRes1 in
  let r := highResHigh1 +w highResLow2 +w carry in
  let d3 := Z.land r 0xFFFFFFFF in
  let carry := r >>w 32 in
  let r := highResHigh2 +w carry in
  let high := Z.lor d3 (r <<w 32) in
  (low, high).

Definition cadd (a b : Z) : bool := a +w b <? a.
Definition cadc (a b : Z) (c : bool) : bool := (a +w b <? a) || (c && (a +w b =? 2 ^ 64 - 1)).

(** [swap64le(((const uint64_t * ) &hash)[i])] on a little-endian machine. *)
Definition hash_word (hash : list Z) (i : nat) : Z := le_val (take 8 (drop (8 * i) hash)).

(** [check_hash] with the [mul] of the platform. *)
Definition check_hash_with (mul : Z -> Z -> Z * Z) (hash : list Z) (difficulty : Z) : bool :=
  let '(top, high) := mul (hash_word hash 3) difficulty in
  if negb (high =? 0) then false else
  let '(_, cur) := mul (hash_word hash 0) difficulty in
  let '(low, high) := mul (hash_word hash 1) difficulty in
  let carry := cadd cur low in
  let cur := high in
  let '(low, high) := mul (hash_word hash 2) difficulty in
  let carry := cadc cur low carry in
  let carry := cadc high top carry in
  negb carry.

Definition check_hash : list Z -> Z -> bool := check_hash_with mul.

(** ** The next difficulty *)

(** [v.resize(n)] of a vector of integers. *)
Definition resize (n : nat) (v : list Z) : list Z := take n v ++ repeat 0 (n - length v).

Definition cut_bounds (len : nat) : nat * nat :=
  if (len <=? DIFFICULTY_BLOCKS_COUNT - 2 * DIFFICULTY_CUT)%nat then (0, len)%nat
  else
    let cut_begin := ((len - (DIFFICULTY_BLOCKS_COUNT - 2 * DIFFICULTY_CUT) + 1) / 2)%nat in
    (cut_begin, cut_begin + (DIFFICULTY_BLOCKS_COUNT - 2 * DIFFICULTY_CUT))%nat.

Definition or_one (x : Z) : Z := if x =? 0 then 1 else x.

(** The loop that fills [time_spans]: the gaps from [from] to the last. *)
Definition time_spans (timestamps : list Z) (from : nat) : option (list Z) :=
  mapM (fun i => t1 ← timestamps !! (i + 1)%nat; t0 ← timestamps !! i; Some (or_one (t1 -w t0)))
    (seq from (length timestamps - 1 - from)).

(** The part of [next_difficulty] from [total_timespan] to the clamped
    [adjusted_total_timespan]; [timestamps] is sorted. *)
Definition adjusted_total_timespan (timestamps : list Z) (cut_begin cut_end : nat) : option Z :=
  let len := length timestamps in
  t_end ← timestamps !! (cut_end - 1)%nat;
  t_begin ← timestamps !! cut_begin;
  let total_timespan := or_one (t_end -w t_begin) in
  timespan_median ←
    (if (0 <? cut_begin)%nat && (cut_begin * 2 + 3 <=? len)%nat
     then spans ← time_spans timestamps (len - cut_begin * 2 - 3); Some (median spans)
     else Some 0);
  let timespan_length := Z.of_nat (len - cut_begin * 2 - 1) in
  let total_timespan_median :=
    if 0 <? timespan_median then timespan_median *w timespan_length
    else (total_timespan *w 7) / 10 in
  let adjusted := ((total_timespan *w 8) +w (total_timespan_median *w 3)) / 10 in
  let adjusted :=
    if MAX_AVERAGE_TIMESPAN *w timespan_length <? adjusted
    then MAX_AVERAGE_TIMESPAN *w timespan_length else adjusted in
  Some (if adjusted <? MIN_AVERAGE_TIMESPAN *w timespan_length
        then MIN_AVERAGE_TIMESPAN *w timespan_length else adjusted).

(** The division that ends [next_difficulty]. *)
Definition work_per_timespan (total_work target_seconds adjusted : Z) : Z :=
  let '(low, high) := mul total_work target_seconds in
  if negb (high =? 0) then 0 else
  let next_diff := (low +w adjusted -w 1) / Z.max adjusted 1 in
  if next_diff <? 1 then 1 else next_diff.

Section NextDifficulty.
Variable ndebug : bool.

Definition assert_ (c : bool) : option unit := if ndebug || c then Some tt else None.

Definition next_difficulty (timestamps cumulative_difficulties : list Z) (target_seconds : Z)
  : option Z :=
  let big := (DIFFICULTY_BLOCKS_COUNT <? length timestamps)%nat in
  let timestamps := if big then resize DIFFICULTY_BLOCKS_COUNT timestamps else timestamps in
  let cumulative_difficulties :=
    if big then resize DIFFICULTY_BLOCKS_COUNT cumulative_difficulties
    else cumulative_difficulties in
  let len := length timestamps in
  _ ← assert_ (len =? length cumulative_difficulties)%nat;
  if (len <=? 1)%nat then Some 1 else
  let timestamps := sort timestamps in
  let '(cut_begin, cut_end) := cut_bounds len in
  _ ← assert_ ((cut_begin + 2 <=? cut_end)%nat && (cut_end <=? len)%nat);
  adjusted ← adjusted_total_timespan timestamps cut_begin cut_end;
  w_end ← cumulative_difficulties !! (cut_end - 1)%nat;
  w_begin ← cumulative_difficulties !! cut_begin;
  let total_work := w_end -w w_begin in
  _ ← assert_ (0 <? total_work);
  Some (work_per_timespan total_work target_seconds adjusted).

End NextDifficulty.

Example next_difficulty_example :
  next_difficulty false (map (fun i => 60 * i) (seqZ 0 29)) (map (fun i => 1000 * i) (seqZ 0 29)) 60
  = Some 910.
Proof. vm_compute. reflexivity. Qed.

(** * Properties *)

(** ** Proof of work *)

(** What [check_hash] relies on: a full 64x64 -> 128 bit product. *)
Class WideMul (mul : Z -> Z -> Z * Z) := wide_mul a b :
  is_u64 a -> is_u64 b ->
  is_u64 (mul a b).1 /\ is_u64 (mul a b).2 /\ (mul a b).2 * 2 ^ 64 + (mul a b).1 = a * b.

#[export] Instance mul_WideMul : WideMul mul.
Proof.
  intros a b Ha Hb. unfold mul. pose proof (mul128_spec a b Ha Hb) as H.
  destruct (mul128 a b). cbn. tauto.
Qed.

(** Names the two halves of the word [z]. *)
Ltac halves z h l :=
  let H := fresh in
  assert (H : is_u32 (Z.shiftr z 32) /\ is_u32 (Z.land z 0xFFFFFFFF) /\
    z = Z.shiftr z 32 * 2 ^ 32 + Z.land z 0xFFFFFFFF)
    by (apply (dword_split z); words; lia);
  set (h := Z.shiftr z 32) in *; set (l := Z.land z 0xFFFFFFFF) in *;
  clearbody h l; destruct H as (? & ? & ?).

Lemma lor_shl32 h l : is_u32 h -> is_u32 l -> Z.lor (h <<w 32) l = h * 2 ^ 32 + l.
Proof.
  intros Hh Hl. rewrite shiftl32_mul, wrap_small by (words; lia).
  by apply lor_high_low.
Qed.

#[export] Instance mul_portable_WideMul : WideMul mul_portable.
Proof.
  intros a b Ha Hb. unfold mul_portable. pose proof (mul_bound a b _ _ Ha Hb) as Hab.
  halves a a1 a0. halves b b1 b0.
  pose proof (mul_u32 a0 b0 ltac:(done) ltac:(done)). pose proof (mul_u32 a1 b0 ltac:(done) ltac:(done)).
  pose proof (mul_u32 a0 b1 ltac:(done) ltac:(done)). pose proof (mul_u32 a1 b1 ltac:(done) ltac:(done)).
  rewrite !(wrap_small 64 (_ * _)) by (words; lia).
  halves (a0 * b0) c1 l1. rewrite (wrap_small 64 (a1 * b0 + c1)) by (words; lia).
  halves (a1 * b0 + c1) h2 l2. halves (a0 * b1) c3 l3.
  rewrite (wrap_small 64 (a1 * b1 + c3)) by (words; lia). halves (a1 * b1 + c3) h4 l4.
  rewrite (wrap_small 64 (l2 + l3)) by (words; lia). halves (l2 + l3) c5 l5.
  rewrite (wrap_small 64 (h2 + l4)), (wrap_small 64 (h2 + l4 + c5)) by (words; lia).
  halves (h2 + l4 + c5) c6 l6.
  assert (Hlow : Z.lor ((l2 + l3) <<w 32) l1 = l5 * 2 ^ 32 + l1).
  { rewrite <- lor_shl32 by done. f_equal. rewrite !shiftl32_mul. unfold wrap. words. dlia. }
  assert (Hprod : a * b = (h4 + c6) * 2 ^ 96 + l6 * 2 ^ 64 + l5 * 2 ^ 32 + l1) by (subst; lia).
  assert (is_u32 (h4 + c6)) by (words; lia).
  rewrite Hlow, (wrap_small 64 (h4 + c6)), Z.lor_comm, lor_shl32 by (done || (words; lia)).
  cbn [fst snd]. repeat split; words; lia.
Qed.

Lemma cadd_spec a b : is_u64 a -> is_u64 b -> cadd a b = (2 ^ 64 <=? a + b).
Proof. intros Ha Hb. unfold cadd. words. apply eq_true_iff_eq. rewrite Z.ltb_lt, Z.leb_le. dlia. Qed.

Lemma cadc_spec a b c :
  is_u64 a -> is_u64 b -> cadc a b c = (2 ^ 64 <=? a + b + Z.b2z c).
Proof.
  intros Ha Hb. unfold cadc. words. apply eq_true_iff_eq.
  rewrite orb_true_iff, andb_true_iff, Z.ltb_lt, Z.leb_le, Z.eqb_eq. destruct c; cbn [Z.b2z]; dlia.
Qed.

Lemma hash_word_u64 hash i : length hash = 32%nat -> bytes hash -> (i < 4)%nat -> is_u64 (hash_word hash i).
Proof.
  intros Hl Hb Hi. unfold hash_word. pose proof (le_val_bound (take 8 (drop (8 * i) hash))) as H.
  rewrite length_take, length_drop, Nat.min_l in H by lia. apply H. by apply Forall_take, Forall_drop.
Qed.

(** A hash as a 256-bit little-endian number. *)
Lemma hash_words hash :
  length hash = 32%nat ->
  le_val hash = hash_word hash 0 + 2 ^ 64 * (hash_word hash 1 +
    2 ^ 64 * (hash_word hash 2 + 2 ^ 64 * hash_word hash 3)).
Proof.
  intros Hl. do 33 (destruct hash as [|? hash]; try discriminate).
  unfold hash_word. cbn [take drop Nat.mul Nat.add le_val]. lia.
Qed.

Lemma check_hash_spec m `{!WideMul m} hash difficulty :
  length hash = 32%nat -> bytes hash -> is_u64 difficulty ->
  check_hash_with m hash difficulty = (le_val hash * difficulty <? 2 ^ 256).
Proof.
  intros Hl Hb Hd. rewrite hash_words by done. unfold check_hash_with.
  pose proof (hash_word_u64 hash 0 Hl Hb ltac:(lia)) as H0.
  pose proof (hash_word_u64 hash 1 Hl Hb ltac:(lia)) as H1.
  pose proof (hash_word_u64 hash 2 Hl Hb ltac:(lia)) as H2.
  pose proof (hash_word_u64 hash 3 Hl Hb ltac:(lia)) as H3.
  apply wide_mul with (b := difficulty) in H0, H1, H2, H3; [|done..].
  destruct (m (hash_word hash 0) difficulty) as [l0 h0].
  destruct (m (hash_word hash 1) difficulty) as [l1 h1].
  destruct (m (hash_word hash 2) difficulty) as [l2 h2].
  destruct (m (hash_word hash 3) difficulty) as [l3 h3]. cbn [fst snd] in *.
  destruct H0 as (? & ? & H0), H1 as (? & ? & H1), H2 as (? & ? & H2), H3 as (? & ? & H3).
  rewrite cadd_spec, !cadc_spec by done.
  replace (_ * difficulty) with
    (l0 + 2 ^ 64 * (h0 + l1 + 2 ^ 64 * (h1 + l2 + 2 ^ 64 * (h2 + l3 + 2 ^ 64 * h3)))) by lia.
  clear - H H4 H5 H6 H7 H8 H9 H10.
  destruct (Z.eqb_spec h3 0) as [->|Hh3]; cbn [negb].
  - destruct (Z.leb_spec (2 ^ 64) (h0 + l1)); cbn [Z.b2z];
    match goal with |- context [Z.b2z (?x <=? ?y)] => destruct (Z.leb_spec x y) end;
    cbn [Z.b2z]; words; lia.
  - symmetry. apply Z.ltb_ge. words. lia.
Qed.

(** [C11] A proof of work is accepted exactly when the hash, as a 256-bit
    little-endian number, times the difficulty stays below 2^256; the two
    platform-dependent multiplications give the same answer. *)
Theorem check_hash_correct hash difficulty :
  length hash = 32%nat -> bytes hash -> is_u64 difficulty ->
  check_hash hash difficulty = (le_val hash * difficulty <? 2 ^ 256) /\
  check_hash_with mul_portable hash difficulty = check_hash hash difficulty.
Proof. intros. unfold check_hash. by rewrite !check_hash_spec by (done || apply _). Qed.

Lemma check_hash_correct_witness :
  check_hash (repeat 1 32) 200 = (le_val (repeat 1 32) * 200 <? 2 ^ 256) /\
  check_hash_with mul_portable (repeat 1 32) 200 = check_hash (repeat 1 32) 200.
Proof. apply check_hash_correct; [done|repeat constructor; words; lia|words; lia]. Defined.

(** ** The next difficulty *)

Definition cut_ok (n : nat) : bool :=
  let '(b, e) := cut_bounds n in
  (b + 2 <=? e)%nat && (e <=? n)%nat && (2 * b + 1 <? n)%nat.

Lemma cut_bounds_ok n :
  (2 <= n <= 29)%nat ->
  let '(b, e) := cut_bounds n in (b + 2 <= e /\ e <= n /\ 2 * b + 1 < n)%nat.
Proof.
  intros Hn. assert (H : cut_ok n = true).
  { assert (Hall : forallb cut_ok (seq 2 28) = true) by by vm_compute.
    rewrite forallb_forall in Hall. apply Hall, in_seq. lia. }
  unfold cut_ok in H. destruct (cut_bounds n) as [b e].
  rewrite !andb_true_iff, !Nat.leb_le, Nat.ltb_lt in H. lia.
Qed.

Lemma time_spans_some ts from : exists spans, time_spans ts from = Some spans.
Proof.
  unfold time_spans. apply mapM_is_Some_2, Forall_forall. intros i [Hi1 Hi2]%elem_of_seq.
  unfold compose. rewrite (lookup_nth_lt ts (i + 1)), (lookup_nth_lt ts i) by lia. by eexists.
Qed.

(** Whatever the timestamps, the timespan is clamped to between two seconds and
    six minutes per block. *)
Lemma adjusted_bounds ts b e :
  (length ts <= 29)%nat -> (b + 2 <= e)%nat -> (e <= length ts)%nat -> (2 * b + 1 < length ts)%nat ->
  exists adj, adjusted_total_timespan ts b e = Some adj /\
    let L := Z.of_nat (length ts - b * 2 - 1) in
    1 <= L <= 28 /\ MIN_AVERAGE_TIMESPAN * L <= adj <= MAX_AVERAGE_TIMESPAN * L.
Proof.
  intros Hn Hbe He Hb. unfold adjusted_total_timespan.
  rewrite !lookup_nth_lt by lia. cbn [mbind option_bind].
  set (med := if _ : bool then _ else Some 0).
  assert (Hmed : exists m, med = Some m).
  { unfold med. case_match; [|by eexists].
    destruct (time_spans_some ts (length ts - b * 2 - 3)) as [spans ->]. by eexists. }
  destruct Hmed as [m ->]. cbn [mbind option_bind]. eexists. split; [reflexivity|]. cbv zeta.
  set (L := Z.of_nat (length ts - b * 2 - 1)). assert (HL : 1 <= L <= 28) by lia.
  clearbody L. set (adj0 := _ / 10). clearbody adj0. split; [done|].
  change MAX_AVERAGE_TIMESPAN with 360. change MIN_AVERAGE_TIMESPAN with 2.
  rewrite !(wrap_small 64 (_ * L)) by (words; lia). repeat case_bool; reflect_bools; lia.
Qed.

Lemma work_per_timespan_spec W T adj :
  is_u64 W -> is_u64 T -> 1 <= adj -> W * T + adj <= 2 ^ 64 ->
  work_per_timespan W T adj = Z.max 1 ((W * T + adj - 1) / adj).
Proof.
  intros HW HT Hadj Hsum. unfold work_per_timespan.
  destruct (mul_WideMul W T HW HT) as (Hl & Hh & E). destruct (mul W T) as [low high].
  cbn [fst snd] in *. assert (0 <= W * T) by (words; nia).
  assert (high = 0) as -> by (words; lia). cbn [Z.eqb negb].
  assert (low = W * T) as -> by lia.
  destruct (Z.eq_dec (W * T + adj) (2 ^ 64)) as [Heq|Hne].
  - rewrite Heq, wrap_sub_l, wrap_small by (words; lia). rewrite Z.max_l by lia.
    case_bool; reflect_bools; lia.
  - rewrite (wrap_small 64 (_ + _)), wrap_small by (words; lia). rewrite Z.max_l by lia.
    case_bool; reflect_bools; lia.
Qed.

Lemma work_per_timespan_overflow W T adj :
  is_u64 W -> is_u64 T -> 2 ^ 64 <= W * T -> work_per_timespan W T adj = 0.
Proof.
  intros HW HT Hbig. unfold work_per_timespan.
  destruct (mul_WideMul W T HW HT) as (Hl & Hh & E). destruct (mul W T) as [low high].
  cbn [fst snd] in *. destruct (Z.eqb_spec high 0) as [->|]; [words; lia|done].
Qed.

Section Results.
Variable ndebug : bool.

(** The vectors after the resizing: the first 29 entries. *)
Lemma resize_take n v : (n <= length v)%nat -> resize n v = take n v.
Proof. intros Hn. unfold resize. replace (n - length v)%nat with 0%nat by lia. apply app_nil_r. Qed.

Lemma next_difficulty_window ts cd T :
  length ts = length cd ->
  next_difficulty ndebug ts cd T = next_difficulty ndebug (take 29 ts) (take 29 cd) T.
Proof.
  intros Hl. destruct (decide (length ts <= 29)%nat) as [Hs|Hs].
  { by rewrite !take_ge by lia. }
  unfold next_difficulty. rewrite !length_take. change DIFFICULTY_BLOCKS_COUNT with 29%nat.
  destruct (Nat.ltb_spec 29 (length ts)); [|lia].
  destruct (Nat.ltb_spec 29 (29 `min` length ts)); [lia|].
  by rewrite !resize_take by lia.
Qed.

(** The whole function on a window of 2 to 29 blocks. *)
Lemma next_difficulty_eq ts cd T b e wb we :
  length ts = length cd -> (2 <= length ts <= 29)%nat -> cut_bounds (length ts) = (b, e) ->
  cd !! b = Some wb -> cd !! (e - 1)%nat = Some we -> 0 <= wb < we -> we < 2 ^ 64 ->
  let L := Z.of_nat (length ts - b * 2 - 1) in
  exists adj, 1 <= L <= 28 /\ MIN_AVERAGE_TIMESPAN * L <= adj <= MAX_AVERAGE_TIMESPAN * L /\
    next_difficulty ndebug ts cd T = Some (work_per_timespan (we - wb) T adj).
Proof.
  intros Hl Hn Hcut Hwb Hwe Hw Hwe64 L. pose proof (cut_bounds_ok _ Hn) as Hok.
  rewrite Hcut in Hok. destruct Hok as (Hbe & He & Hb).
  destruct (adjusted_bounds (sort ts) b e) as (adj & Eadj & Hadj); rewrite ?length_sort in *; try lia.
  exists adj. cbv zeta in Hadj. fold L in Hadj. split; [tauto|split; [tauto|]].
  unfold next_difficulty, assert_. change DIFFICULTY_BLOCKS_COUNT with 29%nat.
  destruct (Nat.ltb_spec 29 (length ts)); [lia|].
  rewrite <- Hl, Nat.eqb_refl, orb_true_r. cbn [mbind option_bind].
  destruct (Nat.leb_spec (length ts) 1); [lia|]. rewrite Hcut.
  rewrite (proj2 (Nat.leb_le (b + 2) e)), (proj2 (Nat.leb_le e (length ts))) by lia.
  rewrite orb_true_r, Eadj. cbn [mbind option_bind]. rewrite Hwe, Hwb. cbn [mbind option_bind].
  rewrite wrap_small by (words; lia). by rewrite (proj2 (Z.ltb_lt 0 (we - wb))), orb_true_r by lia.
Qed.

Definition window (v : list Z) : nat := length v `min` DIFFICULTY_BLOCKS_COUNT.

(** The same on vectors of any length from 2. *)
Lemma next_difficulty_some ts cd T b e wb we :
  length ts = length cd -> (2 <= length ts)%nat -> cut_bounds (window ts) = (b, e) ->
  cd !! b = Some wb -> cd !! (e - 1)%nat = Some we -> 0 <= wb < we -> we < 2 ^ 64 ->
  let L := Z.of_nat (window ts - b * 2 - 1) in
  exists adj, 1 <= L <= 28 /\ MIN_AVERAGE_TIMESPAN * L <= adj <= MAX_AVERAGE_TIMESPAN * L /\
    next_difficulty ndebug ts cd T = Some (work_per_timespan (we - wb) T adj).
Proof.
  intros Hl Hn Hcut Hwb Hwe Hw Hwe64 L. rewrite next_difficulty_window by done.
  assert (Ew : length (take 29 ts) = window ts)
    by (unfold window; rewrite length_take; change DIFFICULTY_BLOCKS_COUNT with 29%nat; lia).
  assert (Hw29 : (2 <= window ts <= 29)%nat) by (rewrite <- Ew, length_take; lia).
  pose proof (cut_bounds_ok (window ts) Hw29) as Hok. rewrite Hcut in Hok.
  unfold L. rewrite <- Ew. apply next_difficulty_eq with (e := e); rewrite ?Ew; try done.
  - rewrite <- Ew, !length_take. lia.
  - rewrite lookup_take_lt by lia. done.
  - rewrite lookup_take_lt by lia. done.
Qed.

(** The difficulty of the next block is the work of the window per
    clamped timespan: whatever the timestamps say, it demands at least the
    hash rate of six minutes per block and at most the hash rate of two seconds
    per block, it is never zero, and no intermediate result overflows. *)
Theorem next_difficulty_bounds ts cd T b e wb we :
  length ts = length cd -> (2 <= length ts)%nat -> cut_bounds (window ts) = (b, e) ->
  cd !! b = Some wb -> cd !! (e - 1)%nat = Some we -> 0 <= wb < we -> we < 2 ^ 64 -> is_u64 T ->
  let L := Z.of_nat (window ts - b * 2 - 1) in
  (we - wb) * T + MAX_AVERAGE_TIMESPAN * L <= 2 ^ 64 ->
  exists d, next_difficulty ndebug ts cd T = Some d /\ 1 <= d /\
    (we - wb) * T <= d * (MAX_AVERAGE_TIMESPAN * L) /\
    (d - 1) * (MIN_AVERAGE_TIMESPAN * L) <= (we - wb) * T.
Proof.
  intros Hl Hn Hcut Hwb Hwe Hw Hwe64 HT L Hsum.
  destruct (next_difficulty_some ts cd T b e wb we) as (adj & HL & Hadj & E); try done.
  fold L in HL, Hadj. eexists. split; [exact E|].
  change MAX_AVERAGE_TIMESPAN with 360 in *. change MIN_AVERAGE_TIMESPAN with 2 in *.
  rewrite work_per_timespan_spec by (words; try done; lia).
  assert (0 <= (we - wb) * T) by (words; nia). set (X := (we - wb) * T) in *. clearbody X.
  pose proof (Z.div_mod (X + adj - 1) adj ltac:(lia)) as Hdm.
  pose proof (Z.mod_pos_bound (X + adj - 1) adj ltac:(lia)).
  set (q := (X + adj - 1) / adj) in *. clearbody q.
  split; [lia|]. split; nia.
Qed.

(** The difficulty overflow is reported, not wrapped: when the work of
    the window times the target does not fit in 64 bits, the result is [0],
    the value the callers take for an error. *)
Theorem next_difficulty_overflow ts cd T b e wb we :
  length ts = length cd -> (2 <= length ts)%nat -> cut_bounds (window ts) = (b, e) ->
  cd !! b = Some wb -> cd !! (e - 1)%nat = Some we -> 0 <= wb < we -> we < 2 ^ 64 -> is_u64 T ->
  2 ^ 64 <= (we - wb) * T -> next_difficulty ndebug ts cd T = Some 0.
Proof.
  intros Hl Hn Hcut Hwb Hwe Hw Hwe64 HT Hbig.
  destruct (next_difficulty_some ts cd T b e wb we) as (adj & HL & Hadj & ->); try done.
  by rewrite work_per_timespan_overflow by (words; try done; lia).
Qed.

(** Only the multiset of the timestamps of the window counts: a miner
    gains nothing by the order in which timestamps are reported. *)
Theorem next_difficulty_timestamps ts ts' cd T :
  ts ≡ₚ ts' -> (length ts <= 29)%nat ->
  next_difficulty ndebug ts cd T = next_difficulty ndebug ts' cd T.
Proof.
  intros Hp Hn. apply Permutation_length in Hp as Hl. apply sort_proper in Hp as Hs.
  unfold next_difficulty. rewrite <- Hl. change DIFFICULTY_BLOCKS_COUNT with 29%nat.
  destruct (Nat.ltb_spec 29 (length ts)); [lia|]. by rewrite Hs, Hl.
Qed.

End Results.

Lemma next_difficulty_bounds_witness :
  let ts := map (fun i => 60 * i) (seqZ 0 29) in
  let cd := map (fun i => 1000 * i) (seqZ 0 29) in
  exists d, next_difficulty true ts cd 60 = Some d /\ 1 <= d /\
    (22000 - 6000) * 60 <= d * (MAX_AVERAGE_TIMESPAN * 16) /\
    (d - 1) * (MIN_AVERAGE_TIMESPAN * 16) <= (22000 - 6000) * 60.
Proof.
  intros ts cd. apply (next_difficulty_bounds true ts cd 60 6 23 6000 22000);
    first [done|change (length ts) with 29%nat; lia|words; lia].
Defined.

Lemma next_difficulty_overflow_witness :
  next_difficulty true [0; 60] [1; 2 ^ 63] 60 = Some 0.
Proof.
  apply (next_difficulty_overflow true _ _ 60 0 2 1 (2 ^ 63)); first [done|cbn; lia|words; lia].
Defined.

Lemma next_difficulty_timestamps_witness :
  next_difficulty true [0; 60; 7] [1; 5; 9] 60 = next_difficulty true [60; 0; 7] [1; 5; 9] 60.
Proof. apply next_difficulty_timestamps; [constructor|cbn; lia]. Defined.

(** The sum before the division can still wrap, in the last few hundred values
    below 2^64, and the next block is then nearly free. *)
Example next_difficulty_wraps :
  next_difficulty true [0; 60] [0; 2 ^ 64 - 1] 1 = Some 1.
Proof. vm_compute. reflexivity. Qed.

End Difficulty.
