(* ===== verification/HardFork.v ===== *)
(** * Hard forks

    Model of [src/cryptonote_core/hardfork.cpp]: the schedule of protocol
    versions, the rolling window of the votes of the last blocks, and the
    activation of a version by height and votes.

    The object is the record [HardFork]; a member function takes it and, if it
    is not [const], returns it.  Of the database it sees the block headers and
    the table of the version of each height, the record [Db].  [None] is an
    exception of the database or an access outside a vector.  Heights are
    [nat]: they index the chain. *)
From stdpp Require Import gmap sorting.
From S2P Require Import Prelude.

Module HardFork.

(** The versions in a block header. *)
Record header := Header { major_version : Z; minor_version : Z }.

Record Db := MkDb { blocks : list header; hf_versions : gmap nat Z }.

Definition db_height (db : Db) : nat := length (blocks db).
Definition set_hard_fork_version (height : nat) (version : Z) (db : Db) : Db :=
  MkDb (blocks db) (<[height := version]> (hf_versions db)).
Definition get_hard_fork_version (db : Db) (height : nat) : option Z := hf_versions db !! height.
Definition get_block_from_height (db : Db) (height : nat) : option header := blocks db !! height.

Record Params := MkParams { version : Z; threshold : Z; height : nat; time : Z }.

Inductive State := LikelyForked | UpdateNeeded | Ready.

Record HardFork := MkHardFork {
  original_version : Z;
  forked_time : Z;
  update_time : Z;
  window_size : nat;
  default_threshold_percent : Z;
  heights : list Params;
  versions : list Z;
  last_versions : list Z;
  current_fork_index : nat
}.

Definition set_heights h hf :=
  MkHardFork (original_version hf) (forked_time hf) (update_time hf) (window_size hf)
    (default_threshold_percent hf) h (versions hf) (last_versions hf) (current_fork_index hf).
Definition set_window vs lv hf :=
  MkHardFork (original_version hf) (forked_time hf) (update_time hf) (window_size hf)
    (default_threshold_percent hf) (heights hf) vs lv (current_fork_index hf).
Definition set_index n hf :=
  MkHardFork (original_version hf) (forked_time hf) (update_time hf) (window_size hf)
    (default_threshold_percent hf) (heights hf) (versions hf) (last_versions hf) n.

Definition get_block_vote (b : header) : Z := if minor_version b =? 0 then 1 else minor_version b.
Definition get_block_version (b : header) : Z := major_version b.

(** The constructor; [None] is its exception.  The arrays are set by [init]. *)
Definition new (original_version forked_time update_time : Z) (window_size : nat)
    (default_threshold_percent : Z) : option HardFork :=
  if (window_size =? 0)%nat then None else
  if 100 <? default_threshold_percent then None else
  Some (MkHardFork original_version forked_time update_time window_size
          default_threshold_percent [] [] (repeat 0 256) 0).

(** The comparisons of [add_fork] with the last fork already there. *)
Definition after_last (hf : HardFork) (v : Z) (h : nat) (t : Z) : bool :=
  match last (heights hf) with
  | None => true
  | Some p => negb (v <=? version p) && negb (h <=? height p)%nat && negb (t <=? time p)
  end.

Definition add_fork (v : Z) (h : nat) (thr : Z) (t : Z) (hf : HardFork) : bool * HardFork :=
  if v =? 0 then (false, hf) else
  if negb (after_last hf v h t) then (false, hf) else
  if 100 <? thr then (false, hf) else
  (true, set_heights (heights hf ++ [MkParams v thr h t]) hf).

(** The overload without a threshold. *)
Definition add_fork_default (v : Z) (h : nat) (t : Z) (hf : HardFork) : bool * HardFork :=
  add_fork v h (default_threshold_percent hf) t hf.

Definition get_effective_version (hf : HardFork) (voting_version : Z) : Z :=
  match last (heights hf) with
  | None => voting_version
  | Some p => if version p <? voting_version then version p else voting_version
  end.

Definition do_check (hf : HardFork) (block_version voting_version : Z) : option bool :=
  p ← heights hf !! current_fork_index hf;
  Some ((block_version =? version p) && (version p <=? voting_version)).

Definition check (hf : HardFork) (b : header) : option bool :=
  do_check hf (get_block_version b) (get_block_vote b).

(** The loop of [get_voted_fork_index] from fork [n] down. *)
Fixpoint voted_loop (hf : HardFork) (h : nat) (accumulated_votes : Z) (n : nat) : option nat :=
  match n with
  | O => Some (current_fork_index hf)
  | S n' =>
      if (n <=? current_fork_index hf)%nat then Some (current_fork_index hf) else
      p ← heights hf !! n;
      votes ← last_versions hf !! Z.to_nat (version p);
      let accumulated_votes := u32 (accumulated_votes + votes) in
      let thr := u32 (u64 (u64 (Z.of_nat (window_size hf) * threshold p) + 99) / 100) in
      if (height p <=? h)%nat && (thr <=? accumulated_votes) then Some n
      else voted_loop hf h accumulated_votes n'
  end.

Definition get_voted_fork_index (hf : HardFork) (h : nat) : option nat :=
  match heights hf with
  | [] => None
  | _ => voted_loop hf h 0 (length (heights hf) - 1)
  end.

(** [uint8_t voted = ...; if (voted > current_fork_index) current_fork_index = voted;] *)
Definition raise_index (h : nat) (hf : HardFork) : option HardFork :=
  voted ← get_voted_fork_index hf h;
  let voted := Z.to_nat (u8 (Z.of_nat voted)) in
  Some (if (current_fork_index hf <? voted)%nat then set_index voted hf else hf).

(** [last_versions[v] += d] on an [unsigned int]. *)
Definition bump (v d : Z) (lv : list Z) : option (list Z) :=
  x ← lv !! Z.to_nat v; Some (<[Z.to_nat v := u32 (x + d)]> lv).

(** [while (versions.size() >= window_size) ...]: structural on [versions]. *)
Fixpoint evict (w : nat) (vs : list Z) (lv : list Z) : option (list Z * list Z) :=
  if (length vs <? w)%nat then Some (vs, lv) else
  match vs with
  | [] => None
  | old_version :: vs => lv ← bump old_version (-1) lv; evict w vs lv
  end.

Definition add_versions (block_version voting_version : Z) (h : nat) (hf : HardFork) (db : Db)
  : option (bool * HardFork * Db) :=
  ok ← do_check hf block_version voting_version;
  if negb ok then Some (false, hf, db) else
  p ← heights hf !! current_fork_index hf;
  let db := set_hard_fork_version h (version p) db in
  let voting_version := get_effective_version hf voting_version in
  '(vs, lv) ← evict (window_size hf) (versions hf) (last_versions hf);
  lv ← bump voting_version 1 lv;
  let hf := set_window (vs ++ [voting_version]) lv hf in
  hf ← raise_index (h + 1) hf;
  Some (true, hf, db).

Definition add (b : header) (h : nat) (hf : HardFork) (db : Db) : option (bool * HardFork * Db) :=
  add_versions (get_block_version b) (get_block_vote b) h hf db.

(** The loop that reads the votes of [n] blocks from height [h] into the window. *)
Fixpoint read_votes (db : Db) (n h : nat) (hf : HardFork) : option HardFork :=
  match n with
  | O => Some hf
  | S n =>
      b ← get_block_from_height db h;
      let v := get_effective_version hf (get_block_vote b) in
      lv ← bump v 1 (last_versions hf);
      read_votes db n (S h) (set_window (versions hf ++ [v]) lv hf)
  end.

Definition clear_window (hf : HardFork) : HardFork := set_window [] (repeat 0 256) hf.

(** [while (current_fork_index > 0 && heights[current_fork_index].version > v) --current_fork_index;] *)
Fixpoint lower_index (ps : list Params) (v : Z) (n : nat) : option nat :=
  match n with
  | O => Some 0%nat
  | S n' => p ← ps !! n; if v <? version p then lower_index ps v n' else Some n
  end.

(** [for (h = height + 1; h < bc_height; ++h) add(...)], for [n] blocks. *)
Fixpoint add_blocks (n h : nat) (hf : HardFork) (db : Db) : option (HardFork * Db) :=
  match n with
  | O => Some (hf, db)
  | S n =>
      b ← get_block_from_height db h;
      '(_, hf, db) ← add b h hf db;
      add_blocks n (S h) hf db
  end.

Definition reorganize_from_block_height (h : nat) (hf : HardFork) (db : Db)
  : option (bool * HardFork * Db) :=
  if (db_height db <=? h)%nat then Some (false, hf, db) else
  let hf := clear_window hf in
  let rescan_height := if (window_size hf - 1 <=? h)%nat then (h - (window_size hf - 1))%nat else 0%nat in
  start_version ← (if (h =? 0)%nat then Some (original_version hf) else get_hard_fork_version db h);
  n ← lower_index (heights hf) start_version (current_fork_index hf);
  let hf := set_index n hf in
  hf ← read_votes db (h + 1 - rescan_height) rescan_height hf;
  hf ← raise_index (h + 1) hf;
  let bc_height := db_height db in
  '(hf, db) ← add_blocks (bc_height - (h + 1)) (h + 1) hf db;
  Some (true, hf, db).

Definition reorganize_from_chain_height (h : nat) (hf : HardFork) (db : Db)
  : option (bool * HardFork * Db) :=
  match h with
  | O => Some (false, hf, db)
  | S h => reorganize_from_block_height h hf db
  end.

(** [while (i + 1 < heights.size() && heights[i].version != lastv) ++i;] *)
Fixpoint find_version (fuel : nat) (ps : list Params) (lastv : Z) (i : nat) : option nat :=
  match fuel with
  | O => None
  | S fuel =>
      if (i + 1 <? length ps)%nat then
        p ← ps !! i;
        if negb (version p =? lastv) then find_version fuel ps lastv (i + 1) else Some i
      else Some i
  end.

Definition rescan_from_block_height (h : nat) (hf : HardFork) (db : Db) : option (bool * HardFork) :=
  if (db_height db <=? h)%nat then Some (false, hf) else
  let hf := clear_window hf in
  hf ← read_votes db (db_height db - h) h hf;
  lastv ← get_hard_fork_version db (db_height db - 1);
  n ← find_version (S (length (heights hf))) (heights hf) lastv 0;
  let hf := set_index n hf in
  hf ← raise_index (db_height db) hf;
  Some (true, hf).

Definition rescan_from_chain_height (h : nat) (hf : HardFork) (db : Db) : option (bool * HardFork) :=
  match h with
  | O => Some (false, hf)
  | S h => rescan_from_block_height h hf db
  end.

Definition init (hf : HardFork) (db : Db) : option (HardFork * Db) :=
  let hf := match heights hf with
            | [] => set_heights [MkParams (original_version hf) 0 0 0] hf
            | _ => hf
            end in
  let hf := set_index 0 (clear_window hf) in
  let h := if (window_size hf <? db_height db)%nat then (db_height db - (window_size hf - 1))%nat
           else 1%nat in
  match get_hard_fork_version db 0 with
  | None =>
      '(_, hf, db) ← reorganize_from_chain_height 1 hf db;
      Some (hf, set_hard_fork_version 0 (original_version hf) db)
  | Some _ =>
      '(_, hf) ← rescan_from_chain_height h hf db;
      Some (hf, db)
  end.

Definition get_state (hf : HardFork) (t : Z) : State :=
  match last (heights hf) with
  | Some p =>
      if (length (heights hf) <=? 1)%nat then Ready else
      if time p + forked_time hf <=? t then LikelyForked else
      if time p + update_time hf <=? t then UpdateNeeded else Ready
  | None => Ready
  end.

Definition get_current_version (hf : HardFork) : option Z :=
  p ← heights hf !! current_fork_index hf; Some (version p).

Definition get (hf : HardFork) (db : Db) (h : nat) : option Z :=
  if (db_height db <? h)%nat then Some 255 else
  if (h =? db_height db)%nat then get_current_version hf else
  get_hard_fork_version db h.

Definition get_ideal_version_last (hf : HardFork) : option Z :=
  p ← last (heights hf); Some (version p).

(** [for (n = heights.size() - 1; n > 0; --n) if (f(heights[n])) return n;] *)
Fixpoint find_down (ps : list Params) (f : Params -> bool) (n : nat) : option nat :=
  match n with
  | O => None
  | S n' =>
      match ps !! n with
      | Some p => if f p then Some n else find_down ps f n'
      | None => None
      end
  end.

Definition get_ideal_version (hf : HardFork) (h : nat) : Z :=
  match find_down (heights hf) (fun p => (height p <=? h)%nat) (length (heights hf) - 1) with
  | Some n => default 0 (version <$> heights hf !! n)
  | None => original_version hf
  end.

Definition get_earliest_ideal_height_for_version (hf : HardFork) (v : Z) : nat :=
  match find_down (heights hf) (fun p => version p <=? v) (length (heights hf) - 1) with
  | Some n => default 0%nat (height <$> heights hf !! n)
  | None => 0
  end.

Definition get_next_version (hf : HardFork) (db : Db) : Z :=
  match find_down (heights hf) (fun p => (height p <=? db_height db)%nat) (length (heights hf) - 1) with
  | Some n =>
      let n := if (n <? length (heights hf) - 1)%nat then (n + 1)%nat else n in
      default 0 (version <$> heights hf !! n)
  | None => original_version hf
  end.

Record voting_info := MkVotingInfo {
  enabled : bool; window : Z; votes : Z; vote_threshold : Z; earliest_height : nat; voting : Z
}.

Definition get_voting_info (hf : HardFork) (v : Z) : option voting_info :=
  p ← heights hf !! current_fork_index hf;
  l ← last (heights hf);
  let window := u32 (Z.of_nat (length (versions hf))) in
  let votes := fold_left (fun votes x => u32 (votes + x)) (drop (Z.to_nat v) (last_versions hf)) 0 in
  let thr := u32 (u32 (window * threshold p) + 99) / 100 in
  Some (MkVotingInfo (v <=? version p) window votes thr
          (get_earliest_ideal_height_for_version hf v) (version l)).

(** * Properties *)

(** ** The window of votes *)

Definition occ (v : Z) (vs : list Z) : Z := Z.of_nat (length (filter (eq v) vs)).

(** The counters that [last_versions] holds for a window [vs]. *)
Definition tally (vs : list Z) : list Z := map (fun v => occ v vs) (seqZ 0 256).

Definition lastn (n : nat) (vs : list Z) : list Z := drop (length vs - n) vs.

Lemma occ_app v vs ws : occ v (vs ++ ws) = occ v vs + occ v ws.
Proof. unfold occ. rewrite filter_app, length_app. lia. Qed.

Lemma occ_bound v vs : 0 <= occ v vs <= Z.of_nat (length vs).
Proof. unfold occ. pose proof (length_filter (eq v) vs). lia. Qed.

Lemma occ_single u v : occ u [v] = if decide (u = v) then 1 else 0.
Proof. unfold occ. rewrite filter_cons, filter_nil. by case_decide. Qed.

Lemma lookup_tally vs v : is_u8 v -> tally vs !! Z.to_nat v = Some (occ v vs).
Proof.
  intros Hv. unfold tally. rewrite list_lookup_fmap, lookup_seqZ_lt by (words; lia).
  cbn. do 2 f_equal. words. lia.
Qed.

Lemma length_tally vs : length (tally vs) = 256%nat.
Proof. unfold tally. by rewrite length_map, length_seqZ. Qed.

Lemma tally_ext lv vs :
  length lv = 256%nat -> (forall v, is_u8 v -> lv !! Z.to_nat v = Some (occ v vs)) -> lv = tally vs.
Proof.
  intros Hl H. apply list_eq. intros i. destruct (decide (i < 256)%nat) as [Hi|Hi].
  - rewrite <- (Nat2Z.id i), H, lookup_tally by (words; lia). done.
  - rewrite !lookup_ge_None_2; rewrite ?length_tally; [done|lia..].
Qed.

(** Changing one counter turns the tally of a window into that of another. *)
Lemma bump_tally v d vs ws :
  is_u8 v -> (forall u, is_u8 u -> occ u ws = occ u vs + if decide (u = v) then d else 0) ->
  is_u32 (occ v ws) -> bump v d (tally vs) = Some (tally ws).
Proof.
  intros Hv H Hw. unfold bump. rewrite lookup_tally by done. cbn [mbind option_bind]. f_equal.
  pose proof (H v Hv) as Hvv. rewrite decide_True in Hvv by done.
  rewrite <- Hvv, wrap_small by done. apply tally_ext; [by rewrite length_insert, length_tally|].
  intros u Hu. destruct (decide (u = v)) as [->|Hne].
  - apply list_lookup_insert_eq. rewrite length_tally. words. lia.
  - rewrite list_lookup_insert_ne by (words; lia). rewrite lookup_tally, H by done.
    rewrite decide_False by done. f_equal. lia.
Qed.

Lemma bump_push v vs :
  is_u8 v -> Z.of_nat (length vs) < 2 ^ 32 - 1 -> bump v 1 (tally vs) = Some (tally (vs ++ [v])).
Proof.
  intros Hv Hl. apply bump_tally; [done|..].
  - intros u Hu. by rewrite occ_app, occ_single.
  - pose proof (occ_bound v (vs ++ [v])). rewrite length_app in *. cbn in *. words. lia.
Qed.

Lemma bump_pop v vs :
  is_u8 v -> Z.of_nat (length vs) < 2 ^ 32 -> bump v (-1) (tally (v :: vs)) = Some (tally vs).
Proof.
  intros Hv Hl. apply bump_tally; [done|..].
  - intros u Hu. change (v :: vs) with ([v] ++ vs). rewrite occ_app, occ_single.
    case_decide; lia.
  - pose proof (occ_bound v vs). words. lia.
Qed.

Lemma lastn_all n vs : (length vs <= n)%nat -> lastn n vs = vs.
Proof. intros H. unfold lastn. by replace (length vs - n)%nat with 0%nat by lia. Qed.

Lemma lastn_cons n v vs : (n <= length vs)%nat -> lastn n (v :: vs) = lastn n vs.
Proof.
  intros H. unfold lastn. cbn [length]. by replace (S (length vs) - n)%nat with (S (length vs - n)) by lia.
Qed.

Lemma length_lastn n vs : length (lastn n vs) = (n `min` length vs)%nat.
Proof. unfold lastn. rewrite length_drop. lia. Qed.

(** Pushing an element on a window of at most [n] keeps the last [n]. *)
Lemma lastn_push n vs v : (0 < n)%nat -> lastn n (lastn n vs ++ [v]) = lastn n (vs ++ [v]).
Proof.
  intros Hn. unfold lastn. rewrite !length_app, !length_drop. cbn [length].
  destruct (decide (length vs <= n)%nat) as [H|H].
  - replace (length vs - n)%nat with 0%nat by lia. cbn [drop]. by rewrite Nat.sub_0_r.
  - rewrite !drop_app_le by (rewrite ?length_drop; lia). rewrite drop_drop. f_equal. f_equal. lia.
Qed.

Lemma lastn_snoc n vs v : (0 < n)%nat -> lastn n (vs ++ [v]) = lastn (n - 1) vs ++ [v].
Proof.
  intros Hn. unfold lastn. rewrite length_app. cbn [length].
  rewrite drop_app_le by lia. do 2 f_equal. lia.
Qed.

Lemma evict_spec w vs :
  (0 < w)%nat -> Forall is_u8 vs -> Z.of_nat (length vs) < 2 ^ 32 ->
  evict w vs (tally vs) = Some (lastn (w - 1) vs, tally (lastn (w - 1) vs)).
Proof.
  intros Hw. induction vs as [|v vs IH]; intros Hv Hl; cbn [evict length].
  - destruct (Nat.ltb_spec 0 w); [|lia]. by rewrite lastn_all by (cbn; lia).
  - inversion Hv; subst. cbn [length] in Hl. destruct (Nat.ltb_spec (S (length vs)) w).
    + by rewrite lastn_all by (cbn; lia).
    + rewrite bump_pop by (done || lia). cbn [mbind option_bind].
      rewrite IH by (done || lia). by rewrite lastn_cons by lia.
Qed.

(** ** The schedule *)

(** A later fork has a larger version, height and time. *)
Definition fork_lt (p q : Params) : Prop :=
  version p < version q /\ (height p < height q)%nat /\ time p < time q.
Definition fork_ok (p : Params) : Prop := 1 <= version p < 256 /\ 0 <= threshold p <= 100.
Definition schedule_ok (ps : list Params) : Prop := StronglySorted fork_lt ps /\ Forall fork_ok ps.

Lemma schedule_snoc ps p :
  schedule_ok ps -> fork_ok p ->
  schedule_ok (ps ++ [p]) <-> (forall q, last ps = Some q -> fork_lt q p).
Proof.
  intros [Hs Ho] Hp. unfold schedule_ok. split.
  - intros [H _] q [l Hq]%last_Some. subst ps. rewrite <- app_assoc in H.
    apply StronglySorted_app_1_r in H. inversion H; subst. by inversion H3.
  - intros Hl. split; [|apply Forall_app; auto].
    apply StronglySorted_app_2; [|done|repeat constructor].
    intros x y Hx ->%list_elem_of_singleton.
    destruct (last ps) as [q|] eqn:E; [|by apply last_None in E; subst; inversion Hx].
    specialize (Hl q eq_refl). apply last_Some in E as [l ->].
    apply elem_of_app in Hx as [Hx|Hx]; [|apply list_elem_of_singleton in Hx as ->; done].
    apply StronglySorted_app_1_elem_of with (x1 := x) (x2 := q) in Hs; [|done|set_solver].
    unfold fork_lt in *. lia.
Qed.

Lemma after_last_spec hf v h thr t :
  after_last hf v h t = true <->
  (forall q, last (heights hf) = Some q -> fork_lt q (MkParams v thr h t)).
Proof.
  unfold after_last, fork_lt. destruct (last (heights hf)) as [p|]; cbn; [|by split].
  rewrite !andb_true_iff, !negb_true_iff, !Z.leb_gt, Nat.leb_gt. split.
  - intros H q [= <-]. lia.
  - intros H. specialize (H p eq_refl). lia.
Qed.

(** [add_fork] keeps the schedule in order: it accepts a fork exactly when
    the schedule with it is still strictly increasing in version, height and
    time with thresholds of at most 100%, and otherwise changes nothing. *)
Theorem add_fork_schedule v h thr t hf :
  is_u8 v -> 0 <= thr -> schedule_ok (heights hf) ->
  let '(ok, hf') := add_fork v h thr t hf in
  schedule_ok (heights hf') /\
  (ok = true <-> schedule_ok (heights hf ++ [MkParams v thr h t])) /\
  (ok = true -> heights hf' = heights hf ++ [MkParams v thr h t]) /\
  (ok = false -> hf' = hf).
Proof.
  intros Hv Hthr Hs. unfold add_fork.
  assert (Hno : forall P : Prop, ~ fork_ok (MkParams v thr h t) ->
    schedule_ok (heights hf ++ [MkParams v thr h t]) -> P).
  { intros P Hn [_ H]. apply Forall_app in H as [_ H]. inversion H; subst. done. }
  destruct (Z.eqb_spec v 0) as [->|Hv0].
  { repeat split; try done; try apply Hs. apply Hno. unfold fork_ok. cbn. lia. }
  destruct (Z.ltb_spec 100 thr) as [Ht|Ht].
  { destruct (negb _); repeat split; try done; try apply Hs; apply Hno; unfold fork_ok; cbn; lia. }
  assert (Hp : fork_ok (MkParams v thr h t)) by (unfold fork_ok; cbn; words; lia).
  pose proof (schedule_snoc (heights hf) _ Hs Hp) as Hsn.
  destruct (after_last hf v h t) eqn:Ha; cbn [negb].
  - pose proof (proj2 Hsn (proj1 (after_last_spec hf v h thr t) Ha)). by split; [|split].
  - split; [done|]. split; [|done]. split; [done|]. intros H.
    pose proof (proj2 (after_last_spec hf v h thr t) (proj1 Hsn H)). congruence.
Qed.

Lemma add_fork_schedule_witness :
  let hf := MkHardFork 1 0 0 720 80 [MkParams 1 0 1 5] [] (repeat 0 256) 0 in
  let '(ok, hf') := add_fork 2 100 80 9 hf in
  schedule_ok (heights hf') /\
  (ok = true <-> schedule_ok (heights hf ++ [MkParams 2 80 100 9])) /\
  (ok = true -> heights hf' = heights hf ++ [MkParams 2 80 100 9]) /\
  (ok = false -> hf' = hf).
Proof.
  intros hf. apply (add_fork_schedule 2 100 80 9 hf); [words; lia|lia|].
  split; repeat constructor; cbn; lia.
Defined.

(** ** Activation *)

(** The votes of the window for the forks from number [n]. *)
Definition votes_from (hf : HardFork) (n : nat) : Z :=
  Z.of_nat (length (filter (fun v => v ∈ map version (drop n (heights hf))) (versions hf))).

Definition required (hf : HardFork) (p : Params) : Z :=
  (Z.of_nat (window_size hf) * threshold p + 99) / 100.

(** Fork [n] is due at height [h]: the height is reached and enough blocks of
    the window voted for it or a later fork. *)
Definition due (hf : HardFork) (h n : nat) : Prop :=
  exists p, heights hf !! n = Some p /\ (height p <= h)%nat /\ required hf p <= votes_from hf n.

Record Inv (hf : HardFork) : Prop := {
  inv_heights : schedule_ok (heights hf);
  inv_index : (current_fork_index hf < length (heights hf))%nat;
  inv_window : (0 < window_size hf)%nat /\ Z.of_nat (window_size hf) < 2 ^ 25;
  inv_versions : Forall is_u8 (versions hf);
  inv_size : (length (versions hf) <= window_size hf)%nat;
  inv_tally : last_versions hf = tally (versions hf)
}.

Lemma schedule_lookup_lt ps i j p q :
  schedule_ok ps -> ps !! i = Some p -> ps !! j = Some q -> (i < j)%nat -> fork_lt p q.
Proof.
  intros [Hs _]. revert i j. induction Hs as [|r ps Hs IH Hr]; intros i j Hi Hj Hij; [done|].
  destruct i as [|i], j as [|j]; try lia; cbn in Hi, Hj; simplify_eq.
  - rewrite Forall_forall in Hr. apply Hr. by eapply list_elem_of_lookup_2.
  - apply (IH i j); [done..|lia].
Qed.

Lemma schedule_version ps i p : schedule_ok ps -> ps !! i = Some p -> is_u8 (version p).
Proof.
  intros [_ H] Hi. rewrite Forall_lookup in H. specialize (H i p Hi) as [H _]. words. lia.
Qed.

Lemma schedule_length ps : schedule_ok ps -> (length ps <= 255)%nat.
Proof.
  intros Hs. assert (H : forall i p, ps !! i = Some p -> Z.of_nat i < version p).
  { induction i as [|i IH]; intros p Hp.
    - destruct Hs as [_ Ho]. rewrite Forall_lookup in Ho. apply Ho in Hp as [Hp _]. lia.
    - destruct (lookup_lt_is_Some_2 ps i) as [q Hq]; [apply lookup_lt_Some in Hp; lia|].
      pose proof (schedule_lookup_lt ps i (S i) q p Hs Hq Hp ltac:(lia)) as [Hlt _].
      specialize (IH q Hq). lia. }
  destruct (decide (length ps = 0)%nat) as [|Hn]; [lia|].
  destruct (lookup_lt_is_Some_2 ps (length ps - 1)) as [p Hp]; [lia|].
  specialize (H _ _ Hp). pose proof (schedule_version _ _ _ Hs Hp). words. lia.
Qed.

Lemma votes_from_bound hf n : 0 <= votes_from hf n <= Z.of_nat (length (versions hf)).
Proof. unfold votes_from. pose proof (length_filter (fun v => v ∈ map version (drop n (heights hf))) (versions hf)). lia. Qed.

(** A fork's own votes add to those of the later forks. *)
Lemma votes_from_step hf n p :
  schedule_ok (heights hf) -> heights hf !! n = Some p ->
  votes_from hf n = votes_from hf (S n) + occ (version p) (versions hf).
Proof.
  intros Hs Hp. unfold votes_from, occ. rewrite (drop_S _ _ _ Hp). cbn [map].
  assert (Hnew : version p ∉ map version (drop (S n) (heights hf))).
  { intros (q & E & Hq)%list_elem_of_fmap. apply list_elem_of_lookup in Hq as [i Hq].
    rewrite lookup_drop in Hq.
    pose proof (schedule_lookup_lt _ _ _ _ _ Hs Hp Hq ltac:(lia)) as [Hlt _]. lia. }
  induction (versions hf) as [|v vs IH]; [done|]. rewrite !filter_cons.
  destruct (decide (v ∈ version p :: _)) as [Hi|Hi];
  destruct (decide (v ∈ map version _)) as [Hj|Hj];
  destruct (decide (version p = v)) as [He|He]; cbn [length]; try lia; exfalso.
  all: rewrite elem_of_cons in Hi; intuition congruence.
Qed.

Lemma required_word hf p :
  Inv hf -> fork_ok p ->
  u32 (u64 (u64 (Z.of_nat (window_size hf) * threshold p) + 99) / 100) = required hf p.
Proof.
  intros HI [_ Ht]. pose proof (inv_window _ HI) as [_ Hw].
  assert (0 <= Z.of_nat (window_size hf) * threshold p <= 2 ^ 25 * 100) by nia.
  unfold required. rewrite (wrap_small 64 (_ * _)), (wrap_small 64 (_ + 99)) by (words; lia).
  apply wrap_small. unfold word. dlia.
Qed.

Lemma voted_loop_spec hf h n :
  Inv hf -> (n < length (heights hf))%nat -> (forall m, (n < m)%nat -> ~ due hf h m) ->
  exists r, voted_loop hf h (votes_from hf (S n)) n = Some r /\
    (r = current_fork_index hf \/ (current_fork_index hf < r)%nat /\ due hf h r) /\
    forall m, (current_fork_index hf < m)%nat -> (r < m)%nat -> ~ due hf h m.
Proof.
  intros HI. induction n as [|n IH]; intros Hn Hno; cbn [voted_loop].
  { exists (current_fork_index hf). split; [done|]. split; [by left|]. intros m Hm _. apply Hno. lia. }
  destruct (Nat.leb_spec (S n) (current_fork_index hf)) as [Hle|Hgt].
  { exists (current_fork_index hf). split; [done|]. split; [by left|]. intros m Hm _. apply Hno. lia. }
  destruct (lookup_lt_is_Some_2 (heights hf) (S n) Hn) as [p Hp]. rewrite Hp. cbn [mbind option_bind].
  pose proof (inv_heights _ HI) as Hs. pose proof (schedule_version _ _ _ Hs Hp) as Hv.
  rewrite (inv_tally _ HI), lookup_tally by done. cbn [mbind option_bind].
  rewrite <- votes_from_step by done.
  pose proof (votes_from_bound hf (S n)) as Hb. pose proof (inv_size _ HI).
  pose proof (inv_window _ HI) as [_ Hw].
  rewrite (wrap_small 32 (votes_from hf (S n))) by (words; lia).
  assert (Hok : fork_ok p) by (destruct Hs as [_ Ho]; rewrite Forall_lookup in Ho; eauto).
  rewrite required_word by done.
  assert (Hdue : due hf h (S n) <->
    (height p <=? h)%nat && (required hf p <=? votes_from hf (S n)) = true).
  { rewrite andb_true_iff, Nat.leb_le, Z.leb_le. unfold due. rewrite Hp. split.
    - by intros (q & [= <-] & H').
    - intros H'. by exists p. }
  destruct (_ && _).
  - exists (S n). split; [done|]. split; [right; split; [lia|by apply Hdue]|]. intros m _ Hm. by apply Hno.
  - apply IH; [lia|]. intros m Hm. destruct (decide (m = S n)) as [->|]; [|apply Hno; lia].
    intros H'%Hdue. done.
Qed.

Lemma votes_from_end hf n : (length (heights hf) <= n)%nat -> votes_from hf n = 0.
Proof.
  intros Hn. unfold votes_from. rewrite drop_ge by done. cbn [map].
  induction (versions hf) as [|v vs IH]; [done|]. rewrite filter_cons, decide_False; [done|set_solver].
Qed.

Lemma due_lt hf h n : due hf h n -> (n < length (heights hf))%nat.
Proof. intros (p & Hp & _). by eapply lookup_lt_Some. Qed.

Lemma get_voted_fork_index_spec hf h :
  Inv hf -> exists r, get_voted_fork_index hf h = Some r /\ (r < length (heights hf))%nat /\
    (r = current_fork_index hf \/ (current_fork_index hf < r)%nat /\ due hf h r) /\
    forall m, (current_fork_index hf < m)%nat -> (r < m)%nat -> ~ due hf h m.
Proof.
  intros HI. pose proof (inv_index _ HI) as Hi.
  destruct (voted_loop_spec hf h (length (heights hf) - 1) HI) as (r & Hr & Hc & Hm); [lia|..].
  { intros m Hm Hd%due_lt. lia. }
  rewrite votes_from_end in Hr by lia. exists r. unfold get_voted_fork_index.
  destruct (heights hf) as [|p ps] eqn:E; [cbn in Hi; lia|]. split; [done|].
  rewrite <- E in *. split; [|done]. destruct Hc as [->|[_ Hd]]; [done|by eapply due_lt].
Qed.

Lemma raise_index_spec hf h :
  Inv hf -> exists r, raise_index h hf = Some (set_index r hf) /\ (r < length (heights hf))%nat /\
    (r = current_fork_index hf \/ (current_fork_index hf < r)%nat /\ due hf h r) /\
    forall m, (current_fork_index hf < m)%nat -> (r < m)%nat -> ~ due hf h m.
Proof.
  intros HI. destruct (get_voted_fork_index_spec hf h HI) as (r & Hr & Hl & Hc & Hm).
  exists r. split; [|done]. unfold raise_index. rewrite Hr. cbn [mbind option_bind]. f_equal.
  pose proof (schedule_length _ (inv_heights _ HI)).
  rewrite wrap_small, Nat2Z.id by (words; lia).
  destruct (Nat.ltb_spec (current_fork_index hf) r); [done|].
  destruct Hc as [->|]; [by destruct hf|lia].
Qed.

Lemma last_heights hf : Inv hf -> exists p, last (heights hf) = Some p /\ is_u8 (version p).
Proof.
  intros HI. destruct (last (heights hf)) as [p|] eqn:E.
  - exists p. split; [done|]. rewrite last_lookup in E.
    eapply schedule_version; [by apply inv_heights|exact E].
  - apply last_None in E. pose proof (inv_index _ HI) as Hi. rewrite E in Hi. cbn in Hi. lia.
Qed.

Lemma effective_u8 hf v : Inv hf -> is_u8 v -> is_u8 (get_effective_version hf v).
Proof.
  intros HI Hv. unfold get_effective_version.
  destruct (last_heights hf HI) as (p & -> & Hp). by case_bool.
Qed.

Lemma Inv_set_index hf n : Inv hf -> (n < length (heights hf))%nat -> Inv (set_index n hf).
Proof. intros [] Hn. by constructor. Qed.

Lemma Inv_set_window hf vs :
  Inv hf -> Forall is_u8 vs -> (length vs <= window_size hf)%nat -> Inv (set_window vs (tally vs) hf).
Proof. intros [] Hv Hl. by constructor. Qed.

Lemma lastn_u8 n vs : Forall is_u8 vs -> Forall is_u8 (lastn n vs).
Proof. apply Forall_drop. Qed.

(** [add] on a block whose version fits: the vote enters the window, the oldest
    one leaves it when it is full, and the last fork that is due is activated. *)
Lemma add_versions_spec bv vv h hf db p :
  Inv hf -> is_u8 vv -> heights hf !! current_fork_index hf = Some p ->
  bv = version p -> version p <= vv ->
  let vs := lastn (window_size hf) (versions hf ++ [get_effective_version hf vv]) in
  let hf1 := set_window vs (tally vs) hf in
  exists r, add_versions bv vv h hf db =
    Some (true, set_index r hf1, set_hard_fork_version h (version p) db) /\
    Inv (set_index r hf1) /\ raise_index (h + 1) hf1 = Some (set_index r hf1) /\
    (r = current_fork_index hf \/ (current_fork_index hf < r)%nat /\ due hf1 (h + 1) r) /\
    forall m, (current_fork_index hf < m)%nat -> (r < m)%nat -> ~ due hf1 (h + 1) m.
Proof.
  intros HI Hvv Hp -> Hle vs hf1.
  pose proof (inv_window _ HI) as [Hw Hw32]. pose proof (inv_size _ HI) as Hsz.
  pose proof (inv_versions _ HI) as Hvs. pose proof (effective_u8 hf vv HI Hvv) as He.
  assert (Evs : vs = lastn (window_size hf - 1) (versions hf) ++ [get_effective_version hf vv])
    by by apply lastn_snoc.
  assert (HI1 : Inv hf1).
  { apply Inv_set_window; [done|..].
    - rewrite Evs. apply Forall_app. split; [by apply lastn_u8|by constructor].
    - unfold vs. rewrite length_lastn. lia. }
  destruct (raise_index_spec hf1 (h + 1) HI1) as (r & Hr & Hl & Hc).
  exists r. unfold add_versions, do_check. rewrite Hp. cbn [mbind option_bind].
  rewrite Z.eqb_refl, (proj2 (Z.leb_le _ _) Hle). cbn [andb negb].
  rewrite (inv_tally _ HI), evict_spec by (done || lia). cbn [mbind option_bind].
  rewrite bump_push by (rewrite ?length_lastn; done || lia). cbn [mbind option_bind].
  rewrite <- Evs. fold hf1. rewrite Hr. cbn [mbind option_bind].
  split; [done|]. split; [by apply Inv_set_index|done].
Qed.


Definition sample_fork : HardFork :=
  MkHardFork 1 0 0 3 80 [MkParams 1 0 1 5; MkParams 2 50 4 9] [1; 2; 1] (tally [1; 2; 1]) 0.

Lemma sample_fork_Inv : Inv sample_fork.
Proof. constructor; try split; repeat constructor; cbn; words; lia. Qed.


(** ** Reorganization and restart *)

(** The effective votes of the chain; the window of a state that is in step
    with the chain holds the last of them. *)
Definition chain_votes (hf : HardFork) (bs : list header) : list Z :=
  map (fun b => get_effective_version hf (get_block_vote b)) bs.
Definition synced (hf : HardFork) (db : Db) : Prop :=
  versions hf = lastn (window_size hf) (chain_votes hf (blocks db)).

Definition votes_u8 (bs : list header) : Prop := Forall (fun b => is_u8 (minor_version b)) bs.

Lemma chain_votes_u8 hf bs : Inv hf -> votes_u8 bs -> Forall is_u8 (chain_votes hf bs).
Proof.
  intros HI Hb. apply Forall_fmap, (Forall_impl _ _ _ Hb). intros b Hm. apply effective_u8; [done|].
  unfold get_block_vote. case_bool; words; lia.
Qed.

Lemma read_votes_spec db n : forall h hf,
  last_versions hf = tally (versions hf) -> (h + n <= db_height db)%nat ->
  Z.of_nat (length (versions hf) + n) < 2 ^ 32 ->
  Forall is_u8 (chain_votes hf (blocks db)) ->
  let vs := versions hf ++ chain_votes hf (take n (drop h (blocks db))) in
  read_votes db n h hf = Some (set_window vs (tally vs) hf).
Proof.
  induction n as [|n IH]; intros h hf Ht Hh Hl Hv; cbn [read_votes].
  { cbn. rewrite app_nil_r, <- Ht. by destruct hf. }
  unfold get_block_from_height. unfold db_height in Hh.
  destruct (lookup_lt_is_Some_2 (blocks db) h) as [b Hb]; [lia|]. rewrite Hb. cbn [mbind option_bind].
  set (v := get_effective_version hf (get_block_vote b)).
  assert (Hvu : is_u8 v).
  { rewrite Forall_lookup in Hv. apply (Hv h). unfold chain_votes. by rewrite list_lookup_fmap, Hb. }
  rewrite Ht, bump_push by (done || lia). cbn [mbind option_bind].
  rewrite IH; [|done|unfold db_height; lia|cbn; rewrite length_app; cbn; lia|done].
  rewrite (drop_S _ _ _ Hb). cbn [take chain_votes map versions set_window].
  rewrite <- app_assoc. done.
Qed.

(** The first height of the window that ends at height [h]. *)
Lemma window_start hf (bs : list header) h w :
  length bs = S h -> (0 < w)%nat ->
  let start := (if (w - 1 <=? h)%nat then (h - (w - 1))%nat else 0%nat) in
  chain_votes hf (take (h + 1 - start) (drop start bs)) = lastn w (chain_votes hf bs).
Proof.
  intros Hl Hw start. assert (Hs : start = (length bs - w)%nat).
  { unfold start. destruct (Nat.leb_spec (w - 1) h); lia. }
  rewrite take_ge by (rewrite length_drop; lia). unfold lastn, chain_votes.
  rewrite length_map, Hs. symmetry. apply skipn_map.
Qed.

Lemma lower_index_spec ps i p n :
  schedule_ok ps -> ps !! i = Some p -> (i <= n < length ps)%nat ->
  lower_index ps (version p) n = Some i.
Proof.
  intros Hs Hp. induction n as [|n IH]; intros Hn; cbn [lower_index].
  { f_equal. lia. }
  destruct (lookup_lt_is_Some_2 ps (S n)) as [q Hq]; [lia|]. rewrite Hq. cbn [mbind option_bind].
  destruct (decide (i = S n)) as [->|Hne].
  - simplify_eq. by rewrite Z.ltb_irrefl.
  - pose proof (schedule_lookup_lt _ _ _ _ _ Hs Hp Hq ltac:(lia)) as [Hlt _].
    rewrite (proj2 (Z.ltb_lt _ _) Hlt). apply IH. lia.
Qed.

Lemma find_version_spec ps i p fuel j :
  schedule_ok ps -> ps !! i = Some p -> (j <= i)%nat -> (i - j < fuel)%nat ->
  find_version fuel ps (version p) j = Some i.
Proof.
  intros Hs Hp. revert j. induction fuel as [|fuel IH]; intros j Hj Hf; [lia|]. cbn [find_version].
  apply lookup_lt_Some in Hp as Hi. destruct (decide (j = i)) as [->|Hne].
  - rewrite Hp. cbn [mbind option_bind]. rewrite Z.eqb_refl. by case_match.
  - destruct (Nat.ltb_spec (j + 1) (length ps)); [|lia].
    destruct (lookup_lt_is_Some_2 ps j) as [q Hq]; [lia|]. rewrite Hq. cbn [mbind option_bind].
    pose proof (schedule_lookup_lt _ _ _ _ _ Hs Hq Hp ltac:(lia)) as [Hlt _].
    destruct (Z.eqb_spec (version q) (version p)); [lia|]. cbn [negb]. apply IH; lia.
Qed.

Lemma add_checked b h hf0 db0 hf1 db1 :
  add b h hf0 db0 = Some (true, hf1, db1) ->
  exists p,
  heights hf0 !! current_fork_index hf0 = Some p /\
  get_block_version b = version p /\ version p <= get_block_vote b.
Proof.
  intros E. unfold add, add_versions in E.
  destruct (do_check hf0 _ _) as [ok|] eqn:Hc; [|done]. cbn [mbind option_bind] in E.
  destruct ok; [|done]. unfold do_check in Hc.
  destruct (heights hf0 !! current_fork_index hf0) as [p|]; [|done]. injection Hc as Hc.
  apply andb_true_iff in Hc as [Hbv%Z.eqb_eq Hle%Z.leb_le]. by exists p.
Qed.

(** What [hf1], the state after adding [b], shares with any later state. *)
Definition same_schedule (hf hf' : HardFork) : Prop :=
  original_version hf = original_version hf' /\ forked_time hf = forked_time hf' /\
  update_time hf = update_time hf' /\ window_size hf = window_size hf' /\
  default_threshold_percent hf = default_threshold_percent hf' /\ heights hf = heights hf'.

Section Rebuild.
Context (hf0 hf1 hf2 : HardFork) (db0 db1 db2 : Db) (b : header).
Hypothesis Hinv : Inv hf0.
Hypothesis Hsync : synced hf0 db0.
Hypothesis Hvotes : votes_u8 (blocks db0 ++ [b]).
Hypothesis Hadd : add b (db_height db0) hf0 db0 = Some (true, hf1, db1).
Hypothesis Hblocks : blocks db2 = blocks db0 ++ [b].
Hypothesis Hversion : hf_versions db2 !! db_height db0 = hf_versions db1 !! db_height db0.
Hypothesis Hsame : same_schedule hf2 hf0.

Let h := db_height db0.
Let vs := lastn (window_size hf0) (chain_votes hf0 (blocks db2)).

(** The state [hf1], computed from the blocks of the chain. *)
Lemma rebuild_facts : exists p,
  heights hf0 !! current_fork_index hf0 = Some p /\ hf_versions db2 !! h = Some (version p) /\
  (current_fork_index hf0 <= current_fork_index hf1)%nat /\
  raise_index (h + 1) (set_window vs (tally vs) hf0) = Some hf1.
Proof.
  destruct (add_checked _ _ _ _ _ _ Hadd) as (p & Hp & Hbv & Hle). exists p. split; [done|].
  assert (Hvv : is_u8 (get_block_vote b)).
  { apply Forall_app in Hvotes as [_ Hb]. inversion Hb; subst.
    unfold get_block_vote. case_bool; words; lia. }
  destruct (add_versions_spec _ _ h hf0 db0 p Hinv Hvv Hp Hbv Hle) as (r & E & _ & Hr & Hcur & _).
  fold (add b h hf0 db0) in E. unfold h in E. rewrite Hadd in E. injection E as E1 E2.
  unfold h at 1. rewrite Hversion, E2. cbn [hf_versions set_hard_fork_version]. rewrite lookup_insert_eq.
  split; [done|]. rewrite E1. split; [cbn; lia|].
  replace vs with (lastn (window_size hf0) (versions hf0 ++ [get_effective_version hf0 (get_block_vote b)]));
    [done|].
  unfold vs. rewrite Hblocks. unfold chain_votes. rewrite map_app. cbn [map].
  pose proof (inv_window _ Hinv) as [Hw _]. rewrite <- (lastn_push _ (map _ _)) by done.
  unfold synced, chain_votes in Hsync. by rewrite <- Hsync.
Qed.

Lemma rebuild_window start n :
  chain_votes hf0 (take n (drop start (blocks db2))) = vs -> (start + n <= db_height db2)%nat ->
  Z.of_nat n < 2 ^ 32 ->
  forall i, read_votes db2 n start (set_index i (clear_window hf2)) =
            Some (set_index i (set_window vs (tally vs) hf0)).
Proof.
  intros Hvs Hn Hl i. destruct Hsame as (H1 & H2 & H3 & H4 & H5 & H6).
  assert (E : set_index i (clear_window hf2) = set_index i (clear_window hf0)).
  { unfold set_index, clear_window, set_window. cbn. congruence. }
  rewrite E, read_votes_spec; cbn; [|done..| |].
  - unfold chain_votes in Hvs. unfold chain_votes, get_effective_version in *. cbn. by rewrite Hvs.
  - lia.
  - change (Forall is_u8 (chain_votes hf0 (blocks db2))). apply chain_votes_u8; [done|].
    by rewrite Hblocks.
Qed.

Lemma db2_height : db_height db2 = S h.
Proof. unfold db_height, h. rewrite Hblocks, length_app. unfold db_height. cbn. lia. Qed.


(** [C19] Restart: [init] on a database that already has the version of each
    height rebuilds the state that the running node had after its last block,
    so a node that restarts accepts the same blocks as one that did not. *)
Theorem init_restores v0 :
  hf_versions db2 !! 0%nat = Some v0 -> init hf2 db2 = Some (hf1, db2).
Proof.
  intros H0. destruct rebuild_facts as (p & Hp & Hv & Hle & Hr).
  pose proof (inv_window _ Hinv) as [Hw Hw25]. pose proof Hsame as (_ & _ & _ & Ew & _ & Eh).
  pose proof (inv_index _ Hinv) as Hidx. unfold init.
  replace (match heights hf2 with [] => _ | _ => hf2 end) with hf2.
  2: { rewrite Eh. destruct (heights hf0) eqn:E; [cbn in Hidx; lia|]. done. }
  unfold get_hard_fork_version. rewrite H0, db2_height. cbn [window_size set_index clear_window set_window].
  rewrite Ew. set (start := (if (window_size hf0 - 1 <=? h)%nat then (h - (window_size hf0 - 1))%nat else 0%nat)).
  replace (if (window_size hf0 <? S h)%nat then (S h - (window_size hf0 - 1))%nat else 1%nat) with (S start).
  2: { unfold start. destruct (Nat.leb_spec (window_size hf0 - 1) h);
       destruct (Nat.ltb_spec (window_size hf0) (S h)); lia. }
  cbn [rescan_from_chain_height]. unfold rescan_from_block_height. rewrite db2_height.
  assert (Hst : (start <= h)%nat) by (unfold start; case_match; lia).
  destruct (Nat.leb_spec (S h) start); [lia|].
  change (clear_window (set_index 0 (clear_window hf2))) with (set_index 0 (clear_window hf2)).
  rewrite rebuild_window.
  - cbn [mbind option_bind]. unfold get_hard_fork_version. replace (S h - 1)%nat with h by lia. rewrite Hv.
    cbn [mbind option_bind heights set_index set_window].
    rewrite (find_version_spec _ (current_fork_index hf0)); [|by apply inv_heights|done|lia..].
    cbn [mbind option_bind]. replace (set_index _ (set_index 0 (set_window vs (tally vs) hf0)))
      with (set_window vs (tally vs) hf0) by by destruct hf0.
    rewrite <- (Nat.add_1_r h), Hr. done.
  - replace (S h - start)%nat with (h + 1 - start)%nat by lia. apply window_start; [|done].
    apply db2_height.
  - rewrite db2_height. lia.
  - unfold start. destruct (Nat.leb_spec (window_size hf0 - 1) h); lia.
Qed.

End Rebuild.

(** ** Totality

    No step of a reorganization reads outside the schedule, the counters or the
    stored chain. *)
Definition versions_kept (db db' : Db) : Prop :=
  blocks db' = blocks db /\ forall i, is_Some (hf_versions db !! i) -> is_Some (hf_versions db' !! i).

Lemma block_vote_u8 b : is_u8 (minor_version b) -> is_u8 (get_block_vote b).
Proof. intros H. unfold get_block_vote. case_bool; words; lia. Qed.

Lemma add_total b h hf db : Inv hf -> is_u8 (minor_version b) ->
  exists r hf' db', add b h hf db = Some (r, hf', db') /\ check hf b = Some r /\ Inv hf' /\ versions_kept db db' /\
    (r = true -> is_Some (hf_versions db' !! h)) /\ (r = false -> hf' = hf /\ db' = db).
Proof.
  intros HI Hm. destruct (lookup_lt_is_Some_2 (heights hf) (current_fork_index hf)) as [p Hp]; [apply HI|].
  destruct ((get_block_version b =? version p) && (version p <=? get_block_vote b)) eqn:Hc.
  - pose proof Hc as [Hbv%Z.eqb_eq Hle%Z.leb_le]%andb_true_iff.
    destruct (add_versions_spec _ _ h hf db p HI (block_vote_u8 b Hm) Hp Hbv Hle) as (r & Hadd & HI' & _).
    exists true. do 2 eexists. split; [exact Hadd|]. unfold check, do_check. rewrite Hp. cbn [mbind option_bind]. rewrite Hc.
    split; [done|]. split; [done|]. split; [split; [done|]|split; [|done]].
    + intros i. cbn. rewrite lookup_insert_is_Some. destruct (decide (h = i)); tauto.
    + intros _. cbn. rewrite lookup_insert_eq. by eexists.
  - exists false, hf, db. unfold add, add_versions, check, do_check. rewrite Hp. cbn [mbind option_bind]. rewrite Hc. done.
Qed.

Lemma lower_index_total ps v n : (n < length ps)%nat -> exists m, lower_index ps v n = Some m /\ (m <= n)%nat.
Proof.
  induction n as [|n IH]; intros Hn; cbn [lower_index]; [by exists 0%nat|].
  destruct (lookup_lt_is_Some_2 ps (S n)) as [p ->]; [lia|]. cbn [mbind option_bind].
  destruct (v <? version p); [|by exists (S n)]. destruct IH as (m & -> & Hm); [lia|]. exists m. split; [done|lia].
Qed.

Lemma add_blocks_total n : forall h hf db, Inv hf -> votes_u8 (blocks db) -> (h + n <= db_height db)%nat ->
  exists hf' db', add_blocks n h hf db = Some (hf', db') /\ Inv hf' /\ versions_kept db db'.
Proof.
  induction n as [|n IH]; intros h hf db HI Hv Hn; cbn [add_blocks]; [by exists hf, db|].
  unfold get_block_from_height. destruct (lookup_lt_is_Some_2 (blocks db) h) as [b Hb]; [unfold db_height in Hn; lia|].
  rewrite Hb. cbn [mbind option_bind]. unfold votes_u8 in Hv. rewrite Forall_lookup in Hv.
  destruct (add_total b h hf db HI (Hv _ _ Hb)) as (r & hf1 & db1 & -> & _ & HI1 & [Hb1 Hk1] & _). cbn [mbind option_bind].
  destruct (IH (S h) hf1 db1) as (hf2 & db2 & -> & HI2 & [Hb2 Hk2]); [done| |unfold db_height in *; rewrite Hb1; lia|].
  { unfold votes_u8. rewrite Hb1. by apply Forall_lookup. }
  exists hf2, db2. split; [done|]. split; [done|]. split; [by rewrite Hb2|]. auto.
Qed.

Lemma reorganize_total h hf db : Inv hf -> votes_u8 (blocks db) -> (forall i, (i < db_height db)%nat -> is_Some (hf_versions db !! i)) ->
  exists r hf' db', reorganize_from_block_height h hf db = Some (r, hf', db') /\ Inv hf' /\ versions_kept db db'.
Proof.
  intros HI Hv Hver. pose proof (inv_window _ HI) as [Hw Hw25]. unfold reorganize_from_block_height. destruct (Nat.leb_spec (db_height db) h) as [Hh|Hh].
  { by exists false, hf, db. }
  cbv zeta. change (original_version (clear_window hf)) with (original_version hf).
  change (heights (clear_window hf)) with (heights hf). change (current_fork_index (clear_window hf)) with (current_fork_index hf).
  change (window_size (clear_window hf)) with (window_size hf).
  assert (Hsv : exists v, (if (h =? 0)%nat then Some (original_version hf) else get_hard_fork_version db h) = Some v).
  { destruct (h =? 0)%nat; [by eexists|]. apply (Hver h). lia. }
  destruct Hsv as [v ->]. cbn [mbind option_bind].
  destruct (lower_index_total (heights hf) v (current_fork_index hf) (inv_index _ HI)) as (n & -> & Hn). cbn [mbind option_bind].
  set (start := if (window_size hf - 1 <=? h)%nat then (h - (window_size hf - 1))%nat else 0%nat).
  set (hf1 := set_index n (clear_window hf)).
  assert (HI1 : Inv hf1).
  { apply Inv_set_index; [|cbn; pose proof (inv_index _ HI); lia]. unfold clear_window. change (repeat 0 256) with (tally []).
    apply Inv_set_window; [done|constructor|cbn; lia]. }
  assert (Hc : Forall is_u8 (chain_votes hf1 (blocks db))) by by apply chain_votes_u8.
  assert (Hst : (h + 1 - start <= window_size hf)%nat) by (unfold start; destruct (Nat.leb_spec (window_size hf - 1) h); lia).
  set (vs := versions hf1 ++ chain_votes hf1 (take (h + 1 - start) (drop start (blocks db)))).
  assert (Hrv : read_votes db (h + 1 - start) start hf1 = Some (set_window vs (tally vs) hf1)).
  { apply read_votes_spec; [apply HI1|unfold start; case_match; lia|cbn; lia|done]. }
  rewrite Hrv. cbn [mbind option_bind].
  assert (HI2 : Inv (set_window vs (tally vs) hf1)).
  { unfold vs. cbn [versions hf1 set_index set_window app]. apply Inv_set_window; [done| |].
    - unfold chain_votes in *. rewrite <- firstn_map, <- skipn_map. by apply Forall_take, Forall_drop.
    - assert (Hlen : (length (take (h + 1 - start) (drop start (blocks db))) <= h + 1 - start)%nat) by (rewrite length_take; lia).
      unfold vs, chain_votes. cbn [versions hf1 set_index clear_window set_window app window_size]. rewrite length_fmap. lia. }
  destruct (raise_index_spec _ (h + 1) HI2) as (r & -> & Hr & _). cbn [mbind option_bind].
  destruct (add_blocks_total (db_height db - (h + 1)) (h + 1) (set_index r (set_window vs (tally vs) hf1)) db)
    as (hf3 & db3 & -> & HI3 & Hk); [by apply Inv_set_index|done|lia|].
  by exists true, hf3, db3.
Qed.

Definition sample_db0 : Db := MkDb [Header 1 0; Header 1 1; Header 1 2; Header 1 1] {[0%nat := 1]}.
Definition sample_fork1 : HardFork := set_index 1 (set_window [2; 1; 2] (tally [2; 1; 2]) sample_fork).
Definition sample_db1 : Db := set_hard_fork_version 4 1 sample_db0.
Definition sample_db2 : Db := MkDb (blocks sample_db0 ++ [Header 1 2]) (hf_versions sample_db1).


Lemma init_restores_witness :
  init (clear_window sample_fork) sample_db2 = Some (sample_fork1, sample_db2).
Proof.
  apply (init_restores sample_fork sample_fork1 (clear_window sample_fork)
    sample_db0 sample_db1 sample_db2 (Header 1 2)) with (v0 := 1); try done.
  - apply sample_fork_Inv.
  - repeat constructor; cbn; words; lia.
Defined.

(** ** Activation by height *)

Definition reached (hf : HardFork) (h n : nat) : Prop :=
  exists p, heights hf !! n = Some p /\ (height p <= h)%nat.

Lemma due_reached hf h n :
  Forall (fun p => threshold p = 0) (heights hf) -> due hf h n <-> reached hf h n.
Proof.
  intros Hz. split.
  - intros (p & Hp & Hh & _). by exists p.
  - intros (p & Hp & Hh). exists p. split; [done|]. split; [done|].
    rewrite Forall_lookup in Hz. unfold required. rewrite (Hz _ _ Hp), Z.mul_0_r.
    change ((0 + 99) / 100) with 0. apply votes_from_bound.
Qed.

(** The number of the last fork whose height is reached, [0] if none but the
    first is. *)
Definition ideal_index (hf : HardFork) (h : nat) : nat :=
  default 0%nat (find_down (heights hf) (fun p => (height p <=? h)%nat) (length (heights hf) - 1)).

Lemma find_down_spec ps f N n :
  (N < length ps)%nat -> (n <= N)%nat ->
  (n = 0%nat \/ exists p, ps !! n = Some p /\ f p = true) ->
  (forall m p, (n < m <= N)%nat -> ps !! m = Some p -> f p = false) ->
  default 0%nat (find_down ps f N) = n.
Proof.
  intros HN. induction N as [|N IH]; intros Hn Hc Hno; cbn [find_down]; [cbn; lia|].
  destruct (lookup_lt_is_Some_2 ps (S N) HN) as [p Hp]. rewrite Hp.
  destruct (decide (n = S N)) as [->|Hne].
  - destruct Hc as [|(q & Hq & Hf)]; [done|]. simplify_eq. by rewrite Hf.
  - rewrite (Hno (S N) p) by (done || lia). apply IH; [lia..|done|].
    intros m q Hm. apply Hno. lia.
Qed.

Lemma ideal_index_spec hf h n :
  (n < length (heights hf))%nat -> (n = 0%nat \/ reached hf h n) ->
  (forall m, (n < m)%nat -> ~ reached hf h m) -> ideal_index hf h = n.
Proof.
  intros Hn Hc Hno. apply find_down_spec; [lia..| |].
  - destruct Hc as [|(p & Hp & Hh)]; [by left|right]. exists p. split; [done|by apply Nat.leb_le].
  - intros m p Hm Hp. apply Nat.leb_gt. destruct (decide (height p <= h)%nat); [|lia].
    destruct (Hno m); [lia|by exists p].
Qed.

Lemma ideal_index_reached hf h : ideal_index hf h = 0%nat \/ reached hf h (ideal_index hf h).
Proof.
  unfold ideal_index. induction (length (heights hf) - 1)%nat as [|n IH]; [by left|]. cbn [find_down].
  destruct (heights hf !! S n) as [p|] eqn:Hp; [|by left].
  destruct (Nat.leb_spec (height p) h); [|done]. right. by exists p.
Qed.

(** Without voting thresholds, as in the schedules of the main and the
    test network, forks activate by height alone: if the current fork is the
    one the schedule gives for the height of a block, then after the block is
    added it is the one the schedule gives for the next height. *)
Theorem add_by_height b h hf db hf' db' :
  Inv hf -> is_u8 (minor_version b) -> Forall (fun p => threshold p = 0) (heights hf) ->
  current_fork_index hf = ideal_index hf h -> add b h hf db = Some (true, hf', db') ->
  heights hf' = heights hf /\ current_fork_index hf' = ideal_index hf' (h + 1).
Proof.
  intros HI Hm Hz Hcur Ha. destruct (add_checked _ _ _ _ _ _ Ha) as (p & Hp & Hbv & Hle).
  assert (Hvv : is_u8 (get_block_vote b)) by (unfold get_block_vote; case_bool; words; lia).
  destruct (add_versions_spec _ _ h hf db p HI Hvv Hp Hbv Hle) as (r & E & HI' & _ & Hr & Hno).
  fold (add b h hf db) in E. rewrite Ha in E. injection E as -> _. split; [done|].
  symmetry. apply ideal_index_spec; [by apply inv_index| |].
  - cbn. destruct Hr as [->|[_ Hd]]; [|right; by apply due_reached in Hd].
    rewrite Hcur. destruct (ideal_index_reached hf h) as [->|(q & Hq & Hh)]; [by left|right].
    exists q. split; [done|lia].
  - cbn. intros m Hlt Hre. apply (Hno m); [destruct Hr; lia|done|]. by apply due_reached.
Qed.

(** The schedule of the main network. *)
Definition hard_forks : list Params :=
  [ MkParams 1 0 1 1482806500;
    MkParams 2 0 (Z.to_nat 49100) 1534766400;
    MkParams 3 0 (Z.to_nat 234739) 1546266600;
    MkParams 4 0 (Z.to_nat 280000) 1548248400 ].

Definition testnet_hard_forks : list Params := [ MkParams 1 0 1 1482806500 ].

Lemma hard_forks_ok : schedule_ok hard_forks.
Proof.
  unfold hard_forks. split.
  - repeat apply SSorted_cons; [apply SSorted_nil|..];
      rewrite ?Forall_cons, ?Forall_nil; unfold fork_lt; cbn [version height time]; lia.
  - rewrite !Forall_cons, Forall_nil. unfold fork_ok. cbn [version threshold]. lia.
Qed.

Definition sample_heights : HardFork :=
  MkHardFork 1 0 0 3 80 [MkParams 1 0 1 5; MkParams 2 0 4 9] [1] (tally [1]) 0.

Lemma add_by_height_witness :
  let hf' := set_index 1 (set_window [1; 1] (tally [1; 1]) sample_heights) in
  heights hf' = heights sample_heights /\ current_fork_index hf' = ideal_index hf' 4.
Proof.
  apply (add_by_height (Header 1 1) 3 sample_heights (MkDb [] ∅) _
    (set_hard_fork_version 3 1 (MkDb [] ∅))).
  - constructor; try split; repeat constructor; cbn; words; lia.
  - cbn. words. lia.
  - repeat constructor.
  - done.
  - done.
Defined.

End HardFork.
