(* ===== verification/Serialization.v ===== *)
(** * Binary serialization

    Model of the binary archive of [src/serialization]: [binary_archive.h]
    (integers, blobs, varints), [vector.h], [string.h], [variant.h], the
    signature vectors of [crypto.h], and [binary_utils.h].

    A value is written by a function to [option (list Z)], [None] for a [false]
    result, and read by a [reader] from the bytes that are left in the stream,
    [None] when the stream fails or the result is [false].  Each step checks
    the stream as the field macros of [serialization.h] do. *)
From S2P Require Import Prelude Varint.
Import Varint.

Module Serialization.

Definition reader (A : Type) : Type := list Z -> option (A * list Z).
Definition writer (A : Type) : Type := A -> option (list Z).

(** ** Integers and blobs *)

(** The loop of [serialize_uint] on reading: [ret += b << shift] at the width
    of the type. *)
Fixpoint read_uint_loop (w : Z) (n : nat) (shift ret : Z) (st : list Z) : option (Z * list Z) :=
  match n with
  | O => Some (ret, st)
  | S n =>
      match st with
      | [] => None
      | b :: st => read_uint_loop w n (shift + 8) (wrap w (ret + wrap w (Z.shiftl b shift))) st
      end
  end.
Definition read_uint (n : nat) : reader Z := read_uint_loop (8 * Z.of_nat n) n 0 0.

(** [stream_.put((char)(v & 0xff)); v >>= 8;] *)
Fixpoint write_uint_loop (n : nat) (v : Z) : list Z :=
  match n with
  | O => []
  | S n => Z.land v 0xff :: write_uint_loop n (Z.shiftr v 8)
  end.
Definition write_uint (n : nat) : writer Z := fun v => Some (write_uint_loop n v).

Definition read_blob (len : nat) : reader (list Z) := fun st =>
  if (length st <? len)%nat then None else Some (take len st, drop len st).
Definition write_blob : writer (list Z) := fun v => Some v.

(** [serialize_uvarint] ignores the error code of [read_varint]; the value is
    what was read up to the error. *)
Definition read_uvarint (bits : Z) : reader Z := fun st =>
  let '(_, v, st) := read_varint bits st in Some (v, st).
Definition write_uvarint : writer Z := fun v => Some (write_varint v).

(** ** Vectors and strings *)

Fixpoint read_elements {A} (get : reader A) (n : nat) : reader (list A) := fun st =>
  match n with
  | O => Some ([], st)
  | S n =>
      '(x, st) ← get st;
      '(l, st) ← read_elements get n st;
      Some (x :: l, st)
  end.
Fixpoint write_elements {A} (put : writer A) (l : list A) : option (list Z) :=
  match l with
  | [] => Some []
  | x :: l => b ← put x; bs ← write_elements put l; Some (b ++ bs)
  end.

(** [do_serialize] of a [std::vector]; the count is checked against the bytes
    that remain. *)
Definition read_vector {A} (get : reader A) : reader (list A) := fun st =>
  '(cnt, st) ← read_uvarint 64 st;
  if Z.of_nat (length st) <? cnt then None else read_elements get (Z.to_nat cnt) st.
Definition write_vector {A} (put : writer A) : writer (list A) := fun v =>
  c ← write_uvarint (Z.of_nat (length v));
  bs ← write_elements put v;
  Some (c ++ bs).

Definition read_string : reader (list Z) := fun st =>
  '(size, st) ← read_uvarint 64 st;
  if Z.of_nat (length st) <? size then None else read_blob (Z.to_nat size) st.
Definition write_string : writer (list Z) := fun str =>
  c ← write_uvarint (Z.of_nat (length str));
  b ← write_blob str;
  Some (c ++ b).

(** A [std::vector<crypto::signature>], whose size is known from elsewhere. *)
Definition SIGNATURE_SIZE : nat := 64.
Definition read_signatures (cnt : nat) : reader (list (list Z)) := fun st =>
  if (length st <? cnt * SIGNATURE_SIZE)%nat then None
  else read_elements (read_blob SIGNATURE_SIZE) cnt st.
Definition write_signatures : writer (list (list Z)) := fun v =>
  match v with
  | [] => Some []
  | _ => write_elements write_blob v
  end.

(** ** Variants *)

(** [variant_reader]: the alternatives in order, each with its tag. *)
Fixpoint variant_reader {A} (alts : list (Z * reader A)) (t : Z) : reader A := fun st =>
  match alts with
  | [] => None
  | (tag, get) :: alts => if tag =? t then get st else variant_reader alts t st
  end.
Definition read_variant {A} (alts : list (Z * reader A)) : reader A := fun st =>
  '(t, st) ← read_uint 1 st;
  variant_reader alts t st.
Definition write_variant (tag : Z) (body : option (list Z)) : option (list Z) :=
  t ← write_uint 1 tag; b ← body; Some (t ++ b).

(** An alternative of a variant: [current_type x; do_serialize(ar, x); v = x;] *)
Definition alt {A B} (inj : A -> B) (get : reader A) : reader B := fun st =>
  '(x, st) ← get st; Some (inj x, st).

(** ** Whole blobs *)

(** [serialization::serialize] on reading wants the stream to be at its end. *)
Definition parse_binary {A} (get : reader A) (blob : list Z) : option A :=
  '(v, st) ← get blob;
  match st with [] => Some v | _ => None end.
Definition dump_binary {A} (put : writer A) (v : A) : option (list Z) := put v.

(** * Properties *)

(** What a type promises to the types built from it: a value is written to at
    least one byte, and reading the bytes back, whatever follows them, gives
    the value. *)
Definition rt {A} (put : writer A) (get : reader A) (a : A) : Prop :=
  exists bs, put a = Some bs /\ bytes bs /\ bs <> [] /\ forall st, get (bs ++ st) = Some (a, st).

(** The same without the promise of at least one byte. *)
Definition rt0 {A} (put : writer A) (get : reader A) (a : A) : Prop :=
  exists bs, put a = Some bs /\ bytes bs /\ forall st, get (bs ++ st) = Some (a, st).

Lemma rt_rt0 {A} (put : writer A) get a : rt put get a -> rt0 put get a.
Proof. intros (bs & E & B & _ & R). by exists bs. Qed.

Lemma read_uint_loop_spec n : forall l shift ret st,
  bytes l -> length l = n -> 0 <= shift -> 0 <= ret < 2 ^ shift ->
  forall w, shift + 8 * Z.of_nat n <= w ->
  read_uint_loop w n shift ret (l ++ st) = Some (ret + 2 ^ shift * le_val l, st).
Proof.
  induction n as [|n IH]; intros l shift ret st Hb Hl Hs Hr w Hw.
  { destruct l; [|done]. cbn. do 2 f_equal. lia. }
  destruct l as [|b l]; [done|]. inversion Hb; subst. cbn [read_uint_loop app].
  rewrite Z.shiftl_mul_pow2 by lia.
  assert (Hp : 2 ^ (shift + 8) = 256 * 2 ^ shift) by (rewrite Z.pow_add_r by lia; lia).
  assert (Hle : 2 ^ (shift + 8) <= 2 ^ w) by (apply Z.pow_le_mono_r; lia).
  assert (0 <= b < 256) by (words; lia). assert (0 < 2 ^ shift) by lia.
  rewrite (wrap_small w (b * 2 ^ shift)) by (unfold word; nia).
  rewrite wrap_small by (unfold word; nia).
  rewrite IH by (try done; try lia; try (by injection Hl); nia).
  cbn [le_val]. do 2 f_equal. rewrite Hp. lia.
Qed.

Lemma write_uint_loop_le n : forall v, write_uint_loop n v = le_bytes n v.
Proof.
  induction n as [|n IH]; intros v; [done|]. cbn [write_uint_loop le_bytes].
  rewrite IH. change 0xff with (Z.ones 8). rewrite Z.land_ones, Z.shiftr_div_pow2 by lia. done.
Qed.

Lemma rt_uint n v : (0 < n)%nat -> word (8 * Z.of_nat n) v -> rt (write_uint n) (read_uint n) v.
Proof.
  intros Hn Hv. exists (le_bytes n v). unfold write_uint. rewrite write_uint_loop_le.
  split; [done|]. split; [apply le_bytes_bytes|]. split; [by destruct n; [lia|]|].
  intros st. unfold read_uint.
  rewrite read_uint_loop_spec by (try apply le_bytes_bytes; try apply length_le_bytes; cbn; lia).
  rewrite le_val_le_bytes, Z.mod_small; [do 2 f_equal; lia|].
  unfold word in Hv. rewrite Z.pow_mul_r in Hv by lia. done.
Qed.

Lemma rt_blob n v : length v = n -> bytes v -> (0 < n)%nat -> rt write_blob (read_blob n) v.
Proof.
  intros Hl Hb Hn. exists v. split; [done|]. split; [done|]. split; [by destruct v; [cbn in Hl; lia|]|].
  intros st. unfold read_blob. rewrite length_app.
  destruct (Nat.ltb_spec (length v + length st) n); [lia|].
  by rewrite take_app_length', drop_app_length'.
Qed.

Lemma write_varint_nonempty i : 0 <= i -> write_varint i <> [].
Proof. intros Hi. rewrite write_varint_eq by done. by case_bool. Qed.

Lemma rt_uvarint bits v : 0 <= bits -> 0 <= v < 2 ^ bits -> rt write_uvarint (read_uvarint bits) v.
Proof.
  intros Hb Hv. exists (write_varint v). split; [done|]. split; [apply write_varint_bytes; lia|].
  split; [apply write_varint_nonempty; lia|].
  intros st. unfold read_uvarint. by rewrite read_write_spec by lia.
Qed.

Lemma rt_elements {A} (put : writer A) get l :
  Forall (rt put get) l ->
  exists bs, write_elements put l = Some bs /\ bytes bs /\ (length l <= length bs)%nat /\
    forall st, read_elements get (length l) (bs ++ st) = Some (l, st).
Proof.
  induction 1 as [|x l (b & E & B & N & R) Hl (bs & E' & B' & L' & R')]; [by exists []|].
  exists (b ++ bs). cbn [write_elements read_elements length]. rewrite E, E'. cbn [mbind option_bind].
  split; [done|]. split; [by apply Forall_app_2|]. split.
  - rewrite length_app. destruct b; [done|]. cbn. lia.
  - intros st. rewrite <- app_assoc, R. cbn [mbind option_bind]. by rewrite R'.
Qed.

Lemma rt0_elements {A} (put : writer A) get l :
  Forall (rt0 put get) l -> rt0 (write_elements put) (read_elements get (length l)) l.
Proof.
  induction 1 as [|x l (b & E & B & R) Hl (bs & E' & B' & R')]; [by exists []|].
  exists (b ++ bs). cbn [write_elements read_elements length]. rewrite E, E'. cbn [mbind option_bind].
  split; [done|]. split; [by apply Forall_app_2|].
  intros st. rewrite <- app_assoc, R. cbn [mbind option_bind]. by rewrite R'.
Qed.

Lemma rt_vector {A} (put : writer A) get l :
  Forall (rt put get) l -> Z.of_nat (length l) < 2 ^ 64 -> rt (write_vector put) (read_vector get) l.
Proof.
  intros Hl Hn. destruct (rt_elements put get l Hl) as (bs & E & B & L & R).
  destruct (rt_uvarint 64 (Z.of_nat (length l))) as (c & Ec & Bc & Nc & Rc); [lia..|].
  exists (c ++ bs). unfold write_vector. rewrite Ec, E. cbn [mbind option_bind].
  split; [done|]. split; [by apply Forall_app_2|]. split; [by destruct c|].
  intros st. unfold read_vector. rewrite <- app_assoc, Rc. cbn [mbind option_bind].
  rewrite length_app. destruct (Z.ltb_spec (Z.of_nat (length bs + length st)) (Z.of_nat (length l))); [lia|].
  by rewrite Nat2Z.id.
Qed.

Lemma rt_string s : bytes s -> Z.of_nat (length s) < 2 ^ 64 -> rt write_string read_string s.
Proof.
  intros Hb Hn. destruct (rt_uvarint 64 (Z.of_nat (length s))) as (c & Ec & Bc & Nc & Rc); [lia..|].
  exists (c ++ s). unfold write_string, write_blob. rewrite Ec. cbn [mbind option_bind].
  split; [done|]. split; [by apply Forall_app_2|]. split; [by destruct c|].
  intros st. unfold read_string, read_blob. rewrite <- app_assoc, Rc. cbn [mbind option_bind].
  rewrite length_app, Nat2Z.id.
  destruct (Z.ltb_spec (Z.of_nat (length s + length st)) (Z.of_nat (length s))); [lia|].
  destruct (Nat.ltb_spec (length s + length st) (length s)); [lia|].
  by rewrite take_app_length, drop_app_length.
Qed.

Definition is_blob (n : nat) (v : list Z) : Prop := length v = n /\ bytes v.

Lemma rt_signatures l :
  Forall (is_blob SIGNATURE_SIZE) l -> rt0 write_signatures (read_signatures (length l)) l.
Proof.
  intros Hl. assert (Hr : Forall (rt write_blob (read_blob SIGNATURE_SIZE)) l).
  { apply (Forall_impl _ _ _ Hl). intros v [Hv Hb]. apply rt_blob; [done..|]. unfold SIGNATURE_SIZE. lia. }
  destruct (rt_elements _ _ l Hr) as (bs & E & B & _ & R). exists bs.
  split; [by destruct l|]. split; [done|]. intros st. unfold read_signatures. rewrite R.
  assert (Hlen : length bs = (length l * SIGNATURE_SIZE)%nat).
  { clear -Hl E. revert bs E. induction Hl as [|v l [Hv _] Hl IH]; intros bs E; [by injection E as <-|].
    cbn [write_elements write_blob mbind option_bind] in E.
    destruct (write_elements write_blob l) as [bs'|]; [|done]. injection E as <-.
    rewrite length_app, Hv, (IH bs') by done. cbn [length]. lia. }
  rewrite length_app, Hlen.
  by destruct (Nat.ltb_spec (length l * SIGNATURE_SIZE + length st) (length l * SIGNATURE_SIZE)); [lia|].
Qed.

(** A variant is read back when its tag selects the alternative it was
    written with. *)
Lemma rt_variant {A B} (inj : A -> B) (put : writer A) (get : reader A) alts tag a :
  is_u8 tag -> rt0 put get a -> (forall st, variant_reader alts tag st = alt inj get st) ->
  exists bs, write_variant tag (put a) = Some bs /\ bytes bs /\ bs <> [] /\
    forall st, read_variant alts (bs ++ st) = Some (inj a, st).
Proof.
  intros Ht (b & E & Bb & R) Halt. destruct (rt_uint 1 tag) as (t & Et & Bt & Nt & Rt); [lia|done|].
  exists (t ++ b). unfold write_variant. rewrite Et, E. cbn [mbind option_bind].
  split; [done|]. split; [by apply Forall_app_2|]. split; [by destruct t|].
  intros st. unfold read_variant. rewrite <- app_assoc, Rt. cbn [mbind option_bind].
  rewrite Halt. unfold alt. by rewrite R.
Qed.

Lemma parse_dump {A} (put : writer A) get a :
  rt0 put get a -> exists blob, dump_binary put a = Some blob /\ parse_binary get blob = Some a.
Proof.
  intros (bs & E & _ & R). exists bs. split; [done|]. unfold parse_binary.
  specialize (R []). rewrite app_nil_r in R. by rewrite R.
Qed.

(** The steps of a record's round trip: [rt_open H] opens the promise of a
    field, [rt_close] runs the writer and the reader of the record over the
    opened fields. *)
Ltac rt_open H :=
  let bs := fresh "bs" in let E := fresh "E" in let B := fresh "B" in let R := fresh "R" in
  destruct H as (bs & E & B & R);
  match type of R with
  | _ /\ _ => let N := fresh "N" in destruct R as [N R]
  | _ => idtac
  end.
Ltac rt_run :=
  repeat first
    [ match goal with E : ?p ?x = Some _ |- context [?p ?x] => rewrite E end
    | progress cbn [mbind option_bind] ].
Ltac rt_read :=
  rewrite <- ?app_assoc;
  repeat first
    [ match goal with R : forall st, ?g (?bs ++ st) = Some _ |- context [?g (?bs ++ _)] => rewrite R end
    | progress cbn [mbind option_bind] ].
Ltac rt_bytes := repeat first [assumption|apply Forall_app_2|apply Forall_nil].
Ltac rt_nonempty :=
  intros ?; repeat match goal with H : _ ++ _ = [] |- _ => apply app_eq_nil in H; destruct H end; by subst.

End Serialization.
