(* ===== verification/Basic.v ===== *)
(** * Transactions and blocks

    Model of the data of [src/cryptonote_core/cryptonote_basic.h] and of the
    serialized part of [src/ringct/rctTypes.h], with the serialization each
    type declares.  A hash, key, key image or scalar is its 32 bytes.  The
    fields the serialization leaves out because they can be reconstructed
    ([message], [mixRing], [II], [dest], [senderPk]) are left out here too. *)
From S2P Require Import Prelude Varint Serialization.
Import Serialization.

Module Basic.

Abbreviation hash := (list Z).
Definition null_hash : hash := repeat 0 32.
Abbreviation public_key := (list Z).
Abbreviation key_image := (list Z).
Abbreviation key := (list Z).
Abbreviation signature := (list Z).

Definition read_hash : reader hash := read_blob 32.
Definition read_byte : reader Z := read_uint 1.
Definition write_byte : writer Z := write_uint 1.

(** ** Outputs *)

Record txout_to_script := MkTxoutToScript { keys : list public_key; script : list Z }.
Inductive txout_target_v :=
  | To_script (x : txout_to_script)
  | To_scripthash (h : hash)
  | To_key (k : public_key).
Record tx_out := MkTxOut { amount : Z; target : txout_target_v }.

Definition read_txout_to_script : reader txout_to_script := fun st =>
  '(keys, st) ← read_vector read_hash st;
  '(script, st) ← read_vector read_byte st;
  Some (MkTxoutToScript keys script, st).
Definition write_txout_to_script : writer txout_to_script := fun x =>
  k ← write_vector write_blob (keys x);
  s ← write_vector write_byte (script x);
  Some (k ++ s).

Definition txout_alts : list (Z * reader txout_target_v) :=
  [(0x0, alt To_script read_txout_to_script); (0x1, alt To_scripthash read_hash); (0x2, alt To_key read_hash)].
Definition read_txout_target : reader txout_target_v := read_variant txout_alts.
Definition write_txout_target : writer txout_target_v := fun v =>
  match v with
  | To_script x => write_variant 0x0 (write_txout_to_script x)
  | To_scripthash h => write_variant 0x1 (write_blob h)
  | To_key k => write_variant 0x2 (write_blob k)
  end.

Definition read_tx_out : reader tx_out := fun st =>
  '(amount, st) ← read_uvarint 64 st;
  '(target, st) ← read_txout_target st;
  Some (MkTxOut amount target, st).
Definition write_tx_out : writer tx_out := fun o =>
  a ← write_uvarint (amount o);
  t ← write_txout_target (target o);
  Some (a ++ t).

(** ** Inputs *)

Record txin_gen := MkTxinGen { gen_height : Z }.
Record txin_to_script := MkTxinToScript { s_prev : hash; s_prevout : Z; s_sigset : list Z }.
Record txin_to_scripthash :=
  MkTxinToScripthash { sh_prev : hash; sh_prevout : Z; sh_script : txout_to_script; sh_sigset : list Z }.
Record txin_to_key := MkTxinToKey { in_amount : Z; key_offsets : list Z; k_image : key_image }.
Inductive txin_v :=
  | In_gen (x : txin_gen)
  | In_to_script (x : txin_to_script)
  | In_to_scripthash (x : txin_to_scripthash)
  | In_to_key (x : txin_to_key).

Definition read_txin_gen : reader txin_gen := fun st =>
  '(h, st) ← read_uvarint 64 st; Some (MkTxinGen h, st).
Definition write_txin_gen : writer txin_gen := fun x => write_uvarint (gen_height x).

Definition read_txin_to_script : reader txin_to_script := fun st =>
  '(prev, st) ← read_hash st;
  '(prevout, st) ← read_uvarint 64 st;
  '(sigset, st) ← read_vector read_byte st;
  Some (MkTxinToScript prev prevout sigset, st).
Definition write_txin_to_script : writer txin_to_script := fun x =>
  p ← write_blob (s_prev x);
  o ← write_uvarint (s_prevout x);
  s ← write_vector write_byte (s_sigset x);
  Some (p ++ o ++ s).

Definition read_txin_to_scripthash : reader txin_to_scripthash := fun st =>
  '(prev, st) ← read_hash st;
  '(prevout, st) ← read_uvarint 64 st;
  '(script, st) ← read_txout_to_script st;
  '(sigset, st) ← read_vector read_byte st;
  Some (MkTxinToScripthash prev prevout script sigset, st).
Definition write_txin_to_scripthash : writer txin_to_scripthash := fun x =>
  p ← write_blob (sh_prev x);
  o ← write_uvarint (sh_prevout x);
  c ← write_txout_to_script (sh_script x);
  s ← write_vector write_byte (sh_sigset x);
  Some (p ++ o ++ c ++ s).

Definition read_txin_to_key : reader txin_to_key := fun st =>
  '(a, st) ← read_uvarint 64 st;
  '(o, st) ← read_vector (read_uvarint 64) st;
  '(k, st) ← read_hash st;
  Some (MkTxinToKey a o k, st).
Definition write_txin_to_key : writer txin_to_key := fun x =>
  a ← write_uvarint (in_amount x);
  o ← write_vector write_uvarint (key_offsets x);
  k ← write_blob (k_image x);
  Some (a ++ o ++ k).

Definition txin_alts : list (Z * reader txin_v) :=
  [(0xff, alt In_gen read_txin_gen); (0x0, alt In_to_script read_txin_to_script);
   (0x1, alt In_to_scripthash read_txin_to_scripthash); (0x2, alt In_to_key read_txin_to_key)].
Definition read_txin : reader txin_v := read_variant txin_alts.
Definition write_txin : writer txin_v := fun v =>
  match v with
  | In_gen x => write_variant 0xff (write_txin_gen x)
  | In_to_script x => write_variant 0x0 (write_txin_to_script x)
  | In_to_scripthash x => write_variant 0x1 (write_txin_to_scripthash x)
  | In_to_key x => write_variant 0x2 (write_txin_to_key x)
  end.

(** ** Ring signatures *)

Record ecdhTuple := MkEcdhTuple { ecdh_mask : key; ecdh_amount : key }.
(** The [boroSig] and the [key64] are blobs: 129 and 64 keys. *)
Record rangeSig := MkRangeSig { asig : list Z; Ci : list Z }.
Record mgSig := MkMgSig { ss : list (list key); cc : key }.
Record rctSig := MkRctSig {
  rct_type : Z;
  txnFee : Z;
  pseudoOuts : list key;
  ecdhInfo : list ecdhTuple;
  outPk : list key;
  rangeSigs : list rangeSig;
  MGs : list mgSig
}.

Definition RCTTypeNull : Z := 0.
Definition RCTTypeFull : Z := 1.
Definition RCTTypeSimple : Z := 2.
Definition rct_null : rctSig := MkRctSig RCTTypeNull 0 [] [] [] [] [].

Definition boroSig_size : nat := 4128.
Definition key64_size : nat := 2048.

Definition read_ecdhTuple : reader ecdhTuple := fun st =>
  '(m, st) ← read_hash st; '(a, st) ← read_hash st; Some (MkEcdhTuple m a, st).
Definition write_ecdhTuple : writer ecdhTuple := fun x =>
  m ← write_blob (ecdh_mask x); a ← write_blob (ecdh_amount x); Some (m ++ a).
Definition read_rangeSig : reader rangeSig := fun st =>
  '(a, st) ← read_blob boroSig_size st; '(c, st) ← read_blob key64_size st; Some (MkRangeSig a c, st).
Definition write_rangeSig : writer rangeSig := fun x =>
  a ← write_blob (asig x); c ← write_blob (Ci x); Some (a ++ c).

(** A vector written without its size, whose size must be [n]. *)
Definition write_sized {A} (put : writer A) (n : nat) : writer (list A) := fun v =>
  if negb (length v =? n)%nat then None else write_elements put v.

(** [serialize_rctsig_base]; reading returns the fields of the base in a
    signature without prunable part. *)
Definition read_rctsig_base (inputs outputs : nat) : reader rctSig := fun st =>
  '(type, st) ← read_uint 1 st;
  if type =? RCTTypeNull then Some (MkRctSig type 0 [] [] [] [] [], st) else
  if negb (type =? RCTTypeFull) && negb (type =? RCTTypeSimple) then None else
  '(fee, st) ← read_uvarint 64 st;
  '(pseudo, st) ← (if type =? RCTTypeSimple then read_elements read_hash inputs st else Some ([], st));
  '(ecdh, st) ← read_elements read_ecdhTuple outputs st;
  '(outpk, st) ← read_elements read_hash outputs st;
  Some (MkRctSig type fee pseudo ecdh outpk [] [], st).
Definition write_rctsig_base (inputs outputs : nat) : writer rctSig := fun x =>
  t ← write_uint 1 (rct_type x);
  if rct_type x =? RCTTypeNull then Some t else
  if negb (rct_type x =? RCTTypeFull) && negb (rct_type x =? RCTTypeSimple) then None else
  f ← write_uvarint (txnFee x);
  p ← (if rct_type x =? RCTTypeSimple then write_sized write_blob inputs (pseudoOuts x) else Some []);
  e ← write_sized write_ecdhTuple outputs (ecdhInfo x);
  o ← write_sized write_blob outputs (outPk x);
  Some (t ++ f ++ p ++ e ++ o).

(** One MLSAG signature: the matrix [ss] without sizes, then [cc]. *)
Definition read_mgSig (rows cols : nat) : reader mgSig := fun st =>
  '(s, st) ← read_elements (read_elements read_hash cols) rows st;
  '(c, st) ← read_hash st;
  Some (MkMgSig s c, st).
Definition write_mgSig (rows cols : nat) : writer mgSig := fun x =>
  s ← write_sized (write_sized write_blob cols) rows (ss x);
  c ← write_blob (cc x);
  Some (s ++ c).

(** [serialize_rctsig_prunable] for a type that is not null; [ring] is
    [mixin + 1] in the arithmetic of [size_t]. *)
Definition read_rctsig_prunable (type : Z) (inputs outputs ring : nat)
  : reader (list rangeSig * list mgSig) := fun st =>
  if negb (type =? RCTTypeFull) && negb (type =? RCTTypeSimple) then None else
  '(rs, st) ← read_elements read_rangeSig outputs st;
  let mg_elements := if type =? RCTTypeSimple then inputs else 1%nat in
  let mg_ss2_elements := ((if (type =? RCTTypeSimple)%Z then 1 else inputs) + 1)%nat in
  '(ms, st) ← read_elements (read_mgSig ring mg_ss2_elements) mg_elements st;
  Some ((rs, ms), st).
Definition write_rctsig_prunable (type : Z) (inputs outputs ring : nat) : writer rctSig := fun x =>
  if negb (type =? RCTTypeFull) && negb (type =? RCTTypeSimple) then None else
  rs ← write_sized write_rangeSig outputs (rangeSigs x);
  let mg_elements := if type =? RCTTypeSimple then inputs else 1%nat in
  let mg_ss2_elements := ((if (type =? RCTTypeSimple)%Z then 1 else inputs) + 1)%nat in
  ms ← write_sized (write_mgSig ring mg_ss2_elements) mg_elements (MGs x);
  Some (rs ++ ms).

(** ** Transactions *)

Record transaction_prefix := MkPrefix {
  version : Z;
  unlock_time : Z;
  vin : list txin_v;
  vout : list tx_out;
  extra : list Z
}.
Record transaction := MkTransaction {
  prefix : transaction_prefix;
  signatures : list (list signature);
  rct_signatures : rctSig
}.

Definition CURRENT_TRANSACTION_VERSION : Z := 2.

Definition read_prefix : reader transaction_prefix := fun st =>
  '(v, st) ← read_uvarint 64 st;
  if (v =? 0) || (CURRENT_TRANSACTION_VERSION <? v) then None else
  '(u, st) ← read_uvarint 64 st;
  '(i, st) ← read_vector read_txin st;
  '(o, st) ← read_vector read_tx_out st;
  '(e, st) ← read_vector read_byte st;
  Some (MkPrefix v u i o e, st).
Definition write_prefix : writer transaction_prefix := fun x =>
  v ← write_uvarint (version x);
  if (version x =? 0) || (CURRENT_TRANSACTION_VERSION <? version x) then None else
  u ← write_uvarint (unlock_time x);
  i ← write_vector write_txin (vin x);
  o ← write_vector write_tx_out (vout x);
  e ← write_vector write_byte (extra x);
  Some (v ++ u ++ i ++ o ++ e).

Definition get_signature_size (tx_in : txin_v) : nat :=
  match tx_in with
  | In_gen _ | In_to_script _ | In_to_scripthash _ => 0
  | In_to_key x => length (key_offsets x)
  end.

(** The loop over the inputs of a version 1 transaction; on reading,
    [signatures] has been resized to the number of inputs. *)
Fixpoint read_tx_signatures (vin : list txin_v) : reader (list (list signature)) := fun st =>
  match vin with
  | [] => Some ([], st)
  | i :: vin =>
      '(s, st) ← read_signatures (get_signature_size i) st;
      '(l, st) ← read_tx_signatures vin st;
      Some (s :: l, st)
  end.
Fixpoint write_tx_signatures (vin : list txin_v) (sigs : list (list signature)) : option (list Z) :=
  match vin, sigs with
  | i :: vin, s :: sigs =>
      if negb (get_signature_size i =? length s)%nat then None else
      b ← write_signatures s;
      bs ← write_tx_signatures vin sigs;
      Some (b ++ bs)
  | _, _ => Some []
  end.
(** [signatures_not_expected]: every input must then be without signatures. *)
Definition write_signatures_field (vin : list txin_v) (sigs : list (list signature)) : option (list Z) :=
  match sigs with
  | [] => if forallb (fun i => (get_signature_size i =? 0)%nat) vin then Some [] else None
  | _ => if negb (length vin =? length sigs)%nat then None else write_tx_signatures vin sigs
  end.

(** [(is_to_key ? key_offsets.size() - 1 : 0) + 1] *)
Definition first_ring (vin : list txin_v) : nat :=
  match vin with
  | In_to_key x :: _ => length (key_offsets x)
  | _ => 1
  end.

Definition read_transaction : reader transaction := fun st =>
  '(p, st) ← read_prefix st;
  if version p =? 1 then
    '(s, st) ← read_tx_signatures (vin p) st;
    Some (MkTransaction p s rct_null, st)
  else
    match vin p with
    | [] => Some (MkTransaction p [] rct_null, st)
    | _ =>
        let inputs := length (vin p) in
        let outputs := length (vout p) in
        '(r, st) ← read_rctsig_base inputs outputs st;
        if rct_type r =? RCTTypeNull then Some (MkTransaction p [] r, st) else
        '(rm, st) ← read_rctsig_prunable (rct_type r) inputs outputs (first_ring (vin p)) st;
        Some (MkTransaction p [] (MkRctSig (rct_type r) (txnFee r) (pseudoOuts r) (ecdhInfo r)
                                    (outPk r) rm.1 rm.2), st)
    end.
Definition write_transaction : writer transaction := fun tx =>
  let p := prefix tx in
  b ← write_prefix p;
  if version p =? 1 then
    s ← write_signatures_field (vin p) (signatures tx);
    Some (b ++ s)
  else
    match vin p with
    | [] => Some b
    | _ =>
        let inputs := length (vin p) in
        let outputs := length (vout p) in
        let r := rct_signatures tx in
        rb ← write_rctsig_base inputs outputs r;
        if rct_type r =? RCTTypeNull then Some (b ++ rb) else
        rp ← write_rctsig_prunable (rct_type r) inputs outputs (first_ring (vin p)) r;
        Some (b ++ rb ++ rp)
    end.

(** ** Blocks *)

Record block_header := MkHeader {
  major_version : Z;
  minor_version : Z;
  timestamp : Z;
  prev_id : hash;
  nonce : Z
}.
Record block := MkBlock { header : block_header; miner_tx : transaction; tx_hashes : list hash }.

Definition read_block_header : reader block_header := fun st =>
  '(mj, st) ← read_uvarint 8 st;
  '(mn, st) ← read_uvarint 8 st;
  '(ts, st) ← read_uvarint 64 st;
  '(pv, st) ← read_hash st;
  '(nn, st) ← read_uint 4 st;
  Some (MkHeader mj mn ts pv nn, st).
Definition write_block_header : writer block_header := fun x =>
  mj ← write_uvarint (major_version x);
  mn ← write_uvarint (minor_version x);
  ts ← write_uvarint (timestamp x);
  pv ← write_blob (prev_id x);
  nn ← write_uint 4 (nonce x);
  Some (mj ++ mn ++ ts ++ pv ++ nn).

Definition read_block : reader block := fun st =>
  '(h, st) ← read_block_header st;
  '(m, st) ← read_transaction st;
  '(l, st) ← read_vector read_hash st;
  Some (MkBlock h m l, st).
Definition write_block : writer block := fun x =>
  h ← write_block_header (header x);
  m ← write_transaction (miner_tx x);
  l ← write_vector write_blob (tx_hashes x);
  Some (h ++ m ++ l).

Example coinbase_round_trip :
  let tx := MkTransaction (MkPrefix 2 70 [In_gen (MkTxinGen 60)]
              [MkTxOut 5000000000 (To_key (repeat 7 32))] [1; 2; 3]) [] rct_null in
  (dump_binary write_transaction tx ≫= parse_binary read_transaction) = Some tx.
Proof. vm_compute. reflexivity. Qed.

(** * Properties *)

(** ** Well-formed values: every field fits its type *)

Abbreviation is_hash := (is_blob 32).
Abbreviation is_size n := (Z.of_nat n < 2 ^ 64).

Definition wf_txout_to_script (x : txout_to_script) : Prop :=
  Forall is_hash (keys x) /\ is_size (length (keys x)) /\
  bytes (script x) /\ is_size (length (script x)).
Definition wf_txout_target (v : txout_target_v) : Prop :=
  match v with
  | To_script x => wf_txout_to_script x
  | To_scripthash h => is_hash h
  | To_key k => is_hash k
  end.
Definition wf_tx_out (o : tx_out) : Prop := is_u64 (amount o) /\ wf_txout_target (target o).

Definition wf_txin (v : txin_v) : Prop :=
  match v with
  | In_gen x => is_u64 (gen_height x)
  | In_to_script x =>
      is_hash (s_prev x) /\ is_u64 (s_prevout x) /\ bytes (s_sigset x) /\ is_size (length (s_sigset x))
  | In_to_scripthash x =>
      is_hash (sh_prev x) /\ is_u64 (sh_prevout x) /\ wf_txout_to_script (sh_script x) /\
      bytes (sh_sigset x) /\ is_size (length (sh_sigset x))
  | In_to_key x =>
      is_u64 (in_amount x) /\ Forall is_u64 (key_offsets x) /\ is_size (length (key_offsets x)) /\
      is_hash (k_image x)
  end.

Definition wf_prefix (p : transaction_prefix) : Prop :=
  1 <= version p <= 2 /\ is_u64 (unlock_time p) /\
  Forall wf_txin (vin p) /\ is_size (length (vin p)) /\
  Forall wf_tx_out (vout p) /\ is_size (length (vout p)) /\
  bytes (extra p) /\ is_size (length (extra p)).

Definition wf_ecdh (x : ecdhTuple) : Prop := is_hash (ecdh_mask x) /\ is_hash (ecdh_amount x).
Definition wf_rangeSig (x : rangeSig) : Prop :=
  is_blob boroSig_size (asig x) /\ is_blob key64_size (Ci x).
Definition wf_mgSig (rows cols : nat) (x : mgSig) : Prop :=
  length (ss x) = rows /\ Forall (fun r => length r = cols /\ Forall is_hash r) (ss x) /\ is_hash (cc x).

(** The shape of a ring signature of a transaction with [inputs] inputs,
    [outputs] outputs and rings of [ring] members. *)
Definition wf_rct (inputs outputs ring : nat) (r : rctSig) : Prop :=
  r = rct_null \/
  (rct_type r = RCTTypeFull \/ rct_type r = RCTTypeSimple) /\ is_u64 (txnFee r) /\
  (if rct_type r =? RCTTypeSimple then length (pseudoOuts r) = inputs /\ Forall is_hash (pseudoOuts r)
   else pseudoOuts r = []) /\
  length (ecdhInfo r) = outputs /\ Forall wf_ecdh (ecdhInfo r) /\
  length (outPk r) = outputs /\ Forall is_hash (outPk r) /\
  length (rangeSigs r) = outputs /\ Forall wf_rangeSig (rangeSigs r) /\
  length (MGs r) = (if rct_type r =? RCTTypeSimple then inputs else 1%nat) /\
  Forall (wf_mgSig ring ((if (rct_type r =? RCTTypeSimple)%Z then 1 else inputs) + 1)) (MGs r).

(** A version 1 transaction has a signature per ring member, a version 2
    transaction a ring signature. *)
Definition wf_transaction (tx : transaction) : Prop :=
  wf_prefix (prefix tx) /\
  (if version (prefix tx) =? 1 then
     rct_signatures tx = rct_null /\
     Forall2 (fun i s => length s = get_signature_size i /\ Forall (is_blob SIGNATURE_SIZE) s)
       (vin (prefix tx)) (signatures tx)
   else
     signatures tx = [] /\
     (vin (prefix tx) = [] -> rct_signatures tx = rct_null) /\
     wf_rct (length (vin (prefix tx))) (length (vout (prefix tx))) (first_ring (vin (prefix tx)))
       (rct_signatures tx)).

Definition wf_block_header (h : block_header) : Prop :=
  is_u8 (major_version h) /\ is_u8 (minor_version h) /\ is_u64 (timestamp h) /\
  is_hash (prev_id h) /\ is_u32 (nonce h).
Definition wf_block (b : block) : Prop :=
  wf_block_header (header b) /\ wf_transaction (miner_tx b) /\
  Forall is_hash (tx_hashes b) /\ is_size (length (tx_hashes b)).

(** ** Round trips of the parts *)

Create HintDb rt discriminated.

Lemma rt_hash h : is_hash h -> rt write_blob read_hash h.
Proof. intros [Hl Hb]. apply rt_blob; [done..|lia]. Qed.

Lemma rt_hashes l : Forall is_hash l -> Forall (rt write_blob read_hash) l.
Proof. intros H. apply (Forall_impl _ _ _ H), rt_hash. Qed.

Lemma rt_byte b : is_u8 b -> rt write_byte read_byte b.
Proof. intros Hb. apply rt_uint; [lia|done]. Qed.

Lemma rt_byte_vector l :
  bytes l -> is_size (length l) -> rt (write_vector write_byte) (read_vector read_byte) l.
Proof. intros Hb Hl. apply rt_vector; [|done]. apply (Forall_impl _ _ _ Hb), rt_byte. Qed.

Lemma rt_u64 v : is_u64 v -> rt write_uvarint (read_uvarint 64) v.
Proof. intros Hv. apply rt_uvarint; [lia|done]. Qed.

#[local] Hint Resolve rt_hash rt_hashes rt_byte_vector rt_u64 rt_vector rt_rt0 : rt.

Lemma rt_txout_to_script x : wf_txout_to_script x -> rt write_txout_to_script read_txout_to_script x.
Proof.
  intros (Hk & Hn & Hs & Hm).
  assert (H1 : rt (write_vector write_blob) (read_vector read_hash) (keys x)) by auto with rt.
  assert (H2 := rt_byte_vector _ Hs Hm). rt_open H1. rt_open H2.
  eexists. unfold write_txout_to_script, read_txout_to_script. rt_run.
  split; [done|]. split; [rt_bytes|]. split; [rt_nonempty|]. intros st. rt_read. by destruct x.
Qed.

Lemma rt_txout_target v : wf_txout_target v -> rt write_txout_target read_txout_target v.
Proof.
  unfold rt, read_txout_target. intros H. destruct v as [x|h|k]; cbn [write_txout_target] in *.
  - apply (rt_variant To_script write_txout_to_script read_txout_to_script); [words; lia| |done].
    by apply rt_rt0, rt_txout_to_script.
  - apply (rt_variant To_scripthash write_blob read_hash); [words; lia| |done]. by apply rt_rt0, rt_hash.
  - apply (rt_variant To_key write_blob read_hash); [words; lia| |done]. by apply rt_rt0, rt_hash.
Qed.

Lemma rt_tx_out o : wf_tx_out o -> rt write_tx_out read_tx_out o.
Proof.
  intros [Ha Ht]. assert (H1 := rt_u64 _ Ha). assert (H2 := rt_txout_target _ Ht).
  rt_open H1. rt_open H2. eexists. unfold write_tx_out, read_tx_out. rt_run.
  split; [done|]. split; [rt_bytes|]. split; [rt_nonempty|]. intros st. rt_read. by destruct o.
Qed.

Lemma rt_txin v : wf_txin v -> rt write_txin read_txin v.
Proof.
  unfold rt, read_txin. destruct v as [x|x|x|x]; cbn [write_txin wf_txin].
  - intros Hh. apply (rt_variant In_gen write_txin_gen read_txin_gen); [words; lia| |done].
    destruct (rt_u64 _ Hh) as (bs & E & B & _ & R). exists bs. unfold write_txin_gen, read_txin_gen.
    split; [done|]. split; [done|]. intros st. rewrite R. by destruct x.
  - intros (Hp & Ho & Hs & Hn).
    apply (rt_variant In_to_script write_txin_to_script read_txin_to_script); [words; lia| |done].
    assert (H1 := rt_hash _ Hp). assert (H2 := rt_u64 _ Ho). assert (H3 := rt_byte_vector _ Hs Hn).
    rt_open H1. rt_open H2. rt_open H3. eexists. unfold write_txin_to_script, read_txin_to_script. rt_run.
    split; [done|]. split; [rt_bytes|]. intros st. rt_read. by destruct x.
  - intros (Hp & Ho & Hc & Hs & Hn).
    apply (rt_variant In_to_scripthash write_txin_to_scripthash read_txin_to_scripthash); [words; lia| |done].
    assert (H1 := rt_hash _ Hp). assert (H2 := rt_u64 _ Ho). assert (H3 := rt_txout_to_script _ Hc).
    assert (H4 := rt_byte_vector _ Hs Hn). rt_open H1. rt_open H2. rt_open H3. rt_open H4.
    eexists. unfold write_txin_to_scripthash, read_txin_to_scripthash. rt_run.
    split; [done|]. split; [rt_bytes|]. intros st. rt_read. by destruct x.
  - intros (Ha & Ho & Hn & Hk).
    apply (rt_variant In_to_key write_txin_to_key read_txin_to_key); [words; lia| |done].
    assert (H1 := rt_u64 _ Ha).
    assert (H2 : rt (write_vector write_uvarint) (read_vector (read_uvarint 64)) (key_offsets x)).
    { apply rt_vector; [|done]. apply (Forall_impl _ _ _ Ho), rt_u64. }
    assert (H3 := rt_hash _ Hk). rt_open H1. rt_open H2. rt_open H3.
    eexists. unfold write_txin_to_key, read_txin_to_key. rt_run.
    split; [done|]. split; [rt_bytes|]. intros st. rt_read. by destruct x.
Qed.

Lemma rt_prefix p : wf_prefix p -> rt write_prefix read_prefix p.
Proof.
  intros (Hv & Hu & Hi & Hin & Ho & Hon & He & Hen).
  assert (H1 : rt write_uvarint (read_uvarint 64) (version p)) by (apply rt_u64; words; lia).
  assert (H2 := rt_u64 _ Hu).
  assert (H3 : rt (write_vector write_txin) (read_vector read_txin) (vin p)).
  { apply rt_vector; [|done]. apply (Forall_impl _ _ _ Hi), rt_txin. }
  assert (H4 : rt (write_vector write_tx_out) (read_vector read_tx_out) (vout p)).
  { apply rt_vector; [|done]. apply (Forall_impl _ _ _ Ho), rt_tx_out. }
  assert (H5 := rt_byte_vector _ He Hen).
  rt_open H1. rt_open H2. rt_open H3. rt_open H4. rt_open H5.
  assert (Hver : (version p =? 0) || (CURRENT_TRANSACTION_VERSION <? version p) = false)
    by (unfold CURRENT_TRANSACTION_VERSION; lia).
  eexists. unfold write_prefix, read_prefix. rt_run. rewrite Hver. rt_run.
  split; [done|]. split; [rt_bytes|]. split; [rt_nonempty|]. intros st. rt_read. rewrite Hver. rt_read.
  by destruct p.
Qed.

Lemma rt_sized {A} (put : writer A) get n l :
  Forall (rt0 put get) l -> length l = n -> rt0 (write_sized put n) (read_elements get n) l.
Proof.
  intros Hl <-. destruct (rt0_elements put get l Hl) as (bs & E & B & R). exists bs.
  unfold write_sized. by rewrite Nat.eqb_refl.
Qed.

Lemma rt0_hashes l : Forall is_hash l -> Forall (rt0 write_blob read_hash) l.
Proof. intros H. apply (Forall_impl _ _ _ H). intros h Hh. by apply rt_rt0, rt_hash. Qed.

Lemma rt_ecdhTuple x : wf_ecdh x -> rt0 write_ecdhTuple read_ecdhTuple x.
Proof.
  intros [Hm Ha]. assert (H1 := rt_hash _ Hm). assert (H2 := rt_hash _ Ha). rt_open H1. rt_open H2.
  eexists. unfold write_ecdhTuple, read_ecdhTuple. rt_run.
  split; [done|]. split; [rt_bytes|]. intros st. rt_read. by destruct x.
Qed.

Lemma rt_rangeSig x : wf_rangeSig x -> rt0 write_rangeSig read_rangeSig x.
Proof.
  intros [[Ha Hab] [Hc Hcb]].
  assert (H1 : rt write_blob (read_blob boroSig_size) (asig x))
    by (apply rt_blob; [done..|unfold boroSig_size; lia]).
  assert (H2 : rt write_blob (read_blob key64_size) (Ci x))
    by (apply rt_blob; [done..|unfold key64_size; lia]).
  rt_open H1. rt_open H2. eexists. unfold write_rangeSig, read_rangeSig. rt_run.
  split; [done|]. split; [rt_bytes|]. intros st. rt_read. by destruct x.
Qed.

Lemma rt_mgSig rows cols x : wf_mgSig rows cols x -> rt0 (write_mgSig rows cols) (read_mgSig rows cols) x.
Proof.
  intros (Hr & Hs & Hc).
  assert (H1 : rt0 (write_sized (write_sized write_blob cols) rows)
    (read_elements (read_elements read_hash cols) rows) (ss x)).
  { apply rt_sized; [|done]. apply (Forall_impl _ _ _ Hs). intros r [Hl Hh].
    apply rt_sized; [by apply rt0_hashes|done]. }
  assert (H2 := rt_hash _ Hc). rt_open H1. rt_open H2. eexists. unfold write_mgSig, read_mgSig. rt_run.
  split; [done|]. split; [rt_bytes|]. intros st. rt_read. by destruct x.
Qed.

Lemma rct_types r : rct_type r = RCTTypeFull \/ rct_type r = RCTTypeSimple ->
  (rct_type r =? RCTTypeNull) = false /\
  negb (rct_type r =? RCTTypeFull) && negb (rct_type r =? RCTTypeSimple) = false.
Proof. by intros [-> | ->]. Qed.

Definition without_prunable (r : rctSig) : rctSig :=
  MkRctSig (rct_type r) (txnFee r) (pseudoOuts r) (ecdhInfo r) (outPk r) [] [].

Lemma rt_rctsig_base inputs outputs ring r :
  wf_rct inputs outputs ring r ->
  exists bs, write_rctsig_base inputs outputs r = Some bs /\ bytes bs /\
    forall st, read_rctsig_base inputs outputs (bs ++ st) = Some (without_prunable r, st).
Proof.
  intros [->|(Ht & Hf & Hp & He & Hew & Ho & How & _)].
  { exists [0]. split; [done|]. split; [|done]. constructor; [words; lia|done]. }
  destruct (rct_types r Ht) as [Hn Hk]. unfold write_rctsig_base, read_rctsig_base.
  assert (H1 : rt (write_uint 1) (read_uint 1) (rct_type r)).
  { apply rt_uint; [lia|]. by destruct Ht as [-> | ->]. }
  assert (H2 := rt_u64 _ Hf).
  assert (H3 : exists bs, (if rct_type r =? RCTTypeSimple then write_sized write_blob inputs (pseudoOuts r)
      else Some []) = Some bs /\ bytes bs /\
    forall st, (if rct_type r =? RCTTypeSimple then read_elements read_hash inputs (bs ++ st)
      else Some ([], bs ++ st)) = Some (pseudoOuts r, st)).
  { destruct (rct_type r =? RCTTypeSimple); [|rewrite Hp; by exists []].
    destruct Hp as [Hl Hh]. apply (rt_sized write_blob read_hash); [by apply rt0_hashes|done]. }
  assert (H4 : rt0 (write_sized write_ecdhTuple outputs) (read_elements read_ecdhTuple outputs) (ecdhInfo r)).
  { apply rt_sized; [|done]. apply (Forall_impl _ _ _ Hew), rt_ecdhTuple. }
  assert (H5 : rt0 (write_sized write_blob outputs) (read_elements read_hash outputs) (outPk r))
    by (apply rt_sized; [by apply rt0_hashes|done]).
  rt_open H1. rt_open H2. destruct H3 as (bs3 & E3 & B3 & R3). rt_open H4. rt_open H5.
  eexists. rt_run. rewrite Hn, Hk. rt_run. rewrite E3. rt_run.
  split; [done|]. split; [rt_bytes|]. intros st. rt_read. rewrite Hn, Hk. rt_read. rewrite R3. by rt_read.
Qed.

Lemma rt_rctsig_prunable inputs outputs ring r :
  wf_rct inputs outputs ring r -> r <> rct_null ->
  exists bs, write_rctsig_prunable (rct_type r) inputs outputs ring r = Some bs /\ bytes bs /\
    forall st, read_rctsig_prunable (rct_type r) inputs outputs ring (bs ++ st) =
               Some ((rangeSigs r, MGs r), st).
Proof.
  intros [->|(Ht & _ & _ & _ & _ & _ & _ & Hr & Hrw & Hm & Hmw)] Hne; [done|].
  destruct (rct_types r Ht) as [_ Hk]. unfold write_rctsig_prunable, read_rctsig_prunable.
  assert (H1 : rt0 (write_sized write_rangeSig outputs) (read_elements read_rangeSig outputs) (rangeSigs r)).
  { apply rt_sized; [|done]. apply (Forall_impl _ _ _ Hrw), rt_rangeSig. }
  pose (cols := ((if (rct_type r =? RCTTypeSimple)%Z then 1 else inputs) + 1)%nat).
  pose (n := if rct_type r =? RCTTypeSimple then inputs else 1%nat).
  assert (H2 : rt0 (write_sized (write_mgSig ring cols) n) (read_elements (read_mgSig ring cols) n) (MGs r)).
  { apply rt_sized; [|done]. apply (Forall_impl _ _ _ Hmw), rt_mgSig. }
  rt_open H1. rt_open H2. eexists. rewrite Hk. fold cols n. rt_run.
  split; [done|]. split; [rt_bytes|]. intros st. by rt_read.
Qed.

Lemma rt_tx_signatures vin sigs :
  Forall2 (fun i s => length s = get_signature_size i /\ Forall (is_blob SIGNATURE_SIZE) s) vin sigs ->
  exists bs, write_tx_signatures vin sigs = Some bs /\ bytes bs /\
    forall st, read_tx_signatures vin (bs ++ st) = Some (sigs, st).
Proof.
  induction 1 as [|i s vin sigs [Hl Hs] H (bs & E & B & R)]; [by exists []|].
  destruct (rt_signatures s Hs) as (b & E' & B' & R'). rewrite Hl in R'.
  exists (b ++ bs). cbn [write_tx_signatures read_tx_signatures].
  rewrite Hl, Nat.eqb_refl. cbn [negb]. rewrite E', E. cbn [mbind option_bind].
  split; [done|]. split; [by apply Forall_app_2|]. intros st.
  rewrite <- app_assoc, R'. cbn [mbind option_bind]. by rewrite R.
Qed.

Lemma rt_signatures_field vin sigs :
  Forall2 (fun i s => length s = get_signature_size i /\ Forall (is_blob SIGNATURE_SIZE) s) vin sigs ->
  exists bs, write_signatures_field vin sigs = Some bs /\ bytes bs /\
    forall st, read_tx_signatures vin (bs ++ st) = Some (sigs, st).
Proof.
  intros H. destruct (rt_tx_signatures vin sigs H) as (bs & E & B & R). exists bs. split; [|done].
  unfold write_signatures_field. destruct sigs as [|s sigs].
  - inversion H; subst. done.
  - rewrite (Forall2_length _ _ _ H), Nat.eqb_refl. done.
Qed.

Lemma rt_transaction tx : wf_transaction tx -> rt write_transaction read_transaction tx.
Proof.
  intros [Hp Hs]. assert (H1 := rt_prefix _ Hp). rt_open H1.
  unfold rt, write_transaction, read_transaction. destruct (version (prefix tx) =? 1) eqn:Hv.
  - destruct Hs as [Hr Hs]. destruct (rt_signatures_field _ _ Hs) as (bs2 & E2 & B2 & R2).
    eexists. rt_run. split; [done|]. split; [rt_bytes|]. split; [rt_nonempty|].
    intros st. rt_read. rewrite Hv. rt_read. cbn. rewrite <- Hr. by destruct tx.
  - destruct Hs as (Hsig & Hnil & Hr). destruct (vin (prefix tx)) as [|i l] eqn:Hvin.
    { eexists. rt_run. split; [done|]. split; [rt_bytes|]. split; [rt_nonempty|].
      intros st. rt_read. rewrite Hv, Hvin. rewrite <- Hnil, <- Hsig by done. by destruct tx. }
    destruct (rt_rctsig_base _ _ _ _ Hr) as (bs2 & E2 & B2 & R2).
    destruct (rct_type (rct_signatures tx) =? RCTTypeNull) eqn:Ht.
    + assert (Hrn : rct_signatures tx = rct_null).
      { destruct Hr as [|[Ht' _]]; [done|]. destruct (rct_types _ Ht') as [Hf _]. congruence. }
      eexists. rt_run. split; [done|]. split; [rt_bytes|].
      split; [rt_nonempty|]. intros st. rt_read. rewrite Hv, Hvin. rt_read. cbn [rct_type without_prunable]. rewrite Ht.
      rewrite Hrn. change (without_prunable rct_null) with rct_null. rewrite <- Hrn, <- Hsig. by destruct tx.
    + destruct (rt_rctsig_prunable _ _ _ _ Hr) as (bs3 & E3 & B3 & R3); [by intros Hn; rewrite Hn in Ht|].
      eexists. rt_run. split; [done|]. split; [rt_bytes|].
      split; [rt_nonempty|]. intros st. rt_read. rewrite Hv, Hvin. rt_read. cbn [rct_type without_prunable]. rewrite Ht.
      rt_read. cbn. rewrite <- Hsig.
      destruct tx as [p s r]. by destruct r.
Qed.

Lemma rt_block_header h : wf_block_header h -> rt write_block_header read_block_header h.
Proof.
  intros (Hj & Hn & Ht & Hp & Ho).
  assert (H1 : rt write_uvarint (read_uvarint 8) (major_version h)) by (apply rt_uvarint; [lia|done]).
  assert (H2 : rt write_uvarint (read_uvarint 8) (minor_version h)) by (apply rt_uvarint; [lia|done]).
  assert (H3 := rt_u64 _ Ht). assert (H4 := rt_hash _ Hp).
  assert (H5 : rt (write_uint 4) (read_uint 4) (nonce h)) by (apply rt_uint; [lia|done]).
  rt_open H1. rt_open H2. rt_open H3. rt_open H4. rt_open H5.
  eexists. unfold write_block_header, read_block_header. rt_run.
  split; [done|]. split; [rt_bytes|]. split; [rt_nonempty|]. intros st. rt_read. by destruct h.
Qed.

Lemma rt_block b : wf_block b -> rt write_block read_block b.
Proof.
  intros (Hh & Hm & Hl & Hn). assert (H1 := rt_block_header _ Hh). assert (H2 := rt_transaction _ Hm).
  assert (H3 : rt (write_vector write_blob) (read_vector read_hash) (tx_hashes b)) by auto with rt.
  rt_open H1. rt_open H2. rt_open H3. eexists. unfold write_block, read_block. rt_run.
  split; [done|]. split; [rt_bytes|]. split; [rt_nonempty|]. intros st. rt_read. by destruct b.
Qed.

(** ** Whole blobs *)

(** [C27] A transaction round trip: every well-formed transaction, of version 1
    or 2, with simple, full or no ring signature, is written to a blob that
    parses back to the same transaction with nothing left over. *)
Theorem transaction_round_trip tx :
  wf_transaction tx ->
  exists blob, dump_binary write_transaction tx = Some blob /\
               parse_binary read_transaction blob = Some tx.
Proof. intros H. by apply parse_dump, rt_rt0, rt_transaction. Qed.

(** [C28] A block round trip: every well-formed block is written to a blob that
    parses back to the same block with nothing left over. *)
Theorem block_round_trip b :
  wf_block b ->
  exists blob, dump_binary write_block b = Some blob /\ parse_binary read_block blob = Some b.
Proof. intros H. by apply parse_dump, rt_rt0, rt_block. Qed.

Definition sample_ring_tx : transaction :=
  MkTransaction
    (MkPrefix 2 0 [In_to_key (MkTxinToKey 0 [5; 300] (repeat 9 32))]
       [MkTxOut 0 (To_key (repeat 1 32)); MkTxOut 0 (To_key (repeat 2 32))] [1; 7])
    []
    (MkRctSig RCTTypeSimple 5750000 [repeat 3 32]
       [MkEcdhTuple (repeat 4 32) (repeat 5 32); MkEcdhTuple (repeat 6 32) (repeat 7 32)]
       [repeat 8 32; repeat 9 32]
       [MkRangeSig (repeat 1 4128) (repeat 2 2048); MkRangeSig (repeat 3 4128) (repeat 4 2048)]
       [MkMgSig [[repeat 1 32; repeat 2 32]; [repeat 3 32; repeat 4 32]] (repeat 5 32)]).

Lemma bytes_repeat n v : is_u8 v -> bytes (repeat v n).
Proof. intros Hv. apply Forall_forall. intros x Hx%list_elem_of_In%repeat_spec. by subst. Qed.

Lemma blob_repeat n v : is_u8 v -> is_blob n (repeat v n).
Proof. intros Hv. split; [apply repeat_length|by apply bytes_repeat]. Qed.

Ltac wf_concrete :=
  repeat first
    [ progress unfold wf_prefix, wf_tx_out, wf_txout_target, wf_txin, wf_ecdh, wf_rangeSig,
        wf_mgSig, wf_block_header, boroSig_size, key64_size
    | progress cbn -[repeat word Z.lt Z.le Z.pow]
    | match goal with
      | |- is_blob _ (repeat _ _) => apply blob_repeat
      | |- is_blob _ _ => split
      | |- length (repeat _ _) = _ => apply repeat_length
      | |- Forall _ _ => constructor
      | |- Forall2 _ _ _ => constructor
      | |- _ /\ _ => split
      | |- word _ _ => words; lia
      | |- _ = _ => reflexivity
      | |- _ -> _ => intros ?
      end
    | lia ].

Lemma sample_ring_tx_wf : wf_transaction sample_ring_tx.
Proof.
  split; [wf_concrete|]. cbn [version prefix sample_ring_tx Z.eqb]. split; [done|]. split; [done|].
  right. split; [by right|]. wf_concrete.
Qed.

Lemma transaction_round_trip_witness :
  exists blob, dump_binary write_transaction sample_ring_tx = Some blob /\
               parse_binary read_transaction blob = Some sample_ring_tx.
Proof. apply (transaction_round_trip sample_ring_tx), sample_ring_tx_wf. Defined.

Lemma block_round_trip_witness :
  let b := MkBlock (MkHeader 1 2 1546266600 (repeat 3 32) 7)
             (MkTransaction (MkPrefix 2 70 [In_gen (MkTxinGen 60)]
                [MkTxOut 5000000000 (To_key (repeat 7 32))] [1; 2; 3]) [] rct_null)
             [repeat 1 32; repeat 2 32] in
  exists blob, dump_binary write_block b = Some blob /\ parse_binary read_block blob = Some b.
Proof.
  intros b. apply (block_round_trip b). split; [wf_concrete|]. split; [|wf_concrete].
  split; [wf_concrete|]. cbn [version prefix miner_tx b Z.eqb]. split; [done|]. split; [done|]. by left.
Defined.

(** Reading ignores the errors of [read_varint], so that parsing is not
    injective: the second blob holds an overlong varint, and parses to the
    same header. *)
Example header_malleable :
  let h := MkHeader 1 0 0 (repeat 0 32) 0 in
  parse_binary read_block_header ([1; 0; 0] ++ repeat 0 36) = Some h /\
  parse_binary read_block_header ([1; 0x80; 0; 0] ++ repeat 0 36) = Some h.
Proof. vm_compute. split; reflexivity. Qed.

End Basic.
