(* ===== verification/Typing.v ===== *)
(** * What the parser returns is well-formed

    The readers of [Basic.v] against the types they fill: whatever bytes arrive,
    a transaction or block that is parsed has every field in the range of its
    type and every part of the shape that its other parts prescribe.  Together with
    the round trips of [Basic.v], the values that the parser returns are the values
    that can be written and read back. *)
From S2P Require Import Prelude Varint Serialization Basic.
Import Varint Serialization Basic.

Module Typing.

(** On a stream of bytes, a reader returns a value of its type and leaves a stream
    of bytes. *)
Definition typed {A} (get : reader A) (wf : A -> Prop) : Prop :=
  forall st v st', bytes st -> get st = Some (v, st') -> wf v /\ bytes st'.

Create HintDb typed discriminated.

Lemma typed_use {A} (get : reader A) wf st v st' : typed get wf -> bytes st -> get st = Some (v, st') -> wf v /\ bytes st'.
Proof. intros H. apply H. Qed.
(** Runs the next step of a reader [E]: what was read has the type of its reader. *)
Ltac read_step E :=
  match type of E with
  | mbind _ (_ ?st) = Some _ =>
      match goal with
      | Hst : bytes st |- _ =>
          let st1 := fresh "st" in let E1 := fresh "E" in let Hx := fresh "Hx" in let H1 := fresh "Hst" in
          apply bind_Some in E as ([? st1] & E1 & E);
          eassert (H1 : _ /\ bytes st1) by (eapply typed_use; [|exact Hst|exact E1]; solve [eauto with typed]);
          destruct H1 as [Hx H1]; cbn beta in Hx; cbn beta iota in E; clear E1
      end
  end.
Ltac read_all E := repeat read_step E; injection E as <- <-.

(** ** The archive *)

Lemma read_varint_word bits input : 0 <= bits -> bytes input -> forall shift read w, word bits w ->
  word bits (read_varint_loop bits shift read w input).1.2 /\ bytes (read_varint_loop bits shift read w input).2.
Proof.
  intros Hbits. induction 1 as [|b input Hb Hin IH]; intros shift read w Hw; cbn [read_varint_loop]; [done|].
  repeat case_match; try done; (split; [|done]) || apply IH; apply lor_word; try done; by apply wrap_word.
Qed.

Lemma typed_uvarint bits : 0 <= bits -> typed (read_uvarint bits) (word bits).
Proof.
  intros Hb st v st' Hst. unfold read_uvarint, read_varint. pose proof (read_varint_word bits st Hb Hst 0 0 0) as H.
  destruct (read_varint_loop _ _ _ _ _) as [[r w] rest]. intros [= <- <-]. apply H. unfold word. split; [lia|]. by apply Z.pow_pos_nonneg.
Qed.

Lemma typed_uint n : typed (read_uint n) (word (8 * Z.of_nat n)).
Proof.
  unfold typed, read_uint. assert (H : forall m shift ret st v st', bytes st -> word (8 * Z.of_nat n) ret ->
    read_uint_loop (8 * Z.of_nat n) m shift ret st = Some (v, st') -> word (8 * Z.of_nat n) v /\ bytes st').
  { induction m as [|m IH]; intros shift ret st v st' Hst Hr; cbn [read_uint_loop]; [by intros [= <- <-]|].
    destruct st as [|b st]; [done|]. apply Forall_cons in Hst as [_ Hst]. intros E. eapply IH; [exact Hst| |exact E]. apply wrap_word. lia. }
  intros st v st' Hst. apply H; [done|]. unfold word. split; [lia|]. apply Z.pow_pos_nonneg; lia.
Qed.

Lemma typed_blob n : typed (read_blob n) (is_blob n).
Proof.
  intros st v st' Hst. unfold read_blob. destruct (length st <? n)%nat eqn:E; [done|]. intros [= <- <-].
  apply Nat.ltb_ge in E. split; [|by apply Forall_drop]. split; [rewrite length_take; lia|by apply Forall_take].
Qed.

Lemma typed_elements {A} (get : reader A) wf n : typed get wf -> typed (read_elements get n) (fun l => length l = n /\ Forall wf l).
Proof.
  intros H. induction n as [|n IH]; intros st v st' Hst; cbn [read_elements]; [by intros [= <- <-]|].
  intros ([x st1] & E1 & ([l st2] & E2 & [= <- <-])%bind_Some)%bind_Some. destruct (H _ _ _ Hst E1) as [Hx Hst1].
  destruct (IH _ _ _ Hst1 E2) as [[Hl Hf] Hst2]. split; [|done]. cbn. auto with lia.
Qed.

Lemma typed_vector {A} (get : reader A) wf : typed get wf -> typed (read_vector get) (fun l => Forall wf l /\ is_size (length l)).
Proof.
  intros H st v st' Hst. unfold read_vector. intros ([cnt st1] & E1 & E)%bind_Some. case_bool; [done|].
  destruct (typed_uvarint 64 ltac:(lia) _ _ _ Hst E1) as [Hc Hst1]. destruct (typed_elements get wf _ H _ _ _ Hst1 E) as [[Hl Hf] Hst2].
  unfold word in Hc. split; [split; [done|lia]|done].
Qed.

Lemma typed_signatures n : typed (read_signatures n) (fun l => length l = n /\ Forall (is_blob SIGNATURE_SIZE) l).
Proof.
  intros st v st' Hst. unfold read_signatures. case_bool; [done|]. by apply typed_elements; [apply typed_blob|].
Qed.

Lemma typed_alt {A B} (inj : A -> B) get wf (wf' : B -> Prop) : typed get wf -> (forall x, wf x -> wf' (inj x)) -> typed (alt inj get) wf'.
Proof.
  intros H Hi st v st' Hst. unfold alt. intros ([x st1] & E & [= <- <-])%bind_Some. destruct (H _ _ _ Hst E). auto.
Qed.
Lemma typed_variant {A} (alts : list (Z * reader A)) wf : Forall (fun a => typed a.2 wf) alts -> typed (read_variant alts) wf.
Proof.
  intros H st v st' Hst. unfold read_variant. intros ([t st1] & E1 & E)%bind_Some. destruct (typed_uint 1 _ _ _ Hst E1) as [_ Hst1].
  induction H as [|[tag get] alts Hget _ IH]; cbn [variant_reader] in E; [done|]. case_bool; [by apply (Hget _ _ _ Hst1)|by apply IH].
Qed.

Lemma typed_hash : typed read_hash is_hash.
Proof. apply typed_blob. Qed.
Lemma typed_byte : typed read_byte is_u8.
Proof. apply (typed_uint 1). Qed.
Lemma typed_u64 : typed (read_uvarint 64) is_u64.
Proof. by apply typed_uvarint. Qed.
Lemma typed_bytes : typed (read_vector read_byte) (fun l => bytes l /\ is_size (length l)).
Proof. apply typed_vector, typed_byte. Qed.

#[local] Hint Resolve typed_hash typed_byte typed_u64 typed_bytes typed_vector typed_elements typed_blob typed_signatures typed_uint : typed.

(** ** Transactions and blocks *)

Lemma typed_txout_to_script : typed read_txout_to_script wf_txout_to_script.
Proof. intros st v st' Hst E. unfold read_txout_to_script in E. read_all E. unfold wf_txout_to_script. cbn. tauto. Qed.
#[local] Hint Resolve typed_txout_to_script : typed.
Lemma typed_txout_target : typed read_txout_target wf_txout_target.
Proof.
  apply typed_variant. repeat apply Forall_cons_2; [..|apply Forall_nil_2]; cbn [snd].
  - by eapply typed_alt; [apply typed_txout_to_script|].
  - by eapply typed_alt; [apply typed_hash|].
  - by eapply typed_alt; [apply typed_hash|].
Qed.
#[local] Hint Resolve typed_txout_target : typed.
Lemma typed_tx_out : typed read_tx_out wf_tx_out.
Proof. intros st v st' Hst E. unfold read_tx_out in E. by read_all E. Qed.
#[local] Hint Resolve typed_tx_out : typed.

Lemma typed_txin_gen : typed read_txin_gen (fun x => wf_txin (In_gen x)).
Proof. intros st v st' Hst E. unfold read_txin_gen in E. by read_all E. Qed.
Lemma typed_txin_to_script : typed read_txin_to_script (fun x => wf_txin (In_to_script x)).
Proof. intros st v st' Hst E. unfold read_txin_to_script in E. read_all E. cbn. tauto. Qed.
Lemma typed_txin_to_scripthash : typed read_txin_to_scripthash (fun x => wf_txin (In_to_scripthash x)).
Proof. intros st v st' Hst E. unfold read_txin_to_scripthash in E. read_all E. cbn. tauto. Qed.
Lemma typed_txin_to_key : typed read_txin_to_key (fun x => wf_txin (In_to_key x)).
Proof. intros st v st' Hst E. unfold read_txin_to_key in E. read_all E. cbn. tauto. Qed.
Lemma typed_txin : typed read_txin wf_txin.
Proof.
  apply typed_variant. repeat apply Forall_cons_2; [..|apply Forall_nil_2]; cbn [snd].
  - by eapply typed_alt; [apply typed_txin_gen|].
  - by eapply typed_alt; [apply typed_txin_to_script|].
  - by eapply typed_alt; [apply typed_txin_to_scripthash|].
  - by eapply typed_alt; [apply typed_txin_to_key|].
Qed.
#[local] Hint Resolve typed_txin : typed.

Lemma typed_prefix : typed read_prefix wf_prefix.
Proof.
  intros st v st' Hst E. unfold read_prefix in E. read_step E. unfold CURRENT_TRANSACTION_VERSION in E.
  destruct ((_ =? 0) || _) eqn:Ev; [done|]. read_all E. reflect_bools.
  unfold wf_prefix. cbn. split; [|done]. split; [unfold word in *; lia|]. tauto.
Qed.
#[local] Hint Resolve typed_prefix : typed.

Lemma typed_ecdhTuple : typed read_ecdhTuple wf_ecdh.
Proof. intros st v st' Hst E. unfold read_ecdhTuple in E. by read_all E. Qed.
Lemma typed_rangeSig : typed read_rangeSig wf_rangeSig.
Proof. intros st v st' Hst E. unfold read_rangeSig in E. by read_all E. Qed.
Lemma typed_mgSig rows cols : typed (read_mgSig rows cols) (wf_mgSig rows cols).
Proof. intros st v st' Hst E. unfold read_mgSig in E. read_all E. unfold wf_mgSig. cbn. tauto. Qed.
#[local] Hint Resolve typed_ecdhTuple typed_rangeSig typed_mgSig : typed.

(** The base of a ring signature, whose prunable part is still to be read. *)
Definition wf_base (inputs outputs : nat) (r : rctSig) : Prop :=
  r = rct_null \/
  (rct_type r = RCTTypeFull \/ rct_type r = RCTTypeSimple) /\ is_u64 (txnFee r) /\
  (if rct_type r =? RCTTypeSimple then length (pseudoOuts r) = inputs /\ Forall is_hash (pseudoOuts r) else pseudoOuts r = []) /\
  (length (ecdhInfo r) = outputs /\ Forall wf_ecdh (ecdhInfo r)) /\ (length (outPk r) = outputs /\ Forall is_hash (outPk r)).
Lemma typed_pseudo type inputs :
  typed (fun st => if type =? RCTTypeSimple then read_elements read_hash inputs st else Some ([], st))
    (fun l => if type =? RCTTypeSimple then length l = inputs /\ Forall is_hash l else l = []).
Proof.
  intros st v st' Hst E. destruct (type =? RCTTypeSimple); [by eapply typed_elements; [apply typed_hash|..]|]. by injection E as <- <-.
Qed.
Lemma typed_rctsig_base inputs outputs : typed (read_rctsig_base inputs outputs) (wf_base inputs outputs).
Proof.
  intros st v st' Hst E. unfold read_rctsig_base in E. read_step E.
  destruct (_ =? RCTTypeNull) eqn:En; [injection E as <- <-; split; [|done]; apply Z.eqb_eq in En as ->; by left|].
  destruct (negb _ && negb _) eqn:Et; [done|]. read_step E.
  apply bind_Some in E as ([pseudo st3] & E3 & E). apply typed_pseudo in E3 as [Hp Hst3]; [|done].
  read_all E. split; [|done]. right. cbn [rct_type txnFee pseudoOuts ecdhInfo outPk]. split; [|done]. reflect_bools. lia.
Qed.
#[local] Hint Resolve typed_rctsig_base : typed.

Lemma typed_rctsig_prunable type inputs outputs ring : typed (read_rctsig_prunable type inputs outputs ring) (fun x =>
  (length x.1 = outputs /\ Forall wf_rangeSig x.1) /\ length x.2 = (if type =? RCTTypeSimple then inputs else 1%nat) /\
  Forall (wf_mgSig ring ((if (type =? RCTTypeSimple)%Z then 1 else inputs) + 1)) x.2).
Proof.
  intros st v st' Hst E. unfold read_rctsig_prunable in E. destruct (negb _ && negb _) eqn:Et; [done|]. by read_all E.
Qed.
#[local] Hint Resolve typed_rctsig_prunable : typed.

Lemma typed_tx_signatures vin : typed (read_tx_signatures vin)
  (Forall2 (fun i s => length s = get_signature_size i /\ Forall (is_blob SIGNATURE_SIZE) s) vin).
Proof.
  induction vin as [|i vin IH]; intros st v st' Hst E; cbn [read_tx_signatures] in E; [by injection E as <- <-|]. read_all E. auto.
Qed.
#[local] Hint Resolve typed_tx_signatures : typed.

Lemma typed_transaction : typed read_transaction wf_transaction.
Proof.
  intros st v st' Hst E. unfold read_transaction in E. read_step E. rename t into p. destruct (version p =? 1) eqn:Ev.
  { read_all E. split; [|done]. split; [done|]. cbn. by rewrite Ev. }
  unfold wf_transaction. destruct (vin p) as [|i l] eqn:Ei; [injection E as <- <-; cbn; rewrite Ev, Ei; cbn; split; [|done]; do 3 (split; [done|]); by left|].
  rewrite <- Ei in E. read_step E. destruct (_ =? RCTTypeNull) eqn:En.
  - injection E as <- <-. cbn [prefix signatures rct_signatures]. rewrite Ev. split; [|done]. split; [done|].
    split; [done|]. destruct Hx0 as [->|[Ht _]]; [by split; [|left]|]. apply Z.eqb_eq in En. rewrite En in Ht. by destruct Ht.
  - read_all E. cbn [prefix signatures rct_signatures]. rewrite Ev. split; [|done]. split; [done|]. split; [done|].
    split; [intros H; by rewrite Ei in H|]. destruct Hx0 as [->|(Ht & Hf & Hp & He & Ho)]; [done|]. right. cbn. tauto.
Qed.
#[local] Hint Resolve typed_transaction : typed.

Lemma typed_block_header : typed read_block_header wf_block_header.
Proof.
  intros st v st' Hst E. assert (T8 : typed (read_uvarint 8) is_u8) by (by apply typed_uvarint).
  assert (T4 : typed (read_uint 4) is_u32) by apply (typed_uint 4). unfold read_block_header in E. by read_all E.
Qed.
#[local] Hint Resolve typed_block_header : typed.

Lemma typed_block : typed read_block wf_block.
Proof. intros st v st' Hst E. unfold read_block in E. read_all E. unfold wf_block. cbn. tauto. Qed.

Lemma parse_typed {A} (get : reader A) wf blob v : typed get wf -> bytes blob -> parse_binary get blob = Some v -> wf v.
Proof. intros H Hb. unfold parse_binary. intros ([x st] & E & Ev)%bind_Some. destruct st; [|done]. injection Ev as <-. by eapply H. Qed.

(** [C8] Whatever bytes arrive, a block or transaction that the parser accepts is
    well-formed: every field has a value of its type, and the signatures have the
    shape that the inputs and outputs prescribe. *)
Theorem parsed_well_formed blob : bytes blob ->
  (forall tx, parse_binary read_transaction blob = Some tx -> wf_transaction tx) /\
  (forall b, parse_binary read_block blob = Some b -> wf_block b).
Proof. intros Hb. split; intros x; eapply parse_typed; try done; [apply typed_transaction|apply typed_block]. Qed.

Definition sample_tx_blob : list Z := [2; 5; 1; 255; 60; 1; 7; 2] ++ repeat 9 32 ++ [1; 1; 0].
Definition sample_parsed : transaction :=
  MkTransaction (MkPrefix 2 5 [In_gen (MkTxinGen 60)] [MkTxOut 7 (To_key (repeat 9 32))] [1]) [] rct_null.
Lemma parsed_well_formed_witness : parse_binary read_transaction sample_tx_blob = Some sample_parsed /\ wf_transaction sample_parsed.
Proof.
  assert (E : parse_binary read_transaction sample_tx_blob = Some sample_parsed) by (vm_compute; reflexivity). split; [exact E|].
  assert (Hb : bytes sample_tx_blob) by (repeat apply Forall_cons_2; try apply Forall_nil_2; words; lia).
  exact (proj1 (parsed_well_formed sample_tx_blob Hb) sample_parsed E).
Defined.

End Typing.
