(* ===== verification/TxExtra.v ===== *)
(** * The extra field of a transaction

    Model of [src/cryptonote_core/tx_extra.h] and of the functions of
    [src/cryptonote_core/cryptonote_format_utils.cpp] that read and write the
    extra field: transaction keys, payment ids and aliases. *)
From S2P Require Import Prelude Varint Serialization Basic.
Import Varint Serialization Basic.

Module TxExtra.

Definition TX_EXTRA_PADDING_MAX_COUNT : nat := 255.
Definition TX_EXTRA_NONCE_MAX_COUNT : nat := 255.
Definition TX_EXTRA_TAG_PADDING : Z := 0x00.
Definition TX_EXTRA_TAG_PUBKEY : Z := 0x01.
Definition TX_EXTRA_NONCE : Z := 0x02.
Definition TX_EXTRA_MERGE_MINING_TAG : Z := 0x03.
Definition TX_EXTRA_TAG_ADDITIONAL_PUBKEYS : Z := 0x04.
Definition TX_EXTRA_MYSTERIOUS_MINERGATE_TAG : Z := 0xDE.
Definition TX_EXTRA_NONCE_PAYMENT_ID : Z := 0x00.
Definition TX_EXTRA_NONCE_ENCRYPTED_PAYMENT_ID : Z := 0x01.
Definition TX_EXTRA_NONCE_ALIAS : Z := 0x02.
Definition TX_EXTRA_NONCE_ADDRESS : Z := 0x03.
Definition TX_EXTRA_NONCE_SIGNATURE : Z := 0x04.
Definition HASH_SIZE : nat := 32.
Definition MAX_ALIAS_LENGTH : nat := 42.

Inductive tx_extra_field :=
  | Padding (size : nat)
  | Pub_key (pub_key : public_key)
  | Nonce (nonce : list Z)
  | Merge_mining_tag (depth : Z) (merkle_root : hash)
  | Additional_pub_keys (data : list public_key)
  | Mysterious_minergate (data : list Z).

(** ** Serialization of the fields *)

(** The loop of [tx_extra_padding] on reading, from [size] on: zeros up to the
    end of the stream, at most 254 of them after the tag. *)
Fixpoint read_padding_loop (fuel size : nat) (st : list Z) : option (nat * list Z) :=
  match fuel with
  | O => None
  | S fuel =>
      match st with
      | [] => Some (size, [])
      | zero :: st => if negb (zero =? 0) then None else read_padding_loop fuel (S size) st
      end
  end.
Definition read_padding : reader nat := read_padding_loop TX_EXTRA_PADDING_MAX_COUNT 1.
Definition write_padding : writer nat := fun size =>
  if (TX_EXTRA_PADDING_MAX_COUNT <? size)%nat then None else Some (repeat 0 (size - 1)).

Definition read_nonce : reader (list Z) := fun st =>
  '(nonce, st) ← read_string st;
  if (TX_EXTRA_NONCE_MAX_COUNT <? length nonce)%nat then None else Some (nonce, st).
Definition write_nonce : writer (list Z) := fun nonce =>
  b ← write_string nonce;
  if (TX_EXTRA_NONCE_MAX_COUNT <? length nonce)%nat then None else Some b.

(** [serialize_helper] of the merge mining tag, inside a string. *)
Definition read_mm_helper : reader (Z * hash) := fun st =>
  '(depth, st) ← read_uvarint 64 st;
  '(root, st) ← read_hash st;
  Some ((depth, root), st).
Definition write_mm_helper : writer (Z * hash) := fun x =>
  d ← write_uvarint x.1; r ← write_blob x.2; Some (d ++ r).
Definition read_merge_mining_tag : reader (Z * hash) := fun st =>
  '(field, st) ← read_string st;
  x ← parse_binary read_mm_helper field;
  Some (x, st).
Definition write_merge_mining_tag : writer (Z * hash) := fun x =>
  field ← write_mm_helper x;
  write_string field.

Definition extra_alts : list (Z * reader tx_extra_field) :=
  [(TX_EXTRA_TAG_PADDING, alt Padding read_padding);
   (TX_EXTRA_TAG_PUBKEY, alt Pub_key read_hash);
   (TX_EXTRA_NONCE, alt Nonce read_nonce);
   (TX_EXTRA_MERGE_MINING_TAG, alt (fun x => Merge_mining_tag x.1 x.2) read_merge_mining_tag);
   (TX_EXTRA_TAG_ADDITIONAL_PUBKEYS, alt Additional_pub_keys (read_vector read_hash));
   (TX_EXTRA_MYSTERIOUS_MINERGATE_TAG, alt Mysterious_minergate read_string)].
Definition read_extra_field : reader tx_extra_field := read_variant extra_alts.
Definition write_extra_field : writer tx_extra_field := fun f =>
  match f with
  | Padding n => write_variant TX_EXTRA_TAG_PADDING (write_padding n)
  | Pub_key k => write_variant TX_EXTRA_TAG_PUBKEY (write_blob k)
  | Nonce n => write_variant TX_EXTRA_NONCE (write_nonce n)
  | Merge_mining_tag d r => write_variant TX_EXTRA_MERGE_MINING_TAG (write_merge_mining_tag (d, r))
  | Additional_pub_keys l => write_variant TX_EXTRA_TAG_ADDITIONAL_PUBKEYS (write_vector write_blob l)
  | Mysterious_minergate s => write_variant TX_EXTRA_MYSTERIOUS_MINERGATE_TAG (write_string s)
  end.

(** ** Parsing *)

(** [while (!eof)]: every field has a tag of one byte, so the length of the
    stream is fuel enough.  The fields read before an error stay in the
    result. *)
Fixpoint parse_loop (fuel : nat) (st : list Z) : bool * list tx_extra_field :=
  match fuel with
  | O => (false, [])
  | S fuel =>
      match read_extra_field st with
      | None => (false, [])
      | Some (field, st) =>
          match st with
          | [] => (true, [field])
          | _ => let '(r, fields) := parse_loop fuel st in (r, field :: fields)
          end
      end
  end.
Definition parse_tx_extra (tx_extra : list Z) : bool * list tx_extra_field :=
  match tx_extra with
  | [] => (true, [])
  | _ => parse_loop (length tx_extra) tx_extra
  end.

(** [find_tx_extra_field_by_type]: the field number [index] of a type, given by
    the projection [get]. *)
Fixpoint find_field {A} (get : tx_extra_field -> option A) (index : nat) (fields : list tx_extra_field)
  : option A :=
  match fields with
  | [] => None
  | f :: fields =>
      match get f, index with
      | Some x, O => Some x
      | Some _, S index => find_field get index fields
      | None, _ => find_field get index fields
      end
  end.
Definition as_pub_key f := match f with Pub_key k => Some k | _ => None end.
Definition as_nonce f := match f with Nonce n => Some n | _ => None end.
Definition as_additional f := match f with Additional_pub_keys l => Some l | _ => None end.

Definition get_tx_pub_key_from_extra (tx_extra : list Z) (pk_index : nat) : public_key :=
  let fields := (parse_tx_extra tx_extra).2 in
  default null_hash (find_field as_pub_key pk_index fields).

Definition get_additional_tx_pub_keys_from_extra (tx_extra : list Z) : list public_key :=
  let fields := (parse_tx_extra tx_extra).2 in
  default [] (find_field as_additional 0 fields).

(** ** Writing *)

Definition add_tx_pub_key_to_extra (tx_extra : list Z) (tx_pub_key : public_key) : list Z :=
  tx_extra ++ TX_EXTRA_TAG_PUBKEY :: tx_pub_key.

Definition add_additional_tx_pub_keys_to_extra (tx_extra : list Z) (keys : list public_key)
  : option (list Z) :=
  s ← write_extra_field (Additional_pub_keys keys);
  Some (tx_extra ++ s).

(** The length is one byte, [static_cast<uint8_t>(extra_nonce.size())]. *)
Definition add_extra_nonce_to_tx_extra (tx_extra extra_nonce : list Z) : option (list Z) :=
  if negb (length extra_nonce <=? TX_EXTRA_NONCE_MAX_COUNT)%nat then None else
  Some (tx_extra ++ TX_EXTRA_NONCE :: u8 (Z.of_nat (length extra_nonce)) :: extra_nonce).

(** [field.type() == type] *)
Definition same_type (f g : tx_extra_field) : bool :=
  match f, g with
  | Padding _, Padding _ | Pub_key _, Pub_key _ | Nonce _, Nonce _
  | Merge_mining_tag _ _, Merge_mining_tag _ _ | Additional_pub_keys _, Additional_pub_keys _
  | Mysterious_minergate _, Mysterious_minergate _ => true
  | _, _ => false
  end.

Fixpoint remove_loop (fuel : nat) (type : tx_extra_field) (st : list Z) : option (list Z) :=
  match fuel with
  | O => None
  | S fuel =>
      '(field, st) ← read_extra_field st;
      let out := if same_type field type then [] else default [] (write_extra_field field) in
      match st with
      | [] => Some out
      | _ => rest ← remove_loop fuel type st; Some (out ++ rest)
      end
  end.
(** [remove_field_from_tx_extra] for the type of [type]; on the empty extra the
    first read fails. *)
Definition remove_field_from_tx_extra (tx_extra : list Z) (type : tx_extra_field) : option (list Z) :=
  remove_loop (S (length tx_extra)) type tx_extra.

Definition set_payment_id_to_tx_extra_nonce (payment_id : list Z) : list Z :=
  TX_EXTRA_NONCE_PAYMENT_ID :: payment_id.
Definition set_encrypted_payment_id_to_tx_extra_nonce (payment_id : list Z) : list Z :=
  TX_EXTRA_NONCE_ENCRYPTED_PAYMENT_ID :: payment_id.

Definition get_tagged (tag : Z) (extra_nonce : list Z) : option (list Z) :=
  if (HASH_SIZE + 1 <? length extra_nonce)%nat then None else
  match extra_nonce with
  | [] => None
  | t :: payment_id => if negb (t =? tag) then None else Some payment_id
  end.
Definition get_payment_id_from_tx_extra_nonce := get_tagged TX_EXTRA_NONCE_PAYMENT_ID.
Definition get_encrypted_payment_id_from_tx_extra_nonce := get_tagged TX_EXTRA_NONCE_ENCRYPTED_PAYMENT_ID.

(** ** Aliases *)

Definition alias_char (c : Z) : bool :=
  (c =? 45) || (c =? 95) || (c =? 46) || (c =? 64) || ((48 <=? c) && (c <=? 57))
  || ((97 <=? c) && (c <=? 122)).

(** The loop of [convert_alias]: [None] is an invalid character. *)
Fixpoint convert_chars (alias : list Z) : option (list Z) :=
  match alias with
  | [] => Some []
  | c :: alias =>
      if alias_char c then l ← convert_chars alias; Some (c :: l) else
      if (65 <=? c) && (c <=? 90) then l ← convert_chars alias; Some (c + 32 :: l) else
      None
  end.
Definition convert_alias (alias : list Z) : list Z :=
  if (MAX_ALIAS_LENGTH <? length alias)%nat then [] else default [] (convert_chars alias).

(** The alias a transaction registers: three nonces that start with the tags of
    an alias, an address and a signature. *)
Definition nonce_tagged (fields : list tx_extra_field) (index : nat) (tag : Z) : bool :=
  match find_field as_nonce index fields with
  | Some (t :: _) => t =? tag
  | _ => false
  end.
Definition tx_alias (tx_extra : list Z) : list Z :=
  let '(r, fields) := parse_tx_extra tx_extra in
  if r && nonce_tagged fields 2 TX_EXTRA_NONCE_SIGNATURE && nonce_tagged fields 1 TX_EXTRA_NONCE_ADDRESS
     && nonce_tagged fields 0 TX_EXTRA_NONCE_ALIAS
  then convert_alias (tail (default [] (find_field as_nonce 0 fields)))
  else [].

Example tx_alias_example :
  tx_alias ([2; 3; 2; 65; 98] ++ [2; 1; 3] ++ [2; 1; 4]) = [97; 98].
Proof. vm_compute. reflexivity. Qed.

(** * Properties *)

(** ** Fields *)

(** A field that fits its types; padding reads the rest of the stream and is
    excluded. *)
Definition wf_field (f : tx_extra_field) : Prop :=
  match f with
  | Padding _ => False
  | Pub_key k => is_hash k
  | Nonce n => bytes n /\ (length n <= TX_EXTRA_NONCE_MAX_COUNT)%nat
  | Merge_mining_tag d r => is_u64 d /\ is_hash r
  | Additional_pub_keys l => Forall is_hash l /\ is_size (length l)
  | Mysterious_minergate s => bytes s /\ is_size (length s)
  end.

Lemma rt_nonce n :
  bytes n -> (length n <= TX_EXTRA_NONCE_MAX_COUNT)%nat -> rt write_nonce read_nonce n.
Proof.
  intros Hb Hl. unfold TX_EXTRA_NONCE_MAX_COUNT in Hl.
  destruct (rt_string n Hb) as (bs & E & B & N & R); [lia|]. exists bs.
  assert (Hc : (TX_EXTRA_NONCE_MAX_COUNT <? length n)%nat = false)
    by (apply Nat.ltb_ge; unfold TX_EXTRA_NONCE_MAX_COUNT; lia).
  unfold write_nonce, read_nonce. rewrite E. cbn [mbind option_bind]. rewrite Hc.
  repeat split; [done..|]. intros st. rewrite R. cbn [mbind option_bind]. by rewrite Hc.
Qed.

Lemma rt_mm_helper d r : is_u64 d -> is_hash r -> rt write_mm_helper read_mm_helper (d, r).
Proof.
  intros Hd Hr. assert (H1 := rt_u64 _ Hd). assert (H2 := rt_hash _ Hr). rt_open H1. rt_open H2.
  eexists. unfold write_mm_helper, read_mm_helper. cbn [fst snd]. rt_run.
  split; [done|]. split; [rt_bytes|]. split; [rt_nonempty|]. intros st. by rt_read.
Qed.

Lemma varint_length n : forall v,
  0 <= v < 128 ^ Z.of_nat (S n) -> (length (write_varint v) <= S n)%nat.
Proof.
  induction n as [|n IH]; intros v Hv; rewrite write_varint_eq by lia;
    destruct (Z.leb_spec 0x80 v); try (cbn; lia).
  rewrite Nat2Z.inj_succ, Z.pow_succ_r in Hv by lia. cbn [length].
  assert (length (write_varint (v / 128)) <= S n)%nat by (apply IH; split; dlia). lia.
Qed.

Lemma rt_merge_mining_tag d r :
  is_u64 d -> is_hash r -> rt write_merge_mining_tag read_merge_mining_tag (d, r).
Proof.
  intros Hd Hr. pose proof (rt_mm_helper d r Hd Hr) as Hh.
  destruct (parse_dump _ _ _ (rt_rt0 _ _ _ Hh)) as (field & Ef & Ep).
  destruct Hh as (field' & Ef' & Bf & _). unfold dump_binary in Ef. rewrite Ef in Ef'. injection Ef' as <-.
  assert (Hlen : is_size (length field)).
  { unfold write_mm_helper, write_uvarint, write_blob in Ef. cbn [mbind option_bind fst snd] in Ef. injection Ef as <-.
    destruct Hr as [Hr _]. rewrite length_app, Hr.
    assert (length (write_varint d) <= 10)%nat.
    { apply (varint_length 9). change (128 ^ Z.of_nat 10) with (2 ^ 70). words. lia. }
    lia. }
  destruct (rt_string field Bf Hlen) as (bs & E & B & N & R). exists bs.
  unfold write_merge_mining_tag, read_merge_mining_tag. rewrite Ef. cbn [mbind option_bind].
  repeat split; [done..|]. intros st. rewrite R. cbn [mbind option_bind]. by rewrite Ep.
Qed.

Lemma rt_extra_field f : wf_field f -> rt write_extra_field read_extra_field f.
Proof.
  unfold rt, read_extra_field. destruct f as [n|k|n|d r|l|s]; cbn [write_extra_field wf_field]; [done|..].
  - intros Hk. apply (rt_variant Pub_key write_blob read_hash); [by split| |done]. by apply rt_rt0, rt_hash.
  - intros [Hb Hl]. apply (rt_variant Nonce write_nonce read_nonce); [by split| |done].
    by apply rt_rt0, rt_nonce.
  - intros [Hd Hr]. apply (rt_variant (fun x : Z * hash => Merge_mining_tag x.1 x.2)
      write_merge_mining_tag read_merge_mining_tag); [by split| |done].
    by apply rt_rt0, rt_merge_mining_tag.
  - intros [Hk Hl]. apply (rt_variant Additional_pub_keys (write_vector write_blob) (read_vector read_hash));
      [by split| |done]. apply rt_rt0, rt_vector; [by apply rt_hashes|done].
  - intros [Hb Hl]. apply (rt_variant Mysterious_minergate write_string read_string); [by split| |done].
    by apply rt_rt0, rt_string.
Qed.

(** ** The whole field *)

Definition write_fields (fields : list tx_extra_field) : option (list Z) :=
  write_elements write_extra_field fields.

Lemma parse_loop_fields fields : forall fuel bs,
  Forall wf_field fields -> fields <> [] -> write_fields fields = Some bs ->
  (length fields <= fuel)%nat -> parse_loop fuel bs = (true, fields).
Proof.
  induction fields as [|f fields IH]; intros fuel bs Hw Hne E Hf; [done|].
  inversion Hw; subst. destruct (rt_extra_field f) as (b & Eb & _ & Nb & Rb); [done|].
  unfold write_fields in E. cbn [write_elements] in E. rewrite Eb in E. cbn [mbind option_bind] in E.
  destruct (write_elements write_extra_field fields) as [bs'|] eqn:E'; [|done]. injection E as <-.
  destruct fuel as [|fuel]; [cbn in Hf; lia|]. cbn [parse_loop]. rewrite Rb.
  destruct fields as [|g fields]; [by injection E' as <-|].
  assert (Hbs : bs' <> []).
  { inversion H2; subst. destruct (rt_extra_field g) as (c & Ec & _ & Nc & _); [done|].
    cbn [write_elements] in E'. rewrite Ec in E'. cbn [mbind option_bind] in E'.
    destruct (write_elements write_extra_field fields); [|done]. injection E' as <-.
    by destruct c. }
  destruct bs' as [|x bs']; [done|]. rewrite (IH fuel (x :: bs')); try done. cbn in Hf |- *. lia.
Qed.

Lemma write_fields_length fields bs :
  Forall wf_field fields -> write_fields fields = Some bs -> (length fields <= length bs)%nat.
Proof.
  intros Hw E. assert (Hr : Forall (rt write_extra_field read_extra_field) fields)
    by (apply (Forall_impl _ _ _ Hw), rt_extra_field).
  destruct (rt_elements _ _ _ Hr) as (bs' & E' & _ & L & _). unfold write_fields in E.
  rewrite E in E'. by injection E' as <-.
Qed.

Lemma parse_fields fields bs :
  Forall wf_field fields -> write_fields fields = Some bs -> parse_tx_extra bs = (true, fields).
Proof.
  intros Hw E. destruct fields as [|f fields]; [by injection E as <-|].
  pose proof (write_fields_length _ _ Hw E) as Hl. unfold parse_tx_extra.
  destruct bs as [|x bs]; [cbn in Hl; lia|]. by apply parse_loop_fields.
Qed.

Lemma write_fields_snoc fields f bs b :
  write_fields fields = Some bs -> write_extra_field f = Some b ->
  write_fields (fields ++ [f]) = Some (bs ++ b).
Proof.
  unfold write_fields. revert bs. induction fields as [|g fields IH]; intros bs E Eb; cbn [app write_elements] in *.
  - injection E as <-. rewrite Eb. cbn. by rewrite app_nil_r.
  - destruct (write_extra_field g) as [c|]; [|done]. cbn [mbind option_bind] in *.
    destruct (write_elements write_extra_field fields) as [cs|]; [|done]. injection E as <-.
    rewrite (IH cs) by done. cbn. by rewrite app_assoc.
Qed.

Lemma nonce_bytes n :
  bytes n -> (length n <= 127)%nat ->
  write_extra_field (Nonce n) = Some (TX_EXTRA_NONCE :: u8 (Z.of_nat (length n)) :: n).
Proof.
  intros Hb Hl. cbn [write_extra_field]. unfold write_nonce, write_string, write_uvarint, write_blob.
  cbn [mbind option_bind].
  destruct (Nat.ltb_spec TX_EXTRA_NONCE_MAX_COUNT (length n)); [unfold TX_EXTRA_NONCE_MAX_COUNT in *; lia|].
  rewrite write_varint_eq by lia. destruct (Z.leb_spec 0x80 (Z.of_nat (length n))); [lia|].
  rewrite wrap_small by (words; lia). reflexivity.
Qed.

(** A nonce of up to 127 bytes that [add_extra_nonce_to_tx_extra] appends to
    an extra field is what [parse_tx_extra] finds after the fields that were
    there; so is an appended transaction key. *)
Theorem add_extra_round_trip fields bs n k :
  Forall wf_field fields -> write_fields fields = Some bs ->
  bytes n -> (length n <= 127)%nat -> is_hash k ->
  exists bs', add_extra_nonce_to_tx_extra bs n = Some bs' /\
    parse_tx_extra bs' = (true, fields ++ [Nonce n]) /\
    parse_tx_extra (add_tx_pub_key_to_extra bs k) = (true, fields ++ [Pub_key k]).
Proof.
  intros Hw E Hb Hl Hk. exists (bs ++ TX_EXTRA_NONCE :: u8 (Z.of_nat (length n)) :: n). split; [|split].
  - unfold add_extra_nonce_to_tx_extra.
    destruct (Nat.leb_spec (length n) TX_EXTRA_NONCE_MAX_COUNT); [done|unfold TX_EXTRA_NONCE_MAX_COUNT in *; lia].
  - apply parse_fields.
    + apply Forall_app_2; [done|]. constructor; [|done]. split; [done|]. unfold TX_EXTRA_NONCE_MAX_COUNT. lia.
    + apply write_fields_snoc; [done|]. by apply nonce_bytes.
  - apply parse_fields.
    + apply Forall_app_2; [done|]. by constructor.
    + by apply write_fields_snoc.
Qed.

Lemma add_extra_round_trip_witness :
  exists bs', add_extra_nonce_to_tx_extra [2; 1; 9] [0; 7] = Some bs' /\
    parse_tx_extra bs' = (true, [Nonce [9]; Nonce [0; 7]]) /\
    parse_tx_extra (add_tx_pub_key_to_extra [2; 1; 9] (repeat 5 32)) = (true, [Nonce [9]; Pub_key (repeat 5 32)]).
Proof.
  apply (add_extra_round_trip [Nonce [9]] [2; 1; 9] [0; 7] (repeat 5 32)).
  - repeat constructor; cbn; try lia; unfold TX_EXTRA_NONCE_MAX_COUNT; lia.
  - reflexivity.
  - repeat constructor; cbn; lia.
  - cbn. lia.
  - apply blob_repeat. words. lia.
Defined.

(** A longer nonce is accepted and then unreadable: the length byte has the bit
    that continues a varint. *)
Example long_nonce_lost :
  (parse_tx_extra <$> add_extra_nonce_to_tx_extra [] (repeat 65 128)) = Some (false, []).
Proof. vm_compute. reflexivity. Qed.

(** ** Aliases *)

Lemma convert_chars_valid a b : convert_chars a = Some b -> Forall (fun c => alias_char c = true) b.
Proof.
  revert b. induction a as [|c a IH]; intros b; cbn [convert_chars]; [by intros [= <-]|].
  destruct (alias_char c) eqn:Hc.
  - destruct (convert_chars a) as [l|]; [|done]. intros [= <-]. constructor; auto.
  - destruct (_ && _) eqn:Hu; [|done]. destruct (convert_chars a) as [l|]; [|done]. intros [= <-].
    constructor; auto. unfold alias_char. lia.
Qed.

Lemma convert_chars_id b : Forall (fun c => alias_char c = true) b -> convert_chars b = Some b.
Proof. induction 1 as [|c b Hc Hb IH]; [done|]. cbn [convert_chars]. by rewrite Hc, IH. Qed.

Lemma convert_chars_length a b : convert_chars a = Some b -> length b = length a.
Proof.
  revert b. induction a as [|c a IH]; intros b; cbn [convert_chars]; [by intros [= <-]|].
  destruct (alias_char c); [|destruct (_ && _); [|done]];
    (destruct (convert_chars a) as [l|]; [|done]; intros [= <-]; cbn; f_equal; by apply IH).
Qed.

Lemma convert_alias_valid a :
  Forall (fun c => alias_char c = true) (convert_alias a) /\
  (length (convert_alias a) <= MAX_ALIAS_LENGTH)%nat.
Proof.
  unfold convert_alias. destruct (Nat.ltb_spec MAX_ALIAS_LENGTH (length a)) as [Hl|Hl].
  { by split; [constructor|apply Nat.le_0_l]. }
  destruct (convert_chars a) as [b|] eqn:E; [|by split; [constructor|apply Nat.le_0_l]].
  split; [by eapply convert_chars_valid|]. apply convert_chars_length in E. cbn. lia.
Qed.

(** An alias is stored in canonical form: [convert_alias] gives at most 42
    characters, all of them lower-case letters, digits or one of [-_.@], and
    converting again changes nothing, so that two spellings of an alias are
    the same key. *)
Theorem convert_alias_canonical a :
  Forall (fun c => alias_char c = true) (convert_alias a) /\
  (length (convert_alias a) <= MAX_ALIAS_LENGTH)%nat /\
  convert_alias (convert_alias a) = convert_alias a.
Proof.
  destruct (convert_alias_valid a) as [Hv Hl]. split; [done|]. split; [done|].
  set (b := convert_alias a) in *. unfold convert_alias.
  destruct (Nat.ltb_spec MAX_ALIAS_LENGTH (length b)); [lia|]. by rewrite convert_chars_id.
Qed.

End TxExtra.
