(* ===== verification/FormatUtils.v ===== *)
(** * Format utilities

    Model of [src/cryptonote_core/cryptonote_format_utils.cpp] and of the
    templates of its header: the hashes of transactions and blocks, the checks
    on amounts, output offsets, the decomposition of amounts, and the textual
    form of amounts. *)
From stdpp Require Import sorting.
From S2P Require Import Prelude Varint Keccak TreeHash Median Serialization Basic.
Import Varint TreeHash Serialization Basic.

Module FormatUtils.

(** ** Hashes *)

Section Hashes.
Context {HF : FastHash}.

Definition get_blob_hash (blob : list Z) : hash := fast_hash blob.

(** The serialization of a well-formed prefix does not fail; of what a failed
    one leaves in the stream nothing is claimed. *)
Definition get_transaction_prefix_hash (tx : transaction_prefix) : option hash :=
  blob ← dump_binary write_prefix tx; Some (fast_hash blob).

Definition get_transaction_hash (t : transaction) : option hash :=
  h0 ← get_transaction_prefix_hash (prefix t);
  let inputs := length (vin (prefix t)) in
  let outputs := length (vout (prefix t)) in
  let r := rct_signatures t in
  base ← write_rctsig_base inputs outputs r;
  let h1 := get_blob_hash base in
  h2 ← (if rct_type r =? RCTTypeNull then Some null_hash
        else
          prunable ← write_rctsig_prunable (rct_type r) inputs outputs (first_ring (vin (prefix t))) r;
          Some (get_blob_hash prunable));
  Some (fast_hash (h0 ++ h1 ++ h2)).

(** [get_object_blobsize] *)
Definition get_transaction_blob_size (t : transaction) : option nat :=
  blob ← dump_binary write_transaction t; Some (length blob).

Definition get_tx_tree_hash (b : block) : option hash :=
  let h := default null_hash (get_transaction_hash (miner_tx b)) in
  tree_hash (h :: tx_hashes b).

Definition get_block_hashing_blob (b : block) : option (list Z) :=
  blob ← dump_binary write_block_header (header b);
  tree_root_hash ← get_tx_tree_hash b;
  Some (blob ++ tree_root_hash ++ get_varint_data (Z.of_nat (length (tx_hashes b)) + 1)).

(** [get_object_hash] serializes the blob once more, as a string. *)
Definition get_block_hash (b : block) : option hash :=
  blob ← get_block_hashing_blob b;
  s ← write_string blob;
  Some (fast_hash s).

End Hashes.

(** ** Checks on inputs and outputs *)

Definition to_key (i : txin_v) : option txin_to_key :=
  match i with In_to_key x => Some x | _ => None end.

Definition get_tx_fee (tx : transaction) : Z := txnFee (rct_signatures tx).

Fixpoint inputs_money (vin : list txin_v) (money : Z) : option Z :=
  match vin with
  | [] => Some money
  | i :: vin => x ← to_key i; inputs_money vin (money +w in_amount x)
  end.
Definition get_inputs_money_amount (tx : transaction) : option Z := inputs_money (vin (prefix tx)) 0.

Definition get_block_height (b : block) : Z :=
  match vin (prefix (miner_tx b)) with
  | [In_gen x] => gen_height x
  | _ => 0
  end.

Definition check_inputs_types_supported (tx : transaction) : bool :=
  forallb (fun i => match i with In_to_key _ => true | _ => false end) (vin (prefix tx)).

(** [check_key] of [src/crypto/crypto.cpp] is an argument. *)
Definition check_outs_valid (check_key : public_key -> bool) (tx : transaction) : bool :=
  forallb (fun o =>
    match target o with
    | To_key k => (if version (prefix tx) =? 1 then 0 <? amount o else true) && check_key k
    | _ => false
    end) (vout (prefix tx)).

Fixpoint inputs_overflow_loop (vin : list txin_v) (money : Z) : bool :=
  match vin with
  | [] => true
  | i :: vin =>
      match to_key i with
      | None => false
      | Some x =>
          if in_amount x +w money <? money then false
          else inputs_overflow_loop vin (money +w in_amount x)
      end
  end.
Definition check_inputs_overflow (tx : transaction) : bool := inputs_overflow_loop (vin (prefix tx)) 0.

Fixpoint outs_overflow_loop (vout : list tx_out) (money : Z) : bool :=
  match vout with
  | [] => true
  | o :: vout =>
      if amount o +w money <? money then false else outs_overflow_loop vout (money +w amount o)
  end.
Definition check_outs_overflow (tx : transaction) : bool := outs_overflow_loop (vout (prefix tx)) 0.

Definition check_money_overflow (tx : transaction) : bool :=
  check_inputs_overflow tx && check_outs_overflow tx.

Definition get_outs_money_amount (tx : transaction) : Z :=
  fold_left (fun acc o => acc +w amount o) (vout (prefix tx)) 0.

(** ** Output offsets *)

(** [for (i = 1; i < res.size(); i++) res[i] += res[i-1];] *)
Fixpoint prefix_sums (acc : Z) (off : list Z) : list Z :=
  match off with
  | [] => []
  | x :: off => let y := x +w acc in y :: prefix_sums y off
  end.
Definition relative_output_offsets_to_absolute (off : list Z) : list Z :=
  match off with
  | [] => []
  | x :: off => x :: prefix_sums x off
  end.

(** [for (i = res.size()-1; i != 0; i--) res[i] -= res[i-1];]: every element
    but the first loses its predecessor. *)
Fixpoint differences (prev : Z) (off : list Z) : list Z :=
  match off with
  | [] => []
  | x :: off => (x -w prev) :: differences x off
  end.
Definition absolute_output_offsets_to_relative (off : list Z) : list Z :=
  match sort off with
  | [] => []
  | x :: off => x :: differences x off
  end.

(** ** Amounts *)

Fixpoint power_loop (fuel : nat) (a b i total : Z) : option Z :=
  match fuel with
  | O => None
  | S fuel => if i =? b then Some total else power_loop fuel a b (i + 1) (total *w a)
  end.
Definition power_integral (a b : Z) : option Z :=
  if b =? 0 then Some 1 else power_loop (Z.to_nat b) a b 1 a.

(** What the handlers of [decompose_amount_into_digits] receive, in order. *)
Inductive digit_event := Chunk (a : Z) | Dust (a : Z).

Fixpoint decompose_loop (fuel : nat) (dust_threshold amount dust order : Z) (is_dust_handled : bool)
  : option (list digit_event) :=
  match fuel with
  | O => None
  | S fuel =>
      if amount =? 0 then
        Some (if negb is_dust_handled && negb (dust =? 0) then [Dust dust] else [])
      else
        let chunk := (amount mod 10) *w order in
        let amount := amount / 10 in
        let order := order *w 10 in
        if dust +w chunk <=? dust_threshold then
          decompose_loop fuel dust_threshold amount (dust +w chunk) order is_dust_handled
        else
          let emit := negb is_dust_handled && negb (dust =? 0) in
          rest ← decompose_loop fuel dust_threshold amount dust order (is_dust_handled || emit);
          Some ((if emit then [Dust dust] else []) ++ (if negb (chunk =? 0) then [Chunk chunk] else []) ++ rest)
  end.
Definition decompose_amount_into_digits (amount dust_threshold : Z) : option (list digit_event) :=
  decompose_loop 21 dust_threshold amount 0 1 false.

(** [std::binary_search] over a sorted array. *)
Fixpoint lower_bound (fuel : nat) (a : list Z) (v : Z) (first len : nat) : nat :=
  match fuel with
  | O => first
  | S fuel =>
      if (len =? 0)%nat then first
      else
        let half := (len / 2)%nat in
        let mid := (first + half)%nat in
        if List.nth mid a 0 <? v then lower_bound fuel a v (mid + 1) (len - half - 1)
        else lower_bound fuel a v first half
  end.
Definition binary_search (a : list Z) (v : Z) : bool :=
  let first := lower_bound (S (length a)) a v 0 (length a) in
  negb (first =? length a)%nat && negb (v <? List.nth first a 0).

Definition valid_decomposed_outputs : list Z := [
  1; 2; 3; 4; 5; 6; 7; 8; 9;
  10; 20; 30; 40; 50; 60; 70; 80; 90;
  100; 200; 300; 400; 500; 600; 700; 800; 900;
  1000; 2000; 3000; 4000; 5000; 6000; 7000; 8000; 9000;
  10000; 20000; 30000; 40000; 50000; 60000; 70000; 80000; 90000;
  100000; 200000; 300000; 400000; 500000; 600000; 700000; 800000; 900000;
  1000000; 2000000; 3000000; 4000000; 5000000; 6000000; 7000000; 8000000; 9000000;
  10000000; 20000000; 30000000; 40000000; 50000000; 60000000; 70000000; 80000000; 90000000;
  100000000; 200000000; 300000000; 400000000; 500000000; 600000000; 700000000; 800000000; 900000000;
  1000000000; 2000000000; 3000000000; 4000000000; 5000000000; 6000000000; 7000000000; 8000000000; 9000000000;
  10000000000; 20000000000; 30000000000; 40000000000; 50000000000; 60000000000; 70000000000; 80000000000; 90000000000;
  100000000000; 200000000000; 300000000000; 400000000000; 500000000000; 600000000000; 700000000000; 800000000000; 900000000000;
  1000000000000; 2000000000000; 3000000000000; 4000000000000; 5000000000000; 6000000000000; 7000000000000; 8000000000000; 9000000000000;
  10000000000000; 20000000000000; 30000000000000; 40000000000000; 50000000000000; 60000000000000; 70000000000000; 80000000000000; 90000000000000;
  100000000000000; 200000000000000; 300000000000000; 400000000000000; 500000000000000; 600000000000000; 700000000000000; 800000000000000; 900000000000000;
  1000000000000000; 2000000000000000; 3000000000000000; 4000000000000000; 5000000000000000; 6000000000000000; 7000000000000000; 8000000000000000; 9000000000000000;
  10000000000000000; 20000000000000000; 30000000000000000; 40000000000000000; 50000000000000000; 60000000000000000; 70000000000000000; 80000000000000000; 90000000000000000;
  100000000000000000; 200000000000000000; 300000000000000000; 400000000000000000; 500000000000000000; 600000000000000000; 700000000000000000; 800000000000000000; 900000000000000000;
  1000000000000000000; 2000000000000000000; 3000000000000000000; 4000000000000000000; 5000000000000000000; 6000000000000000000; 7000000000000000000; 8000000000000000000; 9000000000000000000;
  10000000000000000000
].
Definition is_valid_decomposed_amount (amount : Z) : bool :=
  binary_search valid_decomposed_outputs amount.

(** ** The textual form of amounts *)

Definition CRYPTONOTE_DISPLAY_DECIMAL_POINT : nat := 9.

(** [std::to_string] *)
Fixpoint digits_loop (fuel : nat) (n : Z) (acc : list Z) : list Z :=
  match fuel with
  | O => acc
  | S fuel =>
      let acc := (48 + n mod 10) :: acc in
      if n / 10 =? 0 then acc else digits_loop fuel (n / 10) acc
  end.
Definition to_string (n : Z) : list Z := digits_loop 20 n [].

Definition print_money (amount : Z) : list Z :=
  let s := to_string amount in
  let s := if (length s <? CRYPTONOTE_DISPLAY_DECIMAL_POINT + 1)%nat
           then repeat 48 (CRYPTONOTE_DISPLAY_DECIMAL_POINT + 1 - length s) ++ s else s in
  let p := (length s - CRYPTONOTE_DISPLAY_DECIMAL_POINT)%nat in
  take p s ++ [46] ++ drop p s.

(** [std::isspace] and [std::isdigit] in the "C" locale. *)
Definition isspace (c : Z) : bool := (c =? 32) || (9 <=? c) && (c <=? 13).
Definition isdigit (c : Z) : bool := (48 <=? c) && (c <=? 57).

Fixpoint trim_left (s : list Z) : list Z :=
  match s with
  | c :: s' => if isspace c then trim_left s' else s
  | [] => []
  end.
Definition trim (s : list Z) : list Z := rev (trim_left (rev (trim_left s))).

Fixpoint find_first_of (c : Z) (s : list Z) : option nat :=
  match s with
  | [] => None
  | x :: s => if x =? c then Some 0%nat else option_map S (find_first_of c s)
  end.

(** [boost::lexical_cast<uint64_t>] of a string of digits. *)
Definition digits_val (s : list Z) : Z := fold_left (fun v c => 10 * v + (c - 48)) s 0.
Definition get_xtype_from_string (s : list Z) : option Z :=
  if negb (forallb isdigit s) then None
  else match s with
       | [] => None
       | _ => if digits_val s <? 2 ^ 64 then Some (digits_val s) else None
       end.

(** [while (DECIMAL_POINT < fraction_size && '0' == str_amount.back())], on the
    reversed string. *)
Fixpoint strip_zeros (fraction_size : nat) (rs : list Z) : nat * list Z :=
  match rs with
  | c :: rs' =>
      if (CRYPTONOTE_DISPLAY_DECIMAL_POINT <? fraction_size)%nat && (c =? 48)
      then strip_zeros (fraction_size - 1) rs' else (fraction_size, rs)
  | [] => (fraction_size, rs)
  end.

Definition parse_amount (str_amount_ : list Z) : option Z :=
  let s := trim str_amount_ in
  '(fraction_size, s) ←
    match find_first_of 46 s with
    | Some point_index =>
        let '(fraction_size, rs) := strip_zeros (length s - point_index - 1) (rev s) in
        if (CRYPTONOTE_DISPLAY_DECIMAL_POINT <? fraction_size)%nat then None
        else let s := rev rs in Some (fraction_size, take point_index s ++ drop (point_index + 1) s)
    | None => Some (0%nat, s)
    end;
  match s with
  | [] => None
  | _ =>
      get_xtype_from_string
        (if (fraction_size <? CRYPTONOTE_DISPLAY_DECIMAL_POINT)%nat
         then s ++ repeat 48 (CRYPTONOTE_DISPLAY_DECIMAL_POINT - fraction_size) else s)
  end.

Example print_money_1 : parse_amount (print_money 1500000000) = Some 1500000000.
Proof. reflexivity. Qed.

(** [parse_amount] of " 1.50000000000 " *)
Example parse_amount_1 :
  parse_amount [32; 49; 46; 53; 48; 48; 48; 48; 48; 48; 48; 48; 48; 48; 32] = Some 1500000000.
Proof. reflexivity. Qed.

(** * Properties *)

(** ** What a hash commits to *)

Section Binding.
Context {HF : FastHash}.

Lemma fast_hash_blob m : bytes m -> is_blob 32 (fast_hash m).
Proof. split; [by apply fast_hash_length|by apply fast_hash_bytes]. Qed.

(** The messages hashed by [get_transaction_hash]. *)
Definition prunable_blob (t : transaction) : option (list Z) :=
  write_rctsig_prunable (rct_type (rct_signatures t)) (length (vin (prefix t))) (length (vout (prefix t)))
    (first_ring (vin (prefix t))) (rct_signatures t).
Definition prunable_hash (t : transaction) : option hash :=
  if rct_type (rct_signatures t) =? RCTTypeNull then Some null_hash else fast_hash <$> prunable_blob t.
Definition tx_messages (t : transaction) : list (list Z) :=
  default [] (
    p ← dump_binary write_prefix (prefix t);
    b ← write_rctsig_base (length (vin (prefix t))) (length (vout (prefix t))) (rct_signatures t);
    h2 ← prunable_hash t;
    Some ([p; b; fast_hash p ++ fast_hash b ++ h2] ++
          (if rct_type (rct_signatures t) =? RCTTypeNull then [] else option_list (prunable_blob t)))).

Lemma wf_tx_rct tx : wf_transaction tx ->
  wf_rct (length (vin (prefix tx))) (length (vout (prefix tx))) (first_ring (vin (prefix tx))) (rct_signatures tx).
Proof. intros [_ H]. destruct (version (prefix tx) =? 1); [left|]; apply H. Qed.

Lemma wf_rct_null i o g r : wf_rct i o g r -> rct_type r = RCTTypeNull -> r = rct_null.
Proof. intros [|[[H|H] _]]; [done|by rewrite H..]. Qed.

(** The hash of a well-formed transaction, part by part. *)
Lemma transaction_hash_parts t :
  wf_transaction t ->
  exists p b h2,
    write_prefix (prefix t) = Some p /\ bytes p /\
    (forall st, read_prefix (p ++ st) = Some (prefix t, st)) /\
    write_rctsig_base (length (vin (prefix t))) (length (vout (prefix t))) (rct_signatures t) = Some b /\ bytes b /\
    (forall st, read_rctsig_base (length (vin (prefix t))) (length (vout (prefix t))) (b ++ st) =
       Some (without_prunable (rct_signatures t), st)) /\
    prunable_hash t = Some h2 /\ is_blob 32 h2 /\
    get_transaction_hash t = Some (fast_hash (fast_hash p ++ fast_hash b ++ h2)).
Proof.
  intros Hw. destruct (rt_prefix _ (proj1 Hw)) as (p & Ep & Bp & _ & Rp).
  destruct (rt_rctsig_base _ _ _ _ (wf_tx_rct t Hw)) as (b & Eb & Bb & Rb).
  unfold get_transaction_hash, get_transaction_prefix_hash, dump_binary.
  rewrite Ep, Eb. cbn [mbind option_bind].
  assert (exists h2, prunable_hash t = Some h2 /\ is_blob 32 h2) as (h2 & E2 & B2).
  { unfold prunable_hash. destruct (rct_type (rct_signatures t) =? RCTTypeNull) eqn:Ht.
    - exists null_hash. split; [done|]. by apply blob_repeat.
    - destruct (rt_rctsig_prunable _ _ _ _ (wf_tx_rct t Hw)) as (r & Er & Br & _);
        [by intros Hn; rewrite Hn in Ht|].
      exists (fast_hash r). unfold prunable_blob. rewrite Er. split; [done|by apply fast_hash_blob]. }
  exists p, b, h2. rewrite E2.
  split; [done|]. split; [done|]. split; [exact Rp|]. split; [done|]. split; [done|]. split; [exact Rb|].
  split; [done|]. split; [done|].
  unfold prunable_hash, prunable_blob in E2.
  destruct (rct_type (rct_signatures t) =? RCTTypeNull); [by simplify_eq|].
  destruct (write_rctsig_prunable _ _ _ _ _); [|done]. by simplify_eq/=.
Qed.

Lemma rct_eq r1 r2 : without_prunable r1 = without_prunable r2 ->
  rangeSigs r1 = rangeSigs r2 -> MGs r1 = MGs r2 -> r1 = r2.
Proof. destruct r1, r2. cbn. unfold without_prunable. cbn. congruence. Qed.

(** The prunable parts of two transactions that agree on the rest. *)
Lemma prunable_binds t1 t2 h :
  wf_transaction t1 -> wf_transaction t2 -> prefix t1 = prefix t2 ->
  without_prunable (rct_signatures t1) = without_prunable (rct_signatures t2) ->
  prunable_hash t1 = Some h -> prunable_hash t2 = Some h ->
  rct_signatures t1 = rct_signatures t2 \/ collide (option_list (prunable_blob t1)) (option_list (prunable_blob t2)).
Proof.
  intros W1%wf_tx_rct W2%wf_tx_rct Ep Eb E1 E2. unfold prunable_hash in E1, E2.
  assert (Et : rct_type (rct_signatures t1) = rct_type (rct_signatures t2)) by (by injection Eb).
  rewrite <- Et in E2. destruct (Z.eqb_spec (rct_type (rct_signatures t1)) RCTTypeNull) as [Hn|Hn].
  { left. rewrite (wf_rct_null _ _ _ _ W1 Hn). symmetry. eapply wf_rct_null; [exact W2|congruence]. }
  destruct (rt_rctsig_prunable _ _ _ _ W1) as (r1 & Er1 & _ & R1); [by intros Hc; rewrite Hc in Hn|].
  destruct (rt_rctsig_prunable _ _ _ _ W2) as (r2 & Er2 & _ & R2); [by intros Hc; rewrite Et, Hc in Hn|].
  unfold prunable_blob in *. rewrite Er1, Er2 in *. cbn [fmap option_fmap option_map] in E1, E2.
  destruct (fast_hash_binds r1 r2) as [->|C]; [congruence| |by right]. left.
  rewrite Ep, Et in R1. specialize (R1 []). rewrite R2 in R1. injection R1 as HR HM. by apply rct_eq.
Qed.

Lemma transaction_hash_binds t1 t2 :
  wf_transaction t1 -> wf_transaction t2 ->
  get_transaction_hash t1 = get_transaction_hash t2 ->
  (prefix t1 = prefix t2 /\ rct_signatures t1 = rct_signatures t2) \/
  collide (tx_messages t1) (tx_messages t2).
Proof.
  intros W1 W2 E.
  destruct (transaction_hash_parts t1 W1) as (p1 & b1 & g1 & Ep1 & Bp1 & Rp1 & Eb1 & Bb1 & Rb1 & Eg1 & Bg1 & H1).
  destruct (transaction_hash_parts t2 W2) as (p2 & b2 & g2 & Ep2 & Bp2 & Rp2 & Eb2 & Bb2 & Rb2 & Eg2 & Bg2 & H2).
  rewrite H1, H2 in E. injection E as E. unfold tx_messages, dump_binary.
  rewrite Ep1, Ep2. cbn [mbind option_bind]. rewrite Eb1, Eb2. cbn [mbind option_bind].
  rewrite Eg1, Eg2. cbn [mbind option_bind from_option id].
  destruct (fast_hash_binds _ _ E) as [E'|C]; [|by_collision].
  apply app_inj_1 in E' as [E1 E']; [|by rewrite !fast_hash_length].
  apply app_inj_1 in E' as [E2 ->]; [|by rewrite !fast_hash_length].
  destruct (fast_hash_binds _ _ E1) as [->|C]; [|by_collision].
  assert (Hp : prefix t1 = prefix t2) by (specialize (Rp1 []); rewrite Rp2 in Rp1; congruence).
  destruct (fast_hash_binds _ _ E2) as [->|C]; [|by_collision].
  assert (Hb : without_prunable (rct_signatures t1) = without_prunable (rct_signatures t2)).
  { rewrite Hp in Rb1. specialize (Rb1 []). rewrite Rb2 in Rb1. congruence. }
  destruct (prunable_binds t1 t2 g2 W1 W2 Hp Hb Eg1 Eg2) as [Hr|C]; [by left|].
  assert (Et : rct_type (rct_signatures t1) = rct_type (rct_signatures t2)) by (by injection Hb).
  rewrite <- Et. destruct (Z.eqb_spec (rct_type (rct_signatures t1)) RCTTypeNull) as [Hn|Hn].
  { left. split; [done|]. rewrite (wf_rct_null _ _ _ _ (wf_tx_rct _ W1) Hn). symmetry.
    eapply wf_rct_null; [exact (wf_tx_rct _ W2)|congruence]. }
  by_collision.
Qed.

(** [C13] The id of a transaction commits to all of it: two well-formed
    version 2 transactions with the same [get_transaction_hash] are equal,
    unless two different messages among those hashed for the one and for the
    other (prefix, ring signature base, prunable part, the three hashes) have
    the same hash. *)
Theorem get_transaction_hash_binding t1 t2 :
  wf_transaction t1 -> wf_transaction t2 ->
  version (prefix t1) = 2 -> get_transaction_hash t1 = get_transaction_hash t2 ->
  t1 = t2 \/ collide (tx_messages t1) (tx_messages t2).
Proof.
  intros W1 W2 V E. destruct (transaction_hash_binds t1 t2 W1 W2 E) as [[Hp Hr]|C]; [left|by right].
  destruct W1 as [_ W1], W2 as [_ W2]. rewrite <- Hp, V in W2. rewrite V in W1. cbn in W1, W2.
  destruct W1 as [S1 _], W2 as [S2 _]. destruct t1, t2. cbn in *. congruence.
Qed.

Lemma write_string_inj s1 s2 : write_string s1 = write_string s2 -> s1 = s2.
Proof.
  unfold write_string, write_blob, write_uvarint. cbn [mbind option_bind]. intros [= E].
  set (n := Z.of_nat (length s1) + Z.of_nat (length s2)).
  assert (Hn : n < 2 ^ n) by (apply Z.pow_gt_lin_r; lia).
  assert (R : forall s : list Z, Z.of_nat (length s) <= n ->
    read_uvarint n (write_varint (Z.of_nat (length s)) ++ s) = Some (Z.of_nat (length s), s)).
  { intros s Hs. destruct (rt_uvarint n (Z.of_nat (length s))) as (c & [= <-] & _ & _ & Rc); [lia..|].
    apply Rc. }
  assert (R1 := R s1 ltac:(lia)). rewrite E, R in R1 by lia. congruence.
Qed.

Lemma transaction_hash_is_hash t : wf_transaction t ->
  exists h, get_transaction_hash t = Some h /\ TreeHash.is_hash h.
Proof.
  intros W. destruct (transaction_hash_parts t W) as (p & b & g & _ & Bp & _ & _ & Bb & _ & _ & Bg & ->).
  eexists. split; [done|]. apply fast_hash_blob.
  repeat apply Forall_app_2; try apply fast_hash_bytes; try done. apply Bg.
Qed.

(** The messages hashed by [get_block_hash]. *)
Definition tree_leaves (b : block) : list hash :=
  default null_hash (get_transaction_hash (miner_tx b)) :: tx_hashes b.
Definition block_messages (b : block) : list (list Z) :=
  option_list (get_block_hashing_blob b ≫= write_string) ++
  tree_messages (tree_leaves b) ++ tx_messages (miner_tx b).

Lemma tree_leaves_hashes b : wf_block b -> Forall TreeHash.is_hash (tree_leaves b).
Proof.
  intros (_ & W & H & _). constructor.
  - by destruct (transaction_hash_is_hash _ W) as (h & -> & Hh).
  - apply (Forall_impl _ _ _ H). intros h [? ?]. done.
Qed.

Lemma tree_root_is_hash hs : hs <> [] -> Forall TreeHash.is_hash hs -> TreeHash.is_hash (tree_root hs).
Proof.
  intros Hne H. destruct hs as [|a [|b hs]]; [done|by inversion H|]. unfold tree_root.
  set (l := a :: b :: hs) in *. destruct (first_level_sizes l) as [Hs Ep]; [unfold l; cbn; lia|].
  set (k := Z.to_nat _) in *. set (keep := (_ - length l)%nat).
  assert (D : length (drop keep l) = (2 * (2 ^ k - keep))%nat) by (rewrite length_drop; lia).
  apply merkle_hash.
  - rewrite length_app, length_take. erewrite length_pairs by exact D. lia.
  - apply Forall_app_2; [by apply Forall_take|]. eapply pairs_hashes; [exact D|by apply Forall_drop].
Qed.

(** The blob that is hashed, part by part. *)
Lemma hashing_blob_parts b :
  wf_block b -> Z.of_nat (length (tx_hashes b)) < 2 ^ 31 ->
  exists hd, (forall st, read_block_header (hd ++ st) = Some (header b, st)) /\
    length (tree_root (tree_leaves b)) = 32%nat /\
    tree_hash (tree_leaves b) = Some (tree_root (tree_leaves b)) /\
    get_block_hashing_blob b =
      Some (hd ++ tree_root (tree_leaves b) ++ write_varint (Z.of_nat (length (tx_hashes b)) + 1)).
Proof.
  intros W L. destruct (rt_block_header _ (proj1 W)) as (hd & Eh & Bh & _ & Rh).
  destruct (tree_root_is_hash (tree_leaves b)) as [Hl _]; [done|by apply tree_leaves_hashes|].
  assert (T : tree_hash (tree_leaves b) = Some (tree_root (tree_leaves b)))
    by (apply tree_hash_root; cbn; lia).
  exists hd. split; [done|]. split; [done|]. split; [done|].
  unfold get_block_hashing_blob, get_tx_tree_hash, dump_binary, get_varint_data.
  fold (tree_leaves b). rewrite Eh, T. done.
Qed.


End Binding.

(** The second output of the sample transaction goes to another key. *)
Definition sample_ring_tx' : transaction :=
  MkTransaction
    (MkPrefix 2 0 [In_to_key (MkTxinToKey 0 [5; 300] (repeat 9 32))]
       [MkTxOut 0 (To_key (repeat 1 32)); MkTxOut 0 (To_key (repeat 3 32))] [1; 7])
    [] (rct_signatures sample_ring_tx).

Lemma sample_ring_tx'_wf : wf_transaction sample_ring_tx'.
Proof. split; [wf_concrete|apply sample_ring_tx_wf]. Qed.

Lemma get_transaction_hash_binding_witness :
  @get_transaction_hash truncating_FastHash sample_ring_tx =
    @get_transaction_hash truncating_FastHash sample_ring_tx' /\
  (sample_ring_tx = sample_ring_tx' \/
   @collide truncating_FastHash (@tx_messages truncating_FastHash sample_ring_tx)
     (@tx_messages truncating_FastHash sample_ring_tx')).
Proof.
  assert (E : @get_transaction_hash truncating_FastHash sample_ring_tx =
    @get_transaction_hash truncating_FastHash sample_ring_tx') by (vm_compute; reflexivity).
  split; [exact E|].
  apply (@get_transaction_hash_binding truncating_FastHash sample_ring_tx sample_ring_tx');
    [apply sample_ring_tx_wf|apply sample_ring_tx'_wf|reflexivity|exact E].
Defined.

Definition sample_block (n : Z) : block :=
  MkBlock (MkHeader 1 2 1546266600 (repeat 3 32) n)
    (MkTransaction (MkPrefix 2 70 [In_gen (MkTxinGen 60)]
       [MkTxOut 5000000000 (To_key (repeat 7 32))] [1; 2; 3]) [] rct_null)
    [repeat 1 32; repeat 2 32].

Lemma sample_block_wf n : is_u32 n -> wf_block (sample_block n).
Proof.
  intros Hn. unfold sample_block, wf_block. cbn [header miner_tx tx_hashes].
  split; [wf_concrete; done|]. split; [|wf_concrete].
  split; [wf_concrete|]. cbn [version prefix Z.eqb]. split; [done|]. split; [done|]. by left.
Qed.


(** ** Sums of amounts *)

Definition sum (l : list Z) : Z := fold_right Z.add 0 l.

Lemma sum_cons x l : sum (x :: l) = x + sum l.
Proof. done. Qed.

Lemma sum_app l1 l2 : sum (l1 ++ l2) = sum l1 + sum l2.
Proof. induction l1; cbn [app]; rewrite ?sum_cons; [done|lia]. Qed.

Lemma sum_nonneg l : Forall is_u64 l -> 0 <= sum l.
Proof. induction 1; rewrite ?sum_cons; [done|words; lia]. Qed.

(** The test [money > amount + money] on words. *)
Lemma sum_overflow_test a money : is_u64 a -> is_u64 money -> (a +w money <? money) = (2 ^ 64 <=? a + money).
Proof.
  intros Ha Hm. destruct (Z.leb_spec (2 ^ 64) (a + money)).
  - apply Z.ltb_lt. replace (a +w money) with (a + money - 2 ^ 64); [words; lia|].
    unfold wrap. apply (Z.mod_unique_pos _ _ 1); words; lia.
  - apply Z.ltb_ge. rewrite wrap_small; words; lia.
Qed.

Lemma outs_overflow_spec os : forall money,
  is_u64 money -> Forall is_u64 (map amount os) ->
  outs_overflow_loop os money = (money + sum (map amount os) <? 2 ^ 64).
Proof.
  induction os as [|o os IH]; intros money Hm Ho; cbn [outs_overflow_loop map].
  { symmetry. apply Z.ltb_lt. cbn. words. lia. }
  inversion Ho as [|? ? H1 H2]; subst. pose proof (sum_nonneg _ H2) as Hs. rewrite sum_overflow_test by done.
  rewrite sum_cons. destruct (Z.leb_spec (2 ^ 64) (amount o + money)).
  - symmetry. apply Z.ltb_ge. lia.
  - rewrite wrap_small by (words; lia). rewrite IH by (done || (words; lia)). f_equal. lia.
Qed.

Lemma outs_money_spec os : forall acc,
  is_u64 acc -> Forall is_u64 (map amount os) ->
  fold_left (fun acc o => acc +w amount o) os acc = u64 (acc + sum (map amount os)).
Proof.
  induction os as [|o os IH]; intros acc Ha Ho; cbn [fold_left map].
  { cbn. rewrite Z.add_0_r. by rewrite wrap_small. }
  inversion Ho; subst. rewrite IH by auto with cword. rewrite wrap_add_l, sum_cons. f_equal. lia.
Qed.

Definition to_keys (l : list txin_v) : option (list txin_to_key) := mapM to_key l.

Lemma inputs_overflow_spec l : forall ks money,
  to_keys l = Some ks -> is_u64 money -> Forall is_u64 (map in_amount ks) ->
  inputs_overflow_loop l money = (money + sum (map in_amount ks) <? 2 ^ 64).
Proof.
  induction l as [|i l IH]; intros ks money E Hm Ho; cbn [inputs_overflow_loop].
  { injection E as <-. symmetry. apply Z.ltb_lt. cbn. words. lia. }
  unfold to_keys in E. apply mapM_Some_1 in E. inversion E as [|? k ? ks' Hk Hl]; subst. rewrite Hk.
  apply mapM_Some_2 in Hl. cbn [map] in *. inversion Ho as [|? ? H1 H2]; subst.
  pose proof (sum_nonneg _ H2). rewrite sum_overflow_test, sum_cons by done.
  destruct (Z.leb_spec (2 ^ 64) (in_amount k + money)).
  - symmetry. apply Z.ltb_ge. lia.
  - rewrite wrap_small by (words; lia). rewrite (IH ks') by (done || (words; lia)). f_equal. lia.
Qed.

Lemma inputs_overflow_types l : forall money, to_keys l = None -> inputs_overflow_loop l money = false.
Proof.
  unfold to_keys. induction l as [|i l IH]; intros money E; [done|]. cbn in *.
  destruct (to_key i); [|done]. case_bool; [done|]. apply IH. by destruct (mapM to_key l).
Qed.

Lemma to_keys_u64 l ks : to_keys l = Some ks -> Forall wf_txin l -> Forall is_u64 (map in_amount ks).
Proof.
  intros E%mapM_Some_1 H. apply Forall_map. induction E as [|i k l ks Hk E IH]; [done|].
  inversion H as [|? ? Hw Hr]; subst. constructor; [|by apply IH].
  destruct i; simplify_eq/=. apply Hw.
Qed.

(** [check_money_overflow] accepts exactly the transactions all of whose
    inputs are [txin_to_key] and whose input amounts and output amounts both
    add up, as integers, to less than 2^64; for such a transaction
    [get_outs_money_amount] is that sum. *)
Theorem check_money_overflow_correct tx :
  wf_transaction tx ->
  (check_money_overflow tx = true <->
     exists ks, to_keys (vin (prefix tx)) = Some ks /\
       sum (map in_amount ks) < 2 ^ 64 /\ sum (map amount (vout (prefix tx))) < 2 ^ 64) /\
  (check_money_overflow tx = true ->
     get_outs_money_amount tx = sum (map amount (vout (prefix tx)))).
Proof.
  intros [(_ & _ & Hi & _ & Ho & _) _].
  assert (Fo : Forall is_u64 (map amount (vout (prefix tx)))).
  { apply Forall_map. apply (Forall_impl _ _ _ Ho). by intros o [? _]. }
  assert (So := sum_nonneg _ Fo). assert (Z0 : is_u64 0) by done.
  unfold check_money_overflow, check_inputs_overflow, check_outs_overflow, get_outs_money_amount.
  rewrite outs_overflow_spec, outs_money_spec by done. rewrite Z.add_0_l.
  destruct (to_keys (vin (prefix tx))) as [ks|] eqn:Ek.
  - rewrite (inputs_overflow_spec _ ks) by (try done; by eapply to_keys_u64). rewrite Z.add_0_l.
    rewrite andb_true_iff, !Z.ltb_lt. split; [naive_solver|].
    intros [_ H]. apply wrap_small. words. lia.
  - rewrite inputs_overflow_types by done. naive_solver.
Qed.

(** ** Output offsets *)

Lemma prefix_sums_differences l : forall prev, is_u64 prev -> Forall is_u64 l ->
  prefix_sums prev (differences prev l) = l.
Proof.
  induction l as [|x l IH]; intros prev Hp Hl; [done|]. inversion Hl; subst.
  cbn [differences prefix_sums]. rewrite wrap_add_l, Z.sub_add, wrap_small, IH by done. done.
Qed.

Lemma differences_prefix_sums l : forall prev, is_u64 prev -> Forall is_u64 l ->
  differences prev (prefix_sums prev l) = l.
Proof.
  induction l as [|x l IH]; intros prev Hp Hl; [done|]. inversion Hl; subst.
  cbn [differences prefix_sums]. rewrite wrap_sub_l, Z.add_simpl_r, wrap_small, IH by auto with cword. done.
Qed.

Lemma prefix_sums_sorted l : forall prev, is_u64 prev -> Forall is_u64 l -> prev + sum l < 2 ^ 64 ->
  StronglySorted Z.le (prev :: prefix_sums prev l).
Proof.
  induction l as [|x l IH]; intros prev Hp Hl Hs; [by repeat constructor|].
  inversion Hl as [|? ? Hx Hr]; subst. rewrite sum_cons in Hs. pose proof (sum_nonneg _ Hr).
  cbn [prefix_sums]. rewrite (wrap_small 64 (x + prev)) by (words; lia).
  assert (S := IH (x + prev) ltac:(words; lia) Hr ltac:(lia)). constructor; [done|].
  apply StronglySorted_inv in S as [_ F]. constructor; [words; lia|].
  apply (Forall_impl _ _ _ F). intros y ?. words. lia.
Qed.

(** Output offsets: writing absolute offsets as relative ones and back
    gives the offsets in ascending order, and relative offsets that add up to
    less than 2^64 survive the way to absolute ones and back unchanged. *)
Theorem output_offsets_round_trip off :
  Forall is_u64 off ->
  relative_output_offsets_to_absolute (absolute_output_offsets_to_relative off) = sort off /\
  (sum off < 2 ^ 64 ->
   absolute_output_offsets_to_relative (relative_output_offsets_to_absolute off) = off).
Proof.
  intros H. split.
  - unfold absolute_output_offsets_to_relative.
    assert (Hs : Forall is_u64 (sort off)) by (by rewrite sort_perm).
    destruct (sort off) as [|x l]; [done|]. inversion Hs; subst. cbn [relative_output_offsets_to_absolute].
    by rewrite prefix_sums_differences.
  - intros Hs. unfold absolute_output_offsets_to_relative. destruct off as [|x l]; [done|].
    inversion H; subst. cbn [relative_output_offsets_to_absolute]. rewrite sum_cons in Hs.
    rewrite sorted_sort by (by apply prefix_sums_sorted). by rewrite differences_prefix_sums.
Qed.

(** ** Decomposition of amounts *)

Definition event_amount (e : digit_event) : Z := match e with Chunk a | Dust a => a end.
Definition chunks (es : list digit_event) : list Z := omap (fun e => match e with Chunk a => Some a | _ => None end) es.
Definition dusts (es : list digit_event) : list Z := omap (fun e => match e with Dust a => Some a | _ => None end) es.

(** A single decimal digit followed by zeros. *)
Definition round_amount (a : Z) : Prop := exists d k, 1 <= d <= 9 /\ 0 <= k /\ a = d * 10 ^ k.

(** One turn of the loop on an [amount] whose digits start at place [k]. *)
Lemma digit_step amount k n :
  0 < amount < 10 ^ n -> 0 <= n -> 0 <= k -> amount * 10 ^ k < 2 ^ 64 ->
  let r := amount mod 10 in let q := amount / 10 in
  r *w 10 ^ k = r * 10 ^ k /\ amount * 10 ^ k = r * 10 ^ k + q * 10 ^ (k + 1) /\
  0 <= r <= 9 /\ 0 <= q < 10 ^ (n - 1) /\ 0 <= r * 10 ^ k /\ 0 <= q * 10 ^ (k + 1) /\
  10 ^ k *w 10 = u64 (10 ^ (k + 1)) /\ (0 < q -> 10 ^ k *w 10 = 10 ^ (k + 1)) /\
  10 ^ (k + 1) = 10 * 10 ^ k /\ 0 < 10 ^ k.
Proof.
  intros Ha Hn Hk Hb r q. assert (Hp : 0 < 10 ^ k) by lia.
  assert (Hq : 10 ^ (k + 1) = 10 * 10 ^ k) by (rewrite Z.pow_add_r by lia; lia).
  assert (Hr : 0 <= r < 10) by (apply Z.mod_pos_bound; lia).
  assert (Hq0 : 0 <= q) by (apply Z.div_pos; lia).
  assert (E : amount * 10 ^ k = r * 10 ^ k + q * 10 ^ (k + 1)).
  { rewrite Hq, (Z.div_mod amount 10) by lia. fold r q. ring. }
  assert (0 <= r * 10 ^ k) by (apply Z.mul_nonneg_nonneg; lia).
  assert (0 <= q * 10 ^ (k + 1)) by (apply Z.mul_nonneg_nonneg; lia).
  assert (Hn1 : n <> 0) by (intros ->; cbn in Ha; lia).
  split; [apply wrap_small; unfold word; lia|]. split; [done|]. split; [lia|].
  split; [split; [lia|]; apply Z.div_lt_upper_bound; [lia|]; rewrite <- Z.pow_succ_r by lia;
          replace (Z.succ (n - 1)) with n by lia; lia|].
  split; [done|]. split; [done|]. split; [f_equal; lia|]. split; [|done].
  intros Hq1. rewrite (Z.mul_comm (10 ^ k)), <- Hq. apply wrap_small. unfold word.
  pose proof (Z.mul_le_mono_nonneg_r 1 q (10 ^ (k + 1)) ltac:(lia) ltac:(lia)). lia.
Qed.

(** After the first chunk that does not fit, no other one does. *)
Lemma decompose_after fuel : forall T amount dust order handled k,
  0 <= amount < 10 ^ (Z.of_nat fuel - 1) -> 0 <= k -> (0 < amount -> order = 10 ^ k) ->
  0 <= dust <= T -> T < dust + 10 ^ k -> amount * 10 ^ k + dust < 2 ^ 64 ->
  (handled = true \/ dust = 0) ->
  exists es, decompose_loop fuel T amount dust order handled = Some es /\
    dusts es = [] /\ Forall round_amount (chunks es) /\ sum (map event_amount es) = amount * 10 ^ k.
Proof.
  induction fuel as [|fuel IH]; intros T amount dust order handled k Ha Hk Eo Hd HT Hb Hh.
  { cbn in Ha. lia. }
  cbn [decompose_loop]. destruct (Z.eqb_spec amount 0) as [->|Hne].
  { exists []. split; [|cbn; split; [done|split; [constructor|lia]]].
    destruct Hh as [-> | ->]; [done|]. by rewrite andb_false_r. }
  rewrite Eo by lia.
  destruct (digit_step amount k (Z.of_nat fuel)) as (E1 & E2 & Hr & Hq & Hr0 & Hq0 & Ho & Ho' & Hp & Hp0);
    [replace (Z.of_nat fuel) with (Z.of_nat (S fuel) - 1) by lia; lia|lia..|].
  rewrite E1. set (q := amount / 10) in *. set (r := amount mod 10) in *.
  rewrite (wrap_small 64 (dust + _)) by (unfold word; lia).
  destruct (IH T q dust (10 ^ k *w 10) handled (k + 1)) as (es & Ees & D & C & S); try done; try lia.
  destruct (Z.leb_spec (dust + r * 10 ^ k) T) as [Hle|Hgt].
  - assert (Hr1 : r = 0) by (destruct (Z.eq_dec r 0); [done|];
      pose proof (Z.mul_le_mono_nonneg_r 1 r (10 ^ k) ltac:(lia) ltac:(lia)); lia).
    rewrite Hr1, Z.mul_0_l, Z.add_0_r, Ees.
    exists es. split; [done|]. split; [done|]. split; [done|]. rewrite Hr1 in E2. lia.
  - assert (He : negb handled && negb (dust =? 0) = false) by (destruct Hh as [-> | ->]; [done|apply andb_false_r]).
    rewrite He, orb_false_r, Ees. cbn [mbind option_bind app].
    assert (1 <= r) by (destruct (Z.eq_dec r 0) as [Hr1|]; [rewrite Hr1 in Hgt|]; lia).
    pose proof (Z.mul_pos_pos r (10 ^ k) ltac:(lia) Hp0).
    destruct (Z.eqb_spec (r * 10 ^ k) 0) as [|]; [lia|]. eexists. split; [reflexivity|]. split; [done|].
    split; [|cbn [negb map event_amount app]; rewrite sum_cons; lia].
    constructor; [exists r, k; lia|done].
Qed.

(** Up to then every chunk is dust. *)
Lemma decompose_before fuel : forall T amount dust order k,
  0 <= amount < 10 ^ (Z.of_nat fuel - 1) -> 0 <= k -> (0 < amount -> order = 10 ^ k) ->
  0 <= dust <= T -> amount * 10 ^ k + dust < 2 ^ 64 ->
  exists es, decompose_loop fuel T amount dust order false = Some es /\
    (length (dusts es) <= 1)%nat /\ Forall (fun d => 0 < d <= T) (dusts es) /\
    Forall round_amount (chunks es) /\ sum (map event_amount es) = amount * 10 ^ k + dust.
Proof.
  induction fuel as [|fuel IH]; intros T amount dust order k Ha Hk Eo Hd Hb.
  { cbn in Ha. lia. }
  cbn [decompose_loop]. destruct (Z.eqb_spec amount 0) as [->|Hne].
  { cbn [negb andb]. destruct (Z.eqb_spec dust 0) as [->|Hdn].
    - exists []. cbn. auto using Forall_nil.
    - exists [Dust dust]. cbn. split; [done|]. split; [lia|].
      split; [repeat constructor; lia|]. split; [constructor|lia]. }
  rewrite Eo by lia.
  destruct (digit_step amount k (Z.of_nat fuel)) as (E1 & E2 & Hr & Hq & Hr0 & Hq0 & Ho & Ho' & Hp & Hp0);
    [replace (Z.of_nat fuel) with (Z.of_nat (S fuel) - 1) by lia; lia|lia..|].
  rewrite E1. set (q := amount / 10) in *. set (r := amount mod 10) in *.
  rewrite (wrap_small 64 (dust + _)) by (unfold word; lia).
  destruct (Z.leb_spec (dust + r * 10 ^ k) T) as [Hle|Hgt].
  - destruct (IH T q (dust + r * 10 ^ k) (10 ^ k *w 10) (k + 1)) as (es & Ees & D & Dt & C & S);
      [lia|lia|done|lia|lia|].
    exists es. split; [done|]. split; [done|]. split; [done|]. split; [done|]. lia.
  - assert (1 <= r) by (destruct (Z.eq_dec r 0) as [Hr1|]; [rewrite Hr1 in Hgt|]; lia).
    assert (r * 10 ^ k <= 9 * 10 ^ k) by (apply Z.mul_le_mono_nonneg_r; lia).
    destruct (decompose_after fuel T q dust (10 ^ k *w 10) (false || negb false && negb (dust =? 0)) (k + 1))
      as (es & Ees & D & C & S); [lia|lia|done|lia|lia|lia| |].
    { destruct (Z.eqb_spec dust 0); [by right|by left]. }
    rewrite Ees. cbn [mbind option_bind negb andb].
    pose proof (Z.mul_pos_pos r (10 ^ k) ltac:(lia) Hp0).
    destruct (Z.eqb_spec (r * 10 ^ k) 0) as [|]; [lia|]. cbn [negb].
    assert (Hc : round_amount (r * 10 ^ k)) by (exists r, k; lia).
    eexists. split; [reflexivity|]. unfold dusts, chunks in *.
    destruct (Z.eqb_spec dust 0); cbn [negb app omap list_omap map event_amount length];
      rewrite D, ?sum_cons; (split; [cbn; lia|]); (split; [repeat constructor; lia|]);
      (split; [by constructor|lia]).
Qed.

(** [decompose_amount_into_digits] terminates and loses nothing: the
    amounts handed to the two handlers add up to the amount, every chunk is a
    decimal digit followed by zeros, and the dust handler is called at most
    once, with a positive amount within the threshold. *)
Theorem decompose_amount_into_digits_correct amount dust_threshold :
  is_u64 amount -> is_u64 dust_threshold ->
  exists es, decompose_amount_into_digits amount dust_threshold = Some es /\
    sum (map event_amount es) = amount /\ Forall round_amount (chunks es) /\
    (length (dusts es) <= 1)%nat /\ Forall (fun d => 0 < d <= dust_threshold) (dusts es).
Proof.
  intros Ha Ht. destruct (decompose_before 21 dust_threshold amount 0 1 0) as (es & E & D & Dt & C & S);
    [words; lia..|]. exists es. split; [done|]. split; [lia|done].
Qed.

Lemma decompose_amount_into_digits_correct_witness :
  decompose_amount_into_digits 62387455827 1000000 =
    Some [Dust 455827; Chunk 7000000; Chunk 80000000; Chunk 300000000; Chunk 2000000000; Chunk 60000000000] /\
  exists es, decompose_amount_into_digits 62387455827 1000000 = Some es /\
    sum (map event_amount es) = 62387455827 /\ Forall round_amount (chunks es) /\
    (length (dusts es) <= 1)%nat /\ Forall (fun d => 0 < d <= 1000000) (dusts es).
Proof.
  split; [reflexivity|].
  apply (decompose_amount_into_digits_correct 62387455827 1000000); words; lia.
Defined.

Lemma lower_bound_spec a v : StronglySorted Z.le a -> forall fuel first len,
  (len < fuel)%nat -> (first + len <= length a)%nat ->
  (forall i, (i < first)%nat -> List.nth i a 0 < v) ->
  (forall i, (first + len <= i < length a)%nat -> v <= List.nth i a 0) ->
  let f := lower_bound fuel a v first len in
  (f <= length a)%nat /\ (forall i, (i < f)%nat -> List.nth i a 0 < v) /\
  (forall i, (f <= i < length a)%nat -> v <= List.nth i a 0).
Proof.
  intros Hs. induction fuel as [|fuel IH]; intros first len Hf Hl Hlo Hhi; [lia|].
  cbn [lower_bound]. destruct (Nat.eqb_spec len 0) as [->|Hne].
  { split; [lia|]. split; [done|]. intros i Hi. apply Hhi. lia. }
  assert (Hh : (len / 2 < len)%nat) by (apply Nat.div_lt; lia).
  destruct (Z.ltb_spec (List.nth (first + len / 2) a 0) v) as [H|H]; apply IH; try lia; try done.
  - intros i Hi. pose proof (nth_sorted_le a i (first + len / 2) Hs ltac:(lia)). lia.
  - intros i Hi. apply Hhi. lia.
  - intros i Hi. pose proof (nth_sorted_le a (first + len / 2) i Hs ltac:(lia)). lia.
Qed.

Lemma binary_search_spec a v : StronglySorted Z.le a -> binary_search a v = true <-> v ∈ a.
Proof.
  intros Hs. unfold binary_search.
  destruct (lower_bound_spec a v Hs (S (length a)) 0 (length a)) as (Hf & Hlo & Hhi); [lia..|].
  set (f := lower_bound _ _ _ _ _) in *. rewrite andb_true_iff, !negb_true_iff, Nat.eqb_neq, Z.ltb_ge. split.
  - intros [Hne Hle]. specialize (Hhi f ltac:(lia)). replace v with (List.nth f a 0) by lia.
    apply list_elem_of_In, nth_In. lia.
  - intros Hv%list_elem_of_In. apply (In_nth _ _ 0) in Hv as (i & Hi & <-).
    destruct (Nat.le_gt_cases f i) as [Hfi|Hfi].
    + split; [lia|]. by apply nth_sorted_le.
    + specialize (Hlo i Hfi). lia.
Qed.

Fixpoint ascending (l : list Z) : bool :=
  match l with
  | x :: ((y :: _) as l') => (x <? y) && ascending l'
  | _ => true
  end.
Lemma ascending_sorted l : ascending l = true -> StronglySorted Z.le l.
Proof.
  intros H. apply Sorted_StronglySorted; [intros ?; lia|].
  induction l as [|x [|y l] IH]; [constructor|by repeat constructor|].
  cbn [ascending] in H. reflect_bools. constructor; [by apply IH|constructor; lia].
Qed.

(** The entry of the table for digit [d] at place [k]. *)
Definition table_entry (i : nat) : Z := (Z.of_nat i mod 9 + 1) * 10 ^ (Z.of_nat i / 9).
Lemma valid_decomposed_outputs_entries : valid_decomposed_outputs = map table_entry (seq 0 172).
Proof. vm_compute. reflexivity. Qed.

Lemma round_amount_entry a : is_u64 a -> round_amount a <-> a ∈ map table_entry (seq 0 172).
Proof.
  intros Ha. split.
  - intros (d & k & Hd & Hk & ->).
    assert (Hk19 : k <= 19).
    { destruct (Z.le_gt_cases k 19); [done|]. assert (10 ^ 20 <= 10 ^ k) by (apply Z.pow_le_mono_r; lia).
      words. nia. }
    assert (Hkd : k = 19 -> d = 1) by (intros ->; words; lia).
    apply list_elem_of_In, in_map_iff. exists (Z.to_nat (9 * k + (d - 1))). split.
    + unfold table_entry. rewrite Z2Nat.id by lia. f_equal; [|f_equal]; dlia.
    + apply in_seq. lia.
  - intros (i & <- & Hi)%list_elem_of_In%in_map_iff. apply in_seq in Hi.
    exists (Z.of_nat i mod 9 + 1), (Z.of_nat i / 9). repeat split; dlia.
Qed.

(** [is_valid_decomposed_amount] accepts exactly the amounts that are one
    decimal digit followed by zeros: the table is complete and sorted, and the
    binary search finds every entry of it. *)
Theorem is_valid_decomposed_amount_correct a :
  is_u64 a -> is_valid_decomposed_amount a = true <-> round_amount a.
Proof.
  intros Ha. rewrite round_amount_entry, <- valid_decomposed_outputs_entries by done.
  apply binary_search_spec, ascending_sorted. vm_compute. reflexivity.
Qed.

Lemma is_valid_decomposed_amount_correct_witness :
  is_valid_decomposed_amount 70000 = true <-> round_amount 70000.
Proof. apply (is_valid_decomposed_amount_correct 70000). words. lia. Defined.

(** ** The textual form of amounts *)

Definition digits (s : list Z) : Prop := Forall (fun c => 48 <= c <= 57) s.

Lemma forallb_isdigit s : forallb isdigit s = true <-> digits s.
Proof.
  unfold digits. rewrite forallb_forall, Forall_forall. unfold isdigit. split; intros H c Hc.
  - apply list_elem_of_In, H, andb_true_iff in Hc. lia.
  - apply list_elem_of_In, H in Hc. apply andb_true_iff. lia.
Qed.

Lemma digits_val_app s t : digits_val (s ++ t) = digits_val s * 10 ^ Z.of_nat (length t) + digits_val t.
Proof.
  unfold digits_val. rewrite fold_left_app. generalize (fold_left (fun v c => 10 * v + (c - 48)) s 0) as v.
  induction t as [|c t IH]; intros v; [cbn; lia|]. cbn [fold_left]. rewrite IH, (IH (10 * 0 + (c - 48))).
  cbn [length]. rewrite Nat2Z.inj_succ, Z.pow_succ_r by lia. ring.
Qed.

Lemma digits_val_zeros n : digits_val (repeat 48 n) = 0.
Proof. unfold digits_val. induction n; [done|]. cbn [repeat fold_left]. done. Qed.

Lemma digits_loop_spec fuel : forall n acc,
  0 <= n < 10 ^ Z.of_nat fuel -> (0 < fuel)%nat -> digits acc ->
  exists s, digits_loop fuel n acc = s ++ acc /\ digits s /\ s <> [] /\ digits_val s = n.
Proof.
  induction fuel as [|fuel IH]; intros n acc Hn Hf Hacc; [lia|]. cbn [digits_loop].
  pose proof (Z.mod_pos_bound n 10 ltac:(lia)) as Hm.
  destruct (Z.eqb_spec (n / 10) 0) as [E|E].
  - exists [48 + n mod 10]. split; [done|]. split; [repeat constructor; lia|]. split; [done|].
    cbn. dlia.
  - rewrite Nat2Z.inj_succ, Z.pow_succ_r in Hn by lia.
    destruct fuel as [|f]; [cbn in Hn; dlia|].
    destruct (IH (n / 10) (48 + n mod 10 :: acc)) as (s & -> & Hs & Hne & Hv);
      [split; [dlia|apply Z.div_lt_upper_bound; lia]|lia|constructor; [lia|done]|].
    exists (s ++ [48 + n mod 10]). rewrite <- app_assoc. split; [done|].
    split; [apply Forall_app_2; [done|repeat constructor; lia]|]. split; [by destruct s|].
    rewrite digits_val_app, Hv. cbn. dlia.
Qed.

Lemma to_string_spec n : is_u64 n -> exists s, to_string n = s /\ digits s /\ s <> [] /\ digits_val s = n.
Proof.
  intros Hn. destruct (digits_loop_spec 20 n []) as (s & E & H); [words; lia|lia|constructor|].
  exists s. unfold to_string. by rewrite E, app_nil_r.
Qed.

Lemma trim_left_spec sp s :
  Forall (fun c => isspace c = true) sp -> Forall (fun c => isspace c = false) s -> trim_left (sp ++ s) = s.
Proof.
  intros Hsp Hs. induction Hsp as [|c sp Hc Hsp IH]; cbn [app trim_left]; [|by rewrite Hc].
  destruct s; [done|]. inversion Hs as [|? ? Hz]; subst. cbn. by rewrite Hz.
Qed.

Lemma trim_left_keeps sp s :
  Forall (fun c => isspace c = false) s -> s <> [] -> trim_left (s ++ sp) = s ++ sp.
Proof. intros Hs Hne. destruct s; [done|]. inversion Hs as [|? ? Hz]; subst. cbn. by rewrite Hz. Qed.

Lemma trim_spec sp1 s sp2 :
  Forall (fun c => isspace c = true) sp1 -> Forall (fun c => isspace c = true) sp2 ->
  Forall (fun c => isspace c = false) s -> s <> [] -> trim (sp1 ++ s ++ sp2) = s.
Proof.
  intros H1 H2 Hs Hne. unfold trim.
  assert (E : trim_left (sp1 ++ s ++ sp2) = s ++ sp2).
  { induction H1 as [|c sp1 Hc H1 IH]; cbn [app trim_left]; [by apply trim_left_keeps|by rewrite Hc]. }
  rewrite E, rev_app_distr, trim_left_spec; [apply rev_involutive|by apply Forall_rev|by apply Forall_rev].
Qed.

Lemma digits_nonspace s : digits s -> Forall (fun c => isspace c = false) s.
Proof.
  intros H. apply (Forall_impl _ _ _ H). intros c Hc. unfold isspace.
  apply orb_false_iff. split; [lia|]. apply andb_false_iff. lia.
Qed.

Lemma find_point ip t : digits ip -> find_first_of 46 (ip ++ 46 :: t) = Some (length ip).
Proof.
  induction 1 as [|c ip Hc Hip IH]; [done|]. cbn [find_first_of app].
  destruct (Z.eqb_spec c 46); [lia|]. by rewrite IH.
Qed.

Lemma find_no_point ip : digits ip -> find_first_of 46 ip = None.
Proof.
  induction 1 as [|c ip Hc Hip IH]; [done|]. cbn [find_first_of].
  destruct (Z.eqb_spec c 46); [lia|]. by rewrite IH.
Qed.

Lemma strip_zeros_spec z : forall m rs, (m <= 9)%nat ->
  strip_zeros (m + z) (repeat 48 z ++ rs) = ((m + z `min` (9 - m))%nat, repeat 48 (z `min` (9 - m)) ++ rs).
Proof.
  induction z as [|z IH]; intros m rs Hm; cbn [repeat app].
  - cbn [Nat.min repeat app]. rewrite Nat.add_0_r. destruct rs as [|c rs]; [done|]. cbn [strip_zeros].
    unfold CRYPTONOTE_DISPLAY_DECIMAL_POINT. destruct (Nat.ltb_spec 9 m); [lia|done].
  - cbn [strip_zeros]. unfold CRYPTONOTE_DISPLAY_DECIMAL_POINT at 1.
    destruct (Nat.ltb_spec 9 (m + S z)) as [H|H]; cbn [andb].
    + replace (m + S z - 1)%nat with (m + z)%nat by lia. rewrite Z.eqb_refl, IH by done.
      by replace (S z `min` (9 - m))%nat with (z `min` (9 - m))%nat by lia.
    + by replace (S z `min` (9 - m))%nat with (S z) by lia.
Qed.

Lemma get_xtype_digits s : digits s -> s <> [] ->
  get_xtype_from_string s = if digits_val s <? 2 ^ 64 then Some (digits_val s) else None.
Proof.
  intros Hs Hne. unfold get_xtype_from_string. rewrite (proj2 (forallb_isdigit s) Hs). by destruct s.
Qed.

Lemma digits_zeros n : digits (repeat 48 n).
Proof. apply Forall_forall. intros c Hc%list_elem_of_In%repeat_spec. lia. Qed.

(** The value of [ip.fp] in the smallest unit, when it fits. *)
Definition decimal_amount (ip fp : list Z) : option Z :=
  let v := digits_val ip * 10 ^ 9 + digits_val fp * 10 ^ (9 - Z.of_nat (length fp)) in
  if v <? 2 ^ 64 then Some v else None.

Lemma parse_amount_point sp1 sp2 ip fp z :
  Forall (fun c => isspace c = true) sp1 -> Forall (fun c => isspace c = true) sp2 ->
  digits ip -> digits fp -> (length fp <= 9)%nat -> ip ++ fp ++ repeat 48 z <> [] ->
  parse_amount (sp1 ++ (ip ++ 46 :: fp ++ repeat 48 z) ++ sp2) = decimal_amount ip fp.
Proof.
  intros H1 H2 Hi Hf Hl Hne. unfold parse_amount.
  rewrite trim_spec; [|done|done| |by destruct ip].
  2: { apply Forall_app_2; [by apply digits_nonspace|]. constructor; [done|].
       apply Forall_app_2; apply digits_nonspace; [done|apply digits_zeros]. }
  rewrite find_point by done.
  replace (length (ip ++ 46%Z :: fp ++ repeat 48%Z z) - length ip - 1)%nat with (length fp + z)%nat
    by (rewrite length_app; cbn; rewrite length_app, repeat_length; lia).
  replace (rev (ip ++ 46 :: fp ++ repeat 48 z)) with (repeat 48 z ++ rev (ip ++ 46 :: fp)).
  2: { change (ip ++ 46 :: fp ++ repeat 48 z) with (ip ++ (46 :: fp) ++ repeat 48 z).
       rewrite (app_assoc ip), (rev_app_distr _ (repeat 48%Z z)). by rewrite rev_repeat. }
  rewrite strip_zeros_spec by done. set (z' := (z `min` (9 - length fp))%nat).
  unfold CRYPTONOTE_DISPLAY_DECIMAL_POINT.
  destruct (Nat.ltb_spec 9 (length fp + z')) as [|_]; [lia|]. cbn [mbind option_bind].
  rewrite rev_app_distr, rev_involutive, rev_repeat, <- app_assoc, take_app_length, Nat.add_1_r.
  cbn [app]. rewrite drop_app_ge, Nat.sub_succ_l, Nat.sub_diag by lia. cbn [drop]. rewrite drop_0.
  set (s := ip ++ fp ++ repeat 48 z').
  assert (Hs : s <> []).
  { subst s z'. intros E. apply Hne. apply app_eq_nil in E as [-> E]. apply app_eq_nil in E as [-> E].
    cbn in *. destruct z; [done|]. by destruct (S z `min` 9)%nat eqn:?; [lia|]. }
  set (t := if (length fp + z' <? 9)%nat then _ else _).
  assert (Et : t = ip ++ fp ++ repeat 48 (9 - length fp)).
  { subst t s. destruct (Nat.ltb_spec (length fp + z') 9).
    - rewrite <- !app_assoc, <- repeat_app. do 3 f_equal. lia.
    - do 3 f_equal. lia. }
  destruct s as [|c s'] eqn:Es; [done|]. rewrite Et, get_xtype_digits.
  - unfold decimal_amount. rewrite digits_val_app, digits_val_app, digits_val_zeros, length_app, repeat_length.
    replace (Z.of_nat (length fp + (9 - length fp))) with 9 by lia.
    replace (Z.of_nat (9 - length fp)) with (9 - Z.of_nat (length fp)) by lia. rewrite Z.add_0_r. done.
  - repeat apply Forall_app_2; [done|done|apply digits_zeros].
  - intros E. apply app_eq_nil in E as [-> E]. apply app_eq_nil in E as [-> E]. done.
Qed.

Lemma parse_amount_whole sp1 sp2 ip :
  Forall (fun c => isspace c = true) sp1 -> Forall (fun c => isspace c = true) sp2 ->
  digits ip -> ip <> [] -> parse_amount (sp1 ++ ip ++ sp2) = decimal_amount ip [].
Proof.
  intros H1 H2 Hi Hne. unfold parse_amount.
  rewrite trim_spec by (done || by apply digits_nonspace). rewrite find_no_point by done.
  unfold CRYPTONOTE_DISPLAY_DECIMAL_POINT. cbn [mbind option_bind Nat.ltb Nat.leb Nat.sub].
  destruct ip as [|c ip0] eqn:E; [done|]. rewrite <- E in *. clear E. rewrite get_xtype_digits.
  - unfold decimal_amount. rewrite digits_val_app, digits_val_zeros, repeat_length. cbn [digits_val fold_left length].
    rewrite Z.add_0_r. by rewrite Z.mul_0_l, Z.add_0_r.
  - apply Forall_app_2; [done|apply digits_zeros].
  - by destruct ip.
Qed.

(** [parse_amount] reads a decimal number: digits with an optional point,
    at most nine significant digits after it and any number of further zeros,
    surrounded by white space, are read as the amount in the smallest unit,
    and rejected exactly when that does not fit 64 bits. *)
Theorem parse_amount_correct sp1 sp2 ip fp z :
  Forall (fun c => isspace c = true) sp1 -> Forall (fun c => isspace c = true) sp2 ->
  digits ip -> digits fp -> (length fp <= 9)%nat ->
  (ip ++ fp ++ repeat 48 z <> [] ->
   parse_amount (sp1 ++ (ip ++ 46 :: fp ++ repeat 48 z) ++ sp2) = decimal_amount ip fp) /\
  (ip <> [] -> parse_amount (sp1 ++ ip ++ sp2) = decimal_amount ip []).
Proof. intros. split; intros; [by apply parse_amount_point|by apply parse_amount_whole]. Qed.

Lemma parse_amount_correct_witness :
  parse_amount ([32] ++ ([49] ++ 46 :: [53] ++ repeat 48 12) ++ [10]) = Some 1500000000.
Proof.
  apply (parse_amount_correct [32] [10] [49] [53] 12);
    first [discriminate | cbn; lia | constructor; [(reflexivity || lia)|constructor]].
Defined.

(** Every amount is printed to a string that [parse_amount] reads back as
    the same amount. *)
Theorem print_parse_money amount :
  is_u64 amount -> parse_amount (print_money amount) = Some amount.
Proof.
  intros Ha. destruct (to_string_spec amount Ha) as (s & E & Hs & Hne & Hv). unfold print_money. rewrite E.
  unfold CRYPTONOTE_DISPLAY_DECIMAL_POINT.
  set (t := if (length s <? 9 + 1)%nat then _ else _).
  assert (Ht : digits t /\ digits_val t = amount /\ (10 <= length t)%nat).
  { subst t. destruct (Nat.ltb_spec (length s) (9 + 1)).
    - split; [apply Forall_app_2; [apply digits_zeros|done]|]. rewrite digits_val_app, digits_val_zeros.
      rewrite length_app, repeat_length. lia.
    - split; [done|]. split; [done|lia]. }
  destruct Ht as (Hd & Htv & Hl). set (p := (length t - 9)%nat).
  assert (Hlen : length (drop p t) = 9%nat) by (rewrite length_drop; lia).
  assert (Hp := parse_amount_point [] [] (take p t) (drop p t) 0).
  cbn [repeat app] in Hp. rewrite !app_nil_r in Hp. cbn [app]. rewrite Hp; clear Hp.
  - unfold decimal_amount. rewrite Hlen. rewrite <- (take_drop p t), digits_val_app, Hlen in Htv.
    change (Z.of_nat 9) with 9 in *. rewrite Z.sub_diag, Z.pow_0_r, Z.mul_1_r, Htv.
    destruct (Z.ltb_spec amount (2 ^ 64)); [done|words; lia].
  - constructor.
  - constructor.
  - by apply Forall_take.
  - by apply Forall_drop.
  - lia.
  - rewrite take_drop. by destruct t.
Qed.

Lemma print_parse_money_witness : parse_amount (print_money 18446744073709551615) = Some 18446744073709551615.
Proof. apply (print_parse_money 18446744073709551615). words. lia. Defined.

Lemma check_money_overflow_correct_witness :
  check_money_overflow sample_ring_tx = true /\ get_outs_money_amount sample_ring_tx = 0.
Proof.
  split; [reflexivity|].
  apply (proj2 (check_money_overflow_correct sample_ring_tx sample_ring_tx_wf)). reflexivity.
Defined.

Lemma output_offsets_round_trip_witness :
  absolute_output_offsets_to_relative [7; 100; 12] = [7; 5; 88] /\
  relative_output_offsets_to_absolute (absolute_output_offsets_to_relative [7; 100; 12]) = sort [7; 100; 12].
Proof.
  split; [reflexivity|]. apply (output_offsets_round_trip [7; 100; 12]).
  repeat constructor; words; lia.
Defined.

End FormatUtils.
