(* ===== verification/Reward.v ===== *)
(** * Block reward and miner transaction

    Model of [get_block_reward] and [is_coinbase] of
    [src/cryptonote_core/cryptonote_basic_impl.cpp], of [construct_miner_tx] of
    [cryptonote_format_utils.cpp], and of what [blockchain.cpp] checks of a
    miner transaction: [prevalidate_miner_transaction],
    [validate_miner_transaction] and the running total of generated coins.

    The emission formula is evaluated in IEEE double precision, one rounding
    per operation, with the executable floating point numbers of the standard
    library. *)
From Stdlib Require Import SpecFloat.
From S2P Require Import Prelude Median Basic TxExtra FormatUtils.
Import Basic TxExtra FormatUtils.

Module Reward.

(** ** Doubles *)

Abbreviation double := spec_float.
Definition prec : Z := 53.
Definition emax : Z := 1024.
Definition dadd : double -> double -> double := SFadd prec emax.
Definition dmul : double -> double -> double := SFmul prec emax.
Definition ddiv : double -> double -> double := SFdiv prec emax.
(** The conversion of a [uint64_t]. *)
Definition of_u64 (n : Z) : double := binary_normalize prec emax n 0 false.
(** A decimal literal [n / 10^k]: the numerator and the power are exact, so
    that the quotient is the literal rounded once. *)
Definition literal (n k : Z) : double := ddiv (of_u64 n) (of_u64 (10 ^ k)).
(** The conversion to [uint64_t], which drops the fraction. *)
Definition to_u64 (d : double) : Z :=
  match d with
  | S754_finite s m e => (if s then -1 else 1) * (if 0 <=? e then Zpos m * 2 ^ e else Zpos m / 2 ^ (- e))
  | _ => 0
  end.

(** ** The reward *)

Definition MONEY_SUPPLY : Z := 1000000000000000000.
Definition EMISSION_SPEED_FACTOR : Z := 21.
Definition FINAL_SUBSIDY : Z := 4000000000.
Definition GENESIS_BLOCK_REWARD : Z := 135000000000000000.
Definition MAX_BLOCK_SIZE_NOT_CHECKED : Z := 5 * 1024 * 1024.
Definition COIN_EMISSION_MONTH_INTERVAL : Z := 6.
Definition DIFFICULTY_TARGET : Z := 60.
Definition PEAK_COIN_EMISSION_YEAR : Z := 4.
(** [(uint64_t)(6 * (30.4375 * 24 * 3600) / 60)] *)
Definition COIN_EMISSION_HEIGHT_INTERVAL : Z :=
  to_u64 (ddiv (dmul (of_u64 COIN_EMISSION_MONTH_INTERVAL)
                  (dmul (dmul (literal 304375 4) (of_u64 24)) (of_u64 3600)))
            (of_u64 DIFFICULTY_TARGET)).
(** [(uint64_t)(((12 * 30.4375 * 24 * 3600) / 60) * 4)] *)
Definition PEAK_COIN_EMISSION_HEIGHT : Z :=
  to_u64 (dmul (ddiv (dmul (dmul (dmul (of_u64 12) (literal 304375 4)) (of_u64 24)) (of_u64 3600))
                  (of_u64 DIFFICULTY_TARGET))
            (of_u64 PEAK_COIN_EMISSION_YEAR)).

(** [0.1888 + interval_num*(0.023 + interval_num*0.0032)] *)
Definition money_supply_pct (interval_num : Z) : double :=
  dadd (literal 1888 4)
    (dmul (of_u64 interval_num)
       (dadd (literal 23 3) (dmul (of_u64 interval_num) (literal 32 4)))).

Definition round_factor : Z := 10000000.

Definition get_block_reward (median_size current_block_size already_generated_coins height : Z) : option Z :=
  let base_reward :=
    if 1 <? height then
      if height <? PEAK_COIN_EMISSION_HEIGHT +w COIN_EMISSION_HEIGHT_INTERVAL then
        let interval_num := height / COIN_EMISSION_HEIGHT_INTERVAL in
        to_u64 (dmul (of_u64 MONEY_SUPPLY) (money_supply_pct interval_num)) >>w EMISSION_SPEED_FACTOR
      else (MONEY_SUPPLY -w already_generated_coins) >>w EMISSION_SPEED_FACTOR
    else GENESIS_BLOCK_REWARD in
  let base_reward :=
    if base_reward <? FINAL_SUBSIDY then
      if already_generated_coins <? MONEY_SUPPLY then FINAL_SUBSIDY else FINAL_SUBSIDY / 2
    else base_reward in
  let base_reward := (base_reward / round_factor) *w round_factor in
  if Z.max (2 *w median_size) MAX_BLOCK_SIZE_NOT_CHECKED <? current_block_size then None
  else Some base_reward.

Example get_block_reward_2 : get_block_reward 300000 300000 270000000000000000 2 = Some 90020000000.
Proof. vm_compute. reflexivity. Qed.

(** ** The miner transaction *)

Definition CRYPTONOTE_MINED_MONEY_UNLOCK_WINDOW : Z := 10.
Definition CRYPTONOTE_REWARD_BLOCKS_WINDOW : Z := 60.

Definition is_coinbase (tx : transaction) : bool :=
  match vin (prefix tx) with
  | [In_gen _] => true
  | _ => false
  end.

(** [while (max_outs < out_amounts.size())]: the first amount is added to the
    second one and removed. *)
Fixpoint merge_outs (fuel max_outs : nat) (out_amounts : list Z) : option (list Z) :=
  match fuel with
  | O => None
  | S fuel =>
      if (max_outs <? length out_amounts)%nat then
        match out_amounts with
        | a :: b :: rest => merge_outs fuel max_outs ((b +w a) :: rest)
        | _ => None
        end
      else Some out_amounts
  end.

Section MinerTx.

(** [derive_out_key no]: [generate_key_derivation] from the miner's view key and
    the transaction's secret key, followed by [derive_public_key] for output
    [no] and the miner's spend key.  [txkey_pub] is the public half of the
    transaction's key pair. *)
Variable txkey_pub : public_key.
Variable derive_out_key : nat -> option public_key.

Fixpoint make_outs (no : nat) (out_amounts : list Z) : option (list tx_out) :=
  match out_amounts with
  | [] => Some []
  | a :: rest =>
      k ← derive_out_key no;
      outs ← make_outs (S no) rest;
      Some (MkTxOut a (To_key k) :: outs)
  end.

(** [tx] is the transaction passed by reference: what the function does not
    assign stays as it is. *)
Definition construct_miner_tx (height median_size already_generated_coins current_block_size fee : Z)
    (tx : transaction) (extra_nonce : list Z) (max_outs : nat) : option transaction :=
  let extra := add_tx_pub_key_to_extra [] txkey_pub in
  extra ← (match extra_nonce with
           | [] => Some extra
           | _ => add_extra_nonce_to_tx_extra extra extra_nonce
           end);
  block_reward ← get_block_reward median_size current_block_size already_generated_coins height;
  let block_reward := block_reward +w fee in
  events ← decompose_amount_into_digits block_reward 0;
  let out_amounts := map event_amount events in
  if (max_outs <? 1)%nat then None
  else
    out_amounts ← merge_outs (S (length out_amounts)) max_outs out_amounts;
    vout ← make_outs 0 out_amounts;
    let summary_amounts := fold_left (fun acc a => acc +w a) out_amounts 0 in
    if negb (summary_amounts =? block_reward) then None
    else
      Some (MkTransaction
              (MkPrefix CURRENT_TRANSACTION_VERSION (height +w CRYPTONOTE_MINED_MONEY_UNLOCK_WINDOW)
                 [In_gen (MkTxinGen height)] vout extra)
              (signatures tx) (rct_signatures tx)).

End MinerTx.

(** ** What the chain checks of it *)

Definition prevalidate_miner_transaction (b : block) (height : Z) : bool :=
  match vin (prefix (miner_tx b)) with
  | [In_gen i] =>
      (gen_height i =? height) &&
      (unlock_time (prefix (miner_tx b)) =? height +w CRYPTONOTE_MINED_MONEY_UNLOCK_WINDOW) &&
      check_outs_overflow (miner_tx b)
  | _ => false
  end.

(** [last_blocks_sizes] is what [get_last_n_blocks_sizes] collects and [height]
    is [m_db->height()].  The results are the updated [base_reward] and
    [partial_block_reward]. *)
Definition validate_miner_transaction (last_blocks_sizes : list Z) (height : Z) (b : block)
    (cumulative_block_size fee already_generated_coins : Z) : option (Z * bool) :=
  let money_in_use := fold_left (fun acc o => acc +w amount o) (vout (prefix (miner_tx b))) 0 in
  base_reward ← get_block_reward (median last_blocks_sizes) cumulative_block_size
                  already_generated_coins height;
  if base_reward +w fee <? money_in_use then None
  else if base_reward <? money_in_use -w fee then None
  else
    let partial_block_reward := negb (base_reward +w fee =? money_in_use) in
    Some (money_in_use -w fee, partial_block_reward).

(** [already_generated_coins] of the new block, in [handle_block_to_main_chain]. *)
Definition next_generated_coins (already_generated_coins base_reward : Z) : Z :=
  if base_reward <? MONEY_SUPPLY -w already_generated_coins
  then already_generated_coins +w base_reward else MONEY_SUPPLY.

(** * Properties *)

(** ** The reward against exact arithmetic *)

Lemma interval_value : COIN_EMISSION_HEIGHT_INTERVAL = 262980.
Proof. vm_compute. reflexivity. Qed.
Lemma peak_value : PEAK_COIN_EMISSION_HEIGHT +w COIN_EMISSION_HEIGHT_INTERVAL = 2366820.
Proof. vm_compute. reflexivity. Qed.

Definition floor_to (n a : Z) : Z := a / n * n.

(** The emission curve in exact arithmetic. *)
Definition emission (already_generated_coins height : Z) : Z :=
  if height <=? 1 then GENESIS_BLOCK_REWARD
  else if height <? 2366820 then
    let k := height / 262980 in 10 ^ 14 * (1888 + k * (230 + 32 * k)) / 2 ^ 21
  else if already_generated_coins =? MONEY_SUPPLY then FINAL_SUBSIDY / 2
  else Z.max ((MONEY_SUPPLY - already_generated_coins) / 2 ^ 21) FINAL_SUBSIDY.

(** The formula of [get_block_reward] for interval [k], without the size check. *)
Definition interval_reward (k : Z) : Z :=
  to_u64 (dmul (of_u64 MONEY_SUPPLY) (money_supply_pct k)) >>w EMISSION_SPEED_FACTOR.

Lemma interval_reward_exact k : 0 <= k <= 8 ->
  FINAL_SUBSIDY <= interval_reward k < 2 ^ 64 /\
  floor_to round_factor (interval_reward k) =
    floor_to round_factor (10 ^ 14 * (1888 + k * (230 + 32 * k)) / 2 ^ 21).
Proof.
  intros Hk.
  assert (k = 0 \/ k = 1 \/ k = 2 \/ k = 3 \/ k = 4 \/ k = 5 \/ k = 6 \/ k = 7 \/ k = 8) as H by lia.
  destruct H as [->|[->|[->|[->|[->|[->|[->|[->| ->]]]]]]]];
    vm_compute; (split; [split; congruence|reflexivity]).
Qed.

Lemma floor_wrap a : 0 <= a < 2 ^ 64 -> (a / round_factor) *w round_factor = floor_to round_factor a.
Proof.
  intros Ha. unfold floor_to, round_factor. apply wrap_small. unfold word.
  pose proof (Z.mul_div_le a 10000000 ltac:(lia)). pose proof (Z.div_pos a 10000000 ltac:(lia) ltac:(lia)). lia.
Qed.

(** The reward before the size check. *)
Lemma get_block_reward_eq median_size current_block_size already height :
  0 <= already <= MONEY_SUPPLY -> is_u64 height ->
  get_block_reward median_size current_block_size already height =
    if Z.max (2 *w median_size) MAX_BLOCK_SIZE_NOT_CHECKED <? current_block_size then None
    else Some (floor_to round_factor (emission already height)).
Proof.
  intros Ha Hh. unfold get_block_reward, emission. rewrite peak_value, interval_value.
  case_bool; [done|]. f_equal. unfold MONEY_SUPPLY in Ha.
  destruct (Z.ltb_spec 1 height) as [H1|H1]; destruct (Z.leb_spec height 1) as [H2|H2]; try lia.
  - destruct (Z.ltb_spec height 2366820) as [H3|H3].
    + set (k := height / 262980). fold (interval_reward k).
      destruct (interval_reward_exact k) as [Hb He]; [subst k; dlia|].
      destruct (Z.ltb_spec (interval_reward k) FINAL_SUBSIDY); [lia|].
      rewrite floor_wrap; [done|]. unfold FINAL_SUBSIDY in *. lia.
    + unfold EMISSION_SPEED_FACTOR, MONEY_SUPPLY, FINAL_SUBSIDY.
      rewrite (wrap_small 64 (1000000000000000000 - already)) by (words; lia). rewrite Z.shiftr_div_pow2 by lia.
      rewrite floor_wrap by (repeat case_bool; reflect_bools; dlia). f_equal.
      destruct (Z.eqb_spec already 1000000000000000000) as [->|]; [done|].
      destruct (Z.ltb_spec ((1000000000000000000 - already) / 2 ^ 21) 4000000000); [|lia].
      destruct (Z.ltb_spec already 1000000000000000000); lia.
  - vm_compute. reflexivity.
Qed.

Lemma emission_bounds already height :
  0 <= already <= MONEY_SUPPLY -> 0 <= height -> FINAL_SUBSIDY / 2 <= emission already height <= GENESIS_BLOCK_REWARD.
Proof.
  unfold emission, MONEY_SUPPLY, FINAL_SUBSIDY, GENESIS_BLOCK_REWARD. intros Ha Hh.
  repeat case_bool; reflect_bools; [dlia| |dlia|dlia].
  assert (Hk : 0 <= height / 262980 <= 8) by dlia. revert Hk. generalize (height / 262980) as k. intros k Hk.
  assert (0 <= k * (230 + 32 * k) <= 8 * (230 + 32 * 8)) by nia. dlia.
Qed.

(** [C21] The reward is the emission curve, rounded down to 0.01 coins: the
    double precision formula of the first intervals agrees with exact
    arithmetic, the later formula never wraps as long as no more than the
    supply has been generated, and a block is refused exactly when it is larger
    than twice the median and than 5 MB.  The reward lies between half of the
    final subsidy and the genesis reward. *)
Theorem get_block_reward_correct median_size current_block_size already height :
  0 <= already <= MONEY_SUPPLY -> is_u64 height -> 0 <= median_size < 2 ^ 63 ->
  (Z.max (2 * median_size) MAX_BLOCK_SIZE_NOT_CHECKED < current_block_size ->
   get_block_reward median_size current_block_size already height = None) /\
  (current_block_size <= Z.max (2 * median_size) MAX_BLOCK_SIZE_NOT_CHECKED ->
   exists r, get_block_reward median_size current_block_size already height = Some r /\
     r = floor_to round_factor (emission already height) /\
     FINAL_SUBSIDY / 2 <= r <= GENESIS_BLOCK_REWARD).
Proof.
  intros Ha Hh Hm. rewrite get_block_reward_eq by done. rewrite (wrap_small 64) by (words; lia).
  split; intros Hs.
  - by destruct (Z.ltb_spec (Z.max (2 * median_size) MAX_BLOCK_SIZE_NOT_CHECKED) current_block_size); [|lia].
  - destruct (Z.ltb_spec (Z.max (2 * median_size) MAX_BLOCK_SIZE_NOT_CHECKED) current_block_size); [lia|].
    eexists. split; [reflexivity|]. split; [done|].
    pose proof (emission_bounds already height Ha ltac:(words; lia)) as Hb.
    unfold floor_to, round_factor, FINAL_SUBSIDY, GENESIS_BLOCK_REWARD in *. dlia.
Qed.

Lemma get_block_reward_correct_witness :
  get_block_reward 300000 6000000 1000000000000000000 3000000 = None /\
  exists r, get_block_reward 300000 500000 1000000000000000000 3000000 = Some r /\
    r = floor_to round_factor (emission 1000000000000000000 3000000) /\
    FINAL_SUBSIDY / 2 <= r <= GENESIS_BLOCK_REWARD.
Proof.
  split.
  - apply (get_block_reward_correct 300000 6000000 1000000000000000000 3000000);
      unfold MONEY_SUPPLY, MAX_BLOCK_SIZE_NOT_CHECKED; words; lia.
  - apply (get_block_reward_correct 300000 500000 1000000000000000000 3000000);
      unfold MONEY_SUPPLY, MAX_BLOCK_SIZE_NOT_CHECKED; words; lia.
Defined.

(** ** The miner transaction *)

Lemma fold_sum l : forall acc, is_u64 acc -> fold_left (fun acc a => acc +w a) l acc = u64 (acc + sum l).
Proof.
  induction l as [|a l IH]; intros acc Ha; cbn [fold_left].
  - cbn. rewrite Z.add_0_r. by rewrite wrap_small.
  - rewrite IH by auto with cword. rewrite wrap_add_l, sum_cons. f_equal. lia.
Qed.

(** Merging keeps the total and leaves at most [max_outs] amounts. *)
Lemma merge_outs_spec fuel : forall max_outs outs,
  (1 <= max_outs)%nat -> (length outs < fuel)%nat -> Forall is_u64 outs -> sum outs < 2 ^ 64 ->
  exists outs', merge_outs fuel max_outs outs = Some outs' /\ (length outs' <= max_outs)%nat /\
    Forall is_u64 outs' /\ sum outs' = sum outs.
Proof.
  induction fuel as [|fuel IH]; intros max_outs outs Hm Hl Ho Hs; [lia|]. cbn [merge_outs].
  destruct (Nat.ltb_spec max_outs (length outs)) as [H|H]; [|by exists outs].
  destruct outs as [|a [|b rest]]; cbn in H; [lia|lia|].
  inversion Ho as [|? ? Ha Ho']; subst. inversion Ho' as [|? ? Hb Hr]; subst.
  rewrite !sum_cons in *. pose proof (sum_nonneg _ Hr). rewrite wrap_small by (words; lia).
  destruct (IH max_outs ((b + a) :: rest)) as (outs' & E & L & F & S); try done.
  - cbn in *. lia.
  - constructor; [words; lia|done].
  - rewrite sum_cons. lia.
  - exists outs'. rewrite sum_cons in S. split; [done|]. split; [done|]. split; [done|]. lia.
Qed.

Lemma make_outs_amounts derive : forall l no outs, make_outs derive no l = Some outs -> map amount outs = l.
Proof.
  induction l as [|a l IH]; intros no outs E; [by injection E as <-|]. cbn [make_outs] in E.
  destruct (derive no); [|done]. cbn [mbind option_bind] in E.
  destruct (make_outs derive (S no) l) eqn:El; [|done]. injection E as <-. cbn. f_equal. by eapply IH.
Qed.

Lemma make_outs_total derive : (forall no, is_Some (derive no)) -> forall l no, is_Some (make_outs derive no l).
Proof.
  intros Hd. induction l as [|a l IH]; intros no; [by eexists|]. cbn [make_outs].
  destruct (Hd no) as [k ->], (IH (S no)) as [outs ->]. by eexists.
Qed.

Lemma event_amounts_u64 es : sum (map event_amount es) < 2 ^ 64 -> Forall round_amount (chunks es) ->
  Forall (fun d => 0 < d <= 0) (dusts es) -> Forall is_u64 (map event_amount es).
Proof.
  intros Hs Hc Hd. assert (Hp : Forall (fun a => 0 <= a) (map event_amount es)).
  { unfold chunks, dusts in *. clear Hs. induction es as [|[a|a] es IH]; [constructor|..]; cbn in *.
    - inversion Hc as [|? ? (d & k & ? & ? & ->)]; subst. constructor; [lia|]. by apply IH.
    - inversion Hd; subst. lia. }
  clear Hc Hd. induction Hp as [|a l Ha Hl IH]; [constructor|]. rewrite sum_cons in Hs.
  assert (0 <= sum l) by (clear -Hl; induction Hl; rewrite ?sum_cons; [done|lia]).
  constructor; [unfold word; lia|apply IH; lia].
Qed.

(** The outputs of a miner transaction add up to the reward and the fee. *)
Lemma miner_outs_spec derive reward max_outs :
  is_u64 reward -> (1 <= max_outs)%nat -> (forall no, is_Some (derive no)) ->
  exists events outs vout,
    decompose_amount_into_digits reward 0 = Some events /\
    merge_outs (S (length (map event_amount events))) max_outs (map event_amount events) = Some outs /\
    make_outs derive 0 outs = Some vout /\
    fold_left (fun acc a => acc +w a) outs 0 = reward /\
    Forall is_u64 (map amount vout) /\ sum (map amount vout) = reward.
Proof.
  intros Hr Hm Hd. destruct (decompose_before 21 0 reward 0 1 0) as (es & E & D & Dt & C & S); [words; lia..|].
  rewrite Z.pow_0_r, Z.mul_1_r, Z.add_0_r in S.
  assert (Hu : Forall is_u64 (map event_amount es)) by (apply event_amounts_u64; [words; lia|done|done]).
  destruct (merge_outs_spec (Datatypes.S (length (map event_amount es))) max_outs (map event_amount es))
    as (outs & Em & Lm & Fm & Sm); [done|lia|done|words; lia|].
  destruct (make_outs_total derive Hd outs 0%nat) as [vout Ev].
  exists es, outs, vout. rewrite (make_outs_amounts _ _ _ _ Ev), fold_sum by done.
  split; [done|]. split; [done|]. split; [done|]. rewrite Sm, S. split; [by apply wrap_small|done].
Qed.

Lemma outs_overflow_ok os : Forall is_u64 (map amount os) -> sum (map amount os) < 2 ^ 64 ->
  outs_overflow_loop os 0 = true /\ fold_left (fun acc o => acc +w amount o) os 0 = sum (map amount os).
Proof.
  intros Hu Hs. rewrite outs_overflow_spec, outs_money_spec by done. rewrite !Z.add_0_l.
  split; [by apply Z.ltb_lt|]. apply wrap_small. pose proof (sum_nonneg _ Hu). unfold word. lia.
Qed.

Lemma nonce_fits e nonce : (length nonce <= 255)%nat ->
  exists e', match nonce with [] => Some e | _ => add_extra_nonce_to_tx_extra e nonce end = Some e'.
Proof.
  intros Hn. destruct nonce as [|x nonce]; [by eexists|].
  unfold add_extra_nonce_to_tx_extra, TX_EXTRA_NONCE_MAX_COUNT.
  destruct (Nat.leb_spec (length (x :: nonce)) 255); [by eexists|lia].
Qed.

(** A miner transaction is constructed whenever its parts can be. *)
Lemma construct_miner_tx_eq txkey derive height median_size already size fee tx nonce max_outs e r es outs vout :
  match nonce with
  | [] => Some (add_tx_pub_key_to_extra [] txkey)
  | _ => add_extra_nonce_to_tx_extra (add_tx_pub_key_to_extra [] txkey) nonce
  end = Some e ->
  get_block_reward median_size size already height = Some r ->
  decompose_amount_into_digits (r +w fee) 0 = Some es -> (1 <= max_outs)%nat ->
  merge_outs (S (length (map event_amount es))) max_outs (map event_amount es) = Some outs ->
  make_outs derive 0 outs = Some vout ->
  fold_left (fun acc a => acc +w a) outs 0 = r +w fee ->
  construct_miner_tx txkey derive height median_size already size fee tx nonce max_outs =
    Some (MkTransaction
            (MkPrefix CURRENT_TRANSACTION_VERSION (height +w CRYPTONOTE_MINED_MONEY_UNLOCK_WINDOW)
               [In_gen (MkTxinGen height)] vout e)
            (signatures tx) (rct_signatures tx)).
Proof.
  intros He Hr Hd Hm Ho Hv Hs. unfold construct_miner_tx.
  apply (bind_eq _ _ _ _ He), (bind_eq _ _ _ _ Hr), (bind_eq _ _ _ _ Hd).
  destruct (Nat.ltb_spec max_outs 1) as [|_]; [lia|].
  apply (bind_eq _ _ _ _ Ho), (bind_eq _ _ _ _ Hv). by rewrite Hs, Z.eqb_refl.
Qed.

Lemma construct_miner_tx_total txkey derive height median_size already size fee tx nonce max_outs r :
  get_block_reward median_size size already height = Some r -> (length nonce <= 255)%nat ->
  (1 <= max_outs)%nat -> (forall no, is_Some (derive no)) ->
  exists tx', construct_miner_tx txkey derive height median_size already size fee tx nonce max_outs = Some tx' /\
    vin (prefix tx') = [In_gen (MkTxinGen height)] /\
    unlock_time (prefix tx') = height +w CRYPTONOTE_MINED_MONEY_UNLOCK_WINDOW /\
    Forall is_u64 (map amount (vout (prefix tx'))) /\ sum (map amount (vout (prefix tx'))) = r +w fee.
Proof.
  intros Hr Hn Hm Hd.
  destruct (miner_outs_spec derive (r +w fee) max_outs (wrap_u64 _) Hm Hd)
    as (es & outs & vout & E1 & E2 & E3 & E4 & Fu & Es).
  destruct (nonce_fits (add_tx_pub_key_to_extra [] txkey) nonce Hn) as [e Ee].
  eexists. split; [by eapply construct_miner_tx_eq|]. done.
Qed.

(** A miner transaction for [height] that pays the reward [r] and the fees. *)
Definition pays (height fee r : Z) (tx : transaction) : Prop :=
  vin (prefix tx) = [In_gen (MkTxinGen height)] /\ unlock_time (prefix tx) = height +w CRYPTONOTE_MINED_MONEY_UNLOCK_WINDOW /\
  Forall is_u64 (map amount (vout (prefix tx))) /\ sum (map amount (vout (prefix tx))) = r +w fee.
Lemma pays_accepted height fee r b sizes size already :
  pays height fee r (miner_tx b) -> get_block_reward (median sizes) size already height = Some r -> is_u64 r ->
  prevalidate_miner_transaction b height = true /\ validate_miner_transaction sizes height b size fee already = Some (r, false).
Proof.
  intros (Ev & Eu & Fu & Es) Hr Hu.
  destruct (outs_overflow_ok (vout (prefix (miner_tx b))) Fu) as [Ho Hs]; [rewrite Es; apply wrap_u64|].
  unfold prevalidate_miner_transaction, validate_miner_transaction, check_outs_overflow.
  rewrite Ev, Eu, Ho, Hs, Es, Hr. cbn [gen_height mbind option_bind]. rewrite !Z.eqb_refl. split; [done|].
  rewrite Z.ltb_irrefl, wrap_sub_l, Z.add_simpl_r, wrap_small, Z.ltb_irrefl by done. done.
Qed.
Lemma reward_u64 median_size size already height r : get_block_reward median_size size already height = Some r -> is_u64 r.
Proof. unfold get_block_reward. destruct (Z.max _ _ <? size); [done|]. intros [= <-]. apply wrap_u64. Qed.
Lemma construct_miner_tx_pays txkey derive height median_size already size fee tx nonce max_outs tx' :
  construct_miner_tx txkey derive height median_size already size fee tx nonce max_outs = Some tx' ->
  (length nonce <= 255)%nat -> (1 <= max_outs)%nat -> (forall no, is_Some (derive no)) ->
  exists r, get_block_reward median_size size already height = Some r /\ pays height fee r tx'.
Proof.
  intros E Hn Hm Hd. destruct (get_block_reward median_size size already height) as [r|] eqn:Er.
  - destruct (construct_miner_tx_total txkey derive height median_size already size fee tx nonce max_outs r Er Hn Hm Hd) as (tx2 & E2 & H).
    rewrite E in E2. injection E2 as <-. by exists r.
  - unfold construct_miner_tx in E. rewrite Er in E. by destruct (match nonce with [] => _ | _ => _ end).
Qed.

(** The miner transaction that [construct_miner_tx] makes for a block is
    one the chain accepts in that block: whenever the reward is defined, the
    extra nonce fits, at least one output is allowed and the output keys can be
    derived, the transaction is constructed, passes
    [prevalidate_miner_transaction] at the height and, with the same fee, total
    and median, [validate_miner_transaction], which finds the full reward
    claimed - whatever the amounts and however few outputs they are merged
    into. *)
Theorem miner_tx_accepted txkey derive height sizes already size fee tx nonce max_outs r hd hashes :
  get_block_reward (median sizes) size already height = Some r -> is_u64 r -> (length nonce <= 255)%nat ->
  (1 <= max_outs)%nat -> (forall no, is_Some (derive no)) ->
  exists tx', construct_miner_tx txkey derive height (median sizes) already size fee tx nonce max_outs = Some tx' /\
    let b := MkBlock hd tx' hashes in
    prevalidate_miner_transaction b height = true /\
    validate_miner_transaction sizes height b size fee already = Some (r, false).
Proof.
  intros Hr Hu Hn Hm Hd.
  destruct (construct_miner_tx_total txkey derive height (median sizes) already size fee tx nonce max_outs r Hr Hn Hm Hd)
    as (tx' & E & H).
  exists tx'. split; [done|]. intros b. by apply pays_accepted.
Qed.

(** [C20] What [validate_miner_transaction] accepts: provided the reward plus the
    fees fits 64 bits, a miner transaction is accepted exactly when the block
    is not too big and its outputs claim at least the fees and at most the
    fees plus the reward; the base reward becomes what was claimed beyond the
    fees, and is flagged as partial when less than the full reward. *)
Theorem validate_miner_transaction_correct sizes height b size fee already :
  Forall is_u64 (map amount (vout (prefix (miner_tx b)))) ->
  sum (map amount (vout (prefix (miner_tx b)))) < 2 ^ 64 -> is_u64 fee ->
  (forall r, get_block_reward (median sizes) size already height = Some r -> 0 <= r /\ r + fee < 2 ^ 64) ->
  let claimed := sum (map amount (vout (prefix (miner_tx b)))) in
  forall base partial,
  validate_miner_transaction sizes height b size fee already = Some (base, partial) <->
  exists r, get_block_reward (median sizes) size already height = Some r /\
    fee <= claimed <= r + fee /\ base = claimed - fee /\ partial = negb (claimed =? r + fee).
Proof.
  intros Fu Hs Hf Hr claimed base partial.
  destruct (outs_overflow_ok _ Fu Hs) as [_ Em]. pose proof (sum_nonneg _ Fu) as Hc. fold claimed in Em, Hs, Hc.
  unfold validate_miner_transaction. rewrite Em.
  destruct (get_block_reward (median sizes) size already height) as [r|]; cbn [mbind option_bind];
    [|split; [done|by intros (? & ? & _)]].
  destruct (Hr r eq_refl) as [Hr0 Hrf]. assert (0 <= fee) by (words; lia).
  rewrite (wrap_small 64 (r + fee)) by (unfold word; lia). rewrite (Z.eqb_sym (r + fee)).
  destruct (Z.le_gt_cases fee claimed) as [Hle|Hgt].
  - rewrite (wrap_small 64 (claimed - fee)) by (unfold word; lia).
    destruct (Z.ltb_spec (r + fee) claimed), (Z.ltb_spec r (claimed - fee)); try lia;
      (split; [intros E; simplify_eq; exists r; split_and!; (done || lia)|
               intros (r' & [= <-] & ? & -> & ->); (done || lia)]).
  - rewrite (wrap_sub_neg 64) by (done || (unfold word; lia)).
    destruct (Z.ltb_spec (r + fee) claimed), (Z.ltb_spec r (claimed - fee + 2 ^ 64)); try lia.
    split; [done|]. intros (r' & _ & ? & _). lia.
Qed.

(** ** The supply *)

(** The totals recorded for a chain of blocks: each block's base reward is what
    [validate_miner_transaction] accepted. *)
Inductive generated : list Z -> Z -> Prop :=
  | generated_nil : generated [] 0
  | generated_cons rewards total sizes height b size fee cal base partial :
      generated rewards total ->
      validate_miner_transaction sizes height b size fee cal = Some (base, partial) ->
      generated (base :: rewards) (next_generated_coins total base).

(** [C22] The recorded number of generated coins is the sum of the accepted base
    rewards, capped at the supply: it never exceeds [MONEY_SUPPLY], so that the
    subtraction in [get_block_reward] and in the update itself never wraps. *)
Theorem generated_coins_capped rewards total :
  generated rewards total -> total = Z.min (sum rewards) MONEY_SUPPLY /\ 0 <= total <= MONEY_SUPPLY.
Proof.
  assert (Hbase : forall sizes height b size fee cal base partial,
    validate_miner_transaction sizes height b size fee cal = Some (base, partial) -> is_u64 base).
  { intros * E. unfold validate_miner_transaction in E. destruct (get_block_reward _ _ _ _); [|done].
    cbn [mbind option_bind] in E. repeat case_bool; simplify_eq; apply wrap_u64. }
  unfold MONEY_SUPPLY. induction 1 as [|rewards total sizes height b size fee cal base partial _ [IH Hb] Hv]; [done|].
  apply Hbase in Hv. rewrite sum_cons. unfold next_generated_coins, MONEY_SUPPLY.
  rewrite (wrap_small 64 (_ - total)) by (words; lia).
  destruct (Z.ltb_spec base (1000000000000000000 - total)); [|words; lia].
  rewrite wrap_small by (words; lia). words. lia.
Qed.

(** ** Witnesses *)

Definition empty_tx : transaction := MkTransaction (MkPrefix 1 0 [] [] []) [] rct_null.
Definition sample_miner_block (a : Z) : block :=
  MkBlock (MkHeader 1 1 1546266600 (repeat 3 32) 0)
    (MkTransaction (MkPrefix 2 110 [In_gen (MkTxinGen 100)] [MkTxOut a (To_key (repeat 7 32))] []) [] rct_null) [].

Lemma miner_tx_accepted_witness :
  let sizes := [300000; 400000; 200000] in
  exists tx', construct_miner_tx (repeat 2 32) (fun _ => Some (repeat 7 32)) 100 (median sizes)
      270000000000000000 5000 5750000 empty_tx [1; 2; 3] 2 = Some tx' /\
    let b := MkBlock (MkHeader 1 1 1546266600 (repeat 3 32) 0) tx' [repeat 4 32] in
    prevalidate_miner_transaction b 100 = true /\
    validate_miner_transaction sizes 100 b 5000 5750000 270000000000000000 = Some (90020000000, false).
Proof.
  apply (miner_tx_accepted (repeat 2 32) (fun _ => Some (repeat 7 32)) 100 [300000; 400000; 200000]
    270000000000000000 5000 5750000 empty_tx [1; 2; 3] 2 90020000000 (MkHeader 1 1 1546266600 (repeat 3 32) 0)
    [repeat 4 32]); [vm_compute; reflexivity|words; lia|cbn; lia|lia|by eexists].
Defined.

Lemma validate_miner_transaction_correct_witness :
  validate_miner_transaction [300000] 100 (sample_miner_block 90000000000) 5000 5750000 270000000000000000 =
    Some (89994250000, true).
Proof.
  apply (validate_miner_transaction_correct [300000] 100 (sample_miner_block 90000000000) 5000 5750000
    270000000000000000); [constructor; [cbn; words; lia|constructor]|cbn; lia|words; lia| |].
  - intros r E. vm_compute in E. injection E as <-. words. lia.
  - exists 90020000000. split; [vm_compute; reflexivity|]. cbn. split_and!; (reflexivity || lia).
Defined.

Lemma generated_coins_capped_witness :
  generated [90020000000] (next_generated_coins 0 90020000000) /\
  next_generated_coins 0 90020000000 = Z.min (sum [90020000000]) MONEY_SUPPLY /\
  0 <= next_generated_coins 0 90020000000 <= MONEY_SUPPLY.
Proof.
  assert (H : generated [90020000000] (next_generated_coins 0 90020000000)).
  { eapply (generated_cons [] 0 [300000] 100 (sample_miner_block 90020000000) 5000 0 0 90020000000 false);
      [constructor|vm_compute; reflexivity]. }
  split; [exact H|]. apply (generated_coins_capped [90020000000] (next_generated_coins 0 90020000000)). exact H.
Defined.

End Reward.
