(* ===== verification/Address.v ===== *)
(** * Account addresses

    Model of the address functions of
    [src/cryptonote_core/cryptonote_basic_impl.cpp]: the textual form of
    accounts, subaddresses and integrated addresses of both networks, and the
    parser, which also reads the older hexadecimal form. *)
From S2P Require Import Prelude Varint Keccak Base58 Serialization Basic.
Import Varint Base58 Serialization Basic.

Module Address.

Record account_public_address := MkAddress { m_spend_public_key : public_key; m_view_public_key : public_key }.
Record integrated_address := MkIntegrated { adr : account_public_address; payment_id : list Z }.
Record address_parse_info := MkInfo {
  address : account_public_address;
  is_subaddress : bool;
  has_payment_id : bool;
  info_payment_id : list Z
}.

Definition read_address : reader account_public_address := fun st =>
  '(s, st) ← read_hash st; '(v, st) ← read_hash st; Some (MkAddress s v, st).
Definition write_address : writer account_public_address := fun a =>
  s ← write_blob (m_spend_public_key a); v ← write_blob (m_view_public_key a); Some (s ++ v).
Definition read_integrated : reader integrated_address := fun st =>
  '(a, st) ← read_address st; '(p, st) ← read_string st; Some (MkIntegrated a p, st).
Definition write_integrated : writer integrated_address := fun i =>
  a ← write_address (adr i); p ← write_string (payment_id i); Some (a ++ p).

(** The prefixes of [cryptonote_config.h]. *)
Definition PUBLIC_ADDRESS_BASE58_PREFIX (testnet : bool) : Z := if testnet then 0x8f9d4 else 0x7b54.
Definition PUBLIC_INTEGRATED_ADDRESS_BASE58_PREFIX (testnet : bool) : Z := if testnet then 0x3fb754 else 0x77d4.
Definition PUBLIC_SUBADDRESS_BASE58_PREFIX (testnet : bool) : Z := if testnet then 0x53754 else 0x7754.
Definition CRYPTONOTE_PUBLIC_ADDRESS_TEXTBLOB_VER : Z := 0.

(** [sizeof(public_address_outer_blob)], packed: a version byte, two keys, a
    checksum byte. *)
Definition outer_blob_size : nat := 66.

(** [uint8_t summ += pbuf[i]] over all bytes but the last. *)
Definition get_account_address_checksum (bl : list Z) : Z :=
  fold_left (fun summ x => u8 (summ + x)) (take (length bl - 1) bl) 0.

(** [strtoul(_, _, 16)] of the two characters of a byte, when it consumes both
    and the result is in range: two hexadecimal digits, or one after white
    space or a sign. *)
Definition hex_digit (c : Z) : option Z :=
  if (48 <=? c) && (c <=? 57) then Some (c - 48)
  else if (97 <=? c) && (c <=? 102) then Some (c - 87)
  else if (65 <=? c) && (c <=? 70) then Some (c - 55)
  else None.
Definition strtoul16 (a b : Z) : option Z :=
  match hex_digit a, hex_digit b with
  | Some x, Some y => Some (16 * x + y)
  | None, Some y =>
      if (a =? 32) || (9 <=? a) && (a <=? 13) || (a =? 43) then Some y
      else if (a =? 45) && (y =? 0) then Some 0
      else None
  | _, _ => None
  end.
Fixpoint parse_hex_bytes (s : list Z) : option (list Z) :=
  match s with
  | a :: b :: s => v ← strtoul16 a b; r ← parse_hex_bytes s; Some (v :: r)
  | [] => Some []
  | _ => None
  end.
Definition parse_hexstr_to_binbuff (s : list Z) : option (list Z) :=
  if Z.odd (Z.of_nat (length s)) then None else parse_hex_bytes s.

Section WithHash.
Context {HF : FastHash}.

Definition get_account_address_as_str (testnet subaddress : bool) (a : account_public_address) : option (list Z) :=
  let address_prefix :=
    if subaddress then PUBLIC_SUBADDRESS_BASE58_PREFIX testnet else PUBLIC_ADDRESS_BASE58_PREFIX testnet in
  blob ← dump_binary write_address a;
  encode_addr address_prefix blob.

Definition get_account_integrated_address_as_str (testnet : bool) (a : account_public_address) (payment_id : list Z)
  : option (list Z) :=
  blob ← dump_binary write_integrated (MkIntegrated a payment_id);
  encode_addr (PUBLIC_INTEGRATED_ADDRESS_BASE58_PREFIX testnet) blob.

(** [check_key] of [src/crypto/crypto.cpp] is an argument; [info] is the
    structure passed by reference. *)
Definition get_account_address_from_str (check_key : public_key -> bool) (testnet : bool)
    (info : address_parse_info) (str : list Z) : option address_parse_info :=
  if negb (2 * outer_blob_size =? length str)%nat then
    '(prefix, data) ← decode_addr str;
    '(is_subaddress, has_payment_id) ←
      (if PUBLIC_INTEGRATED_ADDRESS_BASE58_PREFIX testnet =? prefix then Some (false, true)
       else if PUBLIC_ADDRESS_BASE58_PREFIX testnet =? prefix then Some (false, false)
       else if PUBLIC_SUBADDRESS_BASE58_PREFIX testnet =? prefix then Some (true, false)
       else None);
    info ← (if (has_payment_id : bool) then
              iadr ← parse_binary read_integrated data;
              Some (MkInfo (adr iadr) is_subaddress has_payment_id (payment_id iadr))
            else
              a ← parse_binary read_address data;
              Some (MkInfo a is_subaddress has_payment_id (info_payment_id info)));
    if negb (check_key (m_spend_public_key (address info))) || negb (check_key (m_view_public_key (address info)))
    then None else Some info
  else
    buff ← parse_hexstr_to_binbuff str;
    if negb (length buff =? outer_blob_size)%nat then None
    else if CRYPTONOTE_PUBLIC_ADDRESS_TEXTBLOB_VER <? List.nth 0 buff 0 then None
    else if negb (List.nth (outer_blob_size - 1) buff 0 =? get_account_address_checksum buff) then None
    else
      Some (MkInfo (MkAddress (take 32 (drop 1 buff)) (take 32 (drop 33 buff))) false false (info_payment_id info)).

End WithHash.

(** * Properties *)

Definition wf_address (a : account_public_address) : Prop :=
  is_hash (m_spend_public_key a) /\ is_hash (m_view_public_key a).

Lemma rt_address a : wf_address a -> rt write_address read_address a.
Proof.
  intros [H1%rt_hash H2%rt_hash]. rt_open H1. rt_open H2. eexists. unfold write_address, read_address.
  rt_run. split; [done|]. split; [rt_bytes|]. split; [rt_nonempty|]. intros st. rt_read. by destruct a.
Qed.

Lemma rt_integrated i : wf_address (adr i) -> bytes (payment_id i) -> is_size (length (payment_id i)) ->
  rt write_integrated read_integrated i.
Proof.
  intros H1%rt_address Hb Hs. assert (H2 := rt_string _ Hb Hs). rt_open H1. rt_open H2. eexists.
  unfold write_integrated, read_integrated.
  rt_run. split; [done|]. split; [rt_bytes|]. split; [rt_nonempty|]. intros st. rt_read. by destruct i.
Qed.

Lemma rt_parse {A} (put : writer A) get a bs : put a = Some bs ->
  (forall st, get (bs ++ st) = Some (a, st)) -> parse_binary get bs = Some a.
Proof. intros _ R. unfold parse_binary. specialize (R []). rewrite app_nil_r in R. by rewrite R. Qed.

Lemma address_blob a : wf_address a ->
  exists bs, write_address a = Some bs /\ bytes bs /\ length bs = 64%nat /\ parse_binary read_address bs = Some a.
Proof.
  intros H. destruct (rt_address a H) as (bs & E & B & _ & R). exists bs. split; [done|]. split; [done|].
  split; [|by eapply rt_parse]. unfold write_address, write_blob in E. cbn [mbind option_bind] in E.
  injection E as <-. destruct H as [[L1 _] [L2 _]]. rewrite length_app. lia.
Qed.

Lemma integrated_blob a pid : wf_address a -> bytes pid -> (length pid < 128)%nat ->
  exists bs, write_integrated (MkIntegrated a pid) = Some bs /\ bytes bs /\
    length bs = (65 + length pid)%nat /\ parse_binary read_integrated bs = Some (MkIntegrated a pid).
Proof.
  intros H Hb Hl. destruct (rt_integrated (MkIntegrated a pid) H Hb) as (bs & E & B & _ & R); [cbn; lia|].
  exists bs. split; [done|]. split; [done|]. split; [|by eapply rt_parse].
  destruct (address_blob a H) as (ab & Ea & _ & La & _).
  unfold write_integrated, write_string, write_uvarint, write_blob in E. cbn [adr payment_id] in E.
  rewrite Ea in E. cbn [mbind option_bind] in E. injection E as <-.
  rewrite write_varint_eq by lia. destruct (Z.leb_spec 128 (Z.of_nat (length pid))); [lia|].
  rewrite !length_app. cbn. lia.
Qed.

(** The length at which a string is taken for the hexadecimal form is that of
    96 encoded bytes. *)
Lemma length_132 n : (n / 8 * 11 + encoded_size (n mod 8) = 132)%nat -> n = 96%nat.
Proof.
  intros H. pose proof (Nat.div_mod_eq n 8) as D. pose proof (Nat.mod_upper_bound n 8 ltac:(lia)) as M.
  revert H D M. generalize (n / 8)%nat (n mod 8)%nat. intros q r H D M.
  destruct r as [|[|[|[|[|[|[|[|r]]]]]]]]; cbn in H; lia.
Qed.

Lemma integrated_length testnet (bs str : list Z) n :
  let m := (length (get_varint_data (PUBLIC_INTEGRATED_ADDRESS_BASE58_PREFIX testnet)) + length bs + 4)%nat in
  length str = (m / 8 * 11 + encoded_size (m mod 8))%nat ->
  length bs = (65 + n)%nat -> (n <= 22 \/ 25 <= n)%nat -> length str <> 132%nat.
Proof.
  intros m E L Hn H. rewrite H in E. symmetry in E. apply length_132 in E. subst m.
  assert (length (get_varint_data (PUBLIC_INTEGRATED_ADDRESS_BASE58_PREFIX testnet)) = if testnet then 4 else 3)%nat
    by (destruct testnet; vm_compute; reflexivity).
  destruct testnet; lia.
Qed.

Section Theorems.
Context {HF : FastHash}.
Context (check_key : public_key -> bool).

Abbreviation from_str := (get_account_address_from_str check_key).

Definition keys_ok (a : account_public_address) : Prop :=
  check_key (m_spend_public_key a) = true /\ check_key (m_view_public_key a) = true.

(** [C32] Addresses round trip and are bound to their network: the string of an
    account or subaddress whose keys are valid is read back as that address,
    with the right kind, by a node of the same network, and is rejected by a
    node of the other network. *)
Theorem address_round_trip testnet subaddress a info :
  wf_address a -> keys_ok a ->
  exists str, get_account_address_as_str testnet subaddress a = Some str /\
    from_str testnet info str = Some (MkInfo a subaddress false (info_payment_id info)) /\
    from_str (negb testnet) info str = None.
Proof.
  intros Ha [K1 K2]. destruct (address_blob a Ha) as (bs & E & B & L & P).
  unfold get_account_address_as_str, dump_binary. rewrite E. cbn [mbind option_bind].
  set (tag := if subaddress then _ else _).
  destruct (encode_addr_spec tag bs) as (str & Es & Ds & Ls);
    [subst tag; destruct subaddress, testnet; words; unfold PUBLIC_ADDRESS_BASE58_PREFIX, PUBLIC_SUBADDRESS_BASE58_PREFIX; lia|done|].
  exists str. split; [done|]. unfold get_account_address_from_str.
  assert (Hl : length str = 98%nat).
  { rewrite Ls, L. subst tag. destruct subaddress, testnet; vm_compute; reflexivity. }
  rewrite Hl, Ds. cbn [mbind option_bind outer_blob_size Nat.mul Nat.add Nat.eqb negb].
  subst tag. destruct subaddress, testnet; cbn [negb PUBLIC_ADDRESS_BASE58_PREFIX
    PUBLIC_SUBADDRESS_BASE58_PREFIX PUBLIC_INTEGRATED_ADDRESS_BASE58_PREFIX Z.eqb Pos.eqb mbind option_bind];
    rewrite P; cbn [mbind option_bind address]; rewrite K1, K2; done.
Qed.

(** The same for integrated addresses, whose payment id comes back
    unchanged. *)
Theorem integrated_address_round_trip testnet a pid info :
  wf_address a -> keys_ok a -> bytes pid -> (length pid <= 22 \/ 25 <= length pid < 128)%nat ->
  exists str, get_account_integrated_address_as_str testnet a pid = Some str /\
    from_str testnet info str = Some (MkInfo a false true pid) /\
    from_str (negb testnet) info str = None.
Proof.
  intros Ha [K1 K2] Hb Hp. destruct (integrated_blob a pid Ha Hb) as (bs & E & B & L & P); [lia|].
  unfold get_account_integrated_address_as_str, dump_binary. rewrite E. cbn [mbind option_bind].
  destruct (encode_addr_spec (PUBLIC_INTEGRATED_ADDRESS_BASE58_PREFIX testnet) bs) as (str & Es & Ds & Ls);
    [destruct testnet; words; unfold PUBLIC_INTEGRATED_ADDRESS_BASE58_PREFIX; lia|done|].
  exists str. split; [done|]. unfold get_account_address_from_str.
  assert (Hl : length str <> 132%nat) by (eapply (integrated_length testnet bs str (length pid)); [exact Ls|done|lia]).
  destruct (Nat.eqb_spec (2 * outer_blob_size) (length str)) as [H|_]; [by rewrite <- H in Hl|].
  rewrite Ds. cbn [negb mbind option_bind].
  destruct testnet; cbn [negb PUBLIC_ADDRESS_BASE58_PREFIX
    PUBLIC_SUBADDRESS_BASE58_PREFIX PUBLIC_INTEGRATED_ADDRESS_BASE58_PREFIX Z.eqb Pos.eqb mbind option_bind];
    rewrite P; cbn [mbind option_bind address adr payment_id]; rewrite K1, K2; done.
Qed.

End Theorems.

Lemma address_round_trip_witness :
  let a := MkAddress (repeat 1 32) (repeat 2 32) in
  let info := MkInfo a false false [] in
  exists str, get_account_address_as_str false true a = Some str /\
    get_account_address_from_str (fun _ => true) false info str = Some (MkInfo a true false []) /\
    get_account_address_from_str (fun _ => true) true info str = None.
Proof.
  intros a info. apply (address_round_trip (fun _ => true) false true a info); [|done].
  split; by apply blob_repeat.
Defined.

Lemma integrated_address_round_trip_witness :
  let a := MkAddress (repeat 1 32) (repeat 2 32) in
  let info := MkInfo a false false [] in
  exists str, get_account_integrated_address_as_str true a (repeat 9 8) = Some str /\
    get_account_address_from_str (fun _ => true) true info str = Some (MkInfo a false true (repeat 9 8)) /\
    get_account_address_from_str (fun _ => true) false info str = None.
Proof.
  intros a info. apply (integrated_address_round_trip (fun _ => true) true a (repeat 9 8) info);
    [split; by apply blob_repeat|done|by apply bytes_repeat|cbn; lia].
Defined.

(** The hexadecimal form: a version byte, the keys, and the sum of those bytes. *)
Example old_address :
  let hex := concat (repeat [48; 48] 1 ++ repeat [48; 49] 32 ++ repeat [48; 50] 32 ++ [[54; 48]]) in
  get_account_address_from_str (fun _ => false) false (MkInfo (MkAddress [] []) true true []) hex =
    Some (MkInfo (MkAddress (repeat 1 32) (repeat 2 32)) false false []).
Proof. vm_compute. reflexivity. Qed.

End Address.
