(* ===== verification/Checkpoints.v ===== *)
(** * Checkpoints

    Model of [src/cryptonote_core/checkpoints.cpp].  [m_points], a
    [std::map<uint64_t, hash>], is the list of its entries in ascending order
    of the heights. *)
From Stdlib Require Import String.
From stdpp Require Import sorting.
From S2P Require Import Prelude Base58 Basic Address.
Import Basic Address.

Module Checkpoints.

Abbreviation points := (list (Z * hash)).

(** ** The operations of [std::map] *)

Fixpoint find (height : Z) (m : points) : option hash :=
  match m with
  | [] => None
  | (k, h) :: m => if k =? height then Some h else find height m
  end.
(** [m_points[height] = h] *)
Fixpoint assign (height : Z) (h : hash) (m : points) : points :=
  match m with
  | [] => [(height, h)]
  | (k, x) :: m' =>
      if k =? height then (k, h) :: m'
      else if height <? k then (height, h) :: m
      else (k, x) :: assign height h m'
  end.
(** The entries before [upper_bound(height)]. *)
Fixpoint up_to (height : Z) (m : points) : points :=
  match m with
  | [] => []
  | (k, x) :: m => if height <? k then [] else (k, x) :: up_to height m
  end.

(** ** The checkpoints *)

Definition parse_tpod_hash (hash_str : list Z) : option hash :=
  buf ← parse_hexstr_to_binbuff hash_str;
  if negb (length buf =? 32)%nat then None else Some buf.

(** [None] when the function returns [false], which leaves the map as it was. *)
Definition add_checkpoint (height : Z) (hash_str : list Z) (m : points) : option points :=
  h ← parse_tpod_hash hash_str;
  match find height m with
  | Some h' => if bool_decide (h = h') then Some (assign height h m) else None
  | None => Some (assign height h m)
  end.

Definition is_in_checkpoint_zone (m : points) (height : Z) : bool :=
  match last m with
  | None => false
  | Some (k, _) => height <=? k
  end.

(** The result and [is_a_checkpoint]. *)
Definition check_block (m : points) (height : Z) (h : hash) : bool * bool :=
  match find height m with
  | None => (true, false)
  | Some h' => (bool_decide (h' = h), true)
  end.

Definition is_alternative_block_allowed (m : points) (blockchain_height block_height : Z) : bool :=
  if block_height =? 0 then false
  else
    match last (up_to blockchain_height m) with
    | None => true
    | Some (checkpoint_height, _) => checkpoint_height <? block_height
    end.

(** [max_element] over the keys, dereferenced: no map is empty here. *)
Definition get_max_height (m : points) : option Z :=
  match m with
  | [] => None
  | (k, _) :: m => Some (fold_left (fun b '(k, _) => if b <? k then k else b) m k)
  end.

Definition check_for_conflicts (m other : points) : bool :=
  forallb (fun '(k, h) => match find k m with Some h' => bool_decide (h = h') | None => true end) other.

(** The lines of a hash file: [ADD_CHECKPOINT] returns [false] on an error. *)
Fixpoint add_hashlines (prev_max_height : Z) (lines : list (Z * list Z)) (m : points) : bool * points :=
  match lines with
  | [] => (true, m)
  | (height, blockhash) :: lines =>
      if height <=? prev_max_height then add_hashlines prev_max_height lines m
      else
        match add_checkpoint height blockhash m with
        | None => (false, m)
        | Some m => add_hashlines prev_max_height lines m
        end
  end.
(** The file is an argument: [None] when it does not exist. *)
Definition load_checkpoints_from_json (file : option (list (Z * list Z))) (m : points) : option (bool * points) :=
  match file with
  | None => Some (true, m)
  | Some hashlines => prev_max_height ← get_max_height m; Some (add_hashlines prev_max_height hashlines m)
  end.

(** [init_default_checkpoints] *)
Definition default_checkpoints : list (Z * list Z) := [
  (1, Base58.codes "9f63b6539a01271baf90813fc999a1fd40fcf54d8f30377a2d437cfc98605308"%string);
  (100, Base58.codes "b917d748282760f0139c9e411a835f2a77db5de739febbb146fcd9a2110c9be3"%string);
  (10000, Base58.codes "58dbfcc53ecbcbfb7934d2b4fdbcdf0e6a8360887d64ec9e5c3665883886ebdf"%string);
  (100000, Base58.codes "da154a4294099f17b63d314ecfc892853dc29644e0e5ec740f920283854142a2"%string);
  (271441, Base58.codes "f12bda0bf1ac8f666292315c135b7f8908f754d907b95e5dac57464ee2b6ad91"%string)
].
Fixpoint init_checkpoints (l : list (Z * list Z)) (m : points) : bool * points :=
  match l with
  | [] => (true, m)
  | (height, h) :: l =>
      match add_checkpoint height h m with
      | None => (false, m)
      | Some m => init_checkpoints l m
      end
  end.
Definition init_default_checkpoints : points -> bool * points := init_checkpoints default_checkpoints.

(** * Properties *)

(** ** The map *)

Definition sorted (m : points) : Prop := StronglySorted (fun a b : Z * hash => a.1 < b.1) m.

Lemma sorted_head k x m : sorted ((k, x) :: m) -> sorted m /\ forall k' x', (k', x') ∈ m -> k < k'.
Proof.
  intros H. apply StronglySorted_inv in H as [H F]. split; [done|]. intros k' x' Hin.
  rewrite Forall_forall in F. by apply (F (k', x')).
Qed.

Lemma find_elem m : sorted m -> forall k x, find k m = Some x <-> (k, x) ∈ m.
Proof.
  induction m as [|[k0 x0] m IH]; intros Hs k x; cbn [find].
  { split; [done|]. by intros ?%elem_of_nil. }
  apply sorted_head in Hs as [Hs Hlt]. rewrite elem_of_cons. destruct (Z.eqb_spec k0 k) as [->|Hne].
  - split; [intros [= <-]; by left|]. intros [[= <-]|Hin]; [done|]. apply Hlt in Hin. lia.
  - rewrite IH by done. split; [by right|]. by intros [[= <-]|].
Qed.

Lemma find_assign m k h : sorted m -> forall k', find k' (assign k h m) = if k =? k' then Some h else find k' m.
Proof.
  induction m as [|[k0 x0] m IH]; intros Hs k'; cbn [assign find]; [done|].
  apply sorted_head in Hs as [Hs Hlt]. destruct (Z.eqb_spec k0 k) as [->|Hne].
  { cbn [find]. by destruct (Z.eqb_spec k k'). }
  destruct (Z.ltb_spec k k0); cbn [find]; [done|]. rewrite IH by done.
  destruct (Z.eqb_spec k0 k'), (Z.eqb_spec k k'); try done; lia.
Qed.

Lemma assign_elem m k h a : a ∈ assign k h m -> a = (k, h) \/ a ∈ m.
Proof.
  induction m as [|[k0 x0] m IH]; cbn [assign]; [rewrite list_elem_of_singleton; by left|].
  destruct (Z.eqb_spec k0 k) as [->|Hne]; [|destruct (k <? k0)]; rewrite !elem_of_cons; naive_solver.
Qed.

Lemma assign_sorted m k h : sorted m -> sorted (assign k h m).
Proof.
  induction m as [|[k0 x0] m IH]; intros Hs; cbn [assign]; [by repeat constructor|].
  pose proof Hs as Hs0. apply StronglySorted_inv in Hs as [Hs F]. cbn in F.
  destruct (Z.eqb_spec k0 k) as [->|Hne]; [by constructor|].
  destruct (Z.ltb_spec k k0).
  - constructor; [done|]. constructor; [done|]. apply (Forall_impl _ _ _ F). cbn. intros. lia.
  - constructor; [by apply IH|]. apply Forall_forall. intros a [->|Ha]%assign_elem; [cbn; lia|].
    rewrite Forall_forall in F. by apply F.
Qed.

Lemma up_to_elem m b k x : sorted m -> (k, x) ∈ up_to b m <-> (k, x) ∈ m /\ k <= b.
Proof.
  induction m as [|[k0 x0] m IH]; intros Hs; cbn [up_to].
  { split; [by intros ?%elem_of_nil|by intros [?%elem_of_nil _]]. }
  apply sorted_head in Hs as [Hs Hlt]. destruct (Z.ltb_spec b k0) as [Hb|Hb].
  - split; [by intros ?%elem_of_nil|]. rewrite elem_of_cons. intros [[[= -> ->]|Hin] Hk]; [lia|].
    apply Hlt in Hin. lia.
  - rewrite !elem_of_cons, IH by done. split; [|by intros [[?|?] ?]; auto].
    intros [[= -> ->]|[? ?]]; auto.
Qed.

Lemma up_to_sorted m b : sorted m -> sorted (up_to b m).
Proof.
  induction m as [|[k0 x0] m IH]; intros Hs; cbn [up_to]; [done|].
  pose proof (sorted_head _ _ _ Hs) as [Hs' Hlt]. destruct (b <? k0); [constructor|].
  constructor; [by apply IH|]. apply Forall_forall. intros [k x] Hin. apply up_to_elem in Hin as [Hin _]; [|done].
  cbn. by eapply Hlt.
Qed.

(** The last entry is the highest one. *)
Lemma sorted_last m k x : sorted m -> last m = Some (k, x) ->
  (k, x) ∈ m /\ forall k' x', (k', x') ∈ m -> k' <= k.
Proof.
  induction m as [|[k0 x0] m IH]; intros Hs E; [done|]. apply sorted_head in Hs as [Hs Hlt].
  destruct m as [|a m].
  - injection E as -> ->. split; [by left|]. intros k' x' [= -> ->]%list_elem_of_singleton. lia.
  - destruct (IH Hs E) as [Hin Hmax]. split; [by right|].
    intros k' x' [[= -> ->]|Hk]%elem_of_cons; [|by eapply Hmax]. apply Hlt in Hin. lia.
Qed.

(** No block at or below a checkpoint that the chain has passed can be
    replaced: [is_alternative_block_allowed] holds exactly for heights other
    than zero that lie above every checkpoint up to the height of the chain. *)
Theorem is_alternative_block_allowed_correct m blockchain_height block_height :
  sorted m ->
  is_alternative_block_allowed m blockchain_height block_height = true <->
  block_height <> 0 /\ forall k x, (k, x) ∈ m -> k <= blockchain_height -> k < block_height.
Proof.
  intros Hs. unfold is_alternative_block_allowed.
  destruct (Z.eqb_spec block_height 0) as [->|Hne]; [split; [done|by intros [? _]]|].
  assert (Hu := up_to_elem m blockchain_height). pose proof (up_to_sorted m blockchain_height Hs) as Hs'.
  destruct (last (up_to blockchain_height m)) as [[c y]|] eqn:E.
  - destruct (sorted_last _ _ _ Hs' E) as [Hin Hmax]. rewrite Z.ltb_lt. split.
    + intros Hc. split; [done|]. intros k x Hk Hkb.
      assert (k <= c) by (eapply Hmax, Hu; eauto). lia.
    + intros [_ H]. apply (Hu c y Hs) in Hin as [Hin Hcb]. by eapply H.
  - apply last_None in E. split; [|done]. intros _. split; [done|]. intros k x Hk Hkb.
    assert (Hc : (k, x) ∈ up_to blockchain_height m) by (by apply Hu). rewrite E in Hc. by apply elem_of_nil in Hc.
Qed.

(** Checkpoints are never changed once set: adding one that parses either
    leaves the map ordered with that one entry set and all others as they were,
    or, when the height has a checkpoint with another hash, is refused; and
    [check_block] accepts exactly the blocks that agree with the map. *)
Theorem add_checkpoint_correct m height hash_str h :
  sorted m -> parse_tpod_hash hash_str = Some h ->
  (forall m', add_checkpoint height hash_str m = Some m' ->
     sorted m' /\ (forall k, find k m' = if height =? k then Some h else find k m) /\
     forall k x, find k m = Some x -> find k m' = Some x) /\
  (add_checkpoint height hash_str m = None <-> exists x, find height m = Some x /\ x <> h) /\
  (forall k b, (check_block m k b).1 = true <-> forall x, find k m = Some x -> x = b).
Proof.
  intros Hs Hh. unfold add_checkpoint. rewrite Hh. cbn [mbind option_bind]. split_and!.
  - intros m' E.
    assert (Hm : m' = assign height h m /\ forall x, find height m = Some x -> x = h)
      by (destruct (find height m); [case_bool_decide|]; naive_solver).
    destruct Hm as [-> Hx]. split; [by apply assign_sorted|]. split; [by apply find_assign|].
    intros k x Hk. rewrite find_assign by done. destruct (Z.eqb_spec height k) as [->|]; [|done].
    apply Hx in Hk. by subst.
  - destruct (find height m) as [y|]; [case_bool_decide|]; naive_solver.
  - intros k b. unfold check_block. destruct (find k m) as [y|]; [|naive_solver].
    cbn [fst]. rewrite bool_decide_eq_true. naive_solver.
Qed.

Definition default_points : points := (init_default_checkpoints []).2.

Lemma is_alternative_block_allowed_correct_witness :
  is_alternative_block_allowed default_points 150000 100000 = false /\
  is_alternative_block_allowed default_points 150000 100001 = true.
Proof.
  assert (Hs : sorted default_points).
  { vm_compute. repeat constructor. }
  split.
  - apply not_true_iff_false. intros H.
    apply (is_alternative_block_allowed_correct default_points 150000 100000 Hs) in H as [_ H].
    specialize (H 100000 (default [] (find 100000 default_points))).
    assert (100000 < 100000); [|lia]. apply H; [|lia]. apply find_elem; [exact Hs|]. vm_compute. reflexivity.
  - vm_compute. reflexivity.
Defined.

Lemma add_checkpoint_correct_witness :
  add_checkpoint 100 (Base58.codes "9f63b6539a01271baf90813fc999a1fd40fcf54d8f30377a2d437cfc98605308"%string)
    default_points = None.
Proof.
  eapply (add_checkpoint_correct default_points 100);
    [vm_compute; repeat constructor|vm_compute; reflexivity|].
  exists (default [] (find 100 default_points)). vm_compute. split; [reflexivity|discriminate].
Defined.

End Checkpoints.
