(* ===== verification/TxPool.v ===== *)
(** * Transaction pool

    Model of [src/cryptonote_core/tx_pool.cpp] and [tx_pool.h].

    The pool is a record of its containers: the transactions by id, the key
    images and the aliases they claim, each with the set of the ids that claim
    it, the ids ordered by fee and time, and the ids that timed out.  The
    functions take the pool and return it changed, together with their result;
    an early [return false] returns the pool as it is at that point.  What the
    pool asks of the chain is the record [Blockchain]; the results of [time]
    are arguments. *)
From Stdlib Require Import SpecFloat.
From stdpp Require Import gmap sorting.
From S2P Require Import Prelude Keccak Basic TxExtra FormatUtils Reward.
Import Basic TxExtra FormatUtils Reward.

#[local] Set Warnings "-clear-no-such-hyp".

Module TxPool.

(** ** Verification results *)

Inductive tvc_flag :=
  | Should_be_relayed | Verifivation_failed | Verifivation_impossible | Added_to_pool
  | Low_mixin | High_mixin | Double_spend | Alias_already_exists | Invalid_input | Invalid_output
  | Too_big | Overspend | Fee_too_low | Not_rct | Invalid_tx_version.
#[export] Instance tvc_flag_eq_dec : EqDecision tvc_flag.
Proof. solve_decision. Defined.
Definition tx_verification_context : Type := tvc_flag -> bool.
Definition set_flag (f : tvc_flag) (b : bool) (tvc : tx_verification_context) : tx_verification_context :=
  fun g => if decide (g = f) then b else tvc g.
Definition fail (fs : list tvc_flag) (tvc : tx_verification_context) : tx_verification_context :=
  foldr (fun f => set_flag f true) tvc (Verifivation_failed :: fs).

(** ** What the pool uses of the chain *)

Record Blockchain := MkBlockchain {
  check_fee : Z -> Z -> bool;
  check_tx_outputs : transaction -> tx_verification_context -> bool * tx_verification_context;
  (** the result, [max_used_block_height] and [max_used_block_id] *)
  check_tx_inputs : transaction -> Z -> hash -> bool -> tx_verification_context ->
    bool * Z * hash * tx_verification_context;
  chain_have_tx : hash -> bool;
  chain_have_tx_keyimges_as_spent : transaction -> bool;
  get_alias_address : list Z -> list Z;
  get_current_blockchain_height : Z;
  get_block_id_by_height : Z -> hash
}.

(** ** The pool *)

Record tx_details := MkDetails {
  td_tx : transaction;
  blob_size : Z;
  fee : Z;
  max_used_block_id : hash;
  max_used_block_height : Z;
  kept_by_block : bool;
  last_failed_height : Z;
  last_failed_id : hash;
  receive_time : Z;
  last_relayed_time : Z;
  relayed : bool
}.

(** Fee per size, time and id. *)
Record entry := MkEntry { e_ratio : Z; e_time : Z; e_id : hash }.
#[export] Instance entry_eq_dec : EqDecision entry.
Proof. solve_decision. Defined.

Record tx_memory_pool := MkPool {
  m_transactions : gmap hash tx_details;
  m_spent_key_images : gmap key_image (gset hash);
  m_pending_aliases : gmap (list Z) (gset hash);
  m_txs_by_fee_and_receive_time : list entry;
  m_timed_out_transactions : gset hash
}.
Definition set_transactions t p :=
  MkPool t (m_spent_key_images p) (m_pending_aliases p) (m_txs_by_fee_and_receive_time p) (m_timed_out_transactions p).
Definition set_key_images k p :=
  MkPool (m_transactions p) k (m_pending_aliases p) (m_txs_by_fee_and_receive_time p) (m_timed_out_transactions p).
Definition set_aliases a p :=
  MkPool (m_transactions p) (m_spent_key_images p) a (m_txs_by_fee_and_receive_time p) (m_timed_out_transactions p).
Definition set_sorted l p :=
  MkPool (m_transactions p) (m_spent_key_images p) (m_pending_aliases p) l (m_timed_out_transactions p).
Definition set_timed_out s p :=
  MkPool (m_transactions p) (m_spent_key_images p) (m_pending_aliases p) (m_txs_by_fee_and_receive_time p) s.

(** [txCompare]; it puts either of two different ids with the same ratio and
    time before the other. *)
Definition txCompare (a b : entry) : bool :=
  if e_ratio b <? e_ratio a then true
  else if e_ratio a <? e_ratio b then false
  else if e_time a <? e_time b then true
  else if e_time b <? e_time a then false
  else negb (bool_decide (e_id a = e_id b)).

(** [std::set::emplace]: descending the tree, the new element goes to the left
    of every node it compares before, so that it ends up behind the elements it
    does not compare before.  An element equal to its left neighbour is not
    inserted. *)
Fixpoint emplace (x : entry) (l : list entry) : list entry :=
  match l with
  | [] => [x]
  | y :: l' => if txCompare x y then x :: l else if bool_decide (x = y) then l else y :: emplace x l'
  end.

(** [find_tx_in_sorted_container] followed by [erase]. *)
Fixpoint erase_sorted (id : hash) (l : list entry) : list entry :=
  match l with
  | [] => []
  | y :: l => if bool_decide (e_id y = id) then l else y :: erase_sorted id l
  end.
Definition in_sorted (id : hash) (l : list entry) : bool := existsb (fun y => bool_decide (e_id y = id)) l.

(** ** Constants and small functions *)

Definition MIN_RELAY_TIME : Z := 60 * 5.
Definition MAX_RELAY_TIME : Z := 60 * 60 * 4.
Definition TRANSACTION_SIZE_LIMIT : Z := 524288.
Definition DEFAULT_MIXIN : Z := 6.
Definition MAX_MIXIN : Z := 240.
Definition CRYPTONOTE_MEMPOOL_TX_LIVETIME : Z := 86400.
Definition CRYPTONOTE_MEMPOOL_TX_FROM_ALT_BLOCK_LIVETIME : Z := 604800.
Definition CRYPTONOTE_COINBASE_BLOB_RESERVED_SIZE : Z := 600.

(** [time_t] arithmetic; the quotient is that of C. *)
Definition get_relay_delay (now received : Z) : Z :=
  let d := Z.quot (now - received + MIN_RELAY_TIME) MIN_RELAY_TIME * MIN_RELAY_TIME in
  if MAX_RELAY_TIME <? d then MAX_RELAY_TIME else d.

(** [amount * 1.0f]: the amount is converted to single precision. *)
Definition template_accept_threshold (amount : Z) : Z :=
  to_u64 (SFmul 24 128 (binary_normalize 24 128 amount 0 false) (binary_normalize 24 128 1 0 false)).

(** [(uint32_t)(fee / (double)blob_size)] *)
Definition fee_per_size_ratio (fee blob_size : Z) : Z := u32 (to_u64 (ddiv (of_u64 fee) (of_u64 blob_size))).

Definition tx_hash `{FastHash} (tx : transaction) : hash := default null_hash (get_transaction_hash tx).

(** The tags of the nonces say that the transaction registers an alias. *)
Definition registers_alias (tx_extra : list Z) : bool :=
  let '(r, fields) := parse_tx_extra tx_extra in
  r && nonce_tagged fields 2 TX_EXTRA_NONCE_SIGNATURE && nonce_tagged fields 1 TX_EXTRA_NONCE_ADDRESS
    && nonce_tagged fields 0 TX_EXTRA_NONCE_ALIAS.

(** ** Lookups *)

Definition have_tx (p : tx_memory_pool) (id : hash) : bool := bool_decide (is_Some (m_transactions p !! id)).
Definition have_tx_keyimg_as_spent (p : tx_memory_pool) (k : key_image) : bool :=
  bool_decide (is_Some (m_spent_key_images p !! k)).
Definition has_alias (p : tx_memory_pool) (alias : list Z) : bool :=
  bool_decide (is_Some (m_pending_aliases p !! alias)).
Fixpoint have_keyimges_loop (p : tx_memory_pool) (l : list txin_v) : bool :=
  match l with
  | [] => false
  | i :: l =>
      match to_key i with
      | None => true
      | Some x => if have_tx_keyimg_as_spent p (k_image x) then true else have_keyimges_loop p l
      end
  end.
Definition have_tx_keyimges_as_spent (p : tx_memory_pool) (tx : transaction) : bool :=
  have_keyimges_loop p (vin (prefix tx)).
Definition get_transaction (p : tx_memory_pool) (id : hash) : option transaction :=
  td_tx <$> m_transactions p !! id.

(** ** Adding *)

(** The mixin loop: the first input out of range decides. *)
Fixpoint mixin_loop (l : list txin_v) : option (bool * bool) :=
  match l with
  | [] => Some (false, false)
  | i :: l =>
      x ← to_key i;
      let mixin := Z.of_nat (length (key_offsets x)) -w 1 in
      if mixin <? DEFAULT_MIXIN then Some (true, false)
      else if MAX_MIXIN <? mixin then Some (false, true)
      else mixin_loop l
  end.

(** The loop that claims the key images; [false] is an early return. *)
Fixpoint claim_key_images (id : hash) (kept : bool) (l : list txin_v) (m : gmap key_image (gset hash))
  : bool * gmap key_image (gset hash) :=
  match l with
  | [] => (true, m)
  | i :: l =>
      match to_key i with
      | None => (false, m)
      | Some x =>
          let s := default ∅ (m !! k_image x) in
          let m := <[k_image x := s]> m in
          if negb (kept || bool_decide (s = ∅)) then (false, m)
          else if bool_decide (id ∈ s) then (false, m)
          else claim_key_images id kept l (<[k_image x := {[id]} ∪ s]> m)
      end
  end.

Definition claim_alias (id : hash) (kept : bool) (alias : list Z) (m : gmap (list Z) (gset hash))
  : bool * gmap (list Z) (gset hash) :=
  match alias with
  | [] => (true, m)
  | _ =>
      let s := default ∅ (m !! alias) in
      let m := <[alias := s]> m in
      if negb (kept || bool_decide (s = ∅)) then (false, m)
      else if bool_decide (id ∈ s) then (false, m)
      else (true, <[alias := {[id]} ∪ s]> m)
  end.

(** The end of [add_tx], after the transaction has been inserted. *)
Definition index_tx (tx : transaction) (id : hash) (bsize fee : Z) (kept : bool) (now : Z) (alias : list Z)
    (tvc : tx_verification_context) (p : tx_memory_pool) : bool * tx_memory_pool * tx_verification_context :=
  let tvc := set_flag Verifivation_failed true tvc in
  let '(ok, ks) := claim_key_images id kept (vin (prefix tx)) (m_spent_key_images p) in
  let p := set_key_images ks p in
  if negb ok then (false, p, tvc)
  else
    let '(ok, als) := claim_alias id kept alias (m_pending_aliases p) in
    let p := set_aliases als p in
    if negb ok then (false, p, tvc)
    else
      let tvc := set_flag Verifivation_failed false tvc in
      let p := set_sorted (emplace (MkEntry (fee_per_size_ratio fee bsize) now id) (m_txs_by_fee_and_receive_time p)) p in
      (true, p, tvc).

(** [junk] is what the fields [last_failed_height] and [last_failed_id] of a
    fresh [tx_details] happen to hold: the constructor does not set them. *)
Definition add_tx (bc : Blockchain) (now : Z) (junk : Z * hash) (tx : transaction) (id : hash) (bsize : Z)
    (tvc : tx_verification_context) (kept rel : bool) (p : tx_memory_pool)
  : bool * tx_memory_pool * tx_verification_context :=
  if version (prefix tx) <? 2 then (false, p, fail [Invalid_tx_version] tvc)
  else if negb kept && bool_decide (id ∈ m_timed_out_transactions p) then (false, p, fail [] tvc)
  else if negb (check_inputs_types_supported tx) then (false, p, fail [Invalid_input] tvc)
  else
    let fee := txnFee (rct_signatures tx) in
    if negb kept && negb (check_fee bc bsize fee) then (false, p, fail [Fee_too_low] tvc)
    else if negb kept && (TRANSACTION_SIZE_LIMIT <=? bsize) then (false, p, fail [Too_big] tvc)
    else
      match mixin_loop (vin (prefix tx)) with
      | None => (false, p, tvc)
      | Some (mixin_too_low, mixin_too_high) =>
          if negb kept && mixin_too_low then (false, p, fail [Low_mixin] tvc)
          else if negb kept && mixin_too_high then (false, p, fail [High_mixin] tvc)
          else
            let alias := tx_alias (extra (prefix tx)) in
            if negb kept && have_tx_keyimges_as_spent p tx then (false, p, fail [Double_spend] tvc)
            else if negb kept && (negb (bool_decide (alias = [])) && has_alias p alias)
            then (false, p, fail [Alias_already_exists] tvc)
            else
              let '(outs_ok, tvc) := check_tx_outputs bc tx tvc in
              if negb outs_ok then (false, p, fail [Invalid_output] tvc)
              else
                let '(ch_inp_res, mh, mid, tvc) := check_tx_inputs bc tx 0 null_hash kept tvc in
                let alias_duplicity :=
                  negb (bool_decide (alias = [])) && negb (bool_decide (get_alias_address bc alias = [])) in
                let tvc := if alias_duplicity then set_flag Alias_already_exists true tvc else tvc in
                if negb ch_inp_res || alias_duplicity then
                  if kept then
                    match m_transactions p !! id with
                    | Some _ => (false, p, tvc)
                    | None =>
                        let txd := MkDetails tx bsize fee null_hash 0 kept junk.1 junk.2 now now rel in
                        let p := set_transactions (<[id := txd]> (m_transactions p)) p in
                        let tvc := set_flag Added_to_pool true (set_flag Verifivation_impossible true tvc) in
                        index_tx tx id bsize fee kept now alias tvc p
                    end
                  else (false, p, fail [] tvc)
                else
                  match m_transactions p !! id with
                  | Some _ => (false, p, tvc)
                  | None =>
                      let txd := MkDetails tx bsize fee mid mh kept 0 null_hash now now rel in
                      let p := set_transactions (<[id := txd]> (m_transactions p)) p in
                      let tvc := set_flag Added_to_pool true tvc in
                      let tvc := if 0 <? fee then set_flag Should_be_relayed true tvc else tvc in
                      index_tx tx id bsize fee kept now alias tvc p
                  end
      end.

(** ** Removing *)

Section WithHash.
Context {HF : FastHash}.

Definition add_tx_by_hash (bc : Blockchain) (now : Z) (junk : Z * hash) (tx : transaction)
    (tvc : tx_verification_context) (kept rel : bool) (p : tx_memory_pool)
  : bool * tx_memory_pool * tx_verification_context :=
  match get_transaction_hash tx with
  | Some h => add_tx bc now junk tx h (Z.of_nat (default 0%nat (get_transaction_blob_size tx))) tvc kept rel p
  | None => add_tx bc now junk tx null_hash 0 tvc kept rel p
  end.

Fixpoint release_key_images (id : hash) (l : list txin_v) (m : gmap key_image (gset hash))
  : bool * gmap key_image (gset hash) :=
  match l with
  | [] => (true, m)
  | i :: l =>
      match to_key i with
      | None => (false, m)
      | Some x =>
          match m !! k_image x with
          | None => (false, m)
          | Some s =>
              if bool_decide (s = ∅) then (false, m)
              else if bool_decide (id ∉ s) then (false, m)
              else
                let s := s ∖ {[id]} in
                release_key_images id l (if bool_decide (s = ∅) then delete (k_image x) m else <[k_image x := s]> m)
          end
      end
  end.
Definition remove_transaction_keyimages (tx : transaction) (p : tx_memory_pool) : bool * tx_memory_pool :=
  let '(ok, m) := release_key_images (tx_hash tx) (vin (prefix tx)) (m_spent_key_images p) in
  (ok, set_key_images m p).

Definition remove_transaction_alias (tx : transaction) (p : tx_memory_pool) : bool * tx_memory_pool :=
  if negb (registers_alias (extra (prefix tx))) then (true, p)
  else
    let alias := tx_alias (extra (prefix tx)) in
    match m_pending_aliases p !! alias with
    | None => (false, p)
    | Some s =>
        if bool_decide (s = ∅) then (false, p)
        else if bool_decide (tx_hash tx ∉ s) then (false, p)
        else
          let s := s ∖ {[tx_hash tx]} in
          (true, set_aliases (if bool_decide (s = ∅) then delete alias (m_pending_aliases p)
                              else <[alias := s]> (m_pending_aliases p)) p)
    end.

(** The transaction with its size, its fee and [relayed]. *)
Definition take_tx (id : hash) (p : tx_memory_pool) : option (transaction * Z * Z * bool * tx_memory_pool) :=
  match m_transactions p !! id with
  | None => None
  | Some txd =>
      if negb (in_sorted id (m_txs_by_fee_and_receive_time p)) then None
      else
        let p := (remove_transaction_keyimages (td_tx txd) p).2 in
        let p := (remove_transaction_alias (td_tx txd) p).2 in
        let p := set_transactions (delete id (m_transactions p)) p in
        let p := set_sorted (erase_sorted id (m_txs_by_fee_and_receive_time p)) p in
        Some (td_tx txd, blob_size txd, fee txd, relayed txd, p)
  end.

Definition is_stuck (now : Z) (txd : tx_details) : bool :=
  let tx_age := now -w receive_time txd in
  (CRYPTONOTE_MEMPOOL_TX_LIVETIME <? tx_age) && negb (kept_by_block txd) ||
  (CRYPTONOTE_MEMPOOL_TX_FROM_ALT_BLOCK_LIVETIME <? tx_age) && kept_by_block txd.
Definition remove_stuck (now : Z) (p : tx_memory_pool) (it : hash * tx_details) : tx_memory_pool :=
  if is_stuck now it.2 then
    let p := (remove_transaction_keyimages (td_tx it.2) p).2 in
    let p := (remove_transaction_alias (td_tx it.2) p).2 in
    let p := set_sorted (erase_sorted it.1 (m_txs_by_fee_and_receive_time p)) p in
    let p := set_timed_out ({[it.1]} ∪ m_timed_out_transactions p) p in
    set_transactions (delete it.1 (m_transactions p)) p
  else p.
(** The order of the iteration is that of [map_to_list]. *)
Definition remove_stuck_transactions (now : Z) (p : tx_memory_pool) : tx_memory_pool :=
  fold_left (remove_stuck now) (map_to_list (m_transactions p)) p.

(** ** Relaying *)

Definition is_relayable (now : Z) (txd : tx_details) : bool :=
  (0 <? fee txd) && (get_relay_delay now (receive_time txd) <? now - last_relayed_time txd) &&
  (let max_age := if kept_by_block txd then CRYPTONOTE_MEMPOOL_TX_FROM_ALT_BLOCK_LIVETIME
                  else CRYPTONOTE_MEMPOOL_TX_LIVETIME in
   now - receive_time txd <=? max_age / 2).
Definition get_relayable_transactions (now : Z) (p : tx_memory_pool) : list (hash * transaction) :=
  map (fun it => (it.1, td_tx it.2)) (List.filter (fun it => is_relayable now it.2) (map_to_list (m_transactions p))).
Definition mark_relayed (now : Z) (d : tx_details) : tx_details :=
  MkDetails (td_tx d) (blob_size d) (fee d) (max_used_block_id d) (max_used_block_height d) (kept_by_block d)
    (last_failed_height d) (last_failed_id d) (receive_time d) now true.
Definition set_relayed (now : Z) (txs : list (hash * transaction)) (p : tx_memory_pool) : tx_memory_pool :=
  fold_left (fun p it =>
    match m_transactions p !! it.1 with
    | Some d => set_transactions (<[it.1 := mark_relayed now d]> (m_transactions p)) p
    | None => p
    end) txs p.

(** ** Block templates *)

Definition set_max_used (mh : Z) (mid : hash) (d : tx_details) : tx_details :=
  MkDetails (td_tx d) (blob_size d) (fee d) mid mh (kept_by_block d)
    (last_failed_height d) (last_failed_id d) (receive_time d) (last_relayed_time d) (relayed d).
Definition set_last_failed (h : Z) (i : hash) (d : tx_details) : tx_details :=
  MkDetails (td_tx d) (blob_size d) (fee d) (max_used_block_id d) (max_used_block_height d) (kept_by_block d)
    h i (receive_time d) (last_relayed_time d) (relayed d).

(** [check_tx_inputs] on the details, and what is recorded of a failure. *)
Definition recheck (bc : Blockchain) (txd : tx_details) : bool * tx_details :=
  let '(r, mh, mid, _) :=
    check_tx_inputs bc (td_tx txd) (max_used_block_height txd) (max_used_block_id txd) false (fun _ => false) in
  let txd := set_max_used mh mid txd in
  if r then (true, txd)
  else
    let h := get_current_blockchain_height bc -w 1 in
    (false, set_last_failed h (get_block_id_by_height bc h) txd).

Definition is_transaction_ready_to_go (bc : Blockchain) (txd : tx_details) : bool * tx_details :=
  let '(ok, txd) :=
    if bool_decide (max_used_block_id txd = null_hash) then
      if negb (bool_decide (last_failed_id txd = null_hash)) &&
         (last_failed_height txd <? get_current_blockchain_height bc) &&
         bool_decide (last_failed_id txd = get_block_id_by_height bc (last_failed_height txd))
      then (false, txd)
      else recheck bc txd
    else if get_current_blockchain_height bc <=? max_used_block_height txd then (false, txd)
    else if bool_decide (last_failed_id txd = get_block_id_by_height bc (last_failed_height txd)) then (false, txd)
    else recheck bc txd in
  if negb ok then (false, txd)
  else if chain_have_tx_keyimges_as_spent bc (td_tx txd) then (false, txd)
  else
    let alias := tx_alias (extra (prefix (td_tx txd))) in
    if negb (bool_decide (alias = [])) && negb (bool_decide (get_alias_address bc alias = [])) then (false, txd)
    else (true, txd).

Fixpoint have_key_images (k_images : gset key_image) (l : list txin_v) : bool :=
  match l with
  | [] => false
  | i :: l =>
      match to_key i with
      | None => false
      | Some x => if bool_decide (k_image x ∈ k_images) then true else have_key_images k_images l
      end
  end.
Fixpoint append_key_images (k_images : gset key_image) (l : list txin_v) : bool * gset key_image :=
  match l with
  | [] => (true, k_images)
  | i :: l =>
      match to_key i with
      | None => (false, k_images)
      | Some x =>
          if bool_decide (k_image x ∈ k_images) then (false, k_images)
          else append_key_images ({[k_image x]} ∪ k_images) l
      end
  end.

(** What the loop of [fill_block_template] carries along. *)
Record template := MkTemplate {
  t_hashes : list hash;
  total_size : Z;
  t_fee : Z;
  best_coinbase : Z;
  k_images : gset key_image
}.

(** One turn of the loop; [None] is an entry of the sorted container without a
    transaction, which the code would dereference. *)
Definition consider (bc : Blockchain) (median_size already_generated_coins height : Z)
    (st : template * tx_memory_pool) (e : entry) : option (template * tx_memory_pool) :=
  let '(t, p) := st in
  txd ← m_transactions p !! e_id e;
  match get_block_reward median_size
          ((total_size t +w blob_size txd) +w CRYPTONOTE_COINBASE_BLOB_RESERVED_SIZE)
          already_generated_coins height with
  | None => Some (t, p)
  | Some block_reward =>
      let coinbase := (block_reward +w t_fee t) +w fee txd in
      if coinbase <? template_accept_threshold (best_coinbase t) then Some (t, p)
      else
        let '(ready, txd) := is_transaction_ready_to_go bc txd in
        let p := set_transactions (<[e_id e := txd]> (m_transactions p)) p in
        if negb ready then Some (t, p)
        else if have_key_images (k_images t) (vin (prefix (td_tx txd))) then Some (t, p)
        else
          Some (MkTemplate (t_hashes t ++ [e_id e]) (total_size t +w blob_size txd) (t_fee t +w fee txd) coinbase
                  (append_key_images (k_images t) (vin (prefix (td_tx txd)))).2, p)
  end.
Fixpoint fill_loop (bc : Blockchain) (median_size already_generated_coins height : Z) (es : list entry)
    (st : template * tx_memory_pool) : option (template * tx_memory_pool) :=
  match es with
  | [] => Some st
  | e :: es =>
      st ← consider bc median_size already_generated_coins height st e;
      fill_loop bc median_size already_generated_coins height es st
  end.

(** [tx_hashes] are those already in the block. *)
Definition fill_block_template (bc : Blockchain) (tx_hashes : list hash) (median_size already_generated_coins height : Z)
    (p : tx_memory_pool) : option (template * tx_memory_pool) :=
  let best_coinbase := default 0 (get_block_reward median_size 0 already_generated_coins height) in
  fill_loop bc median_size already_generated_coins height (m_txs_by_fee_and_receive_time p)
    (MkTemplate tx_hashes 0 0 best_coinbase ∅, p).

(** ** Validation and start-up *)

Definition validate_one (bc : Blockchain) (st : Z * tx_memory_pool) (it : hash * tx_details) : Z * tx_memory_pool :=
  let '(n_removed, p) := st in
  let txid := tx_hash (td_tx it.2) in
  if (TRANSACTION_SIZE_LIMIT <=? blob_size it.2) || chain_have_tx bc txid then
    let p := (remove_transaction_keyimages (td_tx it.2) p).2 in
    let p := set_sorted (erase_sorted txid (m_txs_by_fee_and_receive_time p)) p in
    (n_removed +w 1, set_transactions (delete it.1 (m_transactions p)) p)
  else st.
Definition validate (bc : Blockchain) (p : tx_memory_pool) : Z * tx_memory_pool :=
  fold_left (validate_one bc) (map_to_list (m_transactions p)) (0, p).

Definition rebuild_sorted (p : tx_memory_pool) : tx_memory_pool :=
  fold_left (fun p it =>
    set_sorted (emplace (MkEntry (fee_per_size_ratio (fee it.2) (blob_size it.2)) (receive_time it.2) it.1)
                  (m_txs_by_fee_and_receive_time p)) p) (map_to_list (m_transactions p)) p.

(** What the state file holds: the containers but the sorted one. *)
Definition stored_pool : Type :=
  gmap hash tx_details * gmap key_image (gset hash) * gmap (list Z) (gset hash) * gset hash.
Definition store (p : tx_memory_pool) : stored_pool :=
  (m_transactions p, m_spent_key_images p, m_pending_aliases p, m_timed_out_transactions p).
(** [None]: there is no file; [inr o]: the file cannot be read, and [o] is
    what had been loaded of [m_timed_out_transactions], which is not cleared. *)
Definition init (file : option (stored_pool + gset hash)) : tx_memory_pool :=
  match file with
  | None => MkPool ∅ ∅ ∅ [] ∅
  | Some (inl (t, k, a, o)) => rebuild_sorted (MkPool t k a [] o)
  | Some (inr o) => rebuild_sorted (MkPool ∅ ∅ ∅ [] o)
  end.

End WithHash.

(** * Properties *)

(** ** The claims of a pool *)

(** The key images of a transaction. *)
Definition images (l : list txin_v) : list key_image := omap (fun i => k_image <$> to_key i) l.
Definition tx_images (tx : transaction) : list key_image := images (vin (prefix tx)).

(** The ids that claim [k]. *)
Definition claims `{Countable K} (m : gmap K (gset hash)) (k : K) : gset hash := default ∅ (m !! k).
Definition no_empty `{Countable K} (m : gmap K (gset hash)) : Prop := forall k s, m !! k = Some s -> s <> ∅.

Lemma claims_insert `{Countable K} (m : gmap K (gset hash)) k s k' :
  claims (<[k := s]> m) k' = if decide (k = k') then s else claims m k'.
Proof.
  unfold claims. destruct (decide (k = k')) as [->|]; [by rewrite lookup_insert_eq|by rewrite lookup_insert_ne].
Qed.

Lemma claims_delete `{Countable K} (m : gmap K (gset hash)) k k' :
  claims (delete k m) k' = if decide (k = k') then ∅ else claims m k'.
Proof.
  unfold claims. destruct (decide (k = k')) as [->|]; [by rewrite lookup_delete_eq|by rewrite lookup_delete_ne].
Qed.

Lemma claims_none `{Countable K} (m : gmap K (gset hash)) k : no_empty m -> m !! k = None <-> claims m k = ∅.
Proof.
  intros Hn. unfold claims. split; [by intros ->|]. destruct (m !! k) eqn:E; [|done]. cbn.
  intros ->. by apply Hn in E.
Qed.

Lemma no_empty_insert `{Countable K} (m : gmap K (gset hash)) k s : no_empty m -> s <> ∅ -> no_empty (<[k := s]> m).
Proof. intros Hn Hs k' s' E. apply lookup_insert_Some in E as [[_ <-]|[_ E]]; [done|by eapply Hn]. Qed.

Lemma no_empty_delete `{Countable K} (m : gmap K (gset hash)) k : no_empty m -> no_empty (delete k m).
Proof. intros Hn k' s' E. apply lookup_delete_Some in E as [_ E]. by eapply Hn. Qed.

Lemma types_supported_cons i l :
  forallb (fun i => match i with In_to_key _ => true | _ => false end) (i :: l) = true ->
  exists x, i = In_to_key x /\
    forallb (fun i => match i with In_to_key _ => true | _ => false end) l = true.
Proof. cbn. intros [Hi Hl]%andb_true_iff. destruct i; try done. by eexists. Qed.

Lemma union_single_ne (id : hash) (s : gset hash) : {[id]} ∪ s <> ∅.
Proof. set_solver. Qed.

(** Claiming adds the id to the key images of the transaction, and to no
    others. *)
Lemma claim_key_images_spec id kept l : forall m,
  forallb (fun i => match i with In_to_key _ => true | _ => false end) l = true ->
  NoDup (images l) -> no_empty m ->
  (forall k, k ∈ images l -> id ∉ claims m k) ->
  (kept = false -> forall k, k ∈ images l -> m !! k = None) ->
  exists m', claim_key_images id kept l m = (true, m') /\ no_empty m' /\
    forall k, claims m' k = if decide (k ∈ images l) then {[id]} ∪ claims m k else claims m k.
Proof.
  induction l as [|i l IH]; intros m Ht Hnd Hne Hid Hk.
  { exists m. split; [done|]. split; [done|]. intros k. by rewrite decide_False by apply not_elem_of_nil. }
  apply types_supported_cons in Ht as (x & -> & Ht). cbn [images omap list_omap to_key fmap option_fmap option_map] in *.
  change (omap (fun i => k_image <$> to_key i) l) with (images l) in *.
  apply NoDup_cons in Hnd as [Hx Hnd]. cbn [claim_key_images to_key].
  assert (Hs : negb (kept || bool_decide (default ∅ (m !! k_image x) = ∅)) = false).
  { destruct kept; [done|]. rewrite Hk by (done || by left). by rewrite bool_decide_true. }
  rewrite Hs. rewrite bool_decide_false by (apply (Hid (k_image x)); by left).
  rewrite insert_insert_eq. fold (claims m (k_image x)).
  destruct (IH (<[k_image x := {[id]} ∪ claims m (k_image x)]> m)) as (m' & E & Hne' & C); try done.
  - apply no_empty_insert; [done|apply union_single_ne].
  - intros k Hk'. rewrite claims_insert. rewrite decide_False by (by intros <-). apply Hid. by right.
  - intros Hf k Hk'. rewrite lookup_insert_ne by (by intros <-). apply Hk; [done|by right].
  - exists m'. split; [done|]. split; [done|]. intros k. rewrite C, claims_insert.
    destruct (decide (k_image x = k)) as [<-|Hne1].
    + rewrite (decide_False (P := k_image x ∈ images l)) by done. by rewrite decide_True by (by left).
    + destruct (decide (k ∈ images l)).
      * by rewrite decide_True by (by right).
      * rewrite decide_False; [done|]. by intros [?|?]%elem_of_cons.
Qed.

(** Releasing takes it away again. *)
Lemma release_key_images_spec id l : forall m,
  forallb (fun i => match i with In_to_key _ => true | _ => false end) l = true ->
  NoDup (images l) -> no_empty m ->
  (forall k, k ∈ images l -> id ∈ claims m k) ->
  exists m', release_key_images id l m = (true, m') /\ no_empty m' /\
    forall k, claims m' k = if decide (k ∈ images l) then claims m k ∖ {[id]} else claims m k.
Proof.
  induction l as [|i l IH]; intros m Ht Hnd Hne Hid.
  { exists m. split; [done|]. split; [done|]. intros k. by rewrite decide_False by apply not_elem_of_nil. }
  apply types_supported_cons in Ht as (x & -> & Ht). cbn [images omap list_omap to_key fmap option_fmap option_map] in *.
  change (omap (fun i => k_image <$> to_key i) l) with (images l) in *.
  apply NoDup_cons in Hnd as [Hx Hnd]. cbn [release_key_images to_key].
  assert (Hc : id ∈ claims m (k_image x)) by (apply Hid; by left). unfold claims in Hc.
  destruct (m !! k_image x) as [s|] eqn:Es; [|by apply not_elem_of_empty in Hc]. cbn in Hc.
  rewrite bool_decide_false by (intros ->; by apply not_elem_of_empty in Hc).
  rewrite bool_decide_false by (by intros Hn).
  assert (Hcs : claims m (k_image x) = s) by (unfold claims; by rewrite Es).
  set (m1 := if bool_decide (s ∖ {[id]} = ∅) then delete (k_image x) m else <[k_image x := s ∖ {[id]}]> m).
  assert (C1 : no_empty m1 /\ forall k, claims m1 k = if decide (k_image x = k) then s ∖ {[id]} else claims m k).
  { subst m1. case_bool_decide as He.
    - split; [by apply no_empty_delete|]. intros k. rewrite claims_delete. by case_decide.
    - split; [by apply no_empty_insert|]. intros k. by rewrite claims_insert. }
  destruct C1 as [Hne1 C1].
  destruct (IH m1) as (m' & E & Hne' & C); try done.
  - intros k Hk. rewrite C1, decide_False by (by intros <-). apply Hid. by right.
  - exists m'. split; [done|]. split; [done|]. intros k. rewrite C, C1.
    destruct (decide (k_image x = k)) as [<-|Hne2].
    + rewrite (decide_False (P := k_image x ∈ images l)) by done. rewrite decide_True by (by left). by rewrite Hcs.
    + destruct (decide (k ∈ images l)).
      * by rewrite decide_True by (by right).
      * rewrite decide_False; [done|]. by intros [?|?]%elem_of_cons.
Qed.

(** ** The sorted container *)

(** [a] may stand before [b]: a higher fee per size, or the same and not later. *)
Definition ahead (a b : entry) : Prop := e_ratio b < e_ratio a \/ e_ratio a = e_ratio b /\ e_time a <= e_time b.

#[export] Instance ahead_trans : Transitive ahead.
Proof. unfold ahead. intros a b c. lia. Qed.

Lemma txCompare_ahead a b : if txCompare a b then ahead a b else ahead b a.
Proof.
  unfold txCompare, ahead. repeat (case_bool; reflect_bools); lia.
Qed.

Lemma emplace_elem x l : (forall y, y ∈ l -> e_id y <> e_id x) -> emplace x l ≡ₚ x :: l.
Proof.
  induction l as [|y l IH]; intros Hx; [done|]. cbn [emplace]. case_bool; [done|].
  rewrite bool_decide_false by (intros ->; by apply (Hx y); [left|]).
  rewrite IH by (intros z Hz; apply Hx; by right). constructor.
Qed.

Lemma emplace_sorted x l : StronglySorted ahead l -> StronglySorted ahead (emplace x l).
Proof.
  induction 1 as [|y l Hs IH F]; [by repeat constructor|]. cbn [emplace].
  pose proof (txCompare_ahead x y) as Hc. destruct (txCompare x y).
  - constructor; [by constructor|]. constructor; [done|]. apply (Forall_impl _ _ _ F). intros z Hz. by etrans.
  - case_bool_decide as He; [by constructor|]. constructor; [done|].
    apply Forall_forall. intros z Hz. rewrite Forall_forall in F.
    assert (z = x \/ z ∈ l) as [->|]; [|done|by apply F].
    clear -Hz. induction l as [|w l IH]; cbn [emplace] in Hz; [left; by apply list_elem_of_singleton in Hz|].
    destruct (txCompare x w); [apply elem_of_cons in Hz; naive_solver|]. case_bool_decide; [by right|].
    rewrite !elem_of_cons in *. naive_solver.
Qed.

Lemma erase_sorted_elem id l y : NoDup (map e_id l) -> y ∈ erase_sorted id l <-> y ∈ l /\ e_id y <> id.
Proof.
  induction l as [|x l IH]; intros Hnd; cbn [erase_sorted]; [rewrite elem_of_nil; naive_solver|].
  cbn [map] in Hnd. apply NoDup_cons in Hnd as [Hx Hnd].
  case_bool_decide as Hid.
  - rewrite elem_of_cons. split; [|naive_solver]. intros Hy. split; [by right|]. intros Hyid. apply Hx.
    rewrite Hid, <- Hyid. apply list_elem_of_In, in_map, list_elem_of_In. done.
  - rewrite !elem_of_cons, IH by done. naive_solver.
Qed.

Lemma erase_sorted_sublist id l : sublist (erase_sorted id l) l.
Proof. induction l as [|x l IH]; cbn [erase_sorted]; [done|]. case_bool_decide; by constructor. Qed.

Lemma sublist_sorted {A} (R : relation A) (l l' : list A) : sublist l l' -> StronglySorted R l' -> StronglySorted R l.
Proof.
  induction 1 as [|x l l' Hs IH|x l l' Hs IH]; intros H; [done| |].
  - apply StronglySorted_inv in H as [H F]. constructor; [by apply IH|].
    apply Forall_forall. intros y Hy. rewrite Forall_forall in F. apply F. by eapply elem_of_sublist.
  - apply StronglySorted_inv in H as [H _]. by apply IH.
Qed.

Lemma erase_sorted_nodup id l : NoDup (map e_id l) -> NoDup (map e_id (erase_sorted id l)).
Proof.
  intros H. eapply sublist_NoDup; [exact H|]. apply (fmap_sublist e_id), erase_sorted_sublist.
Qed.

Lemma in_sorted_spec id l : in_sorted id l = true <-> id ∈ map e_id l.
Proof.
  unfold in_sorted. rewrite existsb_exists, list_elem_of_In, in_map_iff.
  split; intros (y & H1 & H2); exists y; [apply bool_decide_eq_true in H2; naive_solver|].
  rewrite bool_decide_eq_true. naive_solver.
Qed.

(** ** The invariant *)

Section Invariant.
Context {HF : FastHash}.

(** A transaction the pool can index: its inputs are of the supported type and
    its key images are different from each other. *)
Definition indexable (tx : transaction) : Prop :=
  check_inputs_types_supported tx = true /\ NoDup (tx_images tx).

Record pool_ok (p : tx_memory_pool) : Prop := {
  (** transactions are stored under their hash *)
  ok_hash : forall id d, m_transactions p !! id = Some d -> tx_hash (td_tx d) = id /\ indexable (td_tx d);
  (** a key image is claimed by exactly the transactions that spend it *)
  ok_images : forall k id, id ∈ claims (m_spent_key_images p) k <->
    exists d, m_transactions p !! id = Some d /\ k ∈ tx_images (td_tx d);
  ok_images_ne : no_empty (m_spent_key_images p);
  (** and an alias by exactly those that register it *)
  ok_aliases : forall a id, id ∈ claims (m_pending_aliases p) a <->
    exists d, m_transactions p !! id = Some d /\ a <> [] /\ tx_alias (extra (prefix (td_tx d))) = a;
  ok_aliases_ne : no_empty (m_pending_aliases p);
  (** the sorted container holds every transaction once, in order *)
  ok_nodup : NoDup (map e_id (m_txs_by_fee_and_receive_time p));
  ok_entries : forall id, id ∈ map e_id (m_txs_by_fee_and_receive_time p) <-> is_Some (m_transactions p !! id);
  ok_details : forall e d, e ∈ m_txs_by_fee_and_receive_time p -> m_transactions p !! e_id e = Some d ->
    e_ratio e = fee_per_size_ratio (fee d) (blob_size d) /\ e_time e = receive_time d;
  ok_order : StronglySorted ahead (m_txs_by_fee_and_receive_time p);
  (** of the transactions that did not come from a block, no two spend the same
      key image *)
  ok_unique : forall id1 d1 id2 d2 k,
    m_transactions p !! id1 = Some d1 -> m_transactions p !! id2 = Some d2 ->
    kept_by_block d1 = false -> kept_by_block d2 = false ->
    k ∈ tx_images (td_tx d1) -> k ∈ tx_images (td_tx d2) -> id1 = id2
}.

Lemma empty_pool_ok : pool_ok (MkPool ∅ ∅ ∅ [] ∅).
Proof.
  split; cbn [m_transactions m_spent_key_images m_pending_aliases m_txs_by_fee_and_receive_time map].
  - intros id d Hd. by rewrite lookup_empty in Hd.
  - intros k id. unfold claims. rewrite lookup_empty. split; [by intros ?%not_elem_of_empty|].
    intros (d & Hd & _). by rewrite lookup_empty in Hd.
  - intros k s Hk. by rewrite lookup_empty in Hk.
  - intros a id. unfold claims. rewrite lookup_empty. split; [by intros ?%not_elem_of_empty|].
    intros (d & Hd & _). by rewrite lookup_empty in Hd.
  - intros k s Hk. by rewrite lookup_empty in Hk.
  - constructor.
  - intros id. rewrite lookup_empty. split; [by intros ?%elem_of_nil|by intros [? ?]].
  - intros e d He. by apply elem_of_nil in He.
  - constructor.
  - intros id1 d1 id2 d2 k Hd. by rewrite lookup_empty in Hd.
Qed.

(** ** Adding *)

Lemma claim_alias_spec (id : hash) (kept : bool) (alias : list Z) (m : gmap (list Z) (gset hash)) :
  no_empty m -> (alias <> [] -> id ∉ claims m alias) -> (kept = false -> alias <> [] -> m !! alias = None) ->
  exists m', claim_alias id kept alias m = (true, m') /\ no_empty m' /\
    forall a, claims m' a = if decide (a = alias /\ a <> []) then {[id]} ∪ claims m a else claims m a.
Proof.
  intros Hne Hid Hal. unfold claim_alias. destruct alias as [|c alias'] eqn:Eal.
  { exists m. split; [done|]. split; [done|]. intros a. rewrite decide_False; [done|]. naive_solver. }
  rewrite <- Eal in *. assert (Hn : alias <> []) by (by rewrite Eal). clear Eal. fold (claims m alias).
  replace (negb (kept || bool_decide (claims m alias = ∅))) with false.
  2: { destruct kept; [done|]. unfold claims. rewrite Hal by done. by rewrite bool_decide_true. }
  rewrite bool_decide_false by auto. rewrite insert_insert_eq. eexists. split; [done|].
  split; [by apply no_empty_insert, union_single_ne|]. intros a. rewrite claims_insert.
  destruct (decide (alias = a)) as [<-|Hna]; [by rewrite decide_True|].
  rewrite decide_False; [done|]. by intros [-> _].
Qed.

Lemma map_e_id_elem y l : y ∈ l -> e_id y ∈ map e_id l.
Proof. intros Hy. apply list_elem_of_In, in_map, list_elem_of_In. done. Qed.

(** The invariant of a pool with one more transaction, from what its containers
    hold. *)
Lemma pool_ok_insert p id d ks als out :
  pool_ok p -> m_transactions p !! id = None -> tx_hash (td_tx d) = id -> indexable (td_tx d) ->
  no_empty ks -> no_empty als ->
  (forall k, claims ks k = if decide (k ∈ tx_images (td_tx d)) then {[id]} ∪ claims (m_spent_key_images p) k
                           else claims (m_spent_key_images p) k) ->
  (forall a, claims als a = if decide (a = tx_alias (extra (prefix (td_tx d))) /\ a <> [])
                            then {[id]} ∪ claims (m_pending_aliases p) a else claims (m_pending_aliases p) a) ->
  (kept_by_block d = false -> forall k, k ∈ tx_images (td_tx d) -> claims (m_spent_key_images p) k = ∅) ->
  pool_ok (MkPool (<[id := d]> (m_transactions p)) ks als
             (emplace (MkEntry (fee_per_size_ratio (fee d) (blob_size d)) (receive_time d) id)
                (m_txs_by_fee_and_receive_time p)) out).
Proof.
  intros Hp Hnew Hid Hix Hkn Han Hkc Hac Hfree.
  assert (Hnotin : forall y, y ∈ m_txs_by_fee_and_receive_time p -> e_id y <> id).
  { intros y Hy Hyid. apply map_e_id_elem in Hy. rewrite Hyid in Hy. apply (ok_entries p Hp) in Hy as [? ?]. congruence. }
  assert (Hperm := emplace_elem (MkEntry (fee_per_size_ratio (fee d) (blob_size d)) (receive_time d) id) _ Hnotin).
  assert (Hold : forall id' d', m_transactions p !! id' = Some d' -> id' <> id) by (intros id' d' H ->; congruence).
  split; cbn [m_transactions m_spent_key_images m_pending_aliases m_txs_by_fee_and_receive_time]; try done.
  - intros id' d' [[<- <-]|[_ H]]%lookup_insert_Some; [done|by apply (ok_hash p Hp)].
  - intros k id'. rewrite Hkc. setoid_rewrite lookup_insert_Some. pose proof (ok_images p Hp k id') as HI.
    destruct (decide (k ∈ tx_images (td_tx d))); [rewrite elem_of_union, elem_of_singleton|]; rewrite HI;
      split; [intros [->|(d' & ? & ?)]|..]; naive_solver.
  - intros a id'. rewrite Hac. setoid_rewrite lookup_insert_Some. pose proof (ok_aliases p Hp a id') as HI.
    destruct (decide (a = _ /\ a <> [])) as [[-> Hne]|Hn]; [rewrite elem_of_union, elem_of_singleton|]; rewrite HI;
      split; [intros [->|(d' & ? & ?)]|..]; naive_solver.
  - rewrite Hperm. cbn. constructor; [|apply Hp].
    intros Hin. apply (ok_entries p Hp) in Hin as [? ?]. congruence.
  - intros id'. rewrite Hperm. cbn [map e_id]. rewrite elem_of_cons, (ok_entries p Hp).
    destruct (decide (id' = id)) as [->|Hne]; [rewrite lookup_insert_eq; naive_solver|].
    rewrite lookup_insert_ne by done. naive_solver.
  - intros e d' He Hd'. rewrite Hperm in He. apply elem_of_cons in He as [->|He].
    + cbn [e_id] in Hd'. rewrite lookup_insert_eq in Hd'. by injection Hd' as <-.
    + rewrite lookup_insert_ne in Hd' by (intros Hx; by eapply Hnotin). by eapply (ok_details p Hp).
  - apply emplace_sorted, Hp.
  - assert (Huniq : forall id2 d2 k, m_transactions p !! id2 = Some d2 -> kept_by_block d = false ->
      k ∈ tx_images (td_tx d) -> k ∈ tx_images (td_tx d2) -> False).
    { intros id2 d2 k H2 Hkd Hk Hk2. specialize (Hfree Hkd k Hk).
      assert (Hc : id2 ∈ claims (m_spent_key_images p) k) by (apply (ok_images p Hp); eauto).
      rewrite Hfree in Hc. by apply not_elem_of_empty in Hc. }
    intros id1 d1 id2 d2 k [[<- <-]|[_ H1]]%lookup_insert_Some [[<- <-]|[_ H2]]%lookup_insert_Some ? ? ? ?;
      [done|by exfalso; eauto|by exfalso; eauto|by eapply (ok_unique p Hp)].
Qed.

(** A transaction that is not in the pool and whose key images and alias are
    free, or that comes from a block, is indexed. *)
Lemma index_tx_ok id now tvc p d :
  pool_ok p -> m_transactions p !! id = None -> tx_hash (td_tx d) = id -> indexable (td_tx d) -> receive_time d = now ->
  (kept_by_block d = false -> forall k, k ∈ tx_images (td_tx d) -> m_spent_key_images p !! k = None) ->
  (kept_by_block d = false -> tx_alias (extra (prefix (td_tx d))) <> [] ->
   m_pending_aliases p !! tx_alias (extra (prefix (td_tx d))) = None) ->
  exists p' tvc',
    index_tx (td_tx d) id (blob_size d) (fee d) (kept_by_block d) now (tx_alias (extra (prefix (td_tx d)))) tvc
      (set_transactions (<[id := d]> (m_transactions p)) p) = (true, p', tvc') /\
    pool_ok p' /\ m_transactions p' = <[id := d]> (m_transactions p) /\
    m_timed_out_transactions p' = m_timed_out_transactions p /\ tvc' Verifivation_failed = false.
Proof.
  intros Hp Hnew Hid Hix Hnow Hk Hal. unfold index_tx. cbn [set_transactions m_spent_key_images].
  destruct (claim_key_images_spec id (kept_by_block d) (vin (prefix (td_tx d))) (m_spent_key_images p))
    as (ks & -> & Hkn & Hkc); [apply Hix|apply Hix|apply Hp| |done|].
  { intros k _ Hc. apply (ok_images p Hp) in Hc as (d' & Hd' & _). congruence. }
  destruct (claim_alias_spec id (kept_by_block d) (tx_alias (extra (prefix (td_tx d)))) (m_pending_aliases p))
    as (als & Eal & Han & Hac); [apply Hp| |done|].
  { intros _ Hc. apply (ok_aliases p Hp) in Hc as (d' & Hd' & _). congruence. }
  cbn [negb set_key_images set_transactions m_pending_aliases m_transactions]. rewrite Eal. cbn [negb].
  eexists _, _. split; [reflexivity|]. split; [|by unfold set_flag; rewrite decide_True].
  rewrite <- Hnow. unfold set_sorted, set_aliases, set_key_images, set_transactions.
  cbn [m_transactions m_spent_key_images m_pending_aliases m_txs_by_fee_and_receive_time m_timed_out_transactions].
  apply pool_ok_insert; try done. intros Hf k Hki. apply claims_none; [apply Hp|]. by apply Hk.
Qed.

Lemma have_keyimges_free p l : have_keyimges_loop p l = false ->
  forall k, k ∈ images l -> m_spent_key_images p !! k = None.
Proof.
  induction l as [|i l IH]; intros H k Hk; [by apply elem_of_nil in Hk|]. cbn [have_keyimges_loop] in H.
  destruct i as [?|?|?|x]; try done. cbn [to_key] in H. unfold have_tx_keyimg_as_spent in H.
  case_bool_decide as Hs; [done|]. cbn in Hk. apply elem_of_cons in Hk as [->|Hk]; [|by apply IH].
  by apply eq_None_not_Some.
Qed.

(** A key image is free when no transaction of the pool spends it, an alias
    when none registers it. *)
Definition images_free (p : tx_memory_pool) (tx : transaction) : Prop :=
  forall id' d' k, m_transactions p !! id' = Some d' -> k ∈ tx_images tx -> k ∉ tx_images (td_tx d').
Definition alias_free (p : tx_memory_pool) (tx : transaction) : Prop :=
  tx_alias (extra (prefix tx)) = [] \/
  forall id' d', m_transactions p !! id' = Some d' ->
    tx_alias (extra (prefix (td_tx d'))) <> tx_alias (extra (prefix tx)).

Lemma claimed_spec (p : tx_memory_pool) k : pool_ok p ->
  is_Some (m_spent_key_images p !! k) <-> exists id d, m_transactions p !! id = Some d /\ k ∈ tx_images (td_tx d).
Proof.
  intros Hp. setoid_rewrite <- (ok_images p Hp). unfold claims. split.
  - intros [s Hs]. pose proof (ok_images_ne p Hp k s Hs) as Hne. apply set_choose_L in Hne as [id Hid].
    exists id. by rewrite Hs.
  - intros [id Hid]. destruct (m_spent_key_images p !! k); [by eexists|]. by apply not_elem_of_empty in Hid.
Qed.

Lemma registered_spec (p : tx_memory_pool) a : pool_ok p -> a <> [] ->
  is_Some (m_pending_aliases p !! a) <->
  exists id d, m_transactions p !! id = Some d /\ tx_alias (extra (prefix (td_tx d))) = a.
Proof.
  intros Hp Ha. split.
  - intros [s Hs]. pose proof (ok_aliases_ne p Hp a s Hs) as Hne. apply set_choose_L in Hne as [id Hid].
    assert (Hc : id ∈ claims (m_pending_aliases p) a) by (unfold claims; by rewrite Hs).
    apply (ok_aliases p Hp) in Hc as (d & Hd & _ & E). eauto.
  - intros (id & d & Hd & E). assert (Hc : id ∈ claims (m_pending_aliases p) a) by (apply (ok_aliases p Hp); eauto).
    unfold claims in Hc. destruct (m_pending_aliases p !! a); [by eexists|]. by apply not_elem_of_empty in Hc.
Qed.

Lemma have_keyimges_spec p tx : pool_ok p -> check_inputs_types_supported tx = true ->
  have_tx_keyimges_as_spent p tx = false <-> images_free p tx.
Proof.
  intros Hp Ht. transitivity (forall k, k ∈ tx_images tx -> ~ is_Some (m_spent_key_images p !! k)).
  - unfold have_tx_keyimges_as_spent, tx_images, check_inputs_types_supported in *. split.
    + intros H k Hk. apply eq_None_not_Some. by eapply have_keyimges_free.
    + induction (vin (prefix tx)) as [|i l IH]; intros H; [done|]. apply types_supported_cons in Ht as (x & -> & Ht).
      cbn [have_keyimges_loop to_key]. unfold have_tx_keyimg_as_spent.
      rewrite bool_decide_false by (apply H; cbn; by left). apply IH; [done|]. intros k Hk. apply H. cbn. by right.
  - setoid_rewrite (claimed_spec p _ Hp). unfold images_free. naive_solver.
Qed.

Lemma has_alias_spec p tx : pool_ok p ->
  negb (bool_decide (tx_alias (extra (prefix tx)) = [])) && has_alias p (tx_alias (extra (prefix tx))) = false <->
  alias_free p tx.
Proof.
  intros Hp. unfold alias_free, has_alias. case_bool_decide as Ha; cbn [negb andb]; [tauto|].
  rewrite bool_decide_eq_false, registered_spec by done. naive_solver.
Qed.

(** What a transaction that does not come from a block must satisfy: it has
    not timed out, pays the fee, is small, has enough and not too many mixins,
    conflicts with no transaction of the pool, and the chain accepts its inputs
    and its alias. *)
Definition admissible (bc : Blockchain) (p : tx_memory_pool) (tx : transaction) (id : hash) (bsize : Z)
    (tvc : tx_verification_context) : Prop :=
  (id ∉ m_timed_out_transactions p) /\ check_fee bc bsize (txnFee (rct_signatures tx)) = true /\
  bsize < TRANSACTION_SIZE_LIMIT /\ mixin_loop (vin (prefix tx)) = Some (false, false) /\
  images_free p tx /\ alias_free p tx /\
  (check_tx_inputs bc tx 0 null_hash false (check_tx_outputs bc tx tvc).2).1.1.1 = true /\
  (tx_alias (extra (prefix tx)) = [] \/ get_alias_address bc (tx_alias (extra (prefix tx))) = []).

(** The transactions [add_tx] adds. *)
Definition acceptable (bc : Blockchain) (p : tx_memory_pool) (tx : transaction) (id : hash) (bsize : Z)
    (tvc : tx_verification_context) (kept : bool) : Prop :=
  2 <= version (prefix tx) /\ check_inputs_types_supported tx = true /\ (check_tx_outputs bc tx tvc).1 = true /\
  m_transactions p !! id = None /\ (kept = false -> admissible bc p tx id bsize tvc).

(** The outcome of [add_tx]: an acceptable transaction is added and nothing
    else changes, any other leaves the pool as it is. *)
Definition add_outcome (bc : Blockchain) (tx : transaction) (id : hash) (bsize : Z)
    (tvc : tx_verification_context) (kept : bool)
    (p : tx_memory_pool) (res : bool * tx_memory_pool * tx_verification_context) : Prop :=
  let '(r, p', tvc') := res in
  if r then
    acceptable bc p tx id bsize tvc kept /\
    pool_ok p' /\ tvc' Verifivation_failed = false /\ m_timed_out_transactions p' = m_timed_out_transactions p /\
    exists d, m_transactions p' = <[id := d]> (m_transactions p) /\ td_tx d = tx /\ blob_size d = bsize /\
       fee d = txnFee (rct_signatures tx) /\ kept_by_block d = kept
  else p' = p /\ ~ acceptable bc p tx id bsize tvc kept.

Lemma insert_outcome bc tx id bsize kept now tvc0 tvc p d :
  pool_ok p -> tx_hash tx = id -> NoDup (tx_images tx) -> acceptable bc p tx id bsize tvc0 kept ->
  td_tx d = tx -> blob_size d = bsize -> fee d = txnFee (rct_signatures tx) -> kept_by_block d = kept ->
  receive_time d = now ->
  add_outcome bc tx id bsize tvc0 kept p
    (index_tx tx id bsize (txnFee (rct_signatures tx)) kept now (tx_alias (extra (prefix tx))) tvc
       (set_transactions (<[id := d]> (m_transactions p)) p)).
Proof.
  intros Hp Hid Hnd Hacc <- <- Hfee <- Hnow. pose proof Hacc as (_ & Ht & _ & Hnew & Ha).
  rewrite <- Hfee. destruct (index_tx_ok id now tvc p d) as (p' & tvc' & -> & Hp' & Hm & Hto & Hf); try done.
  - intros Hk k Hki. destruct (Ha Hk) as (_ & _ & _ & _ & Hfree & _).
    apply eq_None_not_Some. rewrite claimed_spec by done. intros (id' & d' & Hd' & Hk'). by eapply Hfree.
  - intros Hk Hne. destruct (Ha Hk) as (_ & _ & _ & _ & _ & [?|Hfree] & _); [done|].
    apply eq_None_not_Some. rewrite registered_spec by done. intros (id' & d' & Hd' & E). by eapply Hfree.
  - cbn [add_outcome]. eauto 10.
Qed.

Lemma mixin_loop_some l :
  forallb (fun i => match i with In_to_key _ => true | _ => false end) l = true -> mixin_loop l <> None.
Proof.
  induction l as [|i l IH]; intros Ht; [done|]. apply types_supported_cons in Ht as (x & -> & Ht).
  cbn [mixin_loop to_key mbind option_bind]. by repeat case_match; [..|apply IH].
Qed.

Lemma chain_guard ci (a b : list Z) :
  negb ci || (negb (bool_decide (a = [])) && negb (bool_decide (b = []))) = false <-> ci = true /\ (a = [] \/ b = []).
Proof. repeat case_bool_decide; destruct ci; cbn; intuition congruence. Qed.

(** The guards of [add_tx] for a transaction that does not come from a block. *)
Lemma guards_admissible bc tx id bsize tvc p lo hi :
  pool_ok p -> check_inputs_types_supported tx = true -> bool_decide (id ∈ m_timed_out_transactions p) = false ->
  negb (check_fee bc bsize (txnFee (rct_signatures tx))) = false -> (TRANSACTION_SIZE_LIMIT <=? bsize) = false ->
  mixin_loop (vin (prefix tx)) = Some (lo, hi) -> lo = false -> hi = false ->
  have_tx_keyimges_as_spent p tx = false ->
  negb (bool_decide (tx_alias (extra (prefix tx)) = [])) && has_alias p (tx_alias (extra (prefix tx))) = false ->
  (check_tx_inputs bc tx 0 null_hash false (check_tx_outputs bc tx tvc).2).1.1.1 = true /\
  (tx_alias (extra (prefix tx)) = [] \/ get_alias_address bc (tx_alias (extra (prefix tx))) = []) ->
  admissible bc p tx id bsize tvc.
Proof.
  intros Hp Ht G1%bool_decide_eq_false G3%negb_false_iff G4%Z.leb_gt G5 -> -> G8%have_keyimges_spec G9%has_alias_spec Hc;
    [|done..]. done.
Qed.

(** A refused transaction: the guard that fired contradicts acceptability. *)
Ltac refused :=
  split; [reflexivity|]; intros (Hv & Ht & Ho & Hn & Ha);
  repeat match goal with H : negb ?k && _ = true |- _ => is_var k; apply andb_true_iff in H as [H%negb_true_iff ?] end;
  try (destruct Ha as (A1 & A2 & A3 & A4 & A5 & A6 & A7 & A8); [first [assumption|reflexivity]|]).

Lemma add_tx_spec bc now junk tx id bsize tvc kept rel p :
  pool_ok p -> tx_hash tx = id -> NoDup (tx_images tx) ->
  add_outcome bc tx id bsize tvc kept p (add_tx bc now junk tx id bsize tvc kept rel p).
Proof.
  intros Hp Hid Hnd. unfold add_tx.
  destruct (Z.ltb_spec (version (prefix tx)) 2) as [G0|G0]; [refused; lia|].
  destruct (negb kept && bool_decide (id ∈ m_timed_out_transactions p)) eqn:G1.
  { refused. by apply A1, (bool_decide_eq_true _). }
  destruct (check_inputs_types_supported tx) eqn:G2; [cbn [negb]|refused; congruence].
  destruct (negb kept && negb (check_fee bc bsize (txnFee (rct_signatures tx)))) eqn:G3.
  { refused. by rewrite A2 in *. }
  destruct (negb kept && (TRANSACTION_SIZE_LIMIT <=? bsize)) eqn:G4; [refused; lia|].
  destruct (mixin_loop (vin (prefix tx))) as [[lo hi]|] eqn:G5; [|exfalso; by eapply mixin_loop_some].
  destruct (negb kept && lo) eqn:G6; [refused; congruence|].
  destruct (negb kept && hi) eqn:G7; [refused; congruence|].
  destruct (negb kept && have_tx_keyimges_as_spent p tx) eqn:G8.
  { refused. apply have_keyimges_spec in A5; [congruence|done..]. }
  destruct (negb kept && (negb (bool_decide (tx_alias (extra (prefix tx)) = [])) && has_alias p (tx_alias (extra (prefix tx))))) eqn:G9.
  { refused. apply has_alias_spec in A6; [congruence|done]. }
  destruct (check_tx_outputs bc tx tvc) as [[] tvc1] eqn:Eo; [cbn [negb]|refused; by rewrite Eo in Ho].
  destruct (check_tx_inputs bc tx 0 null_hash kept tvc1) as [[[ci mh] mid] tvc2] eqn:Ei.
  set (dup := negb (bool_decide _) && negb (bool_decide (get_alias_address bc _ = []))). cbv zeta.
  set (tvc3 := if dup then _ else _).
  assert (Hacc : kept = true \/ negb ci || dup = false -> m_transactions p !! id = None ->
    acceptable bc p tx id bsize tvc kept).
  { intros Hc Hn. split; [done|]. split; [done|]. split; [by rewrite Eo|]. split; [done|]. intros ->.
    destruct Hc as [?|Hc%chain_guard]; [done|]. eapply guards_admissible; try done. rewrite Eo. cbn [snd]. by rewrite Ei. }
  assert (Hins : forall d tvc', m_transactions p !! id = None -> acceptable bc p tx id bsize tvc kept -> _) by
    exact (fun d tvc' _ Ha => insert_outcome bc tx id bsize kept now tvc tvc' p d Hp Hid Hnd Ha).
  destruct (negb ci || dup) eqn:Ebad; [destruct kept|];
    [destruct (m_transactions p !! id) eqn:Hm; [refused; congruence|apply Hins; auto]| |
     destruct (m_transactions p !! id) eqn:Hm; [refused; congruence|apply Hins; auto]].
  refused. rewrite Eo in A7. cbn [snd] in A7. rewrite Ei in A7. apply not_false_iff_true in Ebad.
  by apply Ebad, chain_guard.
Qed.

(** [C23] [add_tx] adds exactly the acceptable transactions, and keeps the pool
    consistent: every key image and alias is claimed by exactly the
    transactions that use it, the sorted container holds every transaction once
    and in order, and no two transactions that did not come from a block spend
    the same key image.  A refused transaction leaves the pool unchanged; an
    accepted one is added and nothing else, whatever the chain answers. *)
Theorem add_tx_correct bc now junk tx id bsize tvc kept rel p :
  pool_ok p -> tx_hash tx = id -> NoDup (tx_images tx) ->
  add_outcome bc tx id bsize tvc kept p (add_tx bc now junk tx id bsize tvc kept rel p).
Proof. apply add_tx_spec. Qed.

(** ** Removing *)

Lemma pool_ok_delete p id d ks als out :
  pool_ok p -> m_transactions p !! id = Some d -> no_empty ks -> no_empty als ->
  (forall k, claims ks k = if decide (k ∈ tx_images (td_tx d)) then claims (m_spent_key_images p) k ∖ {[id]}
                           else claims (m_spent_key_images p) k) ->
  (forall a, claims als a = if decide (a = tx_alias (extra (prefix (td_tx d))) /\ a <> [])
                            then claims (m_pending_aliases p) a ∖ {[id]} else claims (m_pending_aliases p) a) ->
  pool_ok (MkPool (delete id (m_transactions p)) ks als (erase_sorted id (m_txs_by_fee_and_receive_time p)) out).
Proof.
  intros Hp Hd Hkn Han Hkc Hac. pose proof (ok_nodup p Hp) as Hnd.
  split; cbn [m_transactions m_spent_key_images m_pending_aliases m_txs_by_fee_and_receive_time]; try done.
  - intros id' d' [_ H]%lookup_delete_Some. by apply (ok_hash p Hp).
  - intros k id'. rewrite Hkc. setoid_rewrite lookup_delete_Some. pose proof (ok_images p Hp k id') as HI.
    destruct (decide (k ∈ tx_images (td_tx d))); [rewrite elem_of_difference, elem_of_singleton|]; rewrite HI;
      split; try naive_solver.
  - intros a id'. rewrite Hac. setoid_rewrite lookup_delete_Some. pose proof (ok_aliases p Hp a id') as HI.
    destruct (decide (a = _ /\ a <> [])) as [[-> Hne]|Hn]; [rewrite elem_of_difference, elem_of_singleton|]; rewrite HI;
      split; try naive_solver.
  - by apply erase_sorted_nodup.
  - intros id'. rewrite list_elem_of_In, in_map_iff.
    assert (Hiff : (exists y, e_id y = id' /\ In y (erase_sorted id (m_txs_by_fee_and_receive_time p))) <->
      id' ∈ map e_id (m_txs_by_fee_and_receive_time p) /\ id' <> id).
    { rewrite list_elem_of_In, in_map_iff. split.
      - intros (y & <- & Hy%list_elem_of_In). apply erase_sorted_elem in Hy as [Hy Hn]; [|done].
        split; [|done]. exists y. split; [done|by apply list_elem_of_In].
      - intros [(y & <- & Hy%list_elem_of_In) Hn]. exists y. split; [done|]. apply list_elem_of_In.
        by apply erase_sorted_elem. }
    rewrite Hiff, (ok_entries p Hp). destruct (decide (id' = id)) as [->|Hne].
    + rewrite lookup_delete_eq. split; [by intros [_ ?]|by intros [? ?]].
    + rewrite lookup_delete_ne by done. naive_solver.
  - intros e d' He Hd'. apply erase_sorted_elem in He as [He Hn]; [|done].
    rewrite lookup_delete_ne in Hd' by done. by eapply (ok_details p Hp).
  - eapply sublist_sorted; [apply erase_sorted_sublist|apply Hp].
  - intros id1 d1 id2 d2 k [_ H1]%lookup_delete_Some [_ H2]%lookup_delete_Some. by apply (ok_unique p Hp).
Qed.

Lemma registers_alias_none e : registers_alias e = false -> tx_alias e = [].
Proof.
  unfold registers_alias, tx_alias. destruct (parse_tx_extra e) as [r fields]. by intros ->.
Qed.

(** Both removals succeed on a transaction of the pool. *)
Lemma remove_claims p id d :
  pool_ok p -> m_transactions p !! id = Some d ->
  exists ks als,
    (remove_transaction_alias (td_tx d) (remove_transaction_keyimages (td_tx d) p).2).2 =
      set_aliases als (set_key_images ks p) /\ no_empty ks /\ no_empty als /\
    (forall k, claims ks k = if decide (k ∈ tx_images (td_tx d)) then claims (m_spent_key_images p) k ∖ {[id]}
                             else claims (m_spent_key_images p) k) /\
    (forall a, claims als a = if decide (a = tx_alias (extra (prefix (td_tx d))) /\ a <> [])
                              then claims (m_pending_aliases p) a ∖ {[id]} else claims (m_pending_aliases p) a).
Proof.
  intros Hp Hd. destruct (ok_hash p Hp id d Hd) as [Hid [Ht Hnd]].
  unfold remove_transaction_keyimages. rewrite Hid.
  destruct (release_key_images_spec id (vin (prefix (td_tx d))) (m_spent_key_images p)) as (ks & -> & Hkn & Hkc);
    [done|done|apply Hp|intros k Hk; apply (ok_images p Hp); eauto|].
  exists ks. cbn [snd]. unfold remove_transaction_alias. rewrite Hid.
  cbn [set_key_images m_pending_aliases]. set (alias := tx_alias (extra (prefix (td_tx d)))).
  assert (Hnone : alias = [] -> forall a, claims (m_pending_aliases p) a =
    if decide (a = alias /\ a <> []) then claims (m_pending_aliases p) a ∖ {[id]} else claims (m_pending_aliases p) a).
  { intros Ha a. rewrite decide_False; [done|]. rewrite Ha. naive_solver. }
  destruct (registers_alias (extra (prefix (td_tx d)))) eqn:Hr; cbn [negb].
  2: { exists (m_pending_aliases p). split; [done|]. split; [done|]. split; [apply Hp|]. split; [done|].
       by apply Hnone, registers_alias_none. }
  destruct (decide (alias = [])) as [Ha|Ha].
  - assert (Hl : m_pending_aliases p !! alias = None).
    { apply claims_none; [apply Hp|]. apply set_eq. intros id'. split; [|by intros ?%not_elem_of_empty].
      intros Hc. apply (ok_aliases p Hp) in Hc as (_ & _ & Hne & _). done. }
    rewrite Hl. exists (m_pending_aliases p). split; [done|]. split; [done|]. split; [apply Hp|]. split; [done|].
    by apply Hnone.
  - assert (Hc : id ∈ claims (m_pending_aliases p) alias) by (apply (ok_aliases p Hp); eauto).
    destruct (m_pending_aliases p !! alias) as [s|] eqn:Hs; unfold claims in Hc; rewrite Hs in Hc;
      [cbn in Hc|by apply not_elem_of_empty in Hc].
    rewrite bool_decide_false by (intros ->; by apply not_elem_of_empty in Hc).
    rewrite bool_decide_false by (by intros Hn). cbn [snd].
    eexists. split; [reflexivity|]. split; [done|].
    assert (Hcs : claims (m_pending_aliases p) alias = s) by (unfold claims; by rewrite Hs).
    case_bool_decide as He.
    + split; [apply no_empty_delete, Hp|]. split; [done|]. intros a. rewrite claims_delete.
      destruct (decide (alias = a)) as [<-|Hna]; [rewrite decide_True, Hcs by done; by rewrite He|].
      rewrite decide_False; [done|]. by intros [-> _].
    + split; [apply no_empty_insert; [apply Hp|done]|]. split; [done|]. intros a. rewrite claims_insert.
      destruct (decide (alias = a)) as [<-|Hna]; [by rewrite decide_True, Hcs by done|].
      rewrite decide_False; [done|]. by intros [-> _].
Qed.

Lemma take_tx_spec id p :
  pool_ok p ->
  match m_transactions p !! id with
  | None => take_tx id p = None
  | Some d => exists p', take_tx id p = Some (td_tx d, blob_size d, fee d, relayed d, p') /\ pool_ok p' /\
      m_transactions p' = delete id (m_transactions p) /\
      m_timed_out_transactions p' = m_timed_out_transactions p
  end.
Proof.
  intros Hp. unfold take_tx. destruct (m_transactions p !! id) as [d|] eqn:Hd; [|done].
  replace (in_sorted id (m_txs_by_fee_and_receive_time p)) with true.
  2: { symmetry. apply in_sorted_spec, (ok_entries p Hp). by eexists. }
  cbn [negb]. destruct (remove_claims p id d Hp Hd) as (ks & als & -> & Hkn & Han & Hkc & Hac).
  eexists. split; [reflexivity|]. unfold set_sorted, set_transactions, set_aliases, set_key_images.
  cbn [m_transactions m_spent_key_images m_pending_aliases m_txs_by_fee_and_receive_time m_timed_out_transactions].
  split; [by eapply pool_ok_delete|done].
Qed.

(** [C25] [take_tx] succeeds exactly for the transactions of the pool, returns
    what was stored, and leaves a consistent pool without that transaction: its
    key images and its alias are free again unless another transaction claims
    them. *)
Theorem take_tx_correct id p :
  pool_ok p ->
  match m_transactions p !! id with
  | None => take_tx id p = None
  | Some d => exists p', take_tx id p = Some (td_tx d, blob_size d, fee d, relayed d, p') /\ pool_ok p' /\
      m_transactions p' = delete id (m_transactions p) /\
      m_timed_out_transactions p' = m_timed_out_transactions p
  end.
Proof. apply take_tx_spec. Qed.

Lemma remove_stuck_ok now p id d :
  pool_ok p -> m_transactions p !! id = Some d -> is_stuck now d = true ->
  let p' := remove_stuck now p (id, d) in
  pool_ok p' /\ m_transactions p' = delete id (m_transactions p) /\
  m_timed_out_transactions p' = {[id]} ∪ m_timed_out_transactions p.
Proof.
  intros Hp Hd Hs. unfold remove_stuck. cbn [fst snd]. rewrite Hs.
  destruct (remove_claims p id d Hp Hd) as (ks & als & -> & Hkn & Han & Hkc & Hac).
  unfold set_sorted, set_transactions, set_timed_out, set_aliases, set_key_images.
  cbn [m_transactions m_spent_key_images m_pending_aliases m_txs_by_fee_and_receive_time m_timed_out_transactions].
  split; [by eapply pool_ok_delete|done].
Qed.

Lemma remove_stuck_fold now l : forall p,
  pool_ok p -> NoDup l.*1 -> (forall id d, (id, d) ∈ l -> m_transactions p !! id = Some d) ->
  let p' := fold_left (remove_stuck now) l p in
  pool_ok p' /\
  (forall id d, m_transactions p' !! id = Some d <->
     m_transactions p !! id = Some d /\ ~ ((id, d) ∈ l /\ is_stuck now d = true)) /\
  (forall id, id ∈ m_timed_out_transactions p' <->
     id ∈ m_timed_out_transactions p \/ exists d, (id, d) ∈ l /\ is_stuck now d = true).
Proof.
  induction l as [|[id0 d0] l IH]; intros p Hp Hnd Hl p'; subst p'; cbn [fold_left].
  { split; [done|]. split; [intros id d; rewrite elem_of_nil; naive_solver|].
    intros id. setoid_rewrite elem_of_nil. naive_solver. }
  cbn in Hnd. apply NoDup_cons in Hnd as [Hn0 Hnd].
  assert (H0 : m_transactions p !! id0 = Some d0) by (apply Hl; by left).
  assert (Hne : forall id d, (id, d) ∈ l -> id <> id0).
  { intros id d Hin ->. apply Hn0. by apply (list_elem_of_fmap_2 fst l (id0, d)). }
  destruct (is_stuck now d0) eqn:Hs.
  - destruct (remove_stuck_ok now p id0 d0 Hp H0 Hs) as (Hp1 & Hm1 & Ho1).
    destruct (IH (remove_stuck now p (id0, d0))) as (Hp' & Hm' & Ho'); [done|done| |].
    { intros id d Hin. rewrite Hm1, lookup_delete_ne by (intros ->; by eapply Hne). apply Hl. by right. }
    split; [done|]. split.
    + intros id d. rewrite Hm', Hm1, lookup_delete_Some, elem_of_cons. split.
      * intros [[Hi Hd] Hnl]. split; [done|]. intros [[[= -> ->]|Hin] Hst]; [done|by apply Hnl].
      * intros [Hd Hnl]. split; [split; [|done]|naive_solver]. intros ->. apply Hnl. split; [|congruence]. left. congruence.
    + intros id. rewrite Ho', Ho1, elem_of_union, elem_of_singleton. setoid_rewrite elem_of_cons. naive_solver.
  - assert (E : remove_stuck now p (id0, d0) = p) by (unfold remove_stuck; cbn [snd]; by rewrite Hs).
    rewrite E. destruct (IH p) as (Hp' & Hm' & Ho'); [done|done|intros id d Hin; apply Hl; by right|].
    split; [done|]. split.
    + intros id d. rewrite Hm', elem_of_cons. naive_solver congruence.
    + intros id. rewrite Ho'. setoid_rewrite elem_of_cons. naive_solver congruence.
Qed.

Lemma remove_stuck_transactions_spec now p :
  pool_ok p ->
  let p' := remove_stuck_transactions now p in
  pool_ok p' /\
  (forall id d, m_transactions p' !! id = Some d <-> m_transactions p !! id = Some d /\ is_stuck now d = false) /\
  (forall id, id ∈ m_timed_out_transactions p' <->
     id ∈ m_timed_out_transactions p \/ exists d, m_transactions p !! id = Some d /\ is_stuck now d = true).
Proof.
  intros Hp p'. destruct (remove_stuck_fold now (map_to_list (m_transactions p)) p) as (H1 & H2 & H3);
    [done|apply NoDup_fst_map_to_list|intros id d; apply elem_of_map_to_list|].
  split; [done|]. split.
  - intros id d. unfold p', remove_stuck_transactions. rewrite H2, elem_of_map_to_list.
    split; intros [Hd Hs]; (split; [done|]); [|rewrite Hs; naive_solver].
    destruct (is_stuck now d); [|done]. by exfalso; apply Hs.
  - intros id. unfold p', remove_stuck_transactions. rewrite H3. by setoid_rewrite elem_of_map_to_list.
Qed.

(** [C26] [remove_stuck_transactions] removes exactly the transactions that have
    outlived their time - a day, or a week when they came from a block -,
    remembers their ids as timed out, and leaves the pool consistent. *)
Theorem remove_stuck_transactions_correct now p :
  pool_ok p ->
  let p' := remove_stuck_transactions now p in
  pool_ok p' /\
  (forall id d, m_transactions p' !! id = Some d <-> m_transactions p !! id = Some d /\ is_stuck now d = false) /\
  (forall id, id ∈ m_timed_out_transactions p' <->
     id ∈ m_timed_out_transactions p \/ exists d, m_transactions p !! id = Some d /\ is_stuck now d = true).
Proof. apply remove_stuck_transactions_spec. Qed.

(** ** Block templates *)

(** Details that differ at most in what was cached of the last check. *)
Definition same_core (d d' : tx_details) : Prop :=
  td_tx d' = td_tx d /\ blob_size d' = blob_size d /\ fee d' = fee d /\
  kept_by_block d' = kept_by_block d /\ receive_time d' = receive_time d.

(** The pool with other cached results. *)
Definition refreshed (p p' : tx_memory_pool) : Prop :=
  p' = set_transactions (m_transactions p') p /\
  forall id, option_relation same_core (fun _ => False) (fun _ => False) (m_transactions p !! id) (m_transactions p' !! id).

Lemma refreshed_refl p : refreshed p p.
Proof. split; [by destruct p|]. intros id. destruct (m_transactions p !! id); [by repeat split|done]. Qed.

Lemma refreshed_lookup p p' id d' : refreshed p p' -> m_transactions p' !! id = Some d' ->
  exists d, m_transactions p !! id = Some d /\ same_core d d'.
Proof. intros [_ H] E. specialize (H id). rewrite E in H. destruct (m_transactions p !! id); [by eexists|done]. Qed.

Lemma refreshed_lookup_l p p' id d : refreshed p p' -> m_transactions p !! id = Some d ->
  exists d', m_transactions p' !! id = Some d' /\ same_core d d'.
Proof. intros [_ H] E. specialize (H id). rewrite E in H. destruct (m_transactions p' !! id); [by eexists|done]. Qed.

Lemma refreshed_insert p p' id d d' : refreshed p p' -> m_transactions p !! id = Some d -> same_core d d' ->
  refreshed p (set_transactions (<[id := d']> (m_transactions p')) p').
Proof.
  intros [Ep H] E Hc. split; [rewrite Ep; done|]. intros id'. cbn [set_transactions m_transactions].
  destruct (decide (id = id')) as [<-|Hne]; [by rewrite lookup_insert_eq, E|rewrite lookup_insert_ne by done; apply H].
Qed.

Lemma refreshed_ok p p' : pool_ok p -> refreshed p p' -> pool_ok p'.
Proof.
  intros Hp Hr. pose proof (refreshed_lookup p p') as Hb. pose proof (refreshed_lookup_l p p') as Hf.
  assert (Hdom : forall id, is_Some (m_transactions p' !! id) <-> is_Some (m_transactions p !! id)).
  { intros id. split; intros [d Hd]; [apply (Hb id d Hr) in Hd as (? & ? & _)|apply (Hf id d Hr) in Hd as (? & ? & _)]; by eexists. }
  destruct Hr as [Ep Hr0]. assert (Hr : refreshed p p') by done. rewrite Ep.
  split; cbn [set_transactions m_transactions m_spent_key_images m_pending_aliases m_txs_by_fee_and_receive_time]; try apply Hp.
  - intros id d Hd. apply (Hb id d Hr) in Hd as (d0 & Hd0 & (-> & _)). by apply (ok_hash p Hp).
  - intros k id. rewrite (ok_images p Hp). split; intros (d & Hd & Hk).
    + apply (Hf id d Hr) in Hd as (d' & Hd' & (Et & _)). exists d'. by rewrite Et.
    + apply (Hb id d Hr) in Hd as (d' & Hd' & (Et & _)). exists d'. by rewrite <- Et.
  - intros a id. rewrite (ok_aliases p Hp). split; intros (d & Hd & Hk).
    + apply (Hf id d Hr) in Hd as (d' & Hd' & (Et & _)). exists d'. by rewrite Et.
    + apply (Hb id d Hr) in Hd as (d' & Hd' & (Et & _)). exists d'. by rewrite <- Et.
  - intros id. by rewrite (ok_entries p Hp), Hdom.
  - intros e d He Hd. apply (Hb _ d Hr) in Hd as (d' & Hd' & (_ & -> & -> & _ & ->)). by apply (ok_details p Hp).
  - intros id1 d1 id2 d2 k H1 H2. apply (Hb _ d1 Hr) in H1 as (d1' & H1' & (-> & _ & _ & -> & _)).
    apply (Hb _ d2 Hr) in H2 as (d2' & H2' & (-> & _ & _ & -> & _)). by apply (ok_unique p Hp).
Qed.

(** The chain accepts the inputs of the transaction, has none of its key images
    and does not know its alias. *)
Definition passes (bc : Blockchain) (tx : transaction) : Prop :=
  (exists mh mid, (check_tx_inputs bc tx mh mid false (fun _ => false)).1.1.1 = true) /\
  chain_have_tx_keyimges_as_spent bc tx = false /\
  (tx_alias (extra (prefix tx)) = [] \/ get_alias_address bc (tx_alias (extra (prefix tx))) = []).

Lemma recheck_spec bc d r d' : recheck bc d = (r, d') ->
  same_core d d' /\ (r = true -> exists mh mid, (check_tx_inputs bc (td_tx d) mh mid false (fun _ => false)).1.1.1 = true).
Proof.
  unfold recheck. destruct (check_tx_inputs bc (td_tx d) _ _ _ _) as [[[ok mh] mid] tvc] eqn:E.
  destruct ok; intros [= <- <-]; (split; [done|]); intros; [|done].
  exists (max_used_block_height d), (max_used_block_id d). by rewrite E.
Qed.

Lemma ready_spec bc d r d' : is_transaction_ready_to_go bc d = (r, d') ->
  same_core d d' /\ (r = true -> passes bc (td_tx d)).
Proof.
  unfold is_transaction_ready_to_go.
  set (chk := if bool_decide (max_used_block_id d = null_hash) then _ else _).
  destruct chk as [ok d1] eqn:E.
  assert (Hc : same_core d d1 /\
    (ok = true -> exists mh mid, (check_tx_inputs bc (td_tx d) mh mid false (fun _ => false)).1.1.1 = true)).
  { subst chk. repeat case_bool; try (by injection E as <- <-); by apply recheck_spec. }
  destruct Hc as [Hs Ho]. destruct ok; cbn [negb]; [|by intros [= <- <-]].
  assert (Et : td_tx d1 = td_tx d) by apply Hs. rewrite Et.
  destruct (chain_have_tx_keyimges_as_spent bc (td_tx d)) eqn:Es; [by intros [= <- <-]|].
  case_bool; intros [= <- <-]; (split; [done|]); intros; [done|].
  split; [by apply Ho|]. split; [done|]. apply andb_false_iff in Heqb as [Hx|Hx]; apply negb_false_iff, bool_decide_eq_true in Hx; auto.
Qed.

Lemma have_key_images_false ks l :
  forallb (fun i => match i with In_to_key _ => true | _ => false end) l = true ->
  have_key_images ks l = false -> forall k, k ∈ images l -> k ∉ ks.
Proof.
  induction l as [|i l IH]; intros Ht H k Hk; [by apply elem_of_nil in Hk|].
  apply types_supported_cons in Ht as (x & -> & Ht). cbn in H, Hk. case_bool_decide as Hx; [done|].
  apply elem_of_cons in Hk as [->|Hk]; [done|by apply IH].
Qed.

Lemma append_key_images_spec l : forall ks,
  forallb (fun i => match i with In_to_key _ => true | _ => false end) l = true ->
  NoDup (images l) -> (forall k, k ∈ images l -> k ∉ ks) ->
  exists ks', append_key_images ks l = (true, ks') /\ forall k, k ∈ ks' <-> k ∈ ks \/ k ∈ images l.
Proof.
  induction l as [|i l IH]; intros ks Ht Hnd Hd.
  { exists ks. split; [done|]. intros k. cbn. rewrite elem_of_nil. naive_solver. }
  apply types_supported_cons in Ht as (x & -> & Ht). cbn in Hnd, Hd. cbn [append_key_images to_key].
  change (omap (fun i => k_image <$> to_key i) l) with (images l) in *. apply NoDup_cons in Hnd as [Hx Hnd].
  rewrite bool_decide_false by (apply Hd; by left).
  destruct (IH ({[k_image x]} ∪ ks)) as (ks' & -> & Hk'); [done|done| |].
  { intros k Hk. rewrite elem_of_union, elem_of_singleton. intros [->|Hin]; [done|]. by apply (Hd k); [right|]. }
  exists ks'. split; [done|]. intros k. rewrite Hk', elem_of_union, elem_of_singleton. cbn.
  change (omap (fun i => k_image <$> to_key i) l) with (images l). rewrite elem_of_cons. naive_solver.
Qed.

Section Template.
Context (bc : Blockchain) (median_size coins height : Z) (hashes : list hash) (p : tx_memory_pool).

(** What the loop maintains: [sel] are the ids chosen so far, [ds] their
    details. *)
Definition chosen (t : template) (sel : list hash) (ds : list tx_details) : Prop :=
  t_hashes t = hashes ++ sel /\
  Forall2 (fun id d => m_transactions p !! id = Some d /\ passes bc (td_tx d)) sel ds /\
  total_size t = u64 (sum (map blob_size ds)) /\ t_fee t = u64 (sum (map fee ds)) /\
  NoDup (concat (map (fun d => tx_images (td_tx d)) ds)) /\
  (forall k, k ∈ k_images t <-> k ∈ concat (map (fun d => tx_images (td_tx d)) ds)) /\
  (sel <> [] -> is_Some (get_block_reward median_size (total_size t +w CRYPTONOTE_COINBASE_BLOB_RESERVED_SIZE)
                           coins height)).

Lemma sum_snoc l x : sum (l ++ [x]) = sum l + x.
Proof. rewrite sum_app. cbn. lia. Qed.

(** One more transaction is chosen. *)
Lemma chosen_snoc t sel ds id d r cb :
  pool_ok p -> chosen t sel ds -> m_transactions p !! id = Some d -> passes bc (td_tx d) ->
  get_block_reward median_size ((total_size t +w blob_size d) +w CRYPTONOTE_COINBASE_BLOB_RESERVED_SIZE) coins height = Some r ->
  have_key_images (k_images t) (vin (prefix (td_tx d))) = false ->
  chosen (MkTemplate (t_hashes t ++ [id]) (total_size t +w blob_size d) (t_fee t +w fee d) cb
            (append_key_images (k_images t) (vin (prefix (td_tx d)))).2) (sel ++ [id]) (ds ++ [d]).
Proof.
  intros Hp (C1 & C2 & C3 & C4 & C5 & C6 & C7) Hd Hpass Hr Hk.
  destruct (ok_hash p Hp id d Hd) as [_ [Ht Hnd]].
  pose proof (have_key_images_false _ _ Ht Hk) as Hfree.
  destruct (append_key_images_spec (vin (prefix (td_tx d))) (k_images t) Ht Hnd Hfree) as (ks & -> & Hks).
  split; [cbn; by rewrite C1, app_assoc|]. split; [apply Forall2_app; [done|by constructor]|].
  cbn [total_size t_fee k_images snd]. rewrite !map_app, concat_app. cbn [map]. rewrite !sum_snoc, C3, C4, !wrap_add_l.
  split; [done|]. split; [done|]. cbn [map concat]. rewrite app_nil_r. split.
  { apply NoDup_app. split; [done|]. split; [|done]. intros k Hc%C6 Hi. by eapply Hfree. }
  split; [|intros _; exists r; rewrite C3, wrap_add_l, <- Z.add_assoc, wrap_add_l, Z.add_assoc in Hr; exact Hr].
  intros k. rewrite Hks, C6, elem_of_app. done.
Qed.

(** One turn of the loop. *)
Lemma consider_spec t sel ds p1 e :
  pool_ok p -> refreshed p p1 -> chosen t sel ds -> is_Some (m_transactions p !! e_id e) ->
  exists t' p1' sel' ds', consider bc median_size coins height (t, p1) e = Some (t', p1') /\
    refreshed p p1' /\ chosen t' sel' ds' /\ (sel' = sel \/ sel' = sel ++ [e_id e]).
Proof.
  intros Hp Hr Hc [d Hd]. unfold consider.
  destruct (refreshed_lookup_l p p1 _ d Hr Hd) as (d1 & Hd1 & Hs1). rewrite Hd1. cbn [mbind option_bind].
  destruct Hs1 as (E1 & E2 & E3 & E4 & E5). rewrite E2, E3.
  destruct (get_block_reward _ _ _ _) as [r|] eqn:Hrew; [|exists t, p1, sel, ds; auto].
  case_bool; [exists t, p1, sel, ds; auto|].
  destruct (is_transaction_ready_to_go bc d1) as [ready d2] eqn:Erdy.
  apply ready_spec in Erdy as [(F1 & F2 & F3 & F4 & F5) Hpass].
  assert (Hr2 : refreshed p (set_transactions (<[e_id e := d2]> (m_transactions p1)) p1)).
  { eapply refreshed_insert; [done|exact Hd|]. split; [congruence|]. repeat split; congruence. }
  destruct ready; cbn [negb]; [|eexists _, _, sel, ds; eauto].
  rewrite F1, E1. case_bool; [eexists _, _, sel, ds; eauto|].
  rewrite F2, F3, E2, E3. eexists _, _, (sel ++ [e_id e]), (ds ++ [d]). split; [reflexivity|]. split; [done|].
  split; [|by right]. eapply chosen_snoc; try done. rewrite <- E1. by apply Hpass.
Qed.

Lemma fill_loop_spec es : forall t sel ds p1,
  pool_ok p -> refreshed p p1 -> chosen t sel ds -> (forall e, e ∈ es -> is_Some (m_transactions p !! e_id e)) ->
  exists t' p1' more ds', fill_loop bc median_size coins height es (t, p1) = Some (t', p1') /\
    refreshed p p1' /\ chosen t' (sel ++ more) ds' /\ sublist more (map e_id es).
Proof.
  induction es as [|e es IH]; intros t sel ds p1 Hp Hr Hc He.
  { exists t, p1, [], ds. rewrite app_nil_r. auto. }
  cbn [fill_loop].
  destruct (consider_spec t sel ds p1 e) as (t' & p1' & sel' & ds' & -> & Hr' & Hc' & Hsel); try done; [apply He; by left|].
  cbn [mbind option_bind].
  destruct (IH t' sel' ds' p1') as (t2 & p2 & more & ds2 & E & Hr2 & Hc2 & Hs2); try done; [intros e' He'; apply He; by right|].
  rewrite E. destruct Hsel as [-> | ->].
  - exists t2, p2, more, ds2. split; [done|]. split; [done|]. split; [done|]. by constructor.
  - exists t2, p2, (e_id e :: more), ds2. rewrite <- app_assoc in Hc2. split; [done|]. split; [done|]. split; [done|]. by constructor.
Qed.

End Template.

Lemma fill_block_template_spec bc hashes median_size coins height p :
  pool_ok p ->
  exists t p' sel ds,
    fill_block_template bc hashes median_size coins height p = Some (t, p') /\ refreshed p p' /\ pool_ok p' /\
    t_hashes t = hashes ++ sel /\ NoDup sel /\ sublist sel (map e_id (m_txs_by_fee_and_receive_time p)) /\
    Forall2 (fun id d => m_transactions p !! id = Some d /\ passes bc (td_tx d)) sel ds /\
    NoDup (concat (map (fun d => tx_images (td_tx d)) ds)) /\
    total_size t = u64 (sum (map blob_size ds)) /\ t_fee t = u64 (sum (map fee ds)) /\
    (sel <> [] -> is_Some (get_block_reward median_size (total_size t +w CRYPTONOTE_COINBASE_BLOB_RESERVED_SIZE)
                             coins height)).
Proof.
  intros Hp. unfold fill_block_template.
  destruct (fill_loop_spec bc median_size coins height hashes p (m_txs_by_fee_and_receive_time p)
    (MkTemplate hashes 0 0 (default 0 (get_block_reward median_size 0 coins height)) ∅) [] [] p)
    as (t & p' & sel & ds & E & Hr & (C1 & C2 & C3 & C4 & C5 & C6 & C7) & Hs); [done|apply refreshed_refl| | |].
  - split; [cbn; by rewrite app_nil_r|]. split; [constructor|]. split; [done|]. split; [done|]. split; [constructor|].
    split; [|done]. intros k. cbn. rewrite elem_of_nil. split; [by intros ?%not_elem_of_empty|done].
  - intros e He. apply (ok_entries p Hp), map_e_id_elem, He.
  - exists t, p', sel, ds. split; [done|]. split; [exact Hr|]. split; [by eapply refreshed_ok|]. split; [done|].
    split; [eapply sublist_NoDup; [apply (ok_nodup p Hp)|exact Hs]|]. done.
Qed.

(** [C24] A block template is safe: [fill_block_template] always returns; the
    transactions it adds are different transactions of the pool, in the order
    of the sorted container, whose inputs the chain accepts and whose key
    images and aliases it does not know; no key image occurs twice among them;
    size and fee are the sums over them; the block with the space reserved for
    the miner transaction has a reward; and the pool stays consistent. *)
Theorem fill_block_template_correct bc hashes median_size coins height p :
  pool_ok p ->
  exists t p' sel ds,
    fill_block_template bc hashes median_size coins height p = Some (t, p') /\ pool_ok p' /\
    t_hashes t = hashes ++ sel /\ NoDup sel /\ sublist sel (map e_id (m_txs_by_fee_and_receive_time p)) /\
    Forall2 (fun id d => m_transactions p !! id = Some d /\ passes bc (td_tx d)) sel ds /\
    NoDup (concat (map (fun d => tx_images (td_tx d)) ds)) /\
    total_size t = u64 (sum (map blob_size ds)) /\ t_fee t = u64 (sum (map fee ds)) /\
    (sel <> [] -> is_Some (get_block_reward median_size (total_size t +w CRYPTONOTE_COINBASE_BLOB_RESERVED_SIZE)
                             coins height)).
Proof.
  intros Hp. destruct (fill_block_template_spec bc hashes median_size coins height p Hp) as (t & p' & sel & ds & E & _ & H). by exists t, p', sel, ds.
Qed.

(** ** Start-up *)

Lemma rebuild_fold (l : list (hash * tx_details)) : forall p,
  NoDup l.*1 -> (forall it, it ∈ l -> it.1 ∉ map e_id (m_txs_by_fee_and_receive_time p)) ->
  StronglySorted ahead (m_txs_by_fee_and_receive_time p) ->
  let p' := fold_left (fun p it =>
    set_sorted (emplace (MkEntry (fee_per_size_ratio (fee it.2) (blob_size it.2)) (receive_time it.2) it.1)
                  (m_txs_by_fee_and_receive_time p)) p) l p in
  StronglySorted ahead (m_txs_by_fee_and_receive_time p') /\
  m_txs_by_fee_and_receive_time p' ≡ₚ
    map (fun it => MkEntry (fee_per_size_ratio (fee it.2) (blob_size it.2)) (receive_time it.2) it.1) l ++
    m_txs_by_fee_and_receive_time p /\
  p' = set_sorted (m_txs_by_fee_and_receive_time p') p.
Proof.
  induction l as [|it l IH]; intros p Hnd Hnew Hs; [split; [done|]; split; [done|]; by destruct p|].
  cbn [fold_left map]. apply NoDup_cons in Hnd as [Hni Hnd].
  set (x := MkEntry _ _ it.1). set (p1 := set_sorted _ p).
  assert (Hperm : emplace x (m_txs_by_fee_and_receive_time p) ≡ₚ x :: m_txs_by_fee_and_receive_time p).
  { apply emplace_elem. intros y Hy E. apply (Hnew it); [by left|]. change it.1 with (e_id x). rewrite <- E.
    by apply map_e_id_elem. }
  destruct (IH p1) as (H1 & H2 & H3); [done| |by apply emplace_sorted|].
  { intros it' Hit'. cbn. rewrite Hperm. cbn [map]. intros [E|Hin]%elem_of_cons; [|by apply (Hnew it'); [right|]].
    apply Hni. change (e_id x) with it.1 in E. rewrite <- E. by apply list_elem_of_fmap_2. }
  split; [done|]. split; [|rewrite H3 at 1; by destruct p].
  rewrite H2. cbn [p1 set_sorted m_txs_by_fee_and_receive_time]. rewrite Hperm. symmetry. apply Permutation_middle.
Qed.

Lemma rebuild_sorted_spec p : m_txs_by_fee_and_receive_time p = [] ->
  let p' := rebuild_sorted p in
  StronglySorted ahead (m_txs_by_fee_and_receive_time p') /\
  m_txs_by_fee_and_receive_time p' ≡ₚ
    map (fun it => MkEntry (fee_per_size_ratio (fee it.2) (blob_size it.2)) (receive_time it.2) it.1)
      (map_to_list (m_transactions p)) /\
  p' = set_sorted (m_txs_by_fee_and_receive_time p') p.
Proof.
  intros He. destruct (rebuild_fold (map_to_list (m_transactions p)) p) as (H1 & H2 & H3);
    [apply NoDup_fst_map_to_list|intros; rewrite He; apply not_elem_of_nil|rewrite He; constructor|].
  rewrite He, app_nil_r in H2. done.
Qed.

Lemma entries_perm p : pool_ok p ->
  map (fun it => MkEntry (fee_per_size_ratio (fee it.2) (blob_size it.2)) (receive_time it.2) it.1)
    (map_to_list (m_transactions p)) ≡ₚ m_txs_by_fee_and_receive_time p.
Proof.
  intros Hp. apply NoDup_Permutation.
  - eapply (NoDup_fmap_1 e_id). rewrite <- list_fmap_compose. apply NoDup_fst_map_to_list.
  - eapply (NoDup_fmap_1 e_id), (ok_nodup p Hp).
  - intros x. rewrite list_elem_of_fmap. split.
    + intros ([id d] & -> & Hd%elem_of_map_to_list). cbn [fst snd].
      assert (Hin : id ∈ map e_id (m_txs_by_fee_and_receive_time p)) by (apply (ok_entries p Hp); by eexists).
      apply list_elem_of_fmap in Hin as (e & -> & He). destruct (ok_details p Hp e d He Hd) as [E1 E2]. rewrite <- E1, <- E2. by destruct e.
    + intros He. destruct (proj1 (ok_entries p Hp (e_id x)) (map_e_id_elem _ _ He)) as [d Hd].
      exists (e_id x, d). rewrite elem_of_map_to_list. split; [|done].
      destruct (ok_details p Hp x d He Hd) as [E1 E2]. cbn [fst snd]. rewrite <- E1, <- E2. by destruct x.
Qed.

(** Stopping and starting again keeps the pool: [init] on the file [store]
    wrote gives a consistent pool with the same transactions, claims and timed
    out transactions, and the sorted container, which is not stored, is rebuilt
    with the same entries, in order. *)
Theorem init_store p :
  pool_ok p ->
  let p' := init (Some (inl (store p))) in
  pool_ok p' /\ store p' = store p /\ m_txs_by_fee_and_receive_time p' ≡ₚ m_txs_by_fee_and_receive_time p.
Proof.
  intros Hp p'. destruct (rebuild_sorted_spec
    (MkPool (m_transactions p) (m_spent_key_images p) (m_pending_aliases p) [] (m_timed_out_transactions p)) eq_refl)
    as (H1 & H2 & H3).
  change (rebuild_sorted _) with p' in H1, H2, H3. cbn [m_transactions] in H2. clearbody p'.
  assert (Hperm : m_txs_by_fee_and_receive_time p' ≡ₚ m_txs_by_fee_and_receive_time p).
  { rewrite H2. apply entries_perm, Hp. }
  split; [|split; [rewrite H3; by destruct p|done]].
  rewrite H3. destruct Hp. split; try done; cbn.
  - by rewrite Hperm.
  - intros id. rewrite Hperm. auto.
  - intros e d. rewrite Hperm. auto.
Qed.

End Invariant.

(** * Examples *)

(** A chain that accepts everything and knows nothing. *)
Definition sample_chain : Blockchain :=
  MkBlockchain (fun _ _ => true) (fun _ tvc => (true, tvc)) (fun _ _ _ _ tvc => (true, 5, null_hash, tvc))
    (fun _ => false) (fun _ => false) (fun _ => []) 10 (fun _ => null_hash).
Definition sample_spend (k fee : Z) : transaction :=
  MkTransaction (MkPrefix 2 0 [In_to_key (MkTxinToKey 0 (replicate 7 1) (replicate 32 k))] [] []) []
    (MkRctSig 0 fee [] [] [] [] []).
Definition sample_id (k fee : Z) : hash := @tx_hash truncating_FastHash (sample_spend k fee).
Definition sample_details (k fee : Z) : tx_details :=
  MkDetails (sample_spend k fee) 1000 fee null_hash 5 false 0 null_hash 100 100 false.
Definition no_flags : tx_verification_context := fun _ => false.

Definition sample_pool : tx_memory_pool :=
  (index_tx (sample_spend 3 5000000) (sample_id 3 5000000) 1000 5000000 false 100 [] no_flags
     (set_transactions {[sample_id 3 5000000 := sample_details 3 5000000]} (MkPool ∅ ∅ ∅ [] ∅))).1.2.

Lemma sample_pool_ok : @pool_ok truncating_FastHash sample_pool.
Proof.
  destruct (@index_tx_ok truncating_FastHash (sample_id 3 5000000) 100 no_flags (MkPool ∅ ∅ ∅ [] ∅) (sample_details 3 5000000))
    as (p' & tvc' & E & Hp & _); try done.
  - apply empty_pool_ok.
  - split; [done|]. repeat constructor. intros H. by apply elem_of_nil in H.
  - unfold sample_pool. change (tx_alias (extra (prefix (td_tx (sample_details 3 5000000))))) with (@nil Z) in E.
    change (td_tx (sample_details 3 5000000)) with (sample_spend 3 5000000) in E.
    change (blob_size (sample_details 3 5000000)) with 1000 in E. change (fee (sample_details 3 5000000)) with 5000000 in E.
    change (kept_by_block (sample_details 3 5000000)) with false in E. cbn [m_transactions] in E.
    rewrite insert_empty in E. by rewrite E.
Qed.

Lemma add_tx_correct_witness :
  (add_tx sample_chain 200 (0, null_hash) (sample_spend 4 10) (sample_id 4 10) 1000 no_flags false false sample_pool).1.1 = true /\
  @add_outcome truncating_FastHash sample_chain (sample_spend 4 10) (sample_id 4 10) 1000 no_flags false sample_pool
    (add_tx sample_chain 200 (0, null_hash) (sample_spend 4 10) (sample_id 4 10) 1000 no_flags false false sample_pool).
Proof.
  split; [vm_compute; reflexivity|].
  apply (@add_tx_correct truncating_FastHash sample_chain 200 (0, null_hash) (sample_spend 4 10) (sample_id 4 10) 1000
           no_flags false false sample_pool sample_pool_ok eq_refl).
  constructor; [apply not_elem_of_nil|constructor].
Defined.

Lemma take_tx_correct_witness :
  exists p', @take_tx truncating_FastHash (sample_id 3 5000000) sample_pool =
    Some (sample_spend 3 5000000, 1000, 5000000, false, p') /\ @pool_ok truncating_FastHash p'.
Proof.
  pose proof (@take_tx_correct truncating_FastHash (sample_id 3 5000000) sample_pool sample_pool_ok) as H.
  assert (E : m_transactions sample_pool !! sample_id 3 5000000 = Some (sample_details 3 5000000)) by (vm_compute; reflexivity).
  rewrite E in H. destruct H as (p' & H1 & H2 & _). exists p'. exact (conj H1 H2).
Defined.

Lemma remove_stuck_transactions_correct_witness :
  is_stuck 86501 (sample_details 3 5000000) = true /\
  @pool_ok truncating_FastHash (@remove_stuck_transactions truncating_FastHash 86501 sample_pool).
Proof.
  split; [reflexivity|]. apply (@remove_stuck_transactions_correct truncating_FastHash 86501 sample_pool sample_pool_ok).
Defined.

Lemma fill_block_template_correct_witness :
  exists t p', fill_block_template sample_chain [] 60000 0 5 sample_pool = Some (t, p') /\
    @pool_ok truncating_FastHash p' /\ t_hashes t = [sample_id 3 5000000].
Proof.
  destruct (@fill_block_template_correct truncating_FastHash sample_chain [] 60000 0 5 sample_pool sample_pool_ok)
    as (t & p' & sel & ds & E & Hp & _).
  exists t, p'. split; [exact E|]. split; [exact Hp|]. apply (inj Some).
  transitivity ((fun x => t_hashes x.1) <$> fill_block_template sample_chain [] 60000 0 5 sample_pool);
    [rewrite E; reflexivity|vm_compute; reflexivity].
Defined.

Lemma init_store_witness :
  @pool_ok truncating_FastHash (init (Some (inl (store sample_pool)))) /\
  store (init (Some (inl (store sample_pool)))) = store sample_pool.
Proof.
  destruct (@init_store truncating_FastHash sample_pool sample_pool_ok) as (H1 & H2 & _). exact (conj H1 H2).
Defined.

(** [template_accept_threshold] computes in single precision: it may exceed the
    amount, and then a transaction that leaves the reward as it is, is left
    out. *)
Example threshold_above : template_accept_threshold 90020000000 = 90020003840.
Proof. vm_compute. reflexivity. Qed.

(** [validate] leaves the alias of a transaction it removes pending. *)
Definition sample_alias_tx : transaction :=
  MkTransaction (MkPrefix 2 0 [In_to_key (MkTxinToKey 0 (replicate 7 1) (replicate 32 9))] []
    ([2; 3; 2; 65; 98] ++ [2; 1; 3] ++ [2; 1; 4])) [] (MkRctSig 0 10 [] [] [] [] []).

Example validate_keeps_alias :
  let id := @tx_hash truncating_FastHash sample_alias_tx in
  let p := (add_tx sample_chain 200 (0, null_hash) sample_alias_tx id 1000 no_flags false false (MkPool ∅ ∅ ∅ [] ∅)).1.2 in
  let chain := MkBlockchain (fun _ _ => true) (fun _ tvc => (true, tvc)) (fun _ _ _ _ tvc => (true, 5, null_hash, tvc))
    (fun _ => true) (fun _ => false) (fun _ => []) 10 (fun _ => null_hash) in
  let p' := (@validate truncating_FastHash chain p).2 in
  (has_alias p [97; 98], have_tx p id, has_alias p' [97; 98], have_tx p' id) = (true, true, true, false).
Proof. vm_compute. reflexivity. Qed.

End TxPool.
