(* ===== verification/Database.v ===== *)
(** * The database of the chain

    Model of [src/blockchain_db/blockchain_db.cpp] and of the tables of
    [src/blockchain_db/lmdb/db_lmdb.cpp]: how blocks, transactions, outputs,
    spent key images and aliases are stored and removed.

    LMDB is a parameter of the code; of it the model has what the code relies
    on: a table is a finite map, [MDB_APPEND] refuses a key that is not above
    all others, and aborting a write transaction restores the tables.  The
    object also has members that are not part of a transaction: the counters and
    the cache of aliases.  An operation is a function from the object to the
    object and either its result or the exception it throws, so that what a
    failed operation leaves behind is visible. *)
From stdpp Require Import gmap.
From S2P Require Import Prelude Varint Keccak Base58 Serialization Basic TxExtra FormatUtils Address HardFork.
Import Varint Base58 Serialization Basic TxExtra FormatUtils Address.
#[local] Set Warnings "-clear-no-such-hyp".

Module Database.

(** What the database uses of the other components. *)
Class DbCrypto := {
  (** [crypto::check_key] *)
  check_key : public_key -> bool;
  (** [crypto::check_signature] *)
  check_signature : hash -> public_key -> signature -> bool;
  (** [rct::zeroCommit] *)
  zeroCommit : Z -> key
}.

Inductive db_error :=
  | BLOCK_EXISTS | BLOCK_PARENT_DNE | BLOCK_DNE | TX_EXISTS | TX_DNE | OUTPUT_DNE | KEY_IMAGE_EXISTS | DB_ERROR.

(** ** Tables *)

Record mdb_block_info := MkBlockInfo {
  bi_timestamp : Z;
  bi_coins : Z;
  bi_size : Z;
  bi_diff : Z;
  bi_hash : hash
}.
Record tx_data_t := MkTxData { td_tx_id : nat; td_unlock_time : Z; td_block_id : nat }.
Record output_data_t := MkOutputData {
  od_pubkey : public_key;
  od_unlock_time : Z;
  od_height : nat;
  od_commitment : key
}.
Record outkey := MkOutkey { ok_output_id : nat; ok_data : output_data_t }.

(** The tables of the schema; [block_info] and [output_amounts] are keyed by the
    prefix of their data that is compared.  An amount without outputs is not in
    [output_amounts]. *)
Record tables := MkTables {
  m_blocks : gmap nat (list Z);
  m_block_heights : gmap hash nat;
  m_block_info : gmap nat mdb_block_info;
  m_txs : gmap nat (list Z);
  m_tx_indices : gmap hash tx_data_t;
  m_tx_outputs : gmap nat (list nat);
  m_output_txs : gmap nat (hash * nat);
  m_output_amounts : gmap Z (gmap nat outkey);
  m_spent_keys : gset key_image;
  m_aliases : gmap (list Z) (list Z);
  m_hf_versions : gmap nat Z
}.

(** The object.  [m_hardfork] points to the object the chain has too. *)
Record BlockchainLMDB := MkDb {
  tbl : tables;
  m_height : nat;
  m_num_txs : nat;
  m_num_outputs : nat;
  m_aliases_multi_index : gmap (list Z) (nat * list Z);
  m_hardfork : HardFork.HardFork;
  m_batch_active : bool
}.

Definition set_tbl t db :=
  MkDb t (m_height db) (m_num_txs db) (m_num_outputs db) (m_aliases_multi_index db) (m_hardfork db) (m_batch_active db).
Definition set_height h db :=
  MkDb (tbl db) h (m_num_txs db) (m_num_outputs db) (m_aliases_multi_index db) (m_hardfork db) (m_batch_active db).
Definition set_num_txs n db :=
  MkDb (tbl db) (m_height db) n (m_num_outputs db) (m_aliases_multi_index db) (m_hardfork db) (m_batch_active db).
Definition set_num_outputs n db :=
  MkDb (tbl db) (m_height db) (m_num_txs db) n (m_aliases_multi_index db) (m_hardfork db) (m_batch_active db).
Definition set_alias_cache c db :=
  MkDb (tbl db) (m_height db) (m_num_txs db) (m_num_outputs db) c (m_hardfork db) (m_batch_active db).
Definition set_hardfork hf db :=
  MkDb (tbl db) (m_height db) (m_num_txs db) (m_num_outputs db) (m_aliases_multi_index db) hf (m_batch_active db).
Definition set_batch_active b db :=
  MkDb (tbl db) (m_height db) (m_num_txs db) (m_num_outputs db) (m_aliases_multi_index db) (m_hardfork db) b.

(** Updates of one table. *)
Definition set_blocks x t := MkTables x (m_block_heights t) (m_block_info t) (m_txs t) (m_tx_indices t)
  (m_tx_outputs t) (m_output_txs t) (m_output_amounts t) (m_spent_keys t) (m_aliases t) (m_hf_versions t).
Definition set_block_heights x t := MkTables (m_blocks t) x (m_block_info t) (m_txs t) (m_tx_indices t)
  (m_tx_outputs t) (m_output_txs t) (m_output_amounts t) (m_spent_keys t) (m_aliases t) (m_hf_versions t).
Definition set_block_info x t := MkTables (m_blocks t) (m_block_heights t) x (m_txs t) (m_tx_indices t)
  (m_tx_outputs t) (m_output_txs t) (m_output_amounts t) (m_spent_keys t) (m_aliases t) (m_hf_versions t).
Definition set_txs x t := MkTables (m_blocks t) (m_block_heights t) (m_block_info t) x (m_tx_indices t)
  (m_tx_outputs t) (m_output_txs t) (m_output_amounts t) (m_spent_keys t) (m_aliases t) (m_hf_versions t).
Definition set_tx_indices x t := MkTables (m_blocks t) (m_block_heights t) (m_block_info t) (m_txs t) x
  (m_tx_outputs t) (m_output_txs t) (m_output_amounts t) (m_spent_keys t) (m_aliases t) (m_hf_versions t).
Definition set_tx_outputs x t := MkTables (m_blocks t) (m_block_heights t) (m_block_info t) (m_txs t)
  (m_tx_indices t) x (m_output_txs t) (m_output_amounts t) (m_spent_keys t) (m_aliases t) (m_hf_versions t).
Definition set_output_txs x t := MkTables (m_blocks t) (m_block_heights t) (m_block_info t) (m_txs t)
  (m_tx_indices t) (m_tx_outputs t) x (m_output_amounts t) (m_spent_keys t) (m_aliases t) (m_hf_versions t).
Definition set_output_amounts x t := MkTables (m_blocks t) (m_block_heights t) (m_block_info t) (m_txs t)
  (m_tx_indices t) (m_tx_outputs t) (m_output_txs t) x (m_spent_keys t) (m_aliases t) (m_hf_versions t).
Definition set_spent_keys x t := MkTables (m_blocks t) (m_block_heights t) (m_block_info t) (m_txs t)
  (m_tx_indices t) (m_tx_outputs t) (m_output_txs t) (m_output_amounts t) x (m_aliases t) (m_hf_versions t).
Definition set_aliases x t := MkTables (m_blocks t) (m_block_heights t) (m_block_info t) (m_txs t)
  (m_tx_indices t) (m_tx_outputs t) (m_output_txs t) (m_output_amounts t) (m_spent_keys t) x (m_hf_versions t).
Definition set_hf_versions x t := MkTables (m_blocks t) (m_block_heights t) (m_block_info t) (m_txs t)
  (m_tx_indices t) (m_tx_outputs t) (m_output_txs t) (m_output_amounts t) (m_spent_keys t) (m_aliases t) x.

(** ** Operations *)

Definition M (A : Type) : Type := BlockchainLMDB -> BlockchainLMDB * (db_error + A).
Definition returns {A} (x : A) : M A := fun db => (db, inr x).
Definition throw {A} (e : db_error) : M A := fun db => (db, inl e).
#[export] Instance M_bind : MBind M := fun A B f m db =>
  match m db with
  | (db, inl e) => (db, inl e)
  | (db, inr x) => f x db
  end.
Definition get : M BlockchainLMDB := fun db => (db, inr db).
Definition modify (f : BlockchainLMDB -> BlockchainLMDB) : M () := fun db => (f db, inr tt).
Definition modify_tables (f : tables -> tables) : M () := modify (fun db => set_tbl (f (tbl db)) db).
Definition require {A} (e : db_error) (o : option A) : M A :=
  match o with Some x => returns x | None => throw e end.
Definition ensure (e : db_error) (b : bool) : M () := if b then returns tt else throw e.

(** [MDB_APPEND]: the key has to be above all others. *)
Definition appendable {A} (k : nat) (m : gmap nat A) : bool := bool_decide (map_Forall (fun k' _ => (k' < k)%nat) m).

(** ** Reading *)

Definition block_exists (db : BlockchainLMDB) (h : hash) : bool := bool_decide (is_Some (m_block_heights (tbl db) !! h)).
Definition get_block_height (db : BlockchainLMDB) (h : hash) : option nat := m_block_heights (tbl db) !! h.
Definition get_block_from_height (db : BlockchainLMDB) (height : nat) : option block :=
  bd ← m_blocks (tbl db) !! height; parse_binary read_block bd.
Definition get_block (db : BlockchainLMDB) (h : hash) : option block :=
  height ← get_block_height db h; get_block_from_height db height.
Definition get_block_timestamp (db : BlockchainLMDB) (height : nat) : option Z :=
  bi_timestamp <$> m_block_info (tbl db) !! height.
Definition get_top_block_timestamp (db : BlockchainLMDB) : option Z :=
  if (m_height db =? 0)%nat then Some 0 else get_block_timestamp db (m_height db - 1).
Definition get_block_size (db : BlockchainLMDB) (height : nat) : option Z :=
  bi_size <$> m_block_info (tbl db) !! height.
Definition get_block_cumulative_difficulty (db : BlockchainLMDB) (height : nat) : option Z :=
  bi_diff <$> m_block_info (tbl db) !! height.
Definition get_block_difficulty (db : BlockchainLMDB) (height : nat) : option Z :=
  diff1 ← get_block_cumulative_difficulty db height;
  diff2 ← (if (height =? 0)%nat then Some 0 else get_block_cumulative_difficulty db (height - 1));
  Some (diff1 -w diff2).
Definition get_block_already_generated_coins (db : BlockchainLMDB) (height : nat) : option Z :=
  bi_coins <$> m_block_info (tbl db) !! height.
Definition get_block_hash_from_height (db : BlockchainLMDB) (height : nat) : option hash :=
  bi_hash <$> m_block_info (tbl db) !! height.
Definition get_blocks_range (db : BlockchainLMDB) (h1 h2 : nat) : option (list block) :=
  mapM (get_block_from_height db) (seq h1 (h2 + 1 - h1)).
Definition get_hashes_range (db : BlockchainLMDB) (h1 h2 : nat) : option (list hash) :=
  mapM (get_block_hash_from_height db) (seq h1 (h2 + 1 - h1)).
Definition top_block_hash (db : BlockchainLMDB) : option hash :=
  if (m_height db =? 0)%nat then Some null_hash else get_block_hash_from_height db (m_height db - 1).
Definition get_top_block (db : BlockchainLMDB) : option block :=
  if (m_height db =? 0)%nat then None else get_block_from_height db (m_height db - 1).

Definition tx_exists (db : BlockchainLMDB) (h : hash) : bool := bool_decide (is_Some (m_tx_indices (tbl db) !! h)).
Definition get_tx_unlock_time (db : BlockchainLMDB) (h : hash) : option Z :=
  td_unlock_time <$> m_tx_indices (tbl db) !! h.
Definition get_tx_block_height (db : BlockchainLMDB) (h : hash) : option nat :=
  td_block_id <$> m_tx_indices (tbl db) !! h.
Definition get_tx (db : BlockchainLMDB) (h : hash) : option transaction :=
  ti ← m_tx_indices (tbl db) !! h;
  bd ← m_txs (tbl db) !! td_tx_id ti;
  parse_binary read_transaction bd.
(** What [get_tx] throws: a blob that does not parse is another error. *)
Definition get_tx_error (db : BlockchainLMDB) (h : hash) : db_error :=
  match m_tx_indices (tbl db) !! h ≫= fun ti => m_txs (tbl db) !! td_tx_id ti with
  | Some _ => DB_ERROR
  | None => TX_DNE
  end.
Definition get_tx_count (db : BlockchainLMDB) : nat := size (m_tx_indices (tbl db)).
Definition get_tx_list (db : BlockchainLMDB) (hlist : list hash) : option (list transaction) := mapM (get_tx db) hlist.

Definition amount_outputs (t : tables) (amount : Z) : gmap nat outkey := default ∅ (m_output_amounts t !! amount).
Definition get_num_outputs (db : BlockchainLMDB) (amount : Z) : nat := size (amount_outputs (tbl db) amount).
Definition get_output_tx_and_index_from_global (db : BlockchainLMDB) (output_id : nat) : option (hash * nat) :=
  m_output_txs (tbl db) !! output_id.
Definition get_output_tx_and_index (db : BlockchainLMDB) (amount : Z) (index : nat) : option (hash * nat) :=
  ok ← amount_outputs (tbl db) amount !! index;
  get_output_tx_and_index_from_global db (ok_output_id ok).
(** An absent entry is an empty list. *)
Definition get_tx_amount_output_indices (db : BlockchainLMDB) (tx_id : nat) : list nat :=
  default [] (m_tx_outputs (tbl db) !! tx_id).
Definition has_key_image (db : BlockchainLMDB) (img : key_image) : bool := bool_decide (img ∈ m_spent_keys (tbl db)).

Definition CRYPTONOTE_DEFAULT_TX_SPENDABLE_AGE : nat := 10.
Definition get_alias_address (db : BlockchainLMDB) (alias : list Z) (get_if_premature : bool) : list Z :=
  match m_aliases_multi_index db !! alias with
  | Some (height, address) =>
      if get_if_premature || (height + CRYPTONOTE_DEFAULT_TX_SPENDABLE_AGE <=? m_height db)%nat then address else []
  | None => []
  end.

(** ** Aliases in the extra field *)

(** The nonces number 0, 1 and 2 without their tags, when they have the tags of
    an alias, an address and a signature. *)
Definition alias_fields (tx_extra : list Z) : option (list Z * list Z * list Z) :=
  let '(r, fields) := parse_tx_extra tx_extra in
  let nonce i := tail (default [] (find_field as_nonce i fields)) in
  if r && nonce_tagged fields 0 TX_EXTRA_NONCE_ALIAS && nonce_tagged fields 1 TX_EXTRA_NONCE_ADDRESS
     && nonce_tagged fields 2 TX_EXTRA_NONCE_SIGNATURE
  then Some (nonce 0%nat, nonce 1%nat, nonce 2%nat) else None.

(** The decimal digits in front of the address, stored as a C string. *)
Fixpoint c_str (s : list Z) : list Z :=
  match s with
  | [] => []
  | c :: s => if c =? 0 then [] else c :: c_str s
  end.
Definition alias_value (height : nat) (address : list Z) : list Z := c_str (to_string (Z.of_nat height) ++ address).

(** [std::stoull] of a text that starts with a digit; it throws out of range. *)
Fixpoint digit_prefix (s : list Z) : list Z :=
  match s with
  | [] => []
  | c :: s => if isdigit c then c :: digit_prefix s else []
  end.
Definition stoull (s : list Z) : option Z :=
  match digit_prefix s with
  | [] => None
  | d => if digits_val d <? 2 ^ 64 then Some (digits_val d) else None
  end.

(** An entry of the table that is read at the start: the last 98 bytes are the
    address.  A shorter entry makes the length of the height wrap around, which
    is not defined by the code. *)
Definition load_alias (v : list Z) : option (nat * list Z) :=
  if (length v <? 98)%nat then None
  else
    let height_length := (length v - 98)%nat in
    height ← stoull (take height_length v);
    Some (Z.to_nat height, take 98 (drop height_length v)).
Definition load_aliases : M () :=
  db ← get;
  let loaded := omap load_alias (m_aliases (tbl db)) in
  _ ← ensure DB_ERROR (bool_decide (map_Forall (fun _ v => is_Some (load_alias v)) (m_aliases (tbl db))));
  modify (set_alias_cache (m_aliases_multi_index db ∪ loaded)).

Section WithHash.
Context {HF : FastHash} {C : DbCrypto}.

(** "SigV1" *)
Definition signature_header : list Z := [83; 105; 103; 86; 49].
Definition verifyHelper (data : list Z) (a : account_public_address) (sig : list Z) : bool :=
  let header_len := length signature_header in
  if (length sig <? header_len)%nat || negb (bool_decide (take header_len sig = signature_header)) then false
  else
    match Base58.decode (drop header_len sig) with
    | None => false
    | Some decoded =>
        if negb (length decoded =? 64)%nat then false
        else check_signature (fast_hash data) (m_spend_public_key a) decoded
    end.

(** ** Outputs *)

Definition add_output (tx_hash : hash) (tx_output : tx_out) (local_index : nat) (unlock_time : Z)
    (commitment : option key) : M nat :=
  db ← get;
  pubkey ← require DB_ERROR (match target tx_output with To_key k => Some k | _ => None end);
  _ ← ensure DB_ERROR (negb ((amount tx_output =? 0) && bool_decide (commitment = None)));
  _ ← ensure DB_ERROR (appendable (m_num_outputs db) (m_output_txs (tbl db)));
  _ ← modify_tables (fun t => set_output_txs (<[m_num_outputs db := (tx_hash, local_index)]> (m_output_txs t)) t);
  let outs := amount_outputs (tbl db) (amount tx_output) in
  let amount_index := size outs in
  (* the pre-RingCT record has no commitment: it is recomputed from the amount *)
  let com := if amount tx_output =? 0 then default [] commitment else zeroCommit (amount tx_output) in
  let ok := MkOutkey (m_num_outputs db) (MkOutputData pubkey unlock_time (m_height db) com) in
  _ ← ensure DB_ERROR (appendable amount_index outs);
  _ ← modify_tables (fun t => set_output_amounts (<[amount tx_output := <[amount_index := ok]> outs]> (m_output_amounts t)) t);
  _ ← modify (set_num_outputs (m_num_outputs db + 1));
  returns amount_index.

Definition get_output_key (db : BlockchainLMDB) (amount : Z) (index : nat) : option output_data_t :=
  ok_data <$> amount_outputs (tbl db) amount !! index.
Definition get_output_keys (db : BlockchainLMDB) (amount : Z) (offsets : list nat) : option (list output_data_t) :=
  mapM (get_output_key db amount) offsets.

Definition remove_output (amount : Z) (out_index : nat) : M () :=
  db ← get;
  ok ← require OUTPUT_DNE (amount_outputs (tbl db) amount !! out_index);
  _ ← ensure DB_ERROR (bool_decide (is_Some (m_output_txs (tbl db) !! ok_output_id ok)));
  _ ← modify_tables (fun t => set_output_txs (delete (ok_output_id ok) (m_output_txs t)) t);
  let outs := delete out_index (amount_outputs (tbl db) amount) in
  _ ← modify_tables (fun t => set_output_amounts
        (if bool_decide (outs = ∅) then delete amount (m_output_amounts t) else <[amount := outs]> (m_output_amounts t)) t);
  modify (set_num_outputs (m_num_outputs db - 1)).

Definition is_pseudo_rct (tx : transaction) : bool :=
  (2 <=? version (prefix tx)) && match vin (prefix tx) with [In_gen _] => true | _ => false end.

(** The loop over the outputs from the last to the first; an index outside the
    vector is not defined by the code. *)
Fixpoint remove_outputs (pseudo : bool) (outs : list (tx_out * nat)) : M () :=
  match outs with
  | [] => returns tt
  | (o, i) :: outs => _ ← remove_outputs pseudo outs; remove_output (if pseudo then 0 else amount o) i
  end.
Definition remove_tx_outputs (tx_id : nat) (tx : transaction) : M () :=
  db ← get;
  let amount_output_indices := get_tx_amount_output_indices db tx_id in
  _ ← ensure DB_ERROR (negb (bool_decide (amount_output_indices = []) && negb (bool_decide (length (vout (prefix tx)) = 0%nat))));
  _ ← ensure DB_ERROR (length (vout (prefix tx)) <=? length amount_output_indices)%nat;
  remove_outputs (is_pseudo_rct tx) (zip (vout (prefix tx)) amount_output_indices).

(** ** Transactions *)

(** The alias is stored as a C string; [convert_alias] gives no zero bytes.
    [MDB_NOOVERWRITE] refuses an alias that is there. *)
Definition add_alias (tx : transaction) : M () :=
  match alias_fields (extra (prefix tx)) with
  | None => returns tt
  | Some (alias, address, _) =>
      let alias := convert_alias alias in
      db ← get;
      _ ← ensure DB_ERROR (bool_decide (m_aliases (tbl db) !! alias = None));
      _ ← modify_tables (fun t => set_aliases (<[alias := alias_value (m_height db) address]> (m_aliases t)) t);
      _ ← ensure DB_ERROR (bool_decide (m_aliases_multi_index db !! alias = None));
      modify (fun db => set_alias_cache (<[alias := (m_height db, address)]> (m_aliases_multi_index db)) db)
  end.

Definition add_transaction_data (tx : transaction) (tx_hash : hash) : M nat :=
  db ← get;
  let tx_id := m_num_txs db in
  _ ← ensure TX_EXISTS (bool_decide (m_tx_indices (tbl db) !! tx_hash = None));
  let ti := MkTxData tx_id (unlock_time (prefix tx)) (m_height db) in
  _ ← modify_tables (fun t => set_tx_indices (<[tx_hash := ti]> (m_tx_indices t)) t);
  blob ← require DB_ERROR (dump_binary write_transaction tx);
  _ ← ensure DB_ERROR (appendable tx_id (m_txs (tbl db)));
  _ ← modify_tables (fun t => set_txs (<[tx_id := blob]> (m_txs t)) t);
  _ ← add_alias tx;
  _ ← modify (set_num_txs (tx_id + 1));
  returns tx_id.

(** The alias that [remove_transaction_data] removes: its address has to parse
    and its signature has to be valid. *)
Definition blank_info : address_parse_info := MkInfo (MkAddress [] []) false false [].
Definition removable_alias (tx : transaction) : option (list Z) :=
  '(alias, address, sig) ← alias_fields (extra (prefix tx));
  '(prefix, _) ← decode_addr address;
  let testnet := (prefix =? PUBLIC_ADDRESS_BASE58_PREFIX true) || (prefix =? PUBLIC_INTEGRATED_ADDRESS_BASE58_PREFIX true)
                 || (prefix =? PUBLIC_SUBADDRESS_BASE58_PREFIX true) in
  info ← get_account_address_from_str check_key testnet blank_info address;
  let alias := convert_alias alias in
  if bool_decide (alias = []) then None
  else if negb (verifyHelper alias (Address.address info) sig) then None
  else Some alias.
Definition remove_alias (tx : transaction) : M () :=
  match removable_alias tx with
  | None => returns tt
  | Some alias =>
      db ← get;
      _ ← ensure DB_ERROR (bool_decide (is_Some (m_aliases (tbl db) !! alias)));
      _ ← modify_tables (fun t => set_aliases (delete alias (m_aliases t)) t);
      _ ← ensure DB_ERROR (bool_decide (is_Some (m_aliases_multi_index db !! alias)));
      modify (fun db => set_alias_cache (delete alias (m_aliases_multi_index db)) db)
  end.

Definition remove_transaction_data (tx_hash : hash) (tx : transaction) : M () :=
  db ← get;
  ti ← require TX_DNE (m_tx_indices (tbl db) !! tx_hash);
  let tx_id := td_tx_id ti in
  _ ← ensure DB_ERROR (bool_decide (is_Some (m_txs (tbl db) !! tx_id)));
  _ ← modify_tables (fun t => set_txs (delete tx_id (m_txs t)) t);
  _ ← remove_tx_outputs tx_id tx;
  _ ← modify_tables (fun t => set_tx_outputs (delete tx_id (m_tx_outputs t)) t);
  _ ← remove_alias tx;
  _ ← modify_tables (fun t => set_tx_indices (delete tx_hash (m_tx_indices t)) t);
  modify (fun db => set_num_txs (m_num_txs db - 1) db).

Definition add_tx_amount_output_indices (tx_id : nat) (amount_output_indices : list nat) : M () :=
  db ← get;
  _ ← ensure DB_ERROR (appendable tx_id (m_tx_outputs (tbl db)));
  modify_tables (fun t => set_tx_outputs (<[tx_id := amount_output_indices]> (m_tx_outputs t)) t).

Definition add_spent_key (k : key_image) : M () :=
  db ← get;
  _ ← ensure KEY_IMAGE_EXISTS (bool_decide (k ∉ m_spent_keys (tbl db)));
  modify_tables (fun t => set_spent_keys ({[k]} ∪ m_spent_keys t) t).
Definition remove_spent_key (k : key_image) : M () :=
  modify_tables (fun t => set_spent_keys (m_spent_keys t ∖ {[k]}) t).

(** ** [BlockchainDB] *)

(** The loops over the inputs.  The result says whether an input is of the
    miner, or that a type is not supported. *)
Fixpoint add_inputs (miner_tx : bool) (l : list txin_v) : M (option bool) :=
  match l with
  | [] => returns (Some miner_tx)
  | In_to_key x :: l => _ ← add_spent_key (k_image x); add_inputs miner_tx l
  | In_gen _ :: l => add_inputs true l
  | _ :: l => returns None
  end.
Fixpoint remove_inputs (l : list txin_v) : M () :=
  match l with
  | [] => returns tt
  | In_to_key x :: l => _ ← remove_spent_key (k_image x); remove_inputs l
  | _ :: l => remove_inputs l
  end.

(** The loop over the outputs from number [i]. *)
Fixpoint add_outputs (tx : transaction) (tx_hash : hash) (miner_tx : bool) (i : nat) (outs : list tx_out) : M (list nat) :=
  match outs with
  | [] => returns []
  | o :: outs =>
      index ← (if miner_tx && (version (prefix tx) =? 2) then
                 add_output tx_hash (MkTxOut 0 (target o)) i (unlock_time (prefix tx)) (Some (zeroCommit (amount o)))
               else
                 commitment ← (if 1 <? version (prefix tx)
                               then mask ← require DB_ERROR (outPk (rct_signatures tx) !! i); returns (Some mask)
                               else returns None);
                 add_output tx_hash o i (unlock_time (prefix tx)) commitment);
      rest ← add_outputs tx tx_hash miner_tx (S i) outs;
      returns (index :: rest)
  end.

Definition add_transaction (tx : transaction) (tx_hash_ptr : option hash) : M () :=
  let tx_hash := match tx_hash_ptr with
                 | Some h => h
                 | None => default null_hash (get_transaction_hash tx)
                 end in
  r ← add_inputs false (vin (prefix tx));
  match r with
  | None => remove_inputs (vin (prefix tx))
  | Some miner_tx =>
      tx_id ← add_transaction_data tx tx_hash;
      amount_output_indices ← add_outputs tx tx_hash miner_tx 0 (vout (prefix tx));
      add_tx_amount_output_indices tx_id amount_output_indices
  end.

Definition remove_transaction (tx_hash : hash) : M () :=
  db ← get;
  tx ← require (get_tx_error db tx_hash) (get_tx db tx_hash);
  _ ← remove_inputs (vin (prefix tx));
  remove_transaction_data tx_hash tx.

(** [BlockchainLMDB::add_block], the overload that stores the block. *)
Definition add_block_data (blk : block) (block_size cumulative_difficulty coins_generated : Z) (blk_hash : hash) : M () :=
  db ← get;
  let t := tbl db in
  _ ← ensure BLOCK_EXISTS (bool_decide (m_block_heights t !! blk_hash = None));
  _ ← (if (m_height db =? 0)%nat then returns tt
       else
         prev ← require DB_ERROR (m_block_heights t !! prev_id (Basic.header blk));
         ensure BLOCK_PARENT_DNE (prev =? m_height db - 1)%nat);
  blob ← require DB_ERROR (dump_binary write_block blk);
  _ ← ensure DB_ERROR (appendable (m_height db) (m_blocks t));
  _ ← modify_tables (fun t => set_blocks (<[m_height db := blob]> (m_blocks t)) t);
  let bi := MkBlockInfo (timestamp (Basic.header blk)) (if (m_height db =? 0)%nat then 0 else coins_generated) block_size
              cumulative_difficulty blk_hash in
  _ ← ensure DB_ERROR (appendable (m_height db) (m_block_info t));
  _ ← modify_tables (fun t => set_block_info (<[m_height db := bi]> (m_block_info t)) t);
  modify_tables (fun t => set_block_heights (<[blk_hash := m_height db]> (m_block_heights t)) t).

Definition remove_block : M () :=
  db ← get;
  let t := tbl db in
  _ ← ensure BLOCK_DNE (negb (m_height db =? 0)%nat);
  bi ← require BLOCK_DNE (m_block_info t !! (m_height db - 1)%nat);
  _ ← ensure DB_ERROR (bool_decide (is_Some (m_block_heights t !! bi_hash bi)));
  _ ← modify_tables (fun t => set_block_heights (delete (bi_hash bi) (m_block_heights t)) t);
  _ ← ensure DB_ERROR (bool_decide (is_Some (m_blocks t !! (m_height db - 1)%nat)));
  _ ← modify_tables (fun t => set_blocks (delete (m_height db - 1)%nat (m_blocks t)) t);
  modify_tables (fun t => set_block_info (delete (m_height db - 1)%nat (m_block_info t)) t).

(** The loop over the transactions; [hashes] are the rest of [blk.tx_hashes].
    A missing hash is outside the vector. *)
Fixpoint add_transactions (txs : list transaction) (hashes : list hash) : M () :=
  match txs with
  | [] => returns tt
  | tx :: txs =>
      match hashes with
      | [] => throw DB_ERROR
      | h :: hashes => _ ← add_transaction tx (Some h); add_transactions txs hashes
      end
  end.

(** [m_hardfork->add]: the object of the hard forks writes its table. *)
Definition hf_header (b : block) : HardFork.header :=
  HardFork.Header (major_version (Basic.header b)) (minor_version (Basic.header b)).
Definition hardfork_add (blk : block) (height : nat) : M () :=
  db ← get;
  '(_, hf, hdb) ← require DB_ERROR
    (HardFork.add (hf_header blk) height (m_hardfork db) (HardFork.MkDb [] (m_hf_versions (tbl db))));
  _ ← modify (set_hardfork hf);
  modify_tables (set_hf_versions (HardFork.hf_versions hdb)).

(** [BlockchainDB::add_block] *)
Definition add_block_txs (blk : block) (block_size cumulative_difficulty coins_generated : Z) (txs : list transaction) : M () :=
  let blk_hash := default null_hash (get_block_hash blk) in
  _ ← add_block_data blk block_size cumulative_difficulty coins_generated blk_hash;
  _ ← add_transaction (miner_tx blk) None;
  _ ← add_transactions txs (tx_hashes blk);
  db ← get;
  hardfork_add blk (m_height db).

Fixpoint remove_transactions (hashes : list hash) : M (list transaction) :=
  match hashes with
  | [] => returns []
  | h :: hashes =>
      db ← get;
      tx ← require (get_tx_error db h) (get_tx db h);
      _ ← remove_transaction h;
      txs ← remove_transactions hashes;
      returns (tx :: txs)
  end.

(** [BlockchainDB::pop_block]; of an empty chain the top block is an empty block
    and [remove_block] throws. *)
Definition pop_block_txs : M (block * list transaction) :=
  db ← get;
  _ ← ensure BLOCK_DNE (negb (m_height db =? 0)%nat);
  blk ← require DB_ERROR (get_top_block db);
  _ ← remove_block;
  txs ← remove_transactions (rev (tx_hashes blk));
  _ ← remove_transaction (default null_hash (get_transaction_hash (miner_tx blk)));
  returns (blk, txs).

(** ** The transactions of LMDB

    A failed operation is aborted: the counters are restored and, outside a batch,
    the tables; the cache of aliases and the hard fork object are not. *)
Definition block_txn_abort (t : tables) (db : BlockchainLMDB) : BlockchainLMDB :=
  if m_batch_active db then db else set_tbl t db.
Definition abort (db0 db : BlockchainLMDB) : BlockchainLMDB :=
  block_txn_abort (tbl db0) (set_num_outputs (m_num_outputs db0) (set_num_txs (m_num_txs db0) db)).

(** A batch is one write transaction for many blocks. *)
Definition batch_start : M () :=
  db ← get;
  _ ← ensure DB_ERROR (negb (m_batch_active db));
  modify (set_batch_active true).
Definition batch_stop : M () :=
  db ← get;
  _ ← ensure DB_ERROR (m_batch_active db);
  modify (set_batch_active false).

Definition add_block (blk : block) (block_size cumulative_difficulty coins_generated : Z) (txs : list transaction)
  : M nat := fun db0 =>
  match add_block_txs blk block_size cumulative_difficulty coins_generated txs db0 with
  | (db, inr _) => (set_height (m_height db + 1) db, inr (m_height db + 1)%nat)
  | (db, inl e) => (abort db0 db, inl e)
  end.

Definition pop_block : M (block * list transaction) := fun db0 =>
  match pop_block_txs db0 with
  | (db, inr r) => (set_height (m_height db - 1) db, inr r)
  | (db, inl e) => (abort db0 db, inl e)
  end.

End WithHash.

(** * Properties *)

(** ** Running operations *)

Lemma bind_success {A B} (m : M A) (f : A -> M B) db db' y :
  (m ≫= f) db = (db', inr y) <-> exists db1 x, m db = (db1, inr x) /\ f x db1 = (db', inr y).
Proof.
  unfold mbind, M_bind. destruct (m db) as [db1 [e|x]]; split.
  - done.
  - by intros (? & ? & [= ] & _).
  - eauto.
  - by intros (? & ? & [= -> ->] & ?).
Qed.
Lemma bind_run {A B} (m : M A) (f : A -> M B) db db1 x : m db = (db1, inr x) -> (m ≫= f) db = f x db1.
Proof. unfold mbind, M_bind. by intros ->. Qed.
Lemma ensure_bind {B} e b (f : () -> M B) db : b = true -> (ensure e b ≫= f) db = f tt db.
Proof. by intros ->. Qed.
Lemma require_bind {A B} e (o : option A) x (f : A -> M B) db : o = Some x -> (require e o ≫= f) db = f x db.
Proof. by intros ->. Qed.

(** Takes a successful run apart. *)
Ltac run_inv H :=
  lazymatch type of H with
  | (_ ≫= _) _ = (_, inr _) =>
      let db1 := fresh "db" in let x := fresh "x" in let H1 := fresh H in
      apply bind_success in H as (db1 & x & H1 & H); run_inv H1; run_inv H
  | get _ = _ => first [injection H as <- <- | injection H as <-]
  | modify _ _ = _ => first [injection H as <- <- | injection H as <-]
  | modify_tables _ _ = _ => first [injection H as <- <- | injection H as <-]
  | returns _ _ = _ => first [injection H as <- <- | injection H as <-]
  | ensure _ ?b _ = _ =>
      let E := fresh "E" in destruct b eqn:E; cbn [ensure] in H; [run_inv H|discriminate H]
  | require _ (Some _) _ = _ => cbn [require] in H; run_inv H
  | require _ ?o _ = _ =>
      let E := fresh "E" in destruct o eqn:E; cbn [require] in H; [run_inv H|discriminate H]
  | throw _ _ = _ => discriminate H
  | _ => idtac
  end.

Lemma appendable_spec {A} k (m : gmap nat A) : appendable k m = true <-> forall i, is_Some (m !! i) -> (i < k)%nat.
Proof.
  unfold appendable. rewrite bool_decide_eq_true. unfold map_Forall. split.
  - intros H i [x Hx]. eauto.
  - intros H i x Hx. apply H. eauto.
Qed.
Lemma appendable_fresh {A} k (m : gmap nat A) : appendable k m = true -> m !! k = None.
Proof. rewrite appendable_spec. intros H. apply eq_None_not_Some. intros Hs%H. lia. Qed.

(** ** Removing undoes adding *)

(** What adding and removing transactions does not change is taken from [f]: the
    height, the tables of blocks and the hard forks.  [c] is the cache of
    aliases. *)
Definition dress (f : BlockchainLMDB) (c : gmap (list Z) (nat * list Z)) (db : BlockchainLMDB) : BlockchainLMDB :=
  MkDb (MkTables (m_blocks (tbl f)) (m_block_heights (tbl f)) (m_block_info (tbl f)) (m_txs (tbl db)) (m_tx_indices (tbl db))
          (m_tx_outputs (tbl db)) (m_output_txs (tbl db)) (m_output_amounts (tbl db)) (m_spent_keys (tbl db))
          (m_aliases (tbl db)) (m_hf_versions (tbl f)))
    (m_height f) (m_num_txs db) (m_num_outputs db) c (m_hardfork f) (m_batch_active f).

(** No amount has an empty set of outputs. *)
Definition no_empty (db : BlockchainLMDB) : Prop := forall a, m_output_amounts (tbl db) !! a <> Some ∅.
(** Every alias of the table is in the cache. *)
Definition cached (db : BlockchainLMDB) : Prop :=
  forall a, is_Some (m_aliases (tbl db) !! a) -> is_Some (m_aliases_multi_index db !! a).

(** Projections of updated records. *)
Ltac db_cbn :=
  cbv beta delta [set_tbl set_height set_num_txs set_num_outputs set_alias_cache set_hardfork set_batch_active set_blocks set_block_heights
    set_block_info set_txs set_tx_indices set_tx_outputs set_output_txs set_output_amounts set_spent_keys set_aliases
    set_hf_versions dress] in *;
  cbn [tbl m_height m_num_txs m_num_outputs m_aliases_multi_index m_hardfork m_batch_active m_blocks m_block_heights m_block_info m_txs
    m_tx_indices m_tx_outputs m_output_txs m_output_amounts m_spent_keys m_aliases m_hf_versions] in *.
Ltac run_step :=
  match goal with
  | |- context [(get ≫= ?f) ?db] => change ((get ≫= f) db) with (f db db); cbv beta
  | |- context [(modify ?g ≫= ?f) ?db] => change ((modify g ≫= f) db) with (f tt (g db)); cbv beta
  | |- context [(modify_tables ?g ≫= ?f) ?db] =>
      change ((modify_tables g ≫= f) db) with (f tt (set_tbl (g (tbl db)) db)); cbv beta
  | |- context [(returns ?x ≫= ?f) ?db] => change ((returns x ≫= f) db) with (f x db); cbv beta
  end.

(** Taking the last output of an amount away again. *)
Lemma restore_amount (m : gmap Z (gmap nat outkey)) a x : (forall a, m !! a <> Some ∅) ->
  (if bool_decide (default ∅ (m !! a) = ∅) then delete a (<[a := x]> m) else <[a := default ∅ (m !! a)]> (<[a := x]> m)) = m.
Proof.
  intros Hne. destruct (m !! a) as [outs|] eqn:E; cbn [from_option]; unfold id.
  - rewrite bool_decide_false by (intros ->; by eapply Hne). by rewrite insert_insert_eq, insert_id.
  - rewrite bool_decide_true by done. by apply delete_insert_id.
Qed.

(** The outputs of [src] in [db]. *)
Definition with_outputs (src db : BlockchainLMDB) : BlockchainLMDB :=
  set_num_outputs (m_num_outputs src)
    (set_tbl (set_output_txs (m_output_txs (tbl src)) (set_output_amounts (m_output_amounts (tbl src)) (tbl db))) db).

Section Undo.
Context {HF : FastHash} {C : DbCrypto}.

Lemma add_output_undo h o li ut com db0 db1 idx :
  no_empty db0 -> add_output h o li ut com db0 = (db1, inr idx) ->
  no_empty db1 /\ db1 = with_outputs db1 db0 /\
  forall db, remove_output (amount o) idx (with_outputs db1 db) = (with_outputs db0 db, inr tt).
Proof.
  intros Hne H. unfold add_output in H. run_inv H. apply appendable_fresh in E1, E2. split.
  { intros a. db_cbn. destruct (decide (a = amount o)) as [->|Hna].
    - rewrite lookup_insert_eq. intros [= H%insert_non_empty]. done.
    - rewrite lookup_insert_ne by done. apply Hne. }
  split; [by destruct db0 as [[] ]|]. intros db. unfold remove_output. run_step. unfold amount_outputs, with_outputs in *. db_cbn.
  erewrite require_bind by (rewrite lookup_insert_eq; apply lookup_insert_eq). db_cbn.
  rewrite ensure_bind by (rewrite lookup_insert_eq; apply bool_decide_eq_true; by eexists). repeat run_step. db_cbn.
  rewrite !delete_insert_id, lookup_insert_eq by done. cbn [from_option]. unfold id. rewrite delete_insert_id by done.
  unfold modify. db_cbn. rewrite Nat.add_sub. do 3 f_equal. apply restore_amount, Hne.
Qed.

(** The outputs of a transaction, removed from the last to the first. *)
Lemma add_outputs_undo tx h miner outs : forall i db0 db1 idxs,
  no_empty db0 -> add_outputs tx h miner i outs db0 = (db1, inr idxs) ->
  no_empty db1 /\ db1 = with_outputs db1 db0 /\ length idxs = length outs /\
  forall db, remove_outputs (miner && (version (prefix tx) =? 2)) (zip outs idxs) (with_outputs db1 db)
    = (with_outputs db0 db, inr tt).
Proof.
  induction outs as [|o outs IH]; intros i db0 db1 idxs Hne H; cbn [add_outputs] in H; run_inv H.
  { split; [done|]. split; [by destruct db0 as [[] ]|]. done. }
  assert (Ho : no_empty db /\ db = with_outputs db db0 /\ forall db',
    remove_output (if miner && (version (prefix tx) =? 2) then 0 else amount o) x (with_outputs db db') = (with_outputs db0 db', inr tt)).
  { destruct (miner && (version (prefix tx) =? 2)); [by apply add_output_undo in H0|].
    apply bind_success in H0 as (db' & com & Hc & Ho). assert (db' = db0) as ->; [|by apply add_output_undo in Ho].
    destruct (1 <? version (prefix tx)); run_inv Hc; done. }
  destruct Ho as (Hne1 & Ha1 & Hu1). destruct (IH _ _ _ _ Hne1 H1) as (Hne2 & Ha2 & Hl & Hu2).
  split; [done|]. split; [by rewrite Ha2, Ha1|]. split; [cbn; congruence|].
  intros db'. cbn [zip zip_with remove_outputs]. rewrite (bind_run _ _ _ _ _ (Hu2 db')). apply Hu1.
Qed.

(** The key images of a list of inputs. *)
Definition spent (l : list txin_v) : list key_image := omap (fun i => k_image <$> to_key i) l.
Definition set_keys (f : gset key_image -> gset key_image) (db : BlockchainLMDB) : BlockchainLMDB :=
  set_tbl (set_spent_keys (f (m_spent_keys (tbl db))) (tbl db)) db.

Lemma set_keys_id db f : f (m_spent_keys (tbl db)) = m_spent_keys (tbl db) -> set_keys f db = db.
Proof. intros E. destruct db as [[] ]. unfold set_keys. db_cbn. by rewrite E. Qed.
Lemma set_keys_compose db f g : set_keys f (set_keys g db) = set_keys (f ∘ g) db.
Proof. done. Qed.

Lemma remove_inputs_run l : forall db, remove_inputs l db = (set_keys (fun s => s ∖ list_to_set (spent l)) db, inr tt).
Proof.
  assert (Hid : forall db, set_keys (fun s => s ∖ list_to_set []) db = db).
  { intros db. apply set_keys_id. cbn. apply difference_empty_L. }
  induction l as [|i l IH]; intros db; [by rewrite Hid|].
  destruct i; cbn [remove_inputs spent omap list_omap to_key fmap option_fmap option_map]; try apply IH.
  unfold remove_spent_key. run_step. change (set_tbl _ _) with (set_keys (fun s => s ∖ {[k_image x]}) db).
  rewrite IH, set_keys_compose. cbn [list_to_set foldr]. unfold set_keys, compose.
  f_equal. f_equal. f_equal. set_solver.
Qed.

(** The inputs of a transaction that is added: their key images are new and
    different from each other. *)
Lemma add_inputs_run l : forall m db0 db1 r,
  add_inputs m l db0 = (db1, inr (Some r)) ->
  r = (m || existsb (fun i => match i with In_gen _ => true | _ => false end) l) /\
  NoDup (spent l) /\ (forall k, k ∈ spent l -> k ∉ m_spent_keys (tbl db0)) /\
  db1 = set_keys (fun s => list_to_set (spent l) ∪ s) db0.
Proof.
  induction l as [|i l IH]; intros m db0 db1 r H; cbn [add_inputs] in H.
  { run_inv H. cbn. rewrite orb_false_r. split; [done|]. split; [constructor|]. split; [intros k Hk; by apply elem_of_nil in Hk|].
    symmetry. apply set_keys_id. set_solver. }
  destruct i; cbn [spent omap list_omap to_key fmap option_fmap option_map existsb];
    try (unfold returns in H; discriminate H).
  - apply IH in H as (-> & H). split; [by destruct m|exact H].
  - apply bind_success in H as (db & [] & H0 & H). unfold add_spent_key in H0. run_inv H0.
    change (set_tbl _ _) with (set_keys (fun s => {[k_image x]} ∪ s) db0) in H. apply bool_decide_eq_true in E.
    apply IH in H as (-> & Hnd & Hnew & ->). split; [done|].
    assert (Hx : k_image x ∉ spent l) by (intros Hin%Hnew; apply Hin; cbn; set_solver).
    split; [by constructor|]. split.
    { intros k [->|Hk]%elem_of_cons; [done|]. apply Hnew in Hk. cbn in Hk. set_solver. }
    rewrite set_keys_compose. unfold set_keys, compose. cbn [list_to_set foldr]. f_equal. f_equal. set_solver.
Qed.

(** A transaction whose alias, if it registers one, will be removed with it. *)
Definition alias_ok (tx : transaction) : Prop :=
  forall alias address sig, alias_fields (extra (prefix tx)) = Some (alias, address, sig) ->
    removable_alias tx = Some (convert_alias alias).

Lemma removable_alias_none tx : alias_fields (extra (prefix tx)) = None -> removable_alias tx = None.
Proof. unfold removable_alias. by intros ->. Qed.

Lemma add_alias_undo tx db0 db1 u :
  alias_ok tx -> add_alias tx db0 = (db1, inr u) ->
  db1 = set_alias_cache (m_aliases_multi_index db1) (set_tbl (set_aliases (m_aliases (tbl db1)) (tbl db0)) db0) /\
  (cached db0 -> cached db1) /\
  forall db, m_aliases (tbl db) = m_aliases (tbl db1) -> cached db ->
    exists c, remove_alias tx db = (set_alias_cache c (set_tbl (set_aliases (m_aliases (tbl db0)) (tbl db)) db), inr tt) /\
      forall a, is_Some (m_aliases (tbl db0) !! a) -> is_Some (c !! a).
Proof.
  intros Hok H. unfold add_alias in H. unfold remove_alias.
  destruct (alias_fields (extra (prefix tx))) as [[[alias address] sig]|] eqn:Ef.
  - rewrite (Hok _ _ _ Ef). run_inv H. apply bool_decide_eq_true in E, E0. db_cbn.
    split; [done|]. split.
    { intros Hc a. unfold cached in Hc. db_cbn. rewrite !lookup_insert_is_Some. intros [?|[? Hs]]; [by left|right; auto]. }
    intros db Ha Hc. exists (delete (convert_alias alias) (m_aliases_multi_index db)). run_step.
    rewrite ensure_bind by (rewrite Ha; apply bool_decide_eq_true; rewrite lookup_insert_eq; by eexists). repeat run_step.
    rewrite ensure_bind by (apply bool_decide_eq_true, Hc; rewrite Ha, lookup_insert_eq; by eexists).
    unfold modify. db_cbn. rewrite Ha, delete_insert_id by done. split; [done|].
    intros a Hs. rewrite lookup_delete_ne by (intros <-; by rewrite E in Hs; destruct Hs).
    apply Hc. rewrite Ha, lookup_insert_ne by (intros <-; by rewrite E in Hs; destruct Hs). done.
  - rewrite (removable_alias_none _ Ef). run_inv H. split; [by destruct db0 as [[] ]|]. split; [done|].
    intros db Ha Hc. exists (m_aliases_multi_index db). split; [rewrite <- Ha; by destruct db as [[] ]|].
    intros a Hs. apply Hc. by rewrite Ha.
Qed.

(** What the code stores: a miner transaction has one input that creates coins,
    any other only inputs that spend keys. *)
Definition is_gen (i : txin_v) : bool := match i with In_gen _ => true | _ => false end.
Definition inputs_ok (l : list txin_v) : Prop := (exists g, l = [In_gen g]) \/ Forall (fun i => exists x, i = In_to_key x) l.
Record storable (tx : transaction) : Prop := {
  st_wf : wf_transaction tx;
  st_inputs : inputs_ok (vin (prefix tx));
  st_alias : alias_ok tx
}.

Lemma inputs_supported l : inputs_ok l -> forall m db0 db1, add_inputs m l db0 <> (db1, inr None).
Proof.
  intros [[g ->]|Hl] m db0 db1; [done|]. revert m db0. induction Hl as [|i l [x ->] Hl IH]; intros m db0 H; cbn [add_inputs] in H; [done|].
  apply bind_success in H as (db & y & _ & H). by eapply IH.
Qed.

Lemma pseudo_agrees tx : storable tx ->
  existsb is_gen (vin (prefix tx)) && (version (prefix tx) =? 2) = is_pseudo_rct tx.
Proof.
  intros [Hwf Hi _]. assert (Hv : version (prefix tx) = 1 \/ version (prefix tx) = 2) by (destruct Hwf as [(Hv & _) _]; lia).
  unfold is_pseudo_rct. destruct Hi as [[g ->]|Hi]; [destruct Hv as [-> | ->]; done|].
  replace (existsb is_gen (vin (prefix tx))) with false.
  - destruct Hi as [|i l [x ->] Hi]; [by rewrite andb_false_r|]. destruct l; by rewrite andb_false_r.
  - symmetry. apply not_true_iff_false. rewrite existsb_exists. intros (i & Hin & Hg).
    apply list_elem_of_In in Hin. rewrite Forall_forall in Hi. destruct (Hi i Hin) as [x ->]. done.
Qed.

Definition stored_hash (tx : transaction) (ptr : option hash) : hash :=
  match ptr with Some h => h | None => default null_hash (get_transaction_hash tx) end.

(** [remove_alias tx] undoes what turned the aliases [al0] into [al]. *)
Definition alias_undone (tx : transaction) (al0 al : gmap (list Z) (list Z)) : Prop :=
  forall db, m_aliases (tbl db) = al -> cached db ->
    exists c, remove_alias tx db = (set_alias_cache c (set_tbl (set_aliases al0 (tbl db)) db), inr tt) /\
      forall a, is_Some (al0 !! a) -> is_Some (c !! a).

Lemma add_transaction_data_run tx h db0 db1 tx_id :
  storable tx -> add_transaction_data tx h db0 = (db1, inr tx_id) ->
  tx_id = m_num_txs db0 /\ m_tx_indices (tbl db0) !! h = None /\ m_txs (tbl db0) !! tx_id = None /\
  (cached db0 -> cached db1) /\
  exists blob al c ti, parse_binary read_transaction blob = Some tx /\
    ti = MkTxData tx_id (unlock_time (prefix tx)) (m_height db0) /\
    alias_undone tx (m_aliases (tbl db0)) al /\
    db1 = MkDb (MkTables (m_blocks (tbl db0)) (m_block_heights (tbl db0)) (m_block_info (tbl db0)) (<[tx_id := blob]> (m_txs (tbl db0)))
            (<[h := ti]> (m_tx_indices (tbl db0))) (m_tx_outputs (tbl db0)) (m_output_txs (tbl db0)) (m_output_amounts (tbl db0))
            (m_spent_keys (tbl db0)) al (m_hf_versions (tbl db0)))
          (m_height db0) (tx_id + 1) (m_num_outputs db0) c (m_hardfork db0) (m_batch_active db0).
Proof.
  intros Hst H. unfold add_transaction_data in H.
  destruct (parse_dump _ _ _ (rt_rt0 _ _ _ (rt_transaction tx (st_wf tx Hst)))) as (blob & Edump & Eparse).
  rewrite Edump in H. run_inv H. apply bool_decide_eq_true in E. apply appendable_fresh in E0.
  split; [done|]. split; [done|]. split; [done|].
  match goal with H : add_alias tx _ = (?d, _) |- _ =>
    destruct (add_alias_undo _ _ _ _ (st_alias tx Hst) H) as (Ha & Hc & Hu);
    split; [exact Hc|]; exists blob, (m_aliases (tbl d)), (m_aliases_multi_index d), (MkTxData (m_num_txs db0) (unlock_time (prefix tx)) (m_height db0))
  end.
  split; [done|]. split; [done|]. split; [exact Hu|]. rewrite Ha at 1. reflexivity.
Qed.

Lemma remove_tx_outputs_run tx tx_id idxs db dbb :
  m_tx_outputs (tbl db) !! tx_id = Some idxs -> length idxs = length (vout (prefix tx)) ->
  (forall db', remove_outputs (is_pseudo_rct tx) (zip (vout (prefix tx)) idxs) (with_outputs db db') = (with_outputs dbb db', inr tt)) ->
  remove_tx_outputs tx_id tx db = (with_outputs dbb db, inr tt).
Proof.
  intros Hx Hl Hu. unfold remove_tx_outputs. run_step. unfold get_tx_amount_output_indices. rewrite Hx. cbn [from_option]. unfold id in *.
  rewrite ensure_bind by (destruct idxs, (vout (prefix tx)); done).
  rewrite ensure_bind by (apply Nat.leb_le; lia). rewrite <- Hu. f_equal. by destruct db as [[] ].
Qed.

Lemma remove_transaction_data_run h tx ti idxs al0 db dbb :
  m_tx_indices (tbl db) !! h = Some ti -> is_Some (m_txs (tbl db) !! td_tx_id ti) ->
  m_tx_outputs (tbl db) !! td_tx_id ti = Some idxs -> length idxs = length (vout (prefix tx)) ->
  (forall db', remove_outputs (is_pseudo_rct tx) (zip (vout (prefix tx)) idxs) (with_outputs db db') = (with_outputs dbb db', inr tt)) ->
  alias_undone tx al0 (m_aliases (tbl db)) -> cached db ->
  exists c, remove_transaction_data h tx db =
    (MkDb (MkTables (m_blocks (tbl db)) (m_block_heights (tbl db)) (m_block_info (tbl db)) (delete (td_tx_id ti) (m_txs (tbl db)))
       (delete h (m_tx_indices (tbl db))) (delete (td_tx_id ti) (m_tx_outputs (tbl db))) (m_output_txs (tbl dbb))
       (m_output_amounts (tbl dbb)) (m_spent_keys (tbl db)) al0 (m_hf_versions (tbl db)))
      (m_height db) (m_num_txs db - 1) (m_num_outputs dbb) c (m_hardfork db) (m_batch_active db), inr tt) /\
    forall a, is_Some (al0 !! a) -> is_Some (c !! a).
Proof.
  intros Hi Hx Ho Hl Hu Ha Hc. unfold remove_transaction_data. run_step. rewrite (require_bind _ _ _ _ _ Hi).
  rewrite ensure_bind by by apply bool_decide_eq_true. run_step.
  set (db1 := set_tbl _ db). rewrite (bind_run _ _ _ _ _ (remove_tx_outputs_run tx _ idxs db1 dbb Ho Hl Hu)). run_step.
  set (db2 := set_tbl _ (with_outputs dbb db1)).
  destruct (Ha db2 eq_refl Hc) as (c & Er & Hcc). exists c. split; [|done].
  rewrite (bind_run _ _ _ _ _ Er). run_step. reflexivity.
Qed.

Lemma remove_transaction_run h tx ti idxs al0 db dbb : get_tx db h = Some tx ->
  m_tx_indices (tbl db) !! h = Some ti -> is_Some (m_txs (tbl db) !! td_tx_id ti) ->
  m_tx_outputs (tbl db) !! td_tx_id ti = Some idxs -> length idxs = length (vout (prefix tx)) ->
  (forall db', remove_outputs (is_pseudo_rct tx) (zip (vout (prefix tx)) idxs) (with_outputs db db') = (with_outputs dbb db', inr tt)) ->
  alias_undone tx al0 (m_aliases (tbl db)) -> cached db ->
  exists c, remove_transaction h db =
    (MkDb (MkTables (m_blocks (tbl db)) (m_block_heights (tbl db)) (m_block_info (tbl db)) (delete (td_tx_id ti) (m_txs (tbl db)))
       (delete h (m_tx_indices (tbl db))) (delete (td_tx_id ti) (m_tx_outputs (tbl db))) (m_output_txs (tbl dbb))
       (m_output_amounts (tbl dbb)) (m_spent_keys (tbl db) ∖ list_to_set (spent (vin (prefix tx)))) al0 (m_hf_versions (tbl db)))
      (m_height db) (m_num_txs db - 1) (m_num_outputs dbb) c (m_hardfork db) (m_batch_active db), inr tt) /\
    forall a, is_Some (al0 !! a) -> is_Some (c !! a).
Proof.
  intros Hg Hi Hx Ho Hl Hu Ha Hc. unfold remove_transaction. run_step. rewrite (require_bind _ _ _ _ _ Hg).
  rewrite (bind_run _ _ _ _ _ (remove_inputs_run _ _)).
  destruct (remove_transaction_data_run h tx ti idxs al0 (set_keys (fun s => s ∖ list_to_set (spent (vin (prefix tx)))) db) dbb)
    as (c & -> & Hc'); try done. by exists c.
Qed.

(** What adding transactions to the tables does. *)
Definition keys_of (l : list (hash * transaction)) : list key_image := l ≫= fun p => spent (vin (prefix p.2)).
Record added (l : list (hash * transaction)) (db0 db1 : BlockchainLMDB) : Prop := {
  ad_no_empty : no_empty db0 -> no_empty db1;
  ad_cached : cached db0 -> cached db1;
  ad_height : m_height db1 = m_height db0;
  ad_batch : m_batch_active db1 = m_batch_active db0;
  ad_blocks : m_blocks (tbl db1) = m_blocks (tbl db0);
  ad_block_info : m_block_info (tbl db1) = m_block_info (tbl db0);
  ad_block_heights : m_block_heights (tbl db1) = m_block_heights (tbl db0);
  ad_nodup : NoDup l.*1;
  ad_fresh : forall h, h ∈ l.*1 -> m_tx_indices (tbl db0) !! h = None;
  ad_txs : forall h tx, (h, tx) ∈ l -> get_tx db1 h = Some tx /\ get_tx_block_height db1 h = Some (m_height db0);
  ad_none : forall h, h ∉ l.*1 -> m_tx_indices (tbl db1) !! h = m_tx_indices (tbl db0) !! h;
  ad_old : forall h tx, get_tx db0 h = Some tx -> get_tx db1 h = Some tx;
  ad_keys : m_spent_keys (tbl db1) = list_to_set (keys_of l) ∪ m_spent_keys (tbl db0);
  ad_keys_nodup : NoDup (keys_of l);
  ad_keys_fresh : forall k, k ∈ keys_of l -> k ∉ m_spent_keys (tbl db0)
}.

Lemma added_nil db : added [] db db.
Proof.
  split; try done; try (by constructor); try (intros * Hin; by apply elem_of_nil in Hin).
  cbn. by rewrite union_empty_l_L.
Qed.

Lemma added_app l1 l2 db0 db1 db2 : added l1 db0 db1 -> added l2 db1 db2 -> added (l1 ++ l2) db0 db2.
Proof.
  intros A B. pose proof (ad_fresh _ _ _ B) as Hf.
  assert (Hd : forall h, h ∈ l1.*1 -> h ∉ l2.*1).
  { intros h ([h' tx] & -> & Hin)%list_elem_of_fmap Hh. apply (ad_txs _ _ _ A) in Hin as [Hg _]. apply Hf in Hh.
    unfold get_tx in Hg. cbn in Hh. rewrite Hh in Hg. done. }
  split.
  - intros ?. apply B, A. done.
  - intros ?. apply B, A. done.
  - rewrite (ad_height _ _ _ B). apply A.
  - rewrite (ad_batch _ _ _ B). apply A.
  - rewrite (ad_blocks _ _ _ B). apply A.
  - rewrite (ad_block_info _ _ _ B). apply A.
  - rewrite (ad_block_heights _ _ _ B). apply A.
  - rewrite fmap_app. apply NoDup_app. split; [apply A|]. split; [done|apply B].
  - intros h. rewrite fmap_app. intros [Hh|Hh]%elem_of_app; [by apply A|].
    rewrite <- (ad_none _ _ _ A); [auto|]. intros Hh1. by eapply Hd.
  - intros h tx [Hh|Hh]%elem_of_app.
    + destruct (ad_txs _ _ _ A _ _ Hh) as [Hg Hb]. split; [by apply (ad_old _ _ _ B)|]. unfold get_tx_block_height in *.
      rewrite (ad_none _ _ _ B); [done|]. apply Hd, list_elem_of_fmap. by exists (h, tx).
    + rewrite <- (ad_height _ _ _ A). by apply (ad_txs _ _ _ B).
  - intros h. rewrite fmap_app, not_elem_of_app. intros [H1 H2]. rewrite (ad_none _ _ _ B) by done. by apply A.
  - intros h tx H. by apply (ad_old _ _ _ B), (ad_old _ _ _ A).
  - unfold keys_of. rewrite bind_app, list_to_set_app_L, (ad_keys _ _ _ B), (ad_keys _ _ _ A). unfold keys_of. set_solver.
  - unfold keys_of. rewrite bind_app. apply NoDup_app. split; [apply A|]. split; [|apply B].
    intros k H1 H2. apply (ad_keys_fresh _ _ _ B) in H2. apply H2. rewrite (ad_keys _ _ _ A). unfold keys_of. set_solver.
  - intros k. unfold keys_of. rewrite bind_app. intros [Hk|Hk]%elem_of_app; [by apply A|].
    apply (ad_keys_fresh _ _ _ B) in Hk. rewrite (ad_keys _ _ _ A) in Hk. set_solver.
Qed.

Lemma added_single h tx ti blob db0 db1 :
  m_tx_indices (tbl db0) !! h = None -> m_txs (tbl db0) !! td_tx_id ti = None ->
  parse_binary read_transaction blob = Some tx -> td_block_id ti = m_height db0 ->
  NoDup (spent (vin (prefix tx))) -> (forall k, k ∈ spent (vin (prefix tx)) -> k ∉ m_spent_keys (tbl db0)) ->
  m_tx_indices (tbl db1) = <[h := ti]> (m_tx_indices (tbl db0)) -> m_txs (tbl db1) = <[td_tx_id ti := blob]> (m_txs (tbl db0)) ->
  m_spent_keys (tbl db1) = list_to_set (spent (vin (prefix tx))) ∪ m_spent_keys (tbl db0) ->
  m_height db1 = m_height db0 -> m_batch_active db1 = m_batch_active db0 -> m_blocks (tbl db1) = m_blocks (tbl db0) -> m_block_info (tbl db1) = m_block_info (tbl db0) ->
  m_block_heights (tbl db1) = m_block_heights (tbl db0) -> no_empty db1 -> (cached db0 -> cached db1) ->
  added [(h, tx)] db0 db1.
Proof.
  intros Hni Hnt Hp Hbi Hnd Hnew Ei Et Ek Eh Eba Eb Einf Ebh Hne Hc.
  assert (Ekeys : keys_of [(h, tx)] = spent (vin (prefix tx))) by (unfold keys_of; cbn; apply app_nil_r).
  split; try done; rewrite ?Ekeys; try done.
  - apply NoDup_singleton.
  - intros ? ->%list_elem_of_singleton. exact Hni.
  - intros ? ? [= -> ->]%list_elem_of_singleton. unfold get_tx, get_tx_block_height. rewrite Ei, Et, lookup_insert_eq.
    cbn [mbind option_bind fmap option_fmap option_map]. rewrite lookup_insert_eq, Hbi. split; [exact Hp|done].
  - intros h' Hh. rewrite Ei. apply lookup_insert_ne. intros <-. apply Hh. by left.
  - intros h' tx' Hg. unfold get_tx in *. rewrite Ei, Et. destruct (m_tx_indices (tbl db0) !! h') as [ti'|] eqn:E; [|done].
    rewrite lookup_insert_ne by congruence. rewrite E. cbn [mbind option_bind] in *.
    rewrite lookup_insert_ne by (intros Eq; by rewrite <- Eq, Hnt in Hg). exact Hg.
Qed.

(** A stored transaction: what adding it did, and that removing undoes it. *)
Lemma add_transaction_undo tx ptr db0 db1 u :
  storable tx -> no_empty db0 -> add_transaction tx ptr db0 = (db1, inr u) ->
  added [(stored_hash tx ptr, tx)] db0 db1 /\
  forall f c, cached (dress f c db1) ->
    exists c', remove_transaction (stored_hash tx ptr) (dress f c db1) = (dress f c' db0, inr tt) /\
      cached (dress f c' db0).
Proof.
  intros Hst Hne H. unfold add_transaction in H. fold (stored_hash tx ptr) in H. set (h := stored_hash tx ptr) in *.
  apply bind_success in H as (dba & r & Hin & H). destruct r as [miner|]; [|by eapply inputs_supported in Hin; [|apply Hst]].
  apply add_inputs_run in Hin as (Hm & Hnd & Hnew & ->).
  apply bind_success in H as (dbd & tx_id & Hdata & H). apply bind_success in H as (dbo & idxs & Houts & H).
  apply add_transaction_data_run in Hdata as (-> & Hni & Hnt & Hca & blob & al & c0 & ti & Eparse & Hti & Hal & Hdbd); [|done].
  apply add_outputs_undo in Houts as (Hne1 & Ho & Hlen & Hundo); [|by subst dbd].
  unfold add_tx_amount_output_indices in H. run_inv H. apply appendable_fresh in E.
  rewrite Ho in E |- *. assert (Hca' : cached db0 -> cached (with_outputs dbo dbd)) by exact Hca. clear Hca Ho.
  match goal with |- added _ _ ?d /\ _ => assert (Edb : exists db1, db1 = d /\ db1 =
    MkDb (MkTables (m_blocks (tbl db0)) (m_block_heights (tbl db0)) (m_block_info (tbl db0)) (<[m_num_txs db0 := blob]> (m_txs (tbl db0)))
      (<[h := ti]> (m_tx_indices (tbl db0))) (<[m_num_txs db0 := idxs]> (m_tx_outputs (tbl db0))) (m_output_txs (tbl dbo))
      (m_output_amounts (tbl dbo)) (list_to_set (spent (vin (prefix tx))) ∪ m_spent_keys (tbl db0)) al (m_hf_versions (tbl db0)))
    (m_height db0) (m_num_txs db0 + 1) (m_num_outputs dbo) c0 (m_hardfork db0) (m_batch_active db0)) by (subst dbd; eexists; split; reflexivity) end.
  destruct Edb as (db1 & <- & Edb).
  assert (Hc1 : cached db0 -> cached db1) by (rewrite Edb; subst dbd; exact Hca').
  assert (Eo : m_tx_outputs (tbl db0) !! m_num_txs db0 = None) by (subst dbd; exact E).
  assert (Hu1 : forall db', remove_outputs (is_pseudo_rct tx) (zip (vout (prefix tx)) idxs) (with_outputs db1 db') = (with_outputs db0 db', inr tt)).
  { intros db'. rewrite <- (pseudo_agrees tx Hst). rewrite Hm in Hundo. specialize (Hundo db'). rewrite Edb. subst dbd. exact Hundo. }
  clear Hca' E Hundo Hm dbd Hdbd. clearbody h. subst ti.
  assert (A : added [(h, tx)] db0 db1).
  { apply (added_single h tx (MkTxData (m_num_txs db0) (unlock_time (prefix tx)) (m_height db0)) blob); try done; by rewrite Edb. }
  split; [exact A|]. intros f c Hc. destruct (ad_txs _ _ _ A h tx ltac:(by left)) as [Hget _]. clear A Hc1.
  destruct (remove_transaction_run h tx (MkTxData (m_num_txs db0) (unlock_time (prefix tx)) (m_height db0)) idxs (m_aliases (tbl db0))
    (dress f c db1) db0) as (c' & -> & Hc'); [exact Hget|subst db1; cbn..| |].
  - apply lookup_insert_eq.
  - eexists. apply lookup_insert_eq.
  - apply lookup_insert_eq.
  - exact Hlen.
  - exact Hu1.
  - exact Hal.
  - exact Hc.
  - exists c'. split; [|exact Hc']. subst db1. cbn. rewrite !delete_insert_id by done. unfold dress. rewrite Nat.add_sub.
    do 3 f_equal. clear -Hnd Hnew. set_solver.
Qed.

Lemma remove_transactions_app l1 l2 db db1 db2 t1 t2 :
  remove_transactions l1 db = (db1, inr t1) -> remove_transactions l2 db1 = (db2, inr t2) ->
  remove_transactions (l1 ++ l2) db = (db2, inr (t1 ++ t2)).
Proof.
  revert db t1. induction l1 as [|h l1 IH]; intros db t1 H1 H2; cbn [app remove_transactions] in *; run_inv H1; [done|].
  run_step. rewrite (require_bind _ _ _ _ _ E). rewrite (bind_run _ _ _ _ _ H0).
  rewrite (bind_run _ _ _ _ _ (IH _ _ H3 H2)). done.
Qed.

Lemma add_transactions_undo txs : forall hashes db0 db1 u,
  Forall storable txs -> length hashes = length txs -> no_empty db0 -> add_transactions txs hashes db0 = (db1, inr u) ->
  added (zip hashes txs) db0 db1 /\
  forall f c, cached (dress f c db1) ->
    exists c', remove_transactions (rev hashes) (dress f c db1) = (dress f c' db0, inr (rev txs)) /\
      cached (dress f c' db0).
Proof.
  induction txs as [|tx txs IH]; intros [|h hashes] db0 db1 u Hst Hl Hne H; try done; cbn [add_transactions] in H.
  { run_inv H. split; [apply added_nil|]. intros f c Hc. by exists c. }
  apply Forall_cons in Hst as [Htx Hst]. apply bind_success in H as (dbt & u1 & H1 & H).
  apply add_transaction_undo in H1 as (A1 & Hu1); [|done..]. cbn [stored_hash] in *.
  apply IH in H as (A2 & Hu2); [|done|by injection Hl|by apply A1].
  split; [exact (added_app [(h, tx)] _ _ _ _ A1 A2)|]. intros f c Hc.
  destruct (Hu2 _ _ Hc) as (c2 & R2 & Hc2). destruct (Hu1 _ _ Hc2) as (c1 & R1 & Hc1). exists c1. split; [|done].
  cbn [rev]. eapply remove_transactions_app; [exact R2|]. cbn [remove_transactions]. run_step.
  destruct (ad_txs _ _ _ A1 h tx ltac:(by left)) as [Hget _].
  rewrite (require_bind _ _ _ _ _ Hget). rewrite (bind_run _ _ _ _ _ R1). done.
Qed.

(** ** Blocks *)

(** A block with what is stored with it. *)
Record entry := MkEntry {
  e_block : block;
  e_size : Z;
  e_difficulty : Z;
  e_coins : Z;
  e_txs : list transaction
}.
Definition add_entry (e : entry) : M nat := add_block (e_block e) (e_size e) (e_difficulty e) (e_coins e) (e_txs e).

Definition e_hash (e : entry) : hash := default null_hash (get_block_hash (e_block e)).
Definition e_miner_hash (e : entry) : hash := default null_hash (get_transaction_hash (miner_tx (e_block e))).
Definition e_all_txs (e : entry) : list (hash * transaction) :=
  (e_miner_hash e, miner_tx (e_block e)) :: zip (tx_hashes (e_block e)) (e_txs e).
Definition e_info (height : nat) (e : entry) : mdb_block_info :=
  MkBlockInfo (timestamp (Basic.header (e_block e))) (if (height =? 0)%nat then 0 else e_coins e) (e_size e) (e_difficulty e) (e_hash e).
Record storable_entry (e : entry) : Prop := {
  se_block : wf_block (e_block e);
  se_miner : storable (miner_tx (e_block e));
  se_txs : Forall storable (e_txs e);
  se_hashes : length (tx_hashes (e_block e)) = length (e_txs e)
}.

(** Equal but for the cache of aliases and what belongs to the hard forks. *)
Definition refresh (c : gmap (list Z) (nat * list Z)) (hv : gmap nat Z) (hf : HardFork.HardFork) (db : BlockchainLMDB) : BlockchainLMDB :=
  MkDb (set_hf_versions hv (tbl db)) (m_height db) (m_num_txs db) (m_num_outputs db) c hf (m_batch_active db).
Definition same (db db' : BlockchainLMDB) : Prop := exists c hv hf, db = refresh c hv hf db'.

Lemma add_block_data_run b sz d co h db0 db1 u :
  wf_block b -> add_block_data b sz d co h db0 = (db1, inr u) ->
  m_block_heights (tbl db0) !! h = None /\ m_blocks (tbl db0) !! m_height db0 = None /\ m_block_info (tbl db0) !! m_height db0 = None /\
  (m_height db0 = 0%nat \/ m_block_heights (tbl db0) !! prev_id (Basic.header b) = Some (m_height db0 - 1)%nat) /\
  exists blob, parse_binary read_block blob = Some b /\
    db1 = set_tbl (set_block_heights (<[h := m_height db0]> (m_block_heights (tbl db0)))
           (set_block_info (<[m_height db0 := MkBlockInfo (timestamp (Basic.header b)) (if (m_height db0 =? 0)%nat then 0 else co) sz d h]>
             (m_block_info (tbl db0)))
           (set_blocks (<[m_height db0 := blob]> (m_blocks (tbl db0))) (tbl db0)))) db0.
Proof.
  intros Hwf H. unfold add_block_data in H.
  destruct (parse_dump _ _ _ (rt_rt0 _ _ _ (rt_block b Hwf))) as (blob & Edump & Eparse).
  rewrite Edump in H. apply bind_success in H as (db & x & Hg & H). run_inv Hg.
  apply bind_success in H as (db & [] & Hg & H). run_inv Hg. apply bool_decide_eq_true in E.
  apply bind_success in H as (db & [] & Hg & H).
  assert (Hp : db = db0 /\ (m_height db0 = 0%nat \/ m_block_heights (tbl db0) !! prev_id (Basic.header b) = Some (m_height db0 - 1)%nat)).
  { destruct (m_height db0 =? 0)%nat eqn:E0; run_inv Hg; [apply Nat.eqb_eq in E0; auto|].
    apply Nat.eqb_eq in E2 as ->. auto. }
  destruct Hp as [-> Hp]. clear Hg. run_inv H. apply appendable_fresh in E0, E1. split_and!; [done..|]. by exists blob.
Qed.

Lemma hardfork_add_run b n db0 db1 u : hardfork_add b n db0 = (db1, inr u) ->
  exists hv hf, db1 = set_hardfork hf (set_tbl (set_hf_versions hv (tbl db0)) db0).
Proof.
  unfold hardfork_add. intros H. apply bind_success in H as (db & x & Hg & H). run_inv Hg.
  apply bind_success in H as (db & [[y hf] hdb] & Hg & H). run_inv Hg. run_inv H. eauto.
Qed.

(** What a block adds. *)
Record block_added (e : entry) (db0 db1 : BlockchainLMDB) : Prop := {
  ba_height : m_height db1 = S (m_height db0);
  ba_new : m_block_heights (tbl db0) !! e_hash e = None;
  ba_parent : m_height db0 = 0%nat \/
    m_block_heights (tbl db0) !! prev_id (Basic.header (e_block e)) = Some (m_height db0 - 1)%nat;
  ba_heights : m_block_heights (tbl db1) = <[e_hash e := m_height db0]> (m_block_heights (tbl db0));
  ba_info : m_block_info (tbl db1) = <[m_height db0 := e_info (m_height db0) e]> (m_block_info (tbl db0));
  ba_blocks : exists blob, parse_binary read_block blob = Some (e_block e) /\
    m_blocks (tbl db1) = <[m_height db0 := blob]> (m_blocks (tbl db0));
  ba_txs : exists fa fb dbt, added (e_all_txs e) (dress fa (m_aliases_multi_index db0) db0) dbt /\
    db1 = dress fb (m_aliases_multi_index dbt) dbt /\ m_height fa = m_height db0
}.

(** Popping a block first takes it out of the tables of blocks: what is left of a
    database [dbt] that has the block on top of those of [db0]. *)
Lemma remove_block_run e db0 dbt f blob c : let h := m_height db0 in
  m_blocks (tbl db0) !! h = None -> m_block_info (tbl db0) !! h = None -> m_block_heights (tbl db0) !! e_hash e = None ->
  m_blocks (tbl dbt) = <[h := blob]> (m_blocks (tbl db0)) ->
  m_block_info (tbl dbt) = <[h := e_info h e]> (m_block_info (tbl db0)) ->
  m_block_heights (tbl dbt) = <[e_hash e := h]> (m_block_heights (tbl db0)) ->
  parse_binary read_block blob = Some (e_block e) -> m_height f = S h ->
  let db := dress (set_tbl (set_hf_versions (m_hf_versions (tbl f)) (tbl dbt)) f) c dbt in
  get_top_block db = Some (e_block e) /\
  remove_block db = (dress (set_tbl (set_hf_versions (m_hf_versions (tbl f)) (tbl db0)) f) c dbt, inr tt).
Proof.
  intros h Nb Ni Nh Eb Ei Eh Ep Hf db. assert (Hd : m_height db = S h) by exact Hf. split.
  { unfold get_top_block, get_block_from_height. rewrite Hd. cbn -[parse_binary]. by rewrite Nat.sub_0_r, Eb, lookup_insert_eq. }
  unfold remove_block. run_step. rewrite Hd. rewrite ensure_bind by done. replace (S h - 1)%nat with h by lia.
  erewrite require_bind by (cbn; rewrite Ei; apply lookup_insert_eq).
  rewrite ensure_bind by (apply bool_decide_eq_true; cbn; rewrite Eh, lookup_insert_eq; by eexists). run_step.
  rewrite ensure_bind by (apply bool_decide_eq_true; cbn; rewrite Eb, lookup_insert_eq; by eexists). run_step.
  unfold modify_tables, modify. unfold dress, db. cbn. rewrite Eb, Ei, Eh, !delete_insert_id by done. reflexivity.
Qed.

Lemma pop_block_run db h b db1 db2 db3 txs :
  m_height db = S h -> get_top_block db = Some b -> remove_block db = (db1, inr tt) ->
  remove_transactions (rev (tx_hashes b)) db1 = (db2, inr txs) ->
  remove_transaction (default null_hash (get_transaction_hash (miner_tx b))) db2 = (db3, inr tt) -> m_height db3 = S h ->
  pop_block db = (set_height h db3, inr (b, txs)).
Proof.
  intros Hh Ht H1 H2 H3 Hh3. unfold pop_block, pop_block_txs. repeat run_step. rewrite ensure_bind by by rewrite Hh.
  rewrite (require_bind _ _ _ _ _ Ht), (bind_run _ _ _ _ _ H1), (bind_run _ _ _ _ _ H2), (bind_run _ _ _ _ _ H3).
  unfold returns. rewrite Hh3. by replace (S h - 1)%nat with h by lia.
Qed.

Lemma add_block_undo e db0 db1 n :
  storable_entry e -> no_empty db0 -> add_entry e db0 = (db1, inr n) ->
  n = S (m_height db0) /\ block_added e db0 db1 /\
  forall db, same db db1 -> cached db ->
    exists db', pop_block db = (db', inr (e_block e, rev (e_txs e))) /\ same db' db0 /\ cached db'.
Proof.
  intros [Hwf Hsm Hst Hl] Hne H. unfold add_entry, add_block in H.
  destruct (add_block_txs _ _ _ _ _ db0) as [dbh [er|u]] eqn:Er; [done|]. unfold add_block_txs in Er. fold (e_hash e) in Er.
  apply bind_success in Er as (dba & u1 & Ha & Er). apply bind_success in Er as (dbm & u2 & Hm & Er).
  apply bind_success in Er as (dbt & u3 & Ht & Er). apply bind_success in Er as (dbx & u4 & Hg & Er). run_inv Hg.
  apply hardfork_add_run in Er as (hv & hf & Hh).
  apply add_block_data_run in Ha as (N1 & N2 & N3 & Hp & blob & Eparse & Hdba); [|done].
  apply add_transaction_undo in Hm as (A1 & U1); [|done|by subst dba]. cbn [stored_hash] in A1, U1.
  apply add_transactions_undo in Ht as (A2 & U2); [|done|done|by apply A1; subst dba].
  pose proof (added_app [_] _ _ _ _ A1 A2) as A. fold (e_miner_hash e) in A, U1. fold (e_all_txs e) in A.
  assert (Hht : m_height dbt = m_height db0) by (rewrite (ad_height _ _ _ A); by subst dba).
  assert (Hbt : m_batch_active dbt = m_batch_active db0) by (rewrite (ad_batch _ _ _ A); by subst dba).
  pose proof (ad_blocks _ _ _ A) as Eb. pose proof (ad_block_info _ _ _ A) as Ei. pose proof (ad_block_heights _ _ _ A) as Eh.
  assert (Ba : block_added e db0 db1 /\ n = S (m_height db0) /\ exists c0, db1 = refresh c0 hv hf (set_height (S (m_height db0)) dbt)).
  { subst dbh. injection H as <- <-. cbn. rewrite Hht, Nat.add_1_r. split; [|split; [done|by eexists]].
    split; cbn; try done.
    - rewrite Eh. by subst dba.
    - rewrite Ei. by subst dba.
    - exists blob. rewrite Eb. by subst dba.
    - exists dba, (MkDb (set_hf_versions hv (tbl dbt)) (S (m_height db0)) 0 0 ∅ hf (m_batch_active dbt)), dbt. subst dba. split_and!; done. }
  clear H Hh dbh. destruct Ba as (B & -> & c0 & ->). split; [done|]. split; [done|]. clear B.
  intros db (c & hv' & hf' & ->) Hc. set (f := MkDb (set_hf_versions hv' (tbl db0)) (S (m_height db0)) 0 0 ∅ hf' (m_batch_active dbt)).
  assert (Hc' : cached (dress f c dbt)) by exact Hc.
  destruct (U2 _ _ Hc') as (c2 & R2 & Hc2). destruct (U1 _ _ Hc2) as (c1 & R1 & Hc1). clear Hc Hc' Hc2 U1 U2.
  assert (Et : refresh c hv' hf' (refresh c0 hv hf (set_height (S (m_height db0)) dbt)) =
    dress (set_tbl (set_hf_versions (m_hf_versions (tbl f)) (tbl dbt)) f) c dbt) by reflexivity.
  destruct (remove_block_run e db0 dbt f blob c N2 N3 N1) as [Htop Hrm]; [rewrite ?Eb, ?Ei, ?Eh; by subst dba..|done|done|].
  rewrite <- Et in Htop, Hrm. exists (set_height (m_height db0) (dress f c1 dba)). split; [|split].
  - by eapply (pop_block_run _ (m_height db0)).
  - exists c1, hv', hf'. subst dba. unfold refresh. by rewrite <- Hbt.
  - exact Hc1.
Qed.

(** ** Failures *)

(** Adding keeps the height and every alias of the cache, whether it succeeds or
    throws. *)
Definition frame {A} (m : M A) : Prop := forall db,
  m_height (m db).1 = m_height db /\ m_batch_active (m db).1 = m_batch_active db /\
  dom (m_aliases_multi_index db) ⊆ dom (m_aliases_multi_index (m db).1).

Lemma frame_bind {A B} (m : M A) (f : A -> M B) : frame m -> (forall x, frame (f x)) -> frame (m ≫= f).
Proof.
  intros Hm Hf db. unfold mbind, M_bind. specialize (Hm db). destruct (m db) as [db1 [e|x]]; [done|].
  specialize (Hf x db1). cbn in *. destruct Hm as (Hm1 & Hm2 & Hm3), Hf as (Hf1 & Hf2 & Hf3).
  split; [congruence|]. split; [congruence|]. by etrans.
Qed.
Lemma frame_get : frame get.
Proof. done. Qed.
Lemma frame_modify_tables f : frame (modify_tables f).
Proof. done. Qed.
Lemma frame_returns {A} (x : A) : frame (returns x).
Proof. done. Qed.
Lemma frame_throw {A} e : frame (throw (A := A) e).
Proof. done. Qed.
Lemma frame_require {A} e (o : option A) : frame (require e o).
Proof. by destruct o. Qed.
Lemma frame_ensure e b : frame (ensure e b).
Proof. by destruct b. Qed.
Lemma frame_set_num_outputs n : frame (modify (set_num_outputs n)).
Proof. done. Qed.
Lemma frame_set_num_txs n : frame (modify (set_num_txs n)).
Proof. done. Qed.
Lemma frame_set_hardfork hf : frame (modify (set_hardfork hf)).
Proof. done. Qed.
Lemma frame_cache a address :
  frame (modify (fun db => set_alias_cache (<[a := (m_height db, address)]> (m_aliases_multi_index db)) db)).
Proof. intros db. cbn. split; [done|]. split; [done|]. rewrite dom_insert_L. set_solver. Qed.

Create HintDb frame discriminated.
#[local] Hint Resolve frame_get frame_modify_tables frame_returns frame_throw frame_require frame_ensure frame_set_num_outputs
  frame_set_num_txs frame_set_hardfork frame_cache : frame.
Ltac frame_tac :=
  repeat first
    [ solve [eauto with frame]
    | apply frame_bind; [|intros ?]
    | match goal with |- frame (match ?x with _ => _ end) => destruct x end
    | match goal with |- frame (let '(_, _) := ?x in _) => destruct x end ].

Lemma frame_add_alias tx : frame (add_alias tx).
Proof. unfold add_alias. frame_tac. Qed.
#[local] Hint Resolve frame_add_alias : frame.
Lemma frame_add_inputs l : forall m, frame (add_inputs m l).
Proof. induction l as [|[] l IH]; intros m; cbn [add_inputs]; unfold add_spent_key; frame_tac. Qed.
Lemma frame_remove_inputs l : frame (remove_inputs l).
Proof. induction l as [|[] l IH]; cbn [remove_inputs]; unfold remove_spent_key; frame_tac. Qed.
Lemma frame_add_output h o li ut com : frame (add_output h o li ut com).
Proof. unfold add_output. frame_tac. Qed.
#[local] Hint Resolve frame_add_output frame_add_inputs frame_remove_inputs : frame.
Lemma frame_add_outputs tx h m outs : forall i, frame (add_outputs tx h m i outs).
Proof. induction outs as [|o outs IH]; intros i; cbn [add_outputs]; frame_tac. Qed.
Lemma frame_add_transaction_data tx h : frame (add_transaction_data tx h).
Proof. unfold add_transaction_data. frame_tac. Qed.
#[local] Hint Resolve frame_add_outputs frame_add_transaction_data : frame.
Lemma frame_add_transaction tx ptr : frame (add_transaction tx ptr).
Proof. unfold add_transaction, add_tx_amount_output_indices. frame_tac. Qed.
#[local] Hint Resolve frame_add_transaction : frame.
Lemma frame_add_transactions txs : forall hashes, frame (add_transactions txs hashes).
Proof. induction txs as [|tx txs IH]; intros [|h hashes]; cbn [add_transactions]; frame_tac. Qed.
#[local] Hint Resolve frame_add_transactions : frame.
Lemma frame_add_block_txs b sz d co txs : frame (add_block_txs b sz d co txs).
Proof. unfold add_block_txs, add_block_data, hardfork_add. frame_tac. Qed.

Lemma add_block_abort e db0 db1 er : m_batch_active db0 = false -> add_entry e db0 = (db1, inl er) ->
  same db1 db0 /\ (cached db0 -> cached db1).
Proof.
  intros Hb. unfold add_entry, add_block.
  pose proof (frame_add_block_txs (e_block e) (e_size e) (e_difficulty e) (e_coins e) (e_txs e) db0) as (Hh & Hb' & Hd).
  destruct (add_block_txs _ _ _ _ _ db0) as [db [er'|]]; [|done]. cbn [fst] in *. intros [= <- <-]. unfold abort, block_txn_abort. cbn. rewrite Hb', Hb. split.
  - exists (m_aliases_multi_index db), (m_hf_versions (tbl db0)), (m_hardfork db). unfold refresh. db_cbn. rewrite Hh, Hb', Hb.
    by destruct db0 as [[] ].
  - intros Hc a Ha. apply elem_of_dom, Hd, elem_of_dom, Hc, Ha.
Qed.

(** Storing and removing transactions and blocks leaves the hard forks alone,
    whether it succeeds or throws. *)
Definition keeps_forks {A} (m : M A) : Prop := forall db,
  m_hardfork (m db).1 = m_hardfork db /\ m_hf_versions (tbl (m db).1) = m_hf_versions (tbl db).

Lemma keeps_forks_bind {A B} (m : M A) (f : A -> M B) : keeps_forks m -> (forall x, keeps_forks (f x)) -> keeps_forks (m ≫= f).
Proof.
  intros Hm Hf db. unfold mbind, M_bind. specialize (Hm db). destruct (m db) as [db1 [e|x]]; [done|].
  specialize (Hf x db1). cbn in *. destruct Hm, Hf. split; congruence.
Qed.
Lemma keeps_forks_modify f : (forall db, m_hardfork (f db) = m_hardfork db /\ m_hf_versions (tbl (f db)) = m_hf_versions (tbl db)) ->
  keeps_forks (modify f).
Proof. intros H db. apply H. Qed.
Lemma keeps_forks_modify_tables f : (forall t, m_hf_versions (f t) = m_hf_versions t) -> keeps_forks (modify_tables f).
Proof. intros H db. split; [done|]. apply H. Qed.
Lemma keeps_forks_require {A} e (o : option A) : keeps_forks (require e o).
Proof. by destruct o. Qed.
Lemma keeps_forks_ensure e b : keeps_forks (ensure e b).
Proof. by destruct b. Qed.

Create HintDb forks discriminated.
#[local] Hint Resolve keeps_forks_require keeps_forks_ensure : forks.
Ltac forks_tac :=
  repeat first
    [ solve [eauto with forks]
    | match goal with
      | |- keeps_forks get => done
      | |- keeps_forks (returns _) => done
      | |- keeps_forks (throw _) => done
      | |- keeps_forks (modify _) => apply keeps_forks_modify; done
      | |- keeps_forks (modify_tables _) => apply keeps_forks_modify_tables; done
      | |- keeps_forks (match ?x with _ => _ end) => destruct x
      end
    | apply keeps_forks_bind; [|intros ?] ].

Lemma keeps_forks_add_inputs l : forall m, keeps_forks (add_inputs m l).
Proof. induction l as [|[] l IH]; intros m; cbn [add_inputs]; unfold add_spent_key; forks_tac. Qed.
Lemma keeps_forks_remove_inputs l : keeps_forks (remove_inputs l).
Proof. induction l as [|[] l IH]; cbn [remove_inputs]; unfold remove_spent_key; forks_tac. Qed.
Lemma keeps_forks_add_outputs tx h m outs : forall i, keeps_forks (add_outputs tx h m i outs).
Proof. induction outs as [|o outs IH]; intros i; cbn [add_outputs]; unfold add_output; forks_tac. Qed.
#[local] Hint Resolve keeps_forks_add_inputs keeps_forks_remove_inputs keeps_forks_add_outputs : forks.
Lemma keeps_forks_add_transaction tx ptr : keeps_forks (add_transaction tx ptr).
Proof. unfold add_transaction, add_transaction_data, add_alias, add_tx_amount_output_indices. forks_tac. Qed.
#[local] Hint Resolve keeps_forks_add_transaction : forks.
Lemma keeps_forks_add_transactions txs : forall hashes, keeps_forks (add_transactions txs hashes).
Proof. induction txs as [|tx txs IH]; intros [|h hashes]; cbn [add_transactions]; forks_tac. Qed.
Lemma keeps_forks_remove_outputs ps outs : keeps_forks (remove_outputs ps outs).
Proof. induction outs as [|[o i] outs IH]; cbn [remove_outputs]; unfold remove_output; forks_tac. Qed.
#[local] Hint Resolve keeps_forks_add_transactions keeps_forks_remove_outputs : forks.
Lemma keeps_forks_remove_transaction h : keeps_forks (remove_transaction h).
Proof. unfold remove_transaction, remove_transaction_data, remove_tx_outputs, remove_alias. forks_tac. Qed.
#[local] Hint Resolve keeps_forks_remove_transaction : forks.
Lemma keeps_forks_remove_transactions hashes : keeps_forks (remove_transactions hashes).
Proof. induction hashes as [|h hashes IH]; cbn [remove_transactions]; forks_tac. Qed.
#[local] Hint Resolve keeps_forks_remove_transactions : forks.
Lemma keeps_forks_pop_block db : m_hardfork (pop_block db).1 = m_hardfork db /\
  ((exists r, (pop_block db).2 = inr r) -> m_hf_versions (tbl (pop_block db).1) = m_hf_versions (tbl db)).
Proof.
  assert (H : keeps_forks pop_block_txs) by (unfold pop_block_txs, remove_block; forks_tac).
  unfold pop_block. specialize (H db). destruct (pop_block_txs db) as [db1 [er|r]]; cbn in *; [|tauto].
  unfold abort, block_txn_abort. split; [|by intros [? ?]]. cbn. destruct (m_batch_active db1); apply H.
Qed.

(** What [add_block] does to the hard forks: a block that is stored is added to
    them. *)
Lemma add_entry_forks e db : m_batch_active db = false ->
  match add_entry e db with
  | (db1, inl _) => m_hardfork db1 = m_hardfork db /\ m_hf_versions (tbl db1) = m_hf_versions (tbl db)
  | (db1, inr _) => exists r hdb, HardFork.add (hf_header (e_block e)) (m_height db) (m_hardfork db)
      (HardFork.MkDb [] (m_hf_versions (tbl db))) = Some (r, m_hardfork db1, hdb) /\ m_hf_versions (tbl db1) = HardFork.hf_versions hdb
  end.
Proof.
  intros Hb. unfold add_entry, add_block, add_block_txs.
  pose proof (frame_add_block_txs (e_block e) (e_size e) (e_difficulty e) (e_coins e) (e_txs e) db) as (_ & Hb' & _).
  unfold add_block_txs in Hb'.
  set (h := default null_hash (get_block_hash (e_block e))) in *.
  assert (K1 : keeps_forks (add_block_data (e_block e) (e_size e) (e_difficulty e) (e_coins e) h)) by (unfold add_block_data; forks_tac).
  assert (F1 : frame (add_block_data (e_block e) (e_size e) (e_difficulty e) (e_coins e) h)) by (unfold add_block_data; frame_tac).
  pose proof (keeps_forks_add_transaction (miner_tx (e_block e)) None) as K2. pose proof (frame_add_transaction (miner_tx (e_block e)) None) as F2.
  pose proof (keeps_forks_add_transactions (e_txs e) (tx_hashes (e_block e))) as K3. pose proof (frame_add_transactions (e_txs e) (tx_hashes (e_block e))) as F3.
  unfold mbind, M_bind in *. specialize (K1 db). specialize (F1 db).
  destruct (add_block_data _ _ _ _ h db) as [db1 [er|x]]; cbn [fst] in *.
  { unfold abort, block_txn_abort. cbn. rewrite Hb', Hb. cbn. split; [apply K1|done]. }
  specialize (K2 db1). specialize (F2 db1). destruct (add_transaction _ None db1) as [db2 [er|y]]; cbn [fst] in *.
  { unfold abort, block_txn_abort. cbn. rewrite Hb', Hb. cbn. split; [|done]. transitivity (m_hardfork db1); [apply K2|apply K1]. }
  specialize (K3 db2). specialize (F3 db2). destruct (add_transactions _ _ db2) as [db3 [er|z]]; cbn [fst] in *.
  { unfold abort, block_txn_abort. cbn. rewrite Hb', Hb. cbn. split; [|done]. destruct K1, K2, K3. congruence. }
  unfold get in *. unfold hardfork_add, get, require, throw, returns, modify_tables, modify, mbind, M_bind in *.
  assert (Eh : m_height db3 = m_height db) by (destruct F1 as (? & _), F2 as (? & _), F3 as (? & _); congruence).
  assert (Ef : m_hardfork db3 = m_hardfork db /\ m_hf_versions (tbl db3) = m_hf_versions (tbl db)) by (destruct K1, K2, K3; split; congruence).
  destruct Ef as [Ef Ev]. rewrite Eh, Ef, Ev in *.
  destruct (HardFork.add _ _ _ _) as [[[r hf] hdb]|] eqn:Ea; cbn [fst] in *.
  - exists r, hdb. done.
  - unfold abort, block_txn_abort. cbn. rewrite Hb', Hb. cbn. done.
Qed.

(** ** The stored chain *)

Definition empty_db (c : gmap (list Z) (nat * list Z)) (hv : gmap nat Z) (hf : HardFork.HardFork) : BlockchainLMDB :=
  MkDb (MkTables ∅ ∅ ∅ ∅ ∅ ∅ ∅ ∅ ∅ ∅ hv) 0 0 0 c hf false.

(** The database of a chain: what storing its blocks one after the other gives,
    but for the cache of aliases and the hard forks. *)
Inductive built : list entry -> BlockchainLMDB -> Prop :=
  | built_nil c hv hf : built [] (empty_db c hv hf)
  | built_snoc l e db0 db1 n db : built l db0 -> storable_entry e -> add_entry e db0 = (db1, inr n) -> same db db1 ->
      built (l ++ [e]) db.

Lemma same_refl db : same db db.
Proof. exists (m_aliases_multi_index db), (m_hf_versions (tbl db)), (m_hardfork db). by destruct db as [[] ]. Qed.
Lemma same_trans db1 db2 db3 : same db1 db2 -> same db2 db3 -> same db1 db3.
Proof. intros (c & hv & hf & ->) (c' & hv' & hf' & ->). by exists c, hv, hf. Qed.
Lemma built_same l db db' : built l db' -> same db db' -> built l db.
Proof.
  intros [c hv hf|l0 e db0 db1 n db1' Hb Hs Ha Hsame] H.
  - destruct H as (c' & hv' & hf' & ->). apply built_nil.
  - eapply built_snoc; [done..|]. by eapply same_trans.
Qed.

(** What the tables hold of a chain. *)
Definition chain_txs (l : list entry) : list (hash * transaction) := l ≫= e_all_txs.
Record represents_blocks (l : list entry) (db : BlockchainLMDB) : Prop := {
  rp_height : m_height db = length l;
  rp_blocks : forall i, get_block_from_height db i = e_block <$> l !! i;
  rp_info : forall i, m_block_info (tbl db) !! i = e_info i <$> l !! i;
  rp_heights : forall h i, get_block_height db h = Some i <-> e_hash <$> l !! i = Some h;
  rp_parent : forall i e e', l !! i = Some e -> l !! S i = Some e' -> prev_id (Basic.header (e_block e')) = e_hash e
}.
Record represents_txs (l : list entry) (db : BlockchainLMDB) : Prop := {
  rp_no_empty : no_empty db;
  rp_txs : forall i e h tx, l !! i = Some e -> (h, tx) ∈ e_all_txs e ->
    get_tx db h = Some tx /\ get_tx_block_height db h = Some i;
  rp_exists : forall h, tx_exists db h = true <-> h ∈ (chain_txs l).*1;
  rp_txs_nodup : NoDup (chain_txs l).*1;
  rp_keys : m_spent_keys (tbl db) = list_to_set (keys_of (chain_txs l));
  rp_keys_nodup : NoDup (keys_of (chain_txs l))
}.

Definition represents (l : list entry) (db : BlockchainLMDB) : Prop := represents_blocks l db /\ represents_txs l db.

Lemma represents_nil c hv hf : represents [] (empty_db c hv hf).
Proof.
  split; split; try done; try (by constructor); intros *; unfold no_empty, get_block_from_height, get_block_height, tx_exists;
    cbn; rewrite ?lookup_empty; try done.
  rewrite bool_decide_eq_true. split; [by intros []|intros H; by apply elem_of_nil in H].
Qed.

Lemma represents_same l db db' : represents l db' -> same db db' -> represents l db.
Proof. intros [[] []] (c & hv & hf & ->). split; by split. Qed.

Lemma chain_txs_snoc l e : chain_txs (l ++ [e]) = chain_txs l ++ e_all_txs e.
Proof. unfold chain_txs. rewrite bind_app. cbn. by rewrite app_nil_r. Qed.

Lemma lookup_snoc_decide {A} (l : list A) x i : (l ++ [x]) !! i = if decide (i = length l) then Some x else l !! i.
Proof.
  destruct (decide _) as [->|Hi]; [by apply list_lookup_middle|].
  destruct (decide (i < length l)%nat); [by apply lookup_app_l|]. rewrite (lookup_ge_None_2 l) by lia.
  apply lookup_ge_None_2. rewrite length_app. cbn. lia.
Qed.

Lemma represents_blocks_snoc l e db0 db1 : represents_blocks l db0 -> block_added e db0 db1 -> represents_blocks (l ++ [e]) db1.
Proof.
  intros R B. pose proof (rp_height _ _ R) as Hh. pose proof (lookup_snoc_decide l e) as Hlast. split.
  - rewrite (ba_height _ _ _ B), Hh, length_app. cbn. lia.
  - intros i. unfold get_block_from_height. destruct (ba_blocks _ _ _ B) as (blob & Ep & ->). rewrite Hh, Hlast.
    destruct (decide _) as [->|Hi]; [by rewrite lookup_insert_eq|]. rewrite lookup_insert_ne by done. apply R.
  - intros i. rewrite (ba_info _ _ _ B), Hh, Hlast.
    destruct (decide _) as [->|Hi]; [by rewrite lookup_insert_eq|]. rewrite lookup_insert_ne by done. apply R.
  - intros h i. unfold get_block_height. rewrite (ba_heights _ _ _ B), Hh, Hlast. pose proof (ba_new _ _ _ B) as Hn.
    destruct (decide (h = e_hash e)) as [->|He].
    + rewrite lookup_insert_eq. destruct (decide _) as [->|Hi]; [done|]. split; [congruence|].
      intros Hi'%(rp_heights _ _ R). unfold get_block_height in Hi'. congruence.
    + rewrite lookup_insert_ne by done. destruct (decide _) as [->|Hi]; [|apply R].
      split; [|intros [= <-]; done]. intros Hi%(rp_heights _ _ R). by rewrite lookup_ge_None_2 in Hi by lia.
  - intros i e1 e2. rewrite !Hlast. destruct (decide (i = length l)) as [->|Hi].
    { intros _. rewrite decide_False by lia. intros ?%lookup_lt_Some. lia. }
    intros H1 H2. destruct (decide (S i = length l)) as [Hs|Hs]; [|by eapply R].
    injection H2 as <-. destruct (ba_parent _ _ _ B) as [?|Hp]; [lia|].
    apply (rp_heights _ _ R) in Hp. rewrite Hh, <- Hs in Hp. replace (S i - 1)%nat with i in Hp by lia. rewrite H1 in Hp. by injection Hp.
Qed.

Lemma represents_txs_snoc l e db0 db1 :
  m_height db0 = length l -> represents_txs l db0 -> block_added e db0 db1 -> represents_txs (l ++ [e]) db1.
Proof.
  intros Hh R B. pose proof (lookup_snoc_decide l e) as Hlast.
  destruct (ba_txs _ _ _ B) as (fa & fb & dbb & A & -> & Hha). clear B. split.
  - apply (ad_no_empty _ _ _ A), R.
  - intros i e' h tx. rewrite Hlast. destruct (decide _) as [->|Hi].
    + intros [= <-] Hin. rewrite <- Hh, <- Hha. by apply (ad_txs _ _ _ A).
    + intros Hi' Hin. destruct (rp_txs _ _ R _ _ _ _ Hi' Hin) as [H1 H2]. split; [by apply (ad_old _ _ _ A)|].
      unfold get_tx_block_height in *. cbn. rewrite (ad_none _ _ _ A); [done|]. intros Hd%(ad_fresh _ _ _ A).
      unfold get_tx in H1. cbn in Hd. by rewrite Hd in H1.
  - intros h. rewrite chain_txs_snoc, fmap_app, elem_of_app. unfold tx_exists. cbn. rewrite bool_decide_eq_true.
    destruct (decide (h ∈ (e_all_txs e).*1)) as [Hin|Hin].
    + split; [by right|]. intros _. apply list_elem_of_fmap in Hin as ([h' tx] & -> & Hin).
      destruct (ad_txs _ _ _ A _ _ Hin) as [Hg _]. unfold get_tx in Hg. cbn. by destruct (m_tx_indices (tbl dbb) !! h').
    + rewrite (ad_none _ _ _ A) by done. cbn. pose proof (rp_exists _ _ R h) as He. unfold tx_exists in He.
      rewrite bool_decide_eq_true in He. tauto.
  - rewrite chain_txs_snoc, fmap_app. apply NoDup_app. split; [apply R|]. split; [|apply A].
    intros h H1%(rp_exists _ _ R) H2%(ad_fresh _ _ _ A). unfold tx_exists in H1. cbn in H2. by rewrite H2 in H1.
  - cbn. rewrite (ad_keys _ _ _ A), chain_txs_snoc. unfold keys_of. rewrite bind_app, list_to_set_app_L.
    cbn. rewrite (rp_keys _ _ R). apply union_comm_L.
  - rewrite chain_txs_snoc. unfold keys_of. rewrite bind_app. apply NoDup_app. split; [apply R|]. split; [|apply A].
    intros k H1 H2%(ad_keys_fresh _ _ _ A). cbn in H2. rewrite (rp_keys _ _ R) in H2.
    by apply H2, elem_of_list_to_set.
Qed.

Lemma built_represents l db : built l db -> represents l db.
Proof.
  induction 1 as [c hv hf|l e db0 db1 n db Hb [IH1 IH2] Hs Ha Hsame]; [apply represents_nil|].
  apply add_block_undo in Ha as (_ & B & _); [|done|apply IH2]. eapply represents_same; [|done]. split.
  - by eapply represents_blocks_snoc.
  - eapply represents_txs_snoc; [apply IH1|done..].
Qed.

Lemma block_added_cached e db0 db1 : block_added e db0 db1 -> cached db0 -> cached db1.
Proof.
  intros B Hc. destruct (ba_txs _ _ _ B) as (fa & fb & dbt & A & -> & _). apply (ad_cached _ _ _ A), Hc.
Qed.

(** The steps of the database on a chain it holds. *)
Lemma built_add l e db db1 n : built l db -> cached db -> storable_entry e -> add_entry e db = (db1, inr n) ->
  n = S (length l) /\ built (l ++ [e]) db1 /\ cached db1.
Proof.
  intros Hb Hc Hs Ha. pose proof (built_represents _ _ Hb) as [R1 R2].
  destruct (add_block_undo _ _ _ _ Hs (rp_no_empty _ _ R2) Ha) as (-> & B & _).
  split; [by rewrite (rp_height _ _ R1)|]. split; [eapply built_snoc; [done..|apply same_refl]|].
  by eapply block_added_cached.
Qed.
Lemma built_pop l e db : built (l ++ [e]) db -> cached db ->
  exists db1, pop_block db = (db1, inr (e_block e, rev (e_txs e))) /\ built l db1 /\ cached db1.
Proof.
  intros Hb Hc. inversion Hb as [|l0 e0 db0 db1 n db' Hb0 Hs Ha Hsame El]; subst; [by destruct l|].
  apply app_inj_tail in El as [-> ->]. pose proof (built_represents _ _ Hb0) as [_ R2].
  destruct (add_block_undo _ _ _ _ Hs (rp_no_empty _ _ R2) Ha) as (_ & _ & U).
  destruct (U _ Hsame Hc) as (db2 & Hp & Hsm & Hc2). exists db2. split_and!; [done| |done]. by eapply built_same.
Qed.
Lemma built_batch l db : built l db -> m_batch_active db = false.
Proof.
  induction 1 as [|l e db0 db1 n db Hb IH Hs Ha (c & hv & hf & ->)]; [done|]. cbn. rewrite <- IH. unfold add_entry, add_block in Ha.
  pose proof (frame_add_block_txs (e_block e) (e_size e) (e_difficulty e) (e_coins e) (e_txs e) db0) as (_ & Hb' & _).
  destruct (add_block_txs _ _ _ _ _ db0) as [db [er'|]]; [done|]. by injection Ha as <- _.
Qed.
Lemma built_pop_nil db : built [] db -> pop_block db = (db, inl BLOCK_DNE).
Proof. intros Hb. inversion Hb as [|l e ? ? ? ? _ _ _ _ El]; [done|by destruct l]. Qed.

(** ** Histories *)

Inductive db_op := Op_add (e : entry) | Op_pop.
Definition op_storable (op : db_op) : Prop := match op with Op_add e => storable_entry e | Op_pop => True end.

(** Runs an operation on the database, and on the chain it holds: a block that
    is accepted is added at the end, popping takes the last one away. *)
Definition db_step (s : list entry * BlockchainLMDB) (op : db_op) : list entry * BlockchainLMDB :=
  let '(l, db) := s in
  match op with
  | Op_add e => match add_entry e db with (db, inr _) => (l ++ [e], db) | (db, inl _) => (l, db) end
  | Op_pop => (removelast l, (pop_block db).1)
  end.

Lemma db_step_built l db op : op_storable op -> built l db -> cached db ->
  let '(l', db') := db_step (l, db) op in built l' db' /\ cached db'.
Proof.
  intros Ho Hb Hc. destruct op as [e|]; cbn [db_step].
  - destruct (add_entry e db) as [db1 [er|n]] eqn:Ea.
    + destruct (add_block_abort _ _ _ _ (built_batch _ _ Hb) Ea) as [Hs Hc1]. split; [by eapply built_same|auto].
    + destruct (built_add _ _ _ _ _ Hb Hc Ho Ea) as (_ & H). exact H.
  - destruct l as [|e l _] using rev_ind; [by rewrite (built_pop_nil _ Hb)|].
    destruct (built_pop _ _ _ Hb Hc) as (db1 & -> & H). by rewrite removelast_last.
Qed.
Lemma db_steps_built ops : forall l db, Forall op_storable ops -> built l db -> cached db ->
  let '(l', db') := foldl db_step (l, db) ops in built l' db' /\ cached db'.
Proof.
  induction ops as [|op ops IH]; intros l db Ho Hb Hc; [done|]. apply Forall_cons in Ho as [Ho Hos]. cbn [foldl].
  pose proof (db_step_built l db op Ho Hb Hc) as H. destruct (db_step (l, db) op) as [l1 db1]. destruct H. by apply IH.
Qed.
Lemma empty_built hv hf : built [] (empty_db ∅ hv hf) /\ cached (empty_db ∅ hv hf).
Proof. split; [apply built_nil|]. intros a [x Hx]. cbn in Hx. by rewrite lookup_empty in Hx. Qed.



(** [C36] Adding a block outside a batch is all or nothing: when it throws, in whatever step, the
    tables and the counters are those of before. *)
Theorem add_block_atomic b block_size cumulative_difficulty coins_generated txs db0 db1 er :
  m_batch_active db0 = false -> add_block b block_size cumulative_difficulty coins_generated txs db0 = (db1, inl er) ->
  tbl db1 = tbl db0 /\ m_height db1 = m_height db0 /\ m_num_txs db1 = m_num_txs db0 /\ m_num_outputs db1 = m_num_outputs db0.
Proof.
  intros Hb H. unfold add_block in H.
  pose proof (frame_add_block_txs b block_size cumulative_difficulty coins_generated txs db0) as (Hh & Hb' & _).
  destruct (add_block_txs _ _ _ _ _ db0) as [db [er'|]]; [|done]. injection H as <- <-.
  unfold abort, block_txn_abort. cbn in *. by rewrite Hb', Hb.
Qed.


End Undo.

(** ** Aliases at the start *)

Lemma c_str_id s : Forall (fun c => c <> 0) s -> c_str s = s.
Proof. induction 1 as [|c s Hc _ IH]; [done|]. cbn. by rewrite (proj2 (Z.eqb_neq c 0) Hc), IH. Qed.
Lemma digit_prefix_digits s : digits s -> digit_prefix s = s.
Proof.
  induction 1 as [|c s Hc _ IH]; [done|]. cbn. replace (isdigit c) with true; [by rewrite IH|].
  unfold isdigit. symmetry. apply andb_true_iff. lia.
Qed.

Definition standard_alias (v : nat * list Z) : Prop :=
  Z.of_nat v.1 < 2 ^ 64 /\ length v.2 = 98%nat /\ Forall (fun c => c <> 0) v.2.
Lemma load_alias_value v : standard_alias v -> load_alias (alias_value v.1 v.2) = Some v.
Proof.
  destruct v as [h a]. intros (Hh & Hl & Hz). cbn [fst snd] in *. unfold alias_value.
  destruct (to_string_spec (Z.of_nat h)) as (s & -> & Hs & Hne & Hv); [words; lia|].
  rewrite c_str_id; [|apply Forall_app; split; [|done]; eapply Forall_impl; [exact Hs|cbn; intros; lia]].
  unfold load_alias. rewrite length_app, Hl. replace (length s + 98 <? 98)%nat with false by (symmetry; apply Nat.ltb_ge; lia).
  replace (length s + 98 - 98)%nat with (length s) by lia. rewrite take_app_length, drop_app_length.
  unfold stoull. rewrite digit_prefix_digits by done. destruct s as [|c s]; [done|]. rewrite Hv.
  replace (Z.of_nat h <? 2 ^ 64) with true by (symmetry; apply Z.ltb_lt; lia). cbn [mbind option_bind].
  rewrite Nat2Z.id, take_ge by lia. done.
Qed.

(** Aliases survive a restart: when the cache is in step with the table and
    every address is a standard one of 98 characters, reading the table into an
    empty cache gives the cache again. *)
Theorem load_aliases_restores db :
  m_aliases (tbl db) = (fun v => alias_value v.1 v.2) <$> m_aliases_multi_index db ->
  map_Forall (fun _ v => standard_alias v) (m_aliases_multi_index db) ->
  load_aliases (set_alias_cache ∅ db) = (db, inr tt).
Proof.
  intros Ht Hs. unfold load_aliases. run_step. cbn. rewrite Ht. rewrite ensure_bind.
  - unfold modify. cbn. rewrite map_empty_union. f_equal. replace (omap load_alias _) with (m_aliases_multi_index db); [by destruct db|].
    apply map_eq. intros a. rewrite lookup_omap, lookup_fmap. destruct (m_aliases_multi_index db !! a) as [v|] eqn:E; [|done].
    cbn. symmetry. apply load_alias_value. by eapply Hs.
  - apply bool_decide_eq_true. intros a w. rewrite lookup_fmap_Some. intros (v & <- & Hv). rewrite load_alias_value; [by eexists|].
    by eapply Hs.
Qed.

(** * Concrete histories *)

(** Keys are points, no signature is valid, the commitment of an amount is its
    low byte. *)
Definition sample_crypto : DbCrypto :=
  {| check_key _ := true; check_signature _ _ _ := false; zeroCommit a := repeat (a mod 256) 32 |}.
Definition sample_miner_tx (height : Z) (extra : list Z) : transaction :=
  MkTransaction (MkPrefix 2 (height + 60) [In_gen (MkTxinGen height)] [MkTxOut 5000 (To_key (repeat 7 32))] extra) [] rct_null.
Definition sample_entry (height : Z) (prev : hash) (extra : list Z) (txs : list (hash * transaction)) : entry :=
  MkEntry (MkBlock (MkHeader 1 1 (1546266600 + height) prev 7) (sample_miner_tx height extra) txs.*1) 300 (100 * (height + 1))
    (5000 * (height + 1)) txs.*2.
Definition sample_genesis : entry := sample_entry 0 (repeat 0 32) [1; 7] [].
Definition sample_second : entry :=
  sample_entry 1 (@e_hash truncating_FastHash sample_genesis) [1; 7] [(repeat 5 32, sample_ring_tx)].
(** The transaction again, under another hash. *)
Definition sample_third : entry :=
  sample_entry 2 (@e_hash truncating_FastHash sample_second) [1; 7] [(repeat 6 32, sample_ring_tx)].
Definition sample_db : BlockchainLMDB := empty_db ∅ ∅ HardFork.sample_fork.
Lemma sample_entry_storable height prev extra' txs :
  0 <= height < 1000 -> is_hash prev -> bytes extra' -> is_size (length extra') -> parse_tx_extra extra' = (false, []) ->
  Forall (fun p => is_hash p.1 /\ @storable truncating_FastHash sample_crypto p.2) txs -> is_size (length txs) ->
  @storable_entry truncating_FastHash sample_crypto (sample_entry height prev extra' txs).
Proof.
  intros Hh Hp Hb Hs Hx Ht Hl.
  assert (Hwf : wf_transaction (sample_miner_tx height extra')).
  { split; [|split; [done|split; [done|by left]]]. wf_concrete; try done; unfold word; try lia. }
  assert (Hst : @storable truncating_FastHash sample_crypto (sample_miner_tx height extra')).
  { split; [done|left; by eexists|]. intros a b c H. unfold alias_fields in H. cbn [extra prefix sample_miner_tx] in H. by rewrite Hx in H. }
  split.
  - split; [wf_concrete; apply Hp|]. split; [done|]. cbn. rewrite length_fmap. split; [|done].
    apply Forall_fmap. eapply Forall_impl; [done|]. by intros ? [].
  - done.
  - cbn. apply Forall_fmap. eapply Forall_impl; [done|]. by intros ? [].
  - cbn. by rewrite !length_fmap.
Qed.

Lemma sample_ring_tx_storable : @storable truncating_FastHash sample_crypto sample_ring_tx.
Proof.
  split; [apply sample_ring_tx_wf| |].
  - right. repeat constructor. by eexists.
  - intros a b c H. by vm_compute in H.
Qed.
Lemma sample_hash h : bool_decide (length h = 32%nat /\ Forall (fun x => 0 <= x < 256) h) = true -> is_hash h.
Proof. intros [Hl Hb]%bool_decide_eq_true. split; [done|]. eapply Forall_impl; [done|]. intros x. unfold word. cbn. lia. Qed.
Ltac sample_storable :=
  apply sample_entry_storable;
    [lia|by apply sample_hash|by repeat constructor|cbn; words; lia|by vm_compute| |cbn; words; lia].
Lemma sample_ops_storable : Forall (@op_storable truncating_FastHash sample_crypto)
  [Op_add sample_genesis; Op_add sample_second; Op_pop; Op_add sample_second; Op_add sample_third].
Proof.
  assert (Hr : forall n, is_u8 n -> Forall (fun p => is_hash p.1 /\ @storable truncating_FastHash sample_crypto p.2)
    [(repeat n 32, sample_ring_tx)]).
  { intros n Hn. constructor; [|constructor]. split; [by apply blob_repeat|apply sample_ring_tx_storable]. }
  assert (Hg : @storable_entry truncating_FastHash sample_crypto sample_genesis) by (sample_storable; constructor).
  assert (Hs : @storable_entry truncating_FastHash sample_crypto sample_second) by (sample_storable; apply Hr; words; lia).
  assert (Ht : @storable_entry truncating_FastHash sample_crypto sample_third) by (sample_storable; apply Hr; words; lia).
  repeat (apply Forall_cons; split; [done|]). constructor.
Qed.

Definition sample_ops : list db_op :=
  [Op_add sample_genesis; Op_add sample_second; Op_pop; Op_add sample_second; Op_add sample_third].



(** The database of the first [n] blocks. *)
Lemma sample_represents n : (n <= 2)%nat ->
  exists db, @represents truncating_FastHash (take n [sample_genesis; sample_second]) db.
Proof.
  intros Hn. pose proof sample_ops_storable as Ho. apply Forall_cons in Ho as [Hg [Hs _]%Forall_cons].
  pose proof (@empty_built truncating_FastHash sample_crypto ∅ HardFork.sample_fork) as [Hb Hc].
  set (ops := take n [Op_add sample_genesis; Op_add sample_second]).
  assert (Hops : Forall (@op_storable truncating_FastHash sample_crypto) ops) by (apply Forall_take, Forall_cons; split; [exact Hg|]; apply Forall_cons; split; [exact Hs|apply Forall_nil_2]).
  assert (Hl : (foldl (@db_step truncating_FastHash sample_crypto) ([], empty_db ∅ ∅ HardFork.sample_fork) ops).1 =
    take n [sample_genesis; sample_second]).
  { unfold ops. destruct n as [|[|[|n]]]; [vm_compute; reflexivity..|lia]. }
  pose proof (@db_steps_built truncating_FastHash sample_crypto ops _ _ Hops Hb Hc) as H.
  destruct (foldl _ _ _) as [l db] eqn:E. cbn [fst] in Hl. subst l. exists db.
  by apply (@built_represents truncating_FastHash sample_crypto), H.
Qed.


(** The parent of the third block is not stored. *)
Lemma add_block_atomic_witness :
  let '(db1, r) := @add_entry truncating_FastHash sample_crypto sample_third
    (@add_entry truncating_FastHash sample_crypto sample_genesis sample_db).1 in
  r = inl DB_ERROR /\ tbl db1 = tbl (@add_entry truncating_FastHash sample_crypto sample_genesis sample_db).1.
Proof.
  assert (H : (@add_entry truncating_FastHash sample_crypto sample_third
    (@add_entry truncating_FastHash sample_crypto sample_genesis sample_db).1).2 = inl DB_ERROR) by (vm_compute; reflexivity).
  destruct (add_entry sample_third _) as [db1 r] eqn:E. cbn [snd] in H. subst r. split; [done|].
  assert (Hb : m_batch_active (@add_entry truncating_FastHash sample_crypto sample_genesis sample_db).1 = false)
    by (vm_compute; reflexivity).
  destruct (add_block_atomic _ _ _ _ _ _ _ _ Hb E) as [Ht _]. exact Ht.
Defined.

(** The extra field of an alias "abc" for the address "xy" with the signature "z". *)
Definition alias_extra : list Z := [2; 4; 2; 97; 98; 99; 2; 3; 3; 120; 121; 2; 2; 4; 122].
Definition alias_genesis : entry := sample_entry 0 (repeat 0 32) alias_extra [].

(** An alias that was stored although its signature is not valid (the one of a
    miner transaction is never checked) is not removed with its block, and the
    block cannot be stored again. *)
Example unsigned_alias_stays :
  let '(db1, r1) := @add_entry truncating_FastHash sample_crypto alias_genesis sample_db in
  let '(db2, r2) := @pop_block truncating_FastHash sample_crypto db1 in
  let '(db3, r3) := @add_entry truncating_FastHash sample_crypto alias_genesis db2 in
  r1 = inr 1%nat /\ r2 = inr (e_block alias_genesis, []) /\ m_aliases (tbl db2) = {[ [97; 98; 99] := [48; 120; 121] ]} /\
  r3 = inl DB_ERROR.
Proof. vm_compute. done. Qed.

(** A block that is refused after an alias was registered (here its second
    transaction spends the key image of the first) leaves the alias in the cache:
    it is resolved, although the table does not have it. *)
Example refused_alias_resolves :
  let e := sample_entry 0 (repeat 0 32) alias_extra [(repeat 5 32, sample_ring_tx); (repeat 6 32, sample_ring_tx)] in
  let '(db1, r1) := @add_entry truncating_FastHash sample_crypto e sample_db in
  r1 = inl KEY_IMAGE_EXISTS /\ m_aliases (tbl db1) = ∅ /\ get_alias_address db1 [97; 98; 99] true = [120; 121].
Proof. vm_compute. done. Qed.

Lemma load_aliases_restores_witness :
  let db := set_alias_cache {[ [97; 98] := (12%nat, repeat 83 98) ]}
    (set_tbl (set_aliases {[ [97; 98] := [49; 50] ++ repeat 83 98 ]} (tbl sample_db)) sample_db) in
  load_aliases (set_alias_cache ∅ db) = (db, inr tt).
Proof.
  intros db. apply (load_aliases_restores db).
  - vm_compute. reflexivity.
  - apply map_Forall_singleton. split; [cbn; lia|]. split; [reflexivity|]. by repeat constructor.
Defined.

(** An integrated address is longer: after a restart its first characters are
    lost and the alias resolves to another text. *)
Example integrated_alias_truncated :
  load_alias (alias_value 12 ([83; 117] ++ repeat 84 98)) = Some (12%nat, repeat 84 98).
Proof. vm_compute. reflexivity. Qed.

(** In a batch a refused block is not undone: here the key image of its first
    transaction stays spent. *)
Example refused_in_batch :
  let e := sample_entry 0 (repeat 0 32) [1; 7] [(repeat 5 32, sample_ring_tx); (repeat 6 32, sample_ring_tx)] in
  let '(db1, r1) := @add_entry truncating_FastHash sample_crypto e (set_batch_active true sample_db) in
  r1 = inl KEY_IMAGE_EXISTS /\ has_key_image db1 (repeat 9 32) = true /\ m_height db1 = 0%nat.
Proof. vm_compute. done. Qed.

End Database.
