(* ===== verification/ChainRules.v ===== *)
(** * Rules of the chain that read the database

    Model of the functions of [src/cryptonote_core/blockchain.cpp] that compute
    from the stored chain what the next block has to satisfy: its difficulty,
    with the cache of the last window and on an alternative chain, its
    timestamp, the limit of its size, the fee of its transactions, and the
    unlock time of outputs; and how two nodes find where their chains split. *)
From Stdlib Require Import SpecFloat.
From stdpp Require Import gmap sorting.
From S2P Require Import Prelude IntUtil Keccak Median Difficulty HardFork Basic FormatUtils Reward Checkpoints TxPool Database.
Import IntUtil Basic FormatUtils Reward Database.
#[local] Set Warnings "-clear-no-such-hyp".

Module ChainRules.

Definition BLOCKCHAIN_TIMESTAMP_CHECK_WINDOW : nat := 12.
Definition CRYPTONOTE_BLOCK_FUTURE_TIME_LIMIT : Z := 60 * 24.
Definition CRYPTONOTE_MAX_BLOCK_NUMBER : Z := 500000000.
Definition CRYPTONOTE_LOCKED_TX_ALLOWED_DELTA_BLOCKS : Z := 1.
Definition CRYPTONOTE_LOCKED_TX_ALLOWED_DELTA_SECONDS : Z := Difficulty.DIFFICULTY_TARGET * CRYPTONOTE_LOCKED_TX_ALLOWED_DELTA_BLOCKS.
Definition DYNAMIC_FEE_PER_KB_BASE_FEE : Z := 5750000.
Definition DYNAMIC_FEE_PER_KB_BASE_BLOCK_REWARD : Z := 736000000000.
Definition BLOCK_REWARD_OVERESTIMATE : Z := 16000000000.
Definition BLOCKS_IDS_SYNCHRONIZING_DEFAULT_COUNT : Z := 10000.

(** [m_db->height()] as a number of 64 bits. *)
Definition height64 (db : BlockchainLMDB) : Z := Z.of_nat (m_height db).

(** ** Difficulty *)

(** The members that cache the window of the last computation. *)
Record difficulty_cache := MkCache {
  m_timestamps : list Z;
  m_difficulties : list Z;
  m_timestamps_and_difficulties_height : nat
}.

(** [while (v.size() > n) v.erase(v.begin())] *)
Definition keep_last (n : nat) (v : list Z) : list Z := drop (length v - n) v.

(** [ndebug]: whether the assertions of [next_difficulty] are compiled out. *)
Definition get_difficulty_for_next_block (ndebug : bool) (db : BlockchainLMDB) (c : difficulty_cache)
  : option (Z * difficulty_cache) :=
  let height := m_height db in
  let difficult_block_count := Difficulty.DIFFICULTY_BLOCKS_COUNT in
  '(timestamps, difficulties) ←
    (if negb (m_timestamps_and_difficulties_height c =? 0)%nat && (height =? S (m_timestamps_and_difficulties_height c))%nat
     then
       t ← get_block_timestamp db (height - 1);
       d ← get_block_cumulative_difficulty db (height - 1);
       Some (keep_last difficult_block_count (m_timestamps c ++ [t]), keep_last difficult_block_count (m_difficulties c ++ [d]))
     else
       let offset := (height - (height `min` difficult_block_count))%nat in
       let offset := if (offset =? 0)%nat then S offset else offset in
       ts ← mapM (get_block_timestamp db) (seq offset (height - offset));
       ds ← mapM (get_block_cumulative_difficulty db) (seq offset (height - offset));
       Some (ts, ds));
  diff ← Difficulty.next_difficulty ndebug timestamps difficulties Difficulty.DIFFICULTY_TARGET;
  Some (diff, MkCache timestamps difficulties height).

(** A block of an alternative chain. *)
Record block_extended_info := MkExtended {
  bl : block;
  bei_height : nat;
  block_cumulative_size : Z;
  cumulative_difficulty : Z;
  already_generated_coins : Z
}.

(** [alt_chain] is a list, front first; [height] is [bei.height].  The check in
    the middle returns [false], that is [0]. *)
Definition get_next_difficulty_for_alternative_chain (ndebug : bool) (db : BlockchainLMDB) (alt_chain : list block_extended_info)
    (height : nat) : option Z :=
  let difficult_block_count := Difficulty.DIFFICULTY_BLOCKS_COUNT in
  if (length alt_chain <? difficult_block_count)%nat then
    let main_chain_stop_offset := match alt_chain with [] => height | b :: _ => bei_height b end in
    let main_chain_count := (difficult_block_count - (difficult_block_count `min` length alt_chain))%nat in
    let main_chain_count := (main_chain_count `min` main_chain_stop_offset)%nat in
    let main_chain_start_offset := (main_chain_stop_offset - main_chain_count)%nat in
    let start := if (main_chain_start_offset =? 0)%nat then S main_chain_start_offset else main_chain_start_offset in
    timestamps ← mapM (get_block_timestamp db) (seq start (main_chain_stop_offset - start));
    difficulties ← mapM (get_block_cumulative_difficulty db) (seq start (main_chain_stop_offset - start));
    if (difficult_block_count <? length alt_chain + length timestamps)%nat then Some 0
    else
      Difficulty.next_difficulty ndebug (timestamps ++ map (fun b => timestamp (Basic.header (bl b))) alt_chain)
        (difficulties ++ map cumulative_difficulty alt_chain) Difficulty.DIFFICULTY_TARGET
  else
    let last := drop (length alt_chain - difficult_block_count) alt_chain in
    Difficulty.next_difficulty ndebug (map (fun b => timestamp (Basic.header (bl b))) last) (map cumulative_difficulty last)
      Difficulty.DIFFICULTY_TARGET.

(** ** Timestamps *)

(** The result, and [median_ts] if it is assigned. *)
Definition check_timestamps (timestamps : list Z) (b : block) : bool * option Z :=
  let median_ts := median timestamps in
  (negb (timestamp (Basic.header b) <? median_ts), Some median_ts).

(** [now] is [time(NULL)]. *)
Definition check_block_timestamp (db : BlockchainLMDB) (now : Z) (b : block) : option (bool * option Z) :=
  if now +w CRYPTONOTE_BLOCK_FUTURE_TIME_LIMIT <? timestamp (Basic.header b) then Some (false, None)
  else if (m_height db <? BLOCKCHAIN_TIMESTAMP_CHECK_WINDOW)%nat then Some (true, None)
  else
    let offset := (m_height db - BLOCKCHAIN_TIMESTAMP_CHECK_WINDOW)%nat in
    timestamps ← mapM (get_block_timestamp db) (seq offset (m_height db - offset));
    Some (check_timestamps timestamps b).

(** The result and the timestamps. *)
Definition complete_timestamps_vector (db : BlockchainLMDB) (start_top_height : nat) (timestamps : list Z)
  : option (bool * list Z) :=
  if (BLOCKCHAIN_TIMESTAMP_CHECK_WINDOW <=? length timestamps)%nat then Some (true, timestamps)
  else
    let need_elements := (BLOCKCHAIN_TIMESTAMP_CHECK_WINDOW - length timestamps)%nat in
    if negb (start_top_height <? m_height db)%nat then Some (false, timestamps)
    else
      let stop_offset := if (need_elements <? start_top_height)%nat then (start_top_height - need_elements)%nat else 0%nat in
      more ← mapM (get_block_timestamp db) (rev (seq (S stop_offset) (start_top_height - stop_offset)));
      Some (true, timestamps ++ more).

(** ** Sizes *)

Definition get_last_n_blocks_sizes (db : BlockchainLMDB) (count : nat) : option (list Z) :=
  let h := m_height db in
  let start_offset := (h - (h `min` count))%nat in
  mapM (get_block_size db) (seq start_offset (h - start_offset)).

(** The new [m_current_block_cumul_sz_limit]. *)
Definition update_next_cumulative_size_limit (db : BlockchainLMDB) : option Z :=
  sz ← get_last_n_blocks_sizes db (Z.to_nat CRYPTONOTE_REWARD_BLOCKS_WINDOW);
  Some (median sz *w 2).

(** ** Coins and fees *)

(** The coins that were generated before the current emission interval. *)
Definition cal_generated_coins (db : BlockchainLMDB) : option Z :=
  let height := height64 db in
  let cal_height := height - height mod COIN_EMISSION_HEIGHT_INTERVAL in
  if cal_height =? 0 then Some 0 else get_block_already_generated_coins db (Z.to_nat (cal_height - 1)).

Definition get_dynamic_per_kb_fee (block_reward : Z) : Z :=
  let block_reward := if block_reward <? DYNAMIC_FEE_PER_KB_BASE_BLOCK_REWARD then DYNAMIC_FEE_PER_KB_BASE_BLOCK_REWARD
                      else block_reward in
  let '(lo, hi) := mul128 DYNAMIC_FEE_PER_KB_BASE_FEE block_reward in
  let '(_, hi, lo) := div128_32 hi lo (DYNAMIC_FEE_PER_KB_BASE_BLOCK_REWARD / 1000000) in
  let '(_, hi, lo) := div128_32 hi lo 1000000 in
  lo.

(** Single precision. *)
Definition fprec : Z := 24.
Definition femax : Z := 128.
Definition float_of_u64 (n : Z) : spec_float := binary_normalize fprec femax n 0 false.
(** [(blob_size - CRYPTONOTE_COINBASE_BLOB_RESERVED_SIZE) * 1.0f / 1024]: the
    difference is of 64 bits. *)
Definition kilobytes (blob_size : Z) : spec_float :=
  SFdiv fprec femax
    (SFmul fprec femax (float_of_u64 (blob_size -w TxPool.CRYPTONOTE_COINBASE_BLOB_RESERVED_SIZE)) (float_of_u64 1))
    (float_of_u64 1024).
Definition needed_fee (blob_size fee_per_kb : Z) : Z :=
  (to_u64 (SFmul fprec femax (kilobytes blob_size) (float_of_u64 fee_per_kb)) / 100) *w 100.

(** [limit] is [m_current_block_cumul_sz_limit]. *)
Definition check_fee (db : BlockchainLMDB) (limit blob_size fee : Z) : option bool :=
  coins ← cal_generated_coins db;
  match get_block_reward (limit / 2) 1 coins (height64 db) with
  | None => Some false
  | Some base_reward => Some (negb (fee <? needed_fee blob_size (get_dynamic_per_kb_fee base_reward)))
  end.

Definition get_dynamic_per_kb_fee_estimate (db : BlockchainLMDB) : option Z :=
  sz ← get_last_n_blocks_sizes db (Z.to_nat CRYPTONOTE_REWARD_BLOCKS_WINDOW);
  coins ← cal_generated_coins db;
  Some (get_dynamic_per_kb_fee
          (default BLOCK_REWARD_OVERESTIMATE (get_block_reward (median sz) 1 coins (height64 db)))).

(** ** Unlock times *)

Definition is_tx_spendtime_unlocked (db : BlockchainLMDB) (now unlock_time : Z) : bool :=
  if unlock_time <? CRYPTONOTE_MAX_BLOCK_NUMBER then
    unlock_time <=? height64 db -w 1 +w CRYPTONOTE_LOCKED_TX_ALLOWED_DELTA_BLOCKS
  else unlock_time <=? now +w CRYPTONOTE_LOCKED_TX_ALLOWED_DELTA_SECONDS.

(** ** Where two chains split *)

(** The loop of [get_short_chain_history]: the offsets from the end of the chain.
    [genesis_included] is only set for an offset that the loop condition
    excludes. *)
Fixpoint history_offsets (fuel : nat) (sz i current_multiplier current_back_offset : Z) : option (list Z) :=
  match fuel with
  | O => None
  | S fuel =>
      if current_back_offset <? sz then
        rest ← (if i <? 10 then history_offsets fuel sz (i +w 1) current_multiplier (current_back_offset +w 1)
                else
                  let current_multiplier := current_multiplier *w 2 in
                  history_offsets fuel sz (i +w 1) current_multiplier (current_back_offset +w current_multiplier));
        Some (current_back_offset :: rest)
      else Some []
  end.
Definition HISTORY_FUEL : nat := 80.
Definition get_short_chain_history (db : BlockchainLMDB) : option (list hash) :=
  if (m_height db =? 0)%nat then Some []
  else
    offsets ← history_offsets HISTORY_FUEL (height64 db) 0 1 1;
    ids ← mapM (fun o => get_block_hash_from_height db (Z.to_nat (height64 db - o))) offsets;
    genesis ← get_block_hash_from_height db 0;
    Some (ids ++ [genesis]).

(** The height of the split; [None] is [false]. *)
Definition find_split (db : BlockchainLMDB) (qblock_ids : list hash) : option nat :=
  genesis ← get_block_hash_from_height db 0;
  if bool_decide (last qblock_ids = Some genesis) then
    head (omap (get_block_height db) qblock_ids)
  else None.
(** The start height, the total height and the ids of [NOTIFY_RESPONSE_CHAIN_ENTRY]. *)
Definition find_blockchain_supplement (db : BlockchainLMDB) (qblock_ids : list hash) : option (nat * nat * list hash) :=
  start_height ← find_split db qblock_ids;
  let total_height := m_height db in
  ids ← mapM (get_block_hash_from_height db)
          (seq start_height ((total_height - start_height) `min` Z.to_nat BLOCKS_IDS_SYNCHRONIZING_DEFAULT_COUNT));
  Some (start_height, total_height, ids).

(** * Properties *)

Lemma mapM_seq {A B} (l : list A) (g : A -> B) (f : nat -> option B) a n :
  (forall i, f i = g <$> l !! i) -> (a + n <= length l)%nat -> mapM f (seq a n) = Some (g <$> take n (drop a l)).
Proof.
  intros Hf. revert a. induction n as [|n IH]; intros a Hl; [done|].
  destruct (lookup_lt_is_Some_2 l a) as [x Hx]; [lia|].
  cbn [seq mapM]. rewrite Hf, Hx. cbn [fmap option_fmap option_map mbind option_bind].
  rewrite IH by lia. cbn [mbind option_bind]. rewrite (drop_S l x a Hx). done.
Qed.
Lemma mapM_rev {A B} (f : A -> option B) l ys : mapM f l = Some ys -> mapM f (rev l) = Some (rev ys).
Proof.
  rewrite !mapM_Some. induction 1 as [|x y l ys Hx _ IH]; [constructor|]. cbn. apply Forall2_app; [done|by repeat constructor].
Qed.

(** What the rules see of a stored block. *)
Definition e_timestamp (e : entry) : Z := timestamp (Basic.header (e_block e)).
Definition e_work (e : entry) : Z * Z := (e_timestamp e, e_difficulty e).

(** ** Difficulty *)

Definition difficulty_window {A} (l : list A) : list A :=
  drop (1 `max` (length l - Difficulty.DIFFICULTY_BLOCKS_COUNT)) l.
(** The difficulty of the block after a chain of which the timestamps and the
    cumulative difficulties are known. *)
Definition difficulty_after (ndebug : bool) (w : list (Z * Z)) : option Z :=
  Difficulty.next_difficulty ndebug (difficulty_window w).*1 (difficulty_window w).*2 Difficulty.DIFFICULTY_TARGET.

(** The cache holds the window of a prefix of the chain. *)
Definition cache_ok (l : list entry) (c : difficulty_cache) : Prop :=
  let h := m_timestamps_and_difficulties_height c in
  h = 0%nat \/ (h <= length l)%nat /\ m_timestamps c = e_timestamp <$> difficulty_window (take h l) /\
    m_difficulties c = e_difficulty <$> difficulty_window (take h l).
Definition window_cache (l : list entry) : difficulty_cache :=
  MkCache (e_timestamp <$> difficulty_window l) (e_difficulty <$> difficulty_window l) (length l).

Lemma window_snoc {A} (l : list A) (x : A) : (1 <= length l)%nat ->
  drop (length (difficulty_window l ++ [x]) - Difficulty.DIFFICULTY_BLOCKS_COUNT) (difficulty_window l ++ [x]) = difficulty_window (l ++ [x]).
Proof.
  intros Hl. unfold difficulty_window. rewrite !length_app, length_drop. cbn [length].
  change Difficulty.DIFFICULTY_BLOCKS_COUNT with 29%nat.
  replace (drop (1 `max` (length l - 29)) l ++ [x]) with (drop (1 `max` (length l - 29)) (l ++ [x]))
    by (by rewrite drop_app_le by lia).
  rewrite drop_drop. f_equal. lia.
Qed.

Lemma keep_last_fmap {A} (g : A -> Z) n (v : list A) : keep_last n (g <$> v) = g <$> drop (length v - n) v.
Proof. unfold keep_last. by rewrite length_fmap, fmap_drop. Qed.

Section Stored.
Context {HF : FastHash}.
Variables (l : list entry) (db : BlockchainLMDB).
Hypothesis Hrep : represents_blocks l db.

Lemma stored_timestamp i : get_block_timestamp db i = e_timestamp <$> l !! i.
Proof. unfold get_block_timestamp. rewrite (rp_info _ _ Hrep). by destruct (l !! i). Qed.
Lemma stored_difficulty i : get_block_cumulative_difficulty db i = e_difficulty <$> l !! i.
Proof. unfold get_block_cumulative_difficulty. rewrite (rp_info _ _ Hrep). by destruct (l !! i). Qed.
Lemma stored_size i : get_block_size db i = e_size <$> l !! i.
Proof. unfold get_block_size. rewrite (rp_info _ _ Hrep). by destruct (l !! i). Qed.
Lemma stored_hash_at i : get_block_hash_from_height db i = e_hash <$> l !! i.
Proof. unfold get_block_hash_from_height. rewrite (rp_info _ _ Hrep). by destruct (l !! i). Qed.

Lemma cached_window c e l' : l = l' ++ [e] -> cache_ok l c -> m_timestamps_and_difficulties_height c = length l' -> l' <> [] ->
  keep_last Difficulty.DIFFICULTY_BLOCKS_COUNT (m_timestamps c ++ [e_timestamp e]) = e_timestamp <$> difficulty_window l /\
  keep_last Difficulty.DIFFICULTY_BLOCKS_COUNT (m_difficulties c ++ [e_difficulty e]) = e_difficulty <$> difficulty_window l.
Proof.
  intros -> Hc Hh Hne. assert (1 <= length l')%nat by (destruct l'; [done|cbn; lia]).
  destruct Hc as [Hc|(_ & -> & ->)]; [lia|]. rewrite Hh, take_app_length.
  change [e_timestamp e] with (e_timestamp <$> [e]). change [e_difficulty e] with (e_difficulty <$> [e]).
  rewrite <- !fmap_app, !keep_last_fmap, window_snoc by done. done.
Qed.

Lemma uncached_window :
  let offset := (length l - (length l `min` Difficulty.DIFFICULTY_BLOCKS_COUNT))%nat in
  let offset := if (offset =? 0)%nat then S offset else offset in
  mapM (get_block_timestamp db) (seq offset (length l - offset)) = Some (e_timestamp <$> difficulty_window l) /\
  mapM (get_block_cumulative_difficulty db) (seq offset (length l - offset)) = Some (e_difficulty <$> difficulty_window l).
Proof.
  intros offset0 offset. assert (Ho : offset = (1 `max` (length l - Difficulty.DIFFICULTY_BLOCKS_COUNT))%nat).
  { unfold offset, offset0. destruct (Nat.eqb_spec (length l - (length l `min` Difficulty.DIFFICULTY_BLOCKS_COUNT)) 0); lia. }
  clearbody offset. subst offset. change Difficulty.DIFFICULTY_BLOCKS_COUNT with 29%nat. unfold difficulty_window.
  change Difficulty.DIFFICULTY_BLOCKS_COUNT with 29%nat. destruct (decide (length l = 0%nat)) as [E|E].
  { apply nil_length_inv in E. rewrite E. done. }
  rewrite (mapM_seq l e_timestamp _ _ _ stored_timestamp), (mapM_seq l e_difficulty _ _ _ stored_difficulty) by lia.
  by rewrite take_ge by (rewrite length_drop; lia).
Qed.

Lemma difficulty_after_window ndebug : difficulty_after ndebug (e_work <$> l) =
  Difficulty.next_difficulty ndebug (e_timestamp <$> difficulty_window l) (e_difficulty <$> difficulty_window l) Difficulty.DIFFICULTY_TARGET.
Proof. unfold difficulty_after, difficulty_window. rewrite length_fmap, <- fmap_drop, <- !list_fmap_compose. done. Qed.

Lemma get_difficulty_spec ndebug c : cache_ok l c ->
  get_difficulty_for_next_block ndebug db c =
    (d ← difficulty_after ndebug (e_work <$> l); Some (d, window_cache l)).
Proof.
  intros Hc. rewrite difficulty_after_window. unfold get_difficulty_for_next_block. rewrite (rp_height _ _ Hrep).
  destruct (negb _ && _) eqn:E.
  - apply andb_true_iff in E as [E1 E2]. apply negb_true_iff, Nat.eqb_neq in E1. apply Nat.eqb_eq in E2.
    destruct (@exists_last _ l) as (l' & e & El); [intros El; rewrite El in E2; cbn in E2; lia|].
    assert (Hlast : l !! (length l - 1)%nat = Some e) by (rewrite El, length_app; cbn; by rewrite Nat.add_sub, list_lookup_middle).
    rewrite stored_timestamp, stored_difficulty, Hlast. cbn [fmap option_fmap option_map mbind option_bind].
    rewrite El, length_app in E2. cbn in E2. rewrite Nat.add_1_r in E2. injection E2 as E2.
    destruct (cached_window c e l' El Hc) as [-> ->]; [done|by intros ->|done].
  - destruct uncached_window as [-> ->]. done.
Qed.
End Stored.

Lemma cache_ok_app l l' c : cache_ok l c -> cache_ok (l ++ l') c.
Proof.
  intros [H|(Hl & H)]; [by left|right]. rewrite length_app, take_app_le by done. split; [lia|done].
Qed.
Lemma window_cache_ok l : cache_ok l (window_cache l).
Proof. right. cbn. rewrite take_ge by done. done. Qed.

Definition bei_work (b : block_extended_info) : Z * Z := (timestamp (Basic.header (bl b)), cumulative_difficulty b).
(** The height of the first block that is not on the main chain. *)
Definition split_height (alt : list block_extended_info) (h : nat) : nat :=
  match alt with [] => h | b :: _ => bei_height b end.

Lemma fmap_work_1 (l : list entry) : (e_work <$> l).*1 = e_timestamp <$> l.
Proof. by rewrite <- list_fmap_compose. Qed.
Lemma fmap_work_2 (l : list entry) : (e_work <$> l).*2 = e_difficulty <$> l.
Proof. by rewrite <- list_fmap_compose. Qed.

Section Alternative.
Context {HF : FastHash}.
Variables (ndebug : bool) (l : list entry) (db : BlockchainLMDB).
Hypothesis Hrep : represents_blocks l db.

Lemma alternative_difficulty alt h : let split := split_height alt h in
  (1 <= split <= length l)%nat ->
  get_next_difficulty_for_alternative_chain ndebug db alt h =
    difficulty_after ndebug ((e_work <$> take split l) ++ (bei_work <$> alt)).
Proof.
  intros split Hs. unfold get_next_difficulty_for_alternative_chain, difficulty_after, difficulty_window.
  fold (split_height alt h). fold split. clearbody split. rewrite length_app, !length_fmap, length_take, (Nat.min_l split (length l)) by lia.
  change Difficulty.DIFFICULTY_BLOCKS_COUNT with 29%nat. destruct (Nat.ltb_spec (length alt) 29) as [Ha|Ha].
  - set (start0 := (split - ((29 - (29 `min` length alt)) `min` split))%nat).
    assert (Hstart : (if (start0 =? 0)%nat then S start0 else start0) = (1 `max` (split + length alt - 29))%nat).
    { unfold start0. destruct (Nat.eqb_spec (split - ((29 - (29 `min` length alt)) `min` split)) 0); lia. }
    rewrite Hstart. clear Hstart start0. set (start := (1 `max` (split + length alt - 29))%nat).
    rewrite (mapM_seq l e_timestamp _ _ _ (stored_timestamp l db Hrep)),
      (mapM_seq l e_difficulty _ _ _ (stored_difficulty l db Hrep)) by (unfold start; lia).
    cbn [mbind option_bind]. rewrite length_fmap, length_take, length_drop.
    destruct (Nat.ltb_spec 29 (length alt + (split - start) `min` (length l - start))) as [Hbig|_]; [unfold start in Hbig; lia|].
    rewrite drop_app_le by (rewrite length_fmap, length_take; unfold start; lia).
    rewrite !fmap_app, <- !fmap_drop, !fmap_work_1, !fmap_work_2, !take_drop_commute, <- !list_fmap_compose.
    replace (start + (split - start))%nat with split by (unfold start; lia). done.
  - rewrite drop_app_ge by (rewrite length_fmap, length_take; lia). rewrite length_fmap, length_take, (Nat.min_l split (length l)) by lia.
    replace (1 `max` (split + length alt - 29) - split)%nat with (length alt - 29)%nat by lia.
    rewrite <- fmap_drop, <- !list_fmap_compose. done.
Qed.
End Alternative.

(** [C37] The difficulty of the next block does not depend on the cache: whatever
    window of the chain the cache holds, the result is that of reading the whole
    window from the database, and the cache then holds the window of the whole
    chain.  It stays valid while blocks are added. *)
Theorem get_difficulty_for_next_block_correct `{FastHash} ndebug l db c :
  represents_blocks l db -> cache_ok l c ->
  fst <$> get_difficulty_for_next_block ndebug db c = difficulty_after ndebug (e_work <$> l) /\
  forall d c' l', get_difficulty_for_next_block ndebug db c = Some (d, c') -> cache_ok (l ++ l') c'.
Proof.
  intros Hrep Hc. rewrite (get_difficulty_spec l db Hrep ndebug c Hc). split; [by destruct (difficulty_after _ _)|].
  intros d c' l'. destruct (difficulty_after _ _); [|done]. intros [= _ <-]. apply cache_ok_app, window_cache_ok.
Qed.

(** [C38] The difficulty that a block on an alternative chain has to meet is the
    one the main chain asks for when it consists of the same blocks: the common
    part, and the blocks of the alternative chain. *)
Theorem alternative_difficulty_agrees `{FastHash} ndebug l db alt h l' db' c' :
  represents_blocks l db -> represents_blocks l' db' -> cache_ok l' c' ->
  (1 <= split_height alt h <= length l)%nat ->
  e_work <$> l' = (e_work <$> take (split_height alt h) l) ++ (bei_work <$> alt) ->
  get_next_difficulty_for_alternative_chain ndebug db alt h = fst <$> get_difficulty_for_next_block ndebug db' c'.
Proof.
  intros Hrep Hrep' Hc Hs Hw. rewrite (alternative_difficulty ndebug l db Hrep alt h Hs), <- Hw.
  rewrite (get_difficulty_spec l' db' Hrep' ndebug c' Hc). by destruct (difficulty_after _ _).
Qed.

(** ** Timestamps *)

Section Timestamps.
Context {HF : FastHash}.
Variables (l : list entry) (db : BlockchainLMDB).
Hypothesis Hrep : represents_blocks l db.

Definition alt_timestamps (alt : list block_extended_info) : list Z := map (fun b => timestamp (Basic.header (bl b))) alt.

(** What an alternative chain of at most twelve blocks collects: the last twelve
    timestamps, without that of the genesis block. *)
Lemma complete_timestamps split (ts : list Z) : (1 <= split <= length l)%nat -> (length ts <= 12)%nat ->
  exists more, complete_timestamps_vector db (split - 1) ts = Some (true, ts ++ more) /\
    more ≡ₚ e_timestamp <$> drop (1 `max` (split + length ts - 12)) (take split l).
Proof.
  intros Hs Ht. unfold complete_timestamps_vector. change BLOCKCHAIN_TIMESTAMP_CHECK_WINDOW with 12%nat.
  destruct (Nat.leb_spec 12 (length ts)) as [H|H].
  { exists []. rewrite app_nil_r. split; [done|]. rewrite drop_ge; [done|]. rewrite length_take. lia. }
  rewrite (proj2 (Nat.ltb_lt _ _)) by (rewrite (rp_height _ _ Hrep); lia). cbn [negb].
  set (need := (12 - length ts)%nat). set (stop := if (need <? split - 1)%nat then (split - 1 - need)%nat else 0%nat).
  assert (Hstop : S stop = (1 `max` (split + length ts - 12))%nat).
  { unfold stop, need. destruct (Nat.ltb_spec (12 - length ts) (split - 1)); lia. }
  assert (Hle : (stop <= split - 1)%nat) by lia.
  pose proof (mapM_seq l e_timestamp _ (S stop) (split - 1 - stop) (stored_timestamp l db Hrep) ltac:(lia)) as Hm.
  rewrite (mapM_rev _ _ _ Hm). eexists. split; [done|]. rewrite <- Hstop, <- Permutation_rev, take_drop_commute.
  by replace (S stop + (split - 1 - stop))%nat with split by lia.
Qed.
End Timestamps.

(** A block on an alternative chain of at most twelve blocks passes the
    timestamp check exactly when it would pass on the main chain made of the same
    blocks, from the thirteenth block on, unless it lies in the future. *)
Theorem alternative_timestamp_agrees `{FastHash} l db alt h l' db' now b :
  represents_blocks l db -> represents_blocks l' db' ->
  (1 <= split_height alt h <= length l)%nat -> (length alt <= 12)%nat -> (13 <= length l')%nat ->
  e_timestamp <$> l' = (e_timestamp <$> take (split_height alt h) l) ++ alt_timestamps alt ->
  timestamp (Basic.header b) <= now +w CRYPTONOTE_BLOCK_FUTURE_TIME_LIMIT ->
  exists ts, complete_timestamps_vector db (split_height alt h - 1) (rev (alt_timestamps alt)) = Some (true, ts) /\
    check_block_timestamp db' now b = Some (check_timestamps ts b).
Proof.
  intros Hrep Hrep' Hs Ha Hl' Hw Hnow. set (split := split_height alt h) in *. clearbody split.
  destruct (complete_timestamps l db Hrep split (rev (alt_timestamps alt)) Hs) as (more & Hm & Hp).
  { unfold alt_timestamps. rewrite length_rev, length_map. lia. }
  exists (rev (alt_timestamps alt) ++ more). split; [done|].
  assert (Hlen : length l' = (split + length alt)%nat).
  { rewrite <- (length_fmap e_timestamp l'), Hw, length_app, length_fmap, length_take. unfold alt_timestamps. rewrite length_map. lia. }
  unfold check_block_timestamp. rewrite (rp_height _ _ Hrep'). change BLOCKCHAIN_TIMESTAMP_CHECK_WINDOW with 12%nat.
  rewrite (proj2 (Z.ltb_ge _ _)) by lia. destruct (Nat.ltb_spec (length l') 12); [lia|].
  rewrite (mapM_seq l' e_timestamp _ _ _ (stored_timestamp l' db' Hrep')) by lia. cbn [mbind option_bind].
  rewrite take_ge by (rewrite length_drop; lia). f_equal. unfold check_timestamps.
  rewrite (median_proper (rev (alt_timestamps alt) ++ more) (e_timestamp <$> drop (length l' - 12) l')); [done|].
  assert (Hla : length (rev (alt_timestamps alt)) = length alt) by (unfold alt_timestamps; by rewrite length_rev, length_map).
  rewrite Hla in Hp. replace (1 `max` (split + length alt - 12))%nat with (length l' - 12)%nat in Hp by lia.
  rewrite fmap_drop, Hw, drop_app_le by (rewrite length_fmap, length_take; lia). rewrite Permutation_app_comm, <- fmap_drop.
  apply Permutation_app; [done|symmetry; apply Permutation_rev].
Qed.

(** With a longer alternative chain all its timestamps count, not the last
    twelve: here a block passes that the main chain refuses. *)
Example long_alternative_median :
  let ts := repeat 100 6 ++ repeat 0 7 in
  let b := MkBlock (MkHeader 1 1 10 null_hash 0) empty_tx [] in
  complete_timestamps_vector (empty_db ∅ ∅ HardFork.sample_fork) 5 ts = Some (true, ts) /\
  check_timestamps ts b = (true, Some 0) /\ check_timestamps (take 12 ts) b = (false, Some 50).
Proof. split; [|split]; vm_compute; reflexivity. Qed.

(** ** Fees *)

(** The fee per kilobyte is the base fee times the block reward over the base
    reward, rounded down, with the reward taken at least as the base reward; the
    128-bit product and the two divisions by 32-bit numbers lose nothing. *)
Theorem get_dynamic_per_kb_fee_correct r : is_u64 r ->
  get_dynamic_per_kb_fee r =
    DYNAMIC_FEE_PER_KB_BASE_FEE * Z.max r DYNAMIC_FEE_PER_KB_BASE_BLOCK_REWARD / DYNAMIC_FEE_PER_KB_BASE_BLOCK_REWARD.
Proof.
  intros Hr. unfold get_dynamic_per_kb_fee.
  replace (if r <? _ then _ else r) with (Z.max r DYNAMIC_FEE_PER_KB_BASE_BLOCK_REWARD)
    by (destruct (Z.ltb_spec r DYNAMIC_FEE_PER_KB_BASE_BLOCK_REWARD); lia).
  set (m := Z.max r DYNAMIC_FEE_PER_KB_BASE_BLOCK_REWARD).
  assert (Hm : is_u64 m) by (unfold m, DYNAMIC_FEE_PER_KB_BASE_BLOCK_REWARD; words; lia). clearbody m.
  pose proof (mul128_spec DYNAMIC_FEE_PER_KB_BASE_FEE m ltac:(words; unfold DYNAMIC_FEE_PER_KB_BASE_FEE; lia) Hm) as H1.
  destruct (mul128 _ _) as [lo hi]. destruct H1 as (Hlo & Hhi & E1 & _).
  change (DYNAMIC_FEE_PER_KB_BASE_BLOCK_REWARD / 1000000) with 736000.
  pose proof (div128_32_correct hi lo 736000 Hhi Hlo ltac:(words; lia) ltac:(lia)) as H2. cbv zeta in H2.
  destruct (div128_32 hi lo 736000) as [[r1 h1] l1]. destruct H2 as (Hh1 & Hl1 & E2 & _).
  pose proof (div128_32_correct h1 l1 1000000 Hh1 Hl1 ltac:(words; lia) ltac:(lia)) as H3. cbv zeta in H3.
  destruct (div128_32 h1 l1 1000000) as [[r2 h2] l2]. destruct H3 as (Hh2 & Hl2 & E3 & _).
  rewrite E2, E1, Z.div_div in E3 by lia. change (736000 * 1000000) with DYNAMIC_FEE_PER_KB_BASE_BLOCK_REWARD in E3.
  rewrite <- E3. enough (h2 = 0) by lia.
  assert (DYNAMIC_FEE_PER_KB_BASE_FEE * m / DYNAMIC_FEE_PER_KB_BASE_BLOCK_REWARD < 2 ^ 64).
  { apply Z.div_lt_upper_bound; unfold DYNAMIC_FEE_PER_KB_BASE_FEE, DYNAMIC_FEE_PER_KB_BASE_BLOCK_REWARD; words; lia. }
  words. lia.
Qed.
Lemma get_dynamic_per_kb_fee_correct_witness :
  get_dynamic_per_kb_fee 90020000000000 =
    DYNAMIC_FEE_PER_KB_BASE_FEE * Z.max 90020000000000 DYNAMIC_FEE_PER_KB_BASE_BLOCK_REWARD / DYNAMIC_FEE_PER_KB_BASE_BLOCK_REWARD.
Proof. apply (get_dynamic_per_kb_fee_correct 90020000000000). words. lia. Defined.

(** ** Where two chains split *)

(** The state of the loop: steps of one up to the eleventh, then steps that
    double. *)
Definition history_state (i m o : Z) : Prop := 0 <= i <= 10 /\ m = 1 /\ o = i + 1 \/ 10 <= i /\ m = 2 ^ (i - 10) /\ o = 9 + 2 * m.

(** The offset after [o]. *)
Lemma history_state_next i m o : history_state i m o -> o < 2 ^ 63 -> exists o',
  history_state (i + 1) (if i <? 10 then m else 2 * m) o' /\ o < o' <= 2 * o /\ (o < 11 -> o' = o + 1) /\ (i < 73) /\
  forall fuel sz,
    (if i <? 10 then history_offsets fuel sz (i +w 1) m (o +w 1)
     else history_offsets fuel sz (i +w 1) (m *w 2) (o +w (m *w 2))) =
    history_offsets fuel sz (i + 1) (if i <? 10 then m else 2 * m) o'.
Proof.
  intros H Ho. destruct H as [(Hi & -> & ->)|(Hi & Hm & ->)].
  - destruct (Z.ltb_spec i 10) as [Hlt|Hge].
    + exists (i + 1 + 1). split; [left; lia|]. split; [lia|]. split; [lia|]. split; [lia|]. intros fuel sz. by rewrite !wrap_small by (words; lia).
    + assert (i = 10) as -> by lia. exists 13. split; [right; cbn; lia|]. split; [lia|]. split; [lia|]. split; [lia|]. intros fuel sz. reflexivity.
  - assert (Hm0 : 1 <= m) by (pose proof (Z.pow_pos_nonneg 2 (i - 10)); lia).
    assert (Hi73 : i < 73).
    { apply Z.nle_gt. intros Hge. assert (2 ^ 63 <= m); [|lia]. rewrite Hm. apply Z.pow_le_mono_r; lia. }
    destruct (Z.ltb_spec i 10) as [Hlt|Hge]; [lia|]. exists (9 + 4 * m). split.
    { right. split; [lia|]. split; [|lia]. replace (i + 1 - 10) with (Z.succ (i - 10)) by lia. rewrite Z.pow_succ_r by lia. lia. }
    split; [lia|]. split; [lia|]. split; [done|]. intros fuel sz. rewrite (Z.mul_comm m 2).
    rewrite !(wrap_small 64) by (words; lia). f_equal. lia.
Qed.

Lemma history_offsets_spec sz : 0 <= sz < 2 ^ 63 -> forall fuel i m o,
  history_state i m o -> i <= 73 -> 75 <= i + Z.of_nat fuel -> 1 <= o ->
  exists os, history_offsets fuel sz i m o = Some os /\ Forall (fun x => o <= x < sz) os /\ StronglySorted Z.lt os /\
    (o < sz -> o ∈ os) /\
    forall d, o <= d < sz -> exists x, (x ∈ os \/ x = sz) /\ d <= x <= 2 * d /\ (d <= 11 -> x = d).
Proof.
  intros Hsz. induction fuel as [|fuel IH]; intros i m o Hst Hi Hf Ho; [lia|]. cbn [history_offsets].
  destruct (Z.ltb_spec o sz) as [Hlt|Hge].
  2:{ exists []. split; [done|]. split; [constructor|]. split; [constructor|]. split; [lia|]. intros d Hd. lia. }
  destruct (history_state_next i m o Hst ltac:(lia)) as (o' & Hst' & Ho' & Hstep & Hi' & ->).
  destruct (IH _ _ _ Hst' ltac:(lia) ltac:(lia) ltac:(lia)) as (os & -> & Hall & Hsort & Hin & Hcov).
  exists (o :: os). split; [done|]. split.
  { constructor; [lia|]. eapply Forall_impl; [exact Hall|]. cbn. intros. lia. }
  split. { constructor; [done|]. eapply Forall_impl; [exact Hall|]. cbn. intros. lia. }
  split; [by left|]. intros d Hd. destruct (Z.eq_dec d o) as [->|Hne].
  { exists o. split; [left; by left|]. lia. }
  destruct (Z.lt_ge_cases d o') as [Hd'|Hd'].
  - destruct (Z.lt_ge_cases o' sz) as [Hs'|Hs'].
    + exists o'. split; [left; right; by apply Hin|]. lia.
    + exists sz. split; [by right|]. lia.
  - destruct (Hcov d ltac:(lia)) as (x & Hx & Hx' & Hx11). exists x. split; [|done].
    destruct Hx as [Hx|Hx]; [left; by right|by right].
Qed.

Lemma head_omap {A B} (f : A -> option B) l : (exists x, x ∈ l /\ is_Some (f x)) ->
  exists l1 x l2 y, l = l1 ++ x :: l2 /\ f x = Some y /\ Forall (fun a => f a = None) l1 /\ head (omap f l) = Some y.
Proof.
  induction l as [|a l IH]; intros (x & Hx & Hs); [by apply elem_of_nil in Hx|]. destruct (f a) as [y|] eqn:E.
  { exists [], a, l, y. cbn. rewrite E. done. }
  destruct IH as (l1 & x' & l2 & y & -> & Hf & Hall & Hh).
  { exists x. split; [|done]. apply elem_of_cons in Hx as [->|Hx]; [|done]. rewrite E in Hs. by destruct Hs. }
  exists (a :: l1), x', l2, y. cbn. rewrite E. split_and!; [done..|by constructor|done].
Qed.

Lemma strictly_sorted_lookup (v : list Z) i j x y : StronglySorted Z.lt v -> v !! i = Some x -> v !! j = Some y -> (i <= j)%nat -> x <= y.
Proof.
  intros Hs Hi Hj Hij. destruct (decide (i = j)) as [->|Hne]; [assert (x = y) by congruence; lia|]. apply Z.lt_le_incl.
  rewrite <- (take_drop j v) in Hs. eapply (StronglySorted_app_1_elem_of _ _ _ x y Hs).
  - apply (list_elem_of_lookup_2 _ i). rewrite lookup_take_lt by lia. done.
  - apply (list_elem_of_lookup_2 _ 0). rewrite lookup_drop, Nat.add_0_r. done.
Qed.

Section Sync.
Context {HF : FastHash}.

(** The ids a node sends: of blocks at growing distance from its top, down to the
    genesis block. *)
Lemma history_ids l db : represents_blocks l db -> (0 < length l)%nat -> Z.of_nat (length l) < 2 ^ 63 ->
  exists os ids, get_short_chain_history db = Some ids /\
    Forall2 (fun o h => e_hash <$> l !! Z.to_nat (Z.of_nat (length l) - o) = Some h) os ids /\
    StronglySorted Z.lt os /\ last ids = e_hash <$> l !! 0%nat /\ Forall (fun o => 1 <= o <= Z.of_nat (length l)) os /\
    forall d, 1 <= d <= Z.of_nat (length l) -> exists x, x ∈ os /\ d <= x <= 2 * d /\ (d <= 11 -> x = d).
Proof.
  intros Hrep Hl Hn. unfold get_short_chain_history, height64. rewrite (rp_height _ _ Hrep).
  destruct (Nat.eqb_spec (length l) 0); [lia|]. set (n0 := Z.of_nat (length l)) in *.
  destruct (history_offsets_spec n0 ltac:(lia) HISTORY_FUEL 0 1 1) as (os & -> & Hall & Hsort & _ & Hcov);
    [left; lia|lia|unfold HISTORY_FUEL; lia|lia|].
  assert (Hm : exists ids, mapM (fun o => get_block_hash_from_height db (Z.to_nat (n0 - o))) os = Some ids /\
    Forall2 (fun o h => e_hash <$> l !! Z.to_nat (n0 - o) = Some h) os ids).
  { assert (Hs : is_Some (mapM (fun o => get_block_hash_from_height db (Z.to_nat (n0 - o))) os)).
    { apply mapM_is_Some. eapply Forall_impl; [exact Hall|]. cbn. intros o Ho. rewrite (stored_hash_at l db Hrep).
      apply fmap_is_Some, lookup_lt_is_Some. lia. }
    destruct Hs as [ids Hids]. exists ids. split; [done|]. apply mapM_Some in Hids. eapply Forall2_impl; [exact Hids|].
    cbn. intros o h Ho. by rewrite <- (stored_hash_at l db Hrep). }
  destruct Hm as (ids & Hids & HF2). cbn [mbind option_bind]. rewrite Hids. cbn [mbind option_bind]. rewrite (stored_hash_at l db Hrep).
  destruct (lookup_lt_is_Some_2 l 0%nat Hl) as [g Hg]. rewrite Hg. cbn [fmap option_fmap option_map mbind option_bind].
  exists (os ++ [n0]), (ids ++ [e_hash g]). split; [done|]. split.
  { apply Forall2_app; [done|]. constructor; [|constructor]. rewrite Z.sub_diag. change (Z.to_nat 0) with 0%nat. by rewrite Hg. }
  split.
  { apply StronglySorted_app_2; [|done|repeat constructor]. intros x y Hx Hy. apply list_elem_of_singleton in Hy as ->.
    rewrite Forall_forall in Hall. apply Hall in Hx. lia. }
  split; [by rewrite last_snoc|]. split.
  { apply Forall_app. split; [|repeat constructor; lia]. eapply Forall_impl; [exact Hall|]. cbn. intros. lia. }
  intros d Hd. destruct (Z.eq_dec d n0) as [->|Hne].
  { exists n0. split; [apply elem_of_app; right; by left|]. lia. }
  destruct (Hcov d ltac:(lia)) as (x & Hx & Hx' & Hx11). exists x. split; [|done]. apply elem_of_app.
  destruct Hx as [Hx| ->]; [by left|right; by left].
Qed.

(** Blocks with the same id are the same block. *)
Definition ids_differ (l1 l2 : list entry) : Prop :=
  forall e1 e2, e1 ∈ l1 -> e2 ∈ l2 -> e_hash e1 = e_hash e2 -> e_block e1 = e_block e2.

Section Two.
Variables (l1 l2 : list entry) (db1 db2 : BlockchainLMDB).
Hypotheses (R1 : represents_blocks l1 db1) (R2 : represents_blocks l2 db2).
Hypothesis Hgenesis : e_hash <$> l1 !! 0%nat = e_hash <$> l2 !! 0%nat.
Hypothesis Hids : ids_differ l1 l2.

(** A common block is at the same height, on top of the same blocks. *)
Lemma common_prefix s : forall j e1 e2, l1 !! s = Some e1 -> l2 !! j = Some e2 -> e_hash e1 = e_hash e2 ->
  s = j /\ forall i, (i <= s)%nat -> e_block <$> l1 !! i = e_block <$> l2 !! i.
Proof.
  assert (U1 : forall i i' h, e_hash <$> l1 !! i = Some h -> e_hash <$> l1 !! i' = Some h -> i = i').
  { intros i i' h H1%(rp_heights _ _ R1) H2%(rp_heights _ _ R1). congruence. }
  assert (U2 : forall i i' h, e_hash <$> l2 !! i = Some h -> e_hash <$> l2 !! i' = Some h -> i = i').
  { intros i i' h H1%(rp_heights _ _ R2) H2%(rp_heights _ _ R2). congruence. }
  induction s as [|s IH]; intros j e1 e2 H1 H2 He;
    assert (Hb : e_block e1 = e_block e2) by (apply Hids; eauto using list_elem_of_lookup_2).
  - assert (j = 0%nat) as ->. { eapply U2; [by rewrite H2|]. rewrite <- Hgenesis, H1. by rewrite <- He. }
    split; [done|]. intros i Hi. replace i with 0%nat by lia. rewrite H1, H2. cbn. by rewrite Hb.
  - destruct j as [|j].
    { exfalso. assert (S s = 0%nat) by (eapply U1; [by rewrite H1|]; by rewrite Hgenesis, H2, He). lia. }
    destruct (lookup_lt_is_Some_2 l1 s) as [p1 Hp1]; [apply lookup_lt_Some in H1; lia|].
    destruct (lookup_lt_is_Some_2 l2 j) as [p2 Hp2]; [apply lookup_lt_Some in H2; lia|].
    destruct (IH j p1 p2 Hp1 Hp2) as [-> Hpre].
    { rewrite <- (rp_parent _ _ R1 _ _ _ Hp1 H1), <- (rp_parent _ _ R2 _ _ _ Hp2 H2). by rewrite Hb. }
    split; [done|]. intros i Hi. destruct (decide (i = S j)) as [->|Hne]; [|apply Hpre; lia]. rewrite H1, H2. cbn. by rewrite Hb.
Qed.

Lemma sync_split : (0 < length l1)%nat -> (0 < length l2)%nat -> Z.of_nat (length l2) < 2 ^ 63 ->
  exists ids s, get_short_chain_history db2 = Some ids /\ find_split db1 ids = Some s /\ (s < length l1)%nat /\ (s < length l2)%nat /\
    (forall i, (i <= s)%nat -> e_block <$> l1 !! i = e_block <$> l2 !! i) /\
    forall p h, e_hash <$> l1 !! p = Some h -> e_hash <$> l2 !! p = Some h ->
      (length l2 - s <= 2 * (length l2 - p))%nat /\ ((length l2 - p <= 11)%nat -> (p <= s)%nat).
Proof.
  intros Hl1 Hl2 Hn. destruct (history_ids l2 db2 R2 Hl2 Hn) as (os & ids & Hget & HF2 & Hsort & Hlast & Hall & Hcov).
  set (n2 := Z.of_nat (length l2)) in *. exists ids.
  assert (Hknown : forall p o, e_block <$> l1 !! p = e_block <$> l2 !! p -> is_Some (l1 !! p) -> o ∈ os -> p = Z.to_nat (n2 - o) ->
    exists k h, os !! k = Some o /\ ids !! k = Some h /\ get_block_height db1 h = Some p).
  { intros p o Hp [e1 He1] Ho ->. apply list_elem_of_lookup_1 in Ho as [k Hk]. destruct (Forall2_lookup_l _ _ _ _ _ HF2 Hk) as (h & Hk' & Hh).
    exists k, h. split_and!; [done..|]. apply (rp_heights _ _ R1). rewrite He1 in Hp |- *.
    destruct (l2 !! Z.to_nat (n2 - o)) as [e2|]; [|done]. injection Hp as Hp. injection Hh as <-. unfold e_hash. cbn. by rewrite Hp. }
  destruct (lookup_lt_is_Some_2 l1 0%nat Hl1) as [g Hg].
  assert (Hg0 : e_block <$> l1 !! 0%nat = e_block <$> l2 !! 0%nat).
  { destruct (lookup_lt_is_Some_2 l2 0%nat Hl2) as [g' Hg']. destruct (common_prefix 0 0 g g') as [_ Hpre]; [done..| |by apply Hpre].
    rewrite Hg, Hg' in Hgenesis. by injection Hgenesis. }
  destruct (Hcov n2 ltac:(lia)) as (x0 & Hx0 & Hx0' & _).
  assert (x0 = n2) as -> by (rewrite Forall_forall in Hall; apply Hall in Hx0; lia).
  destruct (Hknown 0%nat n2 Hg0 ltac:(by eexists) Hx0 ltac:(lia)) as (k0 & h0 & _ & Hk0 & Hh0).
  destruct (head_omap (get_block_height db1) ids) as (a & x & b & s & Eids & Hx & Hnone & Hhead).
  { exists h0. split; [by eapply list_elem_of_lookup_2|by eexists]. }
  assert (Hk : ids !! length a = Some x) by (rewrite Eids; by apply list_lookup_middle).
  destruct (Forall2_lookup_r _ _ _ _ _ HF2 Hk) as (o & Ho & Hox).
  apply (rp_heights _ _ R1) in Hx as Hsx. destruct (l1 !! s) as [e1|] eqn:E1; [|done].
  destruct (l2 !! Z.to_nat (n2 - o)) as [e2|] eqn:E2; [|done].
  destruct (common_prefix s _ e1 e2 E1 E2) as [Hs Hpre]; [cbn in *; congruence|].
  assert (Ho' : 1 <= o <= n2) by (rewrite Forall_forall in Hall; by eapply Hall, list_elem_of_lookup_2).
  exists s. split; [done|]. split.
  { unfold find_split. rewrite (stored_hash_at l1 db1 R1), Hg. cbn [fmap option_fmap option_map mbind option_bind].
    rewrite bool_decide_true; [done|]. by rewrite Hlast, <- Hgenesis, Hg. }
  split; [by eapply lookup_lt_Some|]. split; [rewrite Hs; by eapply lookup_lt_Some|]. split; [done|].
  intros p h H1 H2. destruct (l1 !! p) as [ep1|] eqn:Ep1; [|done]. destruct (l2 !! p) as [ep2|] eqn:Ep2; [|done].
  destruct (common_prefix p p ep1 ep2 Ep1 Ep2) as [_ Hprep]; [cbn in *; congruence|].
  pose proof (lookup_lt_Some _ _ _ Ep2) as Hp2. pose proof (lookup_lt_Some _ _ _ Ep1) as Hp1.
  destruct (Hcov (n2 - Z.of_nat p) ltac:(lia)) as (y & Hy & Hy' & Hy11).
  assert (Hyn : 1 <= y <= n2) by (rewrite Forall_forall in Hall; by apply Hall).
  destruct (Hknown (Z.to_nat (n2 - y)) y) as (k' & h' & Hk' & Hi' & Hh'); [apply Hprep; lia|apply lookup_lt_is_Some; lia|done|done|].
  assert (Hle : (length a <= k')%nat).
  { apply Nat.le_ngt. intros Hlt. rewrite Eids, lookup_app_l in Hi' by done. rewrite Forall_forall in Hnone.
    rewrite (Hnone h') in Hh' by (by eapply list_elem_of_lookup_2). done. }
  pose proof (strictly_sorted_lookup os _ _ _ _ Hsort Ho Hk' Hle). lia.
Qed.
End Two.
End Sync.



Lemma get_difficulty_for_next_block_correct_witness :
  exists db, fst <$> get_difficulty_for_next_block false db (MkCache [] [] 0) =
    difficulty_after false (e_work <$> [sample_genesis; sample_second]).
Proof.
  destruct (sample_represents 2 ltac:(lia)) as (db & R & _). exists db.
  destruct (@get_difficulty_for_next_block_correct truncating_FastHash false _ db (MkCache [] [] 0) R (or_introl eq_refl)) as [H _].
  exact H.
Defined.

Lemma alternative_difficulty_agrees_witness :
  exists db1 db2, get_next_difficulty_for_alternative_chain false db1
      [MkExtended (e_block sample_second) 1 0 (e_difficulty sample_second) 0] 2 =
    fst <$> get_difficulty_for_next_block false db2 (MkCache [] [] 0).
Proof.
  destruct (sample_represents 1 ltac:(lia)) as (db1 & R1 & _). destruct (sample_represents 2 ltac:(lia)) as (db2 & R2 & _).
  exists db1, db2.
  apply (@alternative_difficulty_agrees truncating_FastHash false [sample_genesis] db1
    [MkExtended (e_block sample_second) 1 0 (e_difficulty sample_second) 0] 2 [sample_genesis; sample_second] db2);
    [exact R1|exact R2|by left|cbn; lia|done].
Defined.

(** A chain of blocks without transactions. *)
Fixpoint sample_chain (n : nat) : list entry :=
  match n with
  | O => []
  | S n =>
      let l := sample_chain n in
      l ++ [sample_entry (Z.of_nat n) (default (repeat 0 32) (@e_hash truncating_FastHash <$> last l)) [1; 7] []]
  end.
Lemma sample_chain_represents n : (n <= 13)%nat -> exists db, @represents_blocks truncating_FastHash (sample_chain n) db.
Proof.
  intros Hn. assert (Hops : Forall (@op_storable truncating_FastHash sample_crypto) (Op_add <$> sample_chain n)).
  { apply Forall_fmap. induction n as [|n IH]; [constructor|]. cbn [sample_chain]. apply Forall_app. split; [apply IH; lia|].
    constructor; [|constructor]. cbn. apply sample_entry_storable; [lia| |by repeat constructor|cbn; words; lia|by vm_compute|constructor|cbn; words; lia].
    apply sample_hash. do 13 (destruct n as [|n]; [vm_compute; reflexivity|]). lia. }
  assert (Hl : (foldl (@db_step truncating_FastHash sample_crypto) ([], empty_db ∅ ∅ HardFork.sample_fork) (Op_add <$> sample_chain n)).1 =
    sample_chain n).
  { do 14 (destruct n as [|n]; [vm_compute; reflexivity|]). lia. }
  pose proof (@empty_built truncating_FastHash sample_crypto ∅ HardFork.sample_fork) as [Hb Hc].
  pose proof (@db_steps_built truncating_FastHash sample_crypto _ _ _ Hops Hb Hc) as H.
  destruct (foldl _ _ _) as [l db] eqn:E. cbn [fst] in Hl. subst l. exists db.
  by apply (@built_represents truncating_FastHash sample_crypto), H.
Qed.

Lemma alternative_timestamp_agrees_witness :
  exists db db' ts, complete_timestamps_vector db 11 [1546266612] = Some (true, ts) /\
    check_block_timestamp db' 1546266700 (e_block sample_second) = Some (check_timestamps ts (e_block sample_second)).
Proof.
  destruct (sample_chain_represents 12 ltac:(lia)) as (db1 & R1). destruct (sample_chain_represents 13 ltac:(lia)) as (db2 & R2).
  destruct (@alternative_timestamp_agrees truncating_FastHash (sample_chain 12) db1
    [MkExtended (e_block (default sample_genesis (last (sample_chain 13)))) 12 0 0 0] 13 (sample_chain 13) db2 1546266700
    (e_block sample_second) R1 R2) as (ts & H1 & H2).
  - vm_compute. lia.
  - cbn. lia.
  - vm_compute. lia.
  - vm_compute. reflexivity.
  - vm_compute. discriminate.
  - exists db1, db2, ts. split; [exact H1|exact H2].
Defined.

End ChainRules.
