(* ===== verification/TxVerify.v ===== *)
(** * Verification of transactions against the chain

    Model of the functions of [src/cryptonote_core/blockchain.cpp] that decide
    whether the inputs and outputs of a transaction are valid:
    [scan_outputkeys_for_indexes], [check_tx_input], [expand_transaction_2],
    both [check_tx_inputs], [check_tx_outputs], [have_tx_keyimges_as_spent] and
    [check_for_double_spend].  The verification of the ring signatures
    themselves is the interface [RctVerify]; this file shows what they are
    verified on.  The thread pool that [check_tx_inputs] starts gets no work and
    is left out, as is [m_check_txin_table], which is only written. *)
From stdpp Require Import gmap.
From S2P Require Import Prelude Keccak HardFork Basic TxExtra FormatUtils TxPool Database ChainRules.
Import Basic TxExtra FormatUtils Database ChainRules.
#[local] Set Warnings "-clear-no-such-hyp".

Module TxVerify.

Definition MIN_TRANSACTION_VERSION : Z := 2.

Record ctkey := MkCtkey { dest : key; mask : key }.
#[export] Instance ctkey_eq_dec : EqDecision ctkey.
Proof. solve_decision. Defined.

(** A ring signature with the fields that are not part of the blob. *)
Record expanded := MkExpanded {
  x_sig : rctSig;
  message : key;
  mixRing : list (list ctkey);
  II : list (list key);
  out_dest : list key
}.

(** [rct::verRct] and [rct::verRctSimple] *)
Class RctVerify := {
  verRct : expanded -> bool;
  verRctSimple : expanded -> bool
}.

(** The outputs that were looked up ahead, by transaction prefix and key image. *)
Definition scan_table : Type := gmap hash (gmap key_image (list output_data_t)).

(** ** Ring members *)

(** The loop over the offsets; [outputs] are those already found.  The results are
    the keys and [pmax_related_block_height]. *)
Fixpoint scan_loop (db : BlockchainLMDB) (now amount : Z) (outputs : list output_data_t) (count : nat) (offsets : list Z) (pmax : Z)
  : option (list ctkey * Z) :=
  match offsets with
  | [] => Some ([], pmax)
  | i :: offsets =>
      output ← (if (count <? length outputs)%nat then outputs !! count else get_output_key db amount (Z.to_nat i));
      if negb (is_tx_spendtime_unlocked db now (od_unlock_time output)) then None
      else if (od_height output <? 1)%nat then None
      else
        let pmax := match offsets with
                    | [] => if pmax <? Z.of_nat (od_height output) then Z.of_nat (od_height output) else pmax
                    | _ => pmax
                    end in
        '(keys, pmax) ← scan_loop db now amount outputs (S count) offsets pmax;
        Some (MkCtkey (od_pubkey output) (od_commitment output) :: keys, pmax)
  end.

Definition scan_outputkeys_for_indexes (db : BlockchainLMDB) (table : scan_table) (now : Z) (tx_in : txin_to_key)
    (tx_prefix_hash : hash) (pmax : Z) : option (list ctkey * Z) :=
  match key_offsets tx_in with
  | [] => None
  | _ =>
      let absolute_offsets := relative_output_offsets_to_absolute (key_offsets tx_in) in
      let from_db offsets := get_output_keys db (in_amount tx_in) (Z.to_nat <$> offsets) in
      outputs ← match table !! tx_prefix_hash ≫= lookup (k_image tx_in) with
                | None => from_db absolute_offsets
                | Some outputs =>
                    if (length outputs <? length absolute_offsets)%nat && (0 <? length outputs)%nat
                    then add_outputs ← from_db (drop (length outputs) absolute_offsets); Some (outputs ++ add_outputs)
                    else Some outputs
                end;
      scan_loop db now (in_amount tx_in) outputs 0 absolute_offsets pmax
  end.

(** [sig] is empty, so that a transaction of version 1 is refused. *)
Definition check_tx_input (db : BlockchainLMDB) (table : scan_table) (now tx_version : Z) (txin : txin_to_key)
    (tx_prefix_hash : hash) (pmax : Z) : option (list ctkey * Z) :=
  '(output_keys, pmax) ← scan_outputkeys_for_indexes db table now txin tx_prefix_hash pmax;
  if negb (length (key_offsets txin) =? length output_keys)%nat then None
  else if (tx_version =? 1) && negb (length output_keys =? 0)%nat then None
  else Some (output_keys, pmax).

(** ** Completing the signature *)

(** [for (m...) rv.mixRing[m].push_back(pubkeys[n][m])] *)
Fixpoint push_column (rows : list (list ctkey)) (column : list ctkey) : list (list ctkey) :=
  match rows, column with
  | row :: rows, k :: column => (row ++ [k]) :: push_column rows column
  | _, _ => rows
  end.
(** The rings are stored by column; [None] is a ring longer than the first. *)
Fixpoint push_columns (first : nat) (rows : list (list ctkey)) (pubkeys : list (list ctkey)) : option (list (list ctkey)) :=
  match pubkeys with
  | [] => Some rows
  | ring :: pubkeys => if (first <? length ring)%nat then None else push_columns first (push_column rows ring) pubkeys
  end.

Definition image_of (i : txin_v) : option key := match i with In_to_key x => Some (k_image x) | _ => None end.
Definition key_of (o : tx_out) : option key := match target o with To_key k => Some k | _ => None end.

(** [rv.p.MGs.resize(1)] *)
Definition one_mg (rv : rctSig) : rctSig :=
  MkRctSig (rct_type rv) (txnFee rv) (pseudoOuts rv) (ecdhInfo rv) (outPk rv) (rangeSigs rv)
    [default (MkMgSig [] (repeat 0 32)) (head (MGs rv))].

Definition expand_transaction_2 (tx : transaction) (tx_prefix_hash : hash) (pubkeys : list (list ctkey)) : option expanded :=
  let rv := rct_signatures tx in
  if negb (version (prefix tx) =? 2) then None
  else
    mixRing ← (if rct_type rv =? RCTTypeFull then
                 match pubkeys with
                 | [] => None
                 | ring :: _ => push_columns (length ring) (repeat [] (length ring)) pubkeys
                 end
               else if rct_type rv =? RCTTypeSimple then Some pubkeys
               else None);
    images ← mapM image_of (vin (prefix tx));
    ii ← (if rct_type rv =? RCTTypeFull then Some [images]
          else if (length (MGs rv) =? length (vin (prefix tx)))%nat then Some (map (fun k => [k]) images) else None);
    if negb (length (outPk rv) =? length (vout (prefix tx)))%nat then None
    else
      dests ← mapM key_of (vout (prefix tx));
      Some (MkExpanded (if rct_type rv =? RCTTypeFull then one_mg rv else rv) tx_prefix_hash mixRing ii dests).

(** ** Inputs *)

Definition SIZE_MAX : Z := 2 ^ 64 - 1.

(** The counts [n_unmixable], [n_mixable] and [mixin]. *)
Fixpoint count_mixins (db : BlockchainLMDB) (l : list txin_v) (n_unmixable n_mixable mixin : Z) : Z * Z * Z :=
  match l with
  | [] => (n_unmixable, n_mixable, mixin)
  | In_to_key x :: l =>
      let '(n_unmixable, n_mixable) :=
        if in_amount x =? 0 then (n_unmixable, n_mixable +w 1)
        else if Z.of_nat (get_num_outputs db (in_amount x)) <=? TxPool.DEFAULT_MIXIN then (n_unmixable +w 1, n_mixable)
        else (n_unmixable, n_mixable +w 1) in
      let m := Z.of_nat (length (key_offsets x)) -w 1 in
      count_mixins db l n_unmixable n_mixable (if m <? mixin then m else mixin)
  | _ :: l => count_mixins db l n_unmixable n_mixable mixin
  end.

(** The loop over the inputs: the rings, and [*pmax_used_block_height]. *)
Inductive input_error := Wrong_input | Spent_image | Bad_ring.
Fixpoint check_inputs_loop (db : BlockchainLMDB) (table : scan_table) (now tx_version : Z) (tx_prefix_hash : hash) (l : list txin_v) (pmax : Z)
  : (input_error + list (list ctkey)) * Z :=
  match l with
  | [] => (inr [], pmax)
  | In_to_key x :: l =>
      if (length (key_offsets x) =? 0)%nat then (inl Wrong_input, pmax)
      else if has_key_image db (k_image x) then (inl Spent_image, pmax)
      else
        match check_tx_input db table now tx_version x tx_prefix_hash pmax with
        | None => (inl Bad_ring, pmax)
        | Some (ring, pmax) =>
            let '(r, pmax) := check_inputs_loop db table now tx_version tx_prefix_hash l pmax in
            (match r with inl e => inl e | inr rings => inr (ring :: rings) end, pmax)
        end
  | _ :: l => (inl Wrong_input, pmax)
  end.

(** The comparisons of the rings that were read with those of the signature. *)
Definition simple_matches (pubkeys : list (list ctkey)) (rings : list (list ctkey)) : bool := bool_decide (pubkeys = rings).
Definition full_matches (pubkeys : list (list ctkey)) (rings : list (list ctkey)) : bool :=
  forallb (fun ring => length ring =? length rings)%nat pubkeys && forallb (fun row => length pubkeys =? length row)%nat rings &&
  forallb (fun n => forallb (fun m => bool_decide (pubkeys !! n ≫= lookup m = rings !! m ≫= lookup n))
                      (seq 0 (length rings))) (seq 0 (length pubkeys)).

Section WithHash.
Context {HF : FastHash} {R : RctVerify}.

Definition check_signature (tx : transaction) (pubkeys : list (list ctkey)) (rv : expanded) : bool :=
  let t := rct_type (x_sig rv) in
  if t =? RCTTypeSimple then
    simple_matches pubkeys (mixRing rv) && (length (MGs (x_sig rv)) =? length (vin (prefix tx)))%nat &&
    bool_decide (mapM image_of (vin (prefix tx)) = mapM head (II rv)) && verRctSimple rv
  else if t =? RCTTypeFull then
    full_matches pubkeys (mixRing rv) && (length (MGs (x_sig rv)) =? 1)%nat &&
    bool_decide (mapM image_of (vin (prefix tx)) = head (II rv)) && verRct rv
  else false.

(** The overload that verifies; the result, [tvc] and [*pmax_used_block_height]. *)
Definition check_tx_inputs (db : BlockchainLMDB) (table : scan_table) (now : Z) (tx : transaction)
    (tvc : TxPool.tx_verification_context) : bool * TxPool.tx_verification_context * Z :=
  let tx_prefix_hash := default null_hash (get_transaction_prefix_hash (prefix tx)) in
  let '(n_unmixable, n_mixable, mixin) := count_mixins db (vin (prefix tx)) 0 0 SIZE_MAX in
  if (mixin <? TxPool.DEFAULT_MIXIN) && ((n_unmixable =? 0) || (1 <? n_mixable)) then (false, TxPool.set_flag TxPool.Low_mixin true tvc, 0)
  else if TxPool.MAX_MIXIN <? mixin then (false, TxPool.set_flag TxPool.High_mixin true tvc, 0)
  else if (CURRENT_TRANSACTION_VERSION <? version (prefix tx)) || (version (prefix tx) <? MIN_TRANSACTION_VERSION)
  then (false, TxPool.set_flag TxPool.Verifivation_failed true tvc, 0)
  else
    match check_inputs_loop db table now (version (prefix tx)) tx_prefix_hash (vin (prefix tx)) 0 with
    | (inl Spent_image, pmax) => (false, TxPool.set_flag TxPool.Double_spend true tvc, pmax)
    | (inl _, pmax) => (false, tvc, pmax)
    | (inr pubkeys, pmax) =>
        match expand_transaction_2 tx tx_prefix_hash pubkeys with
        | None => (false, tvc, pmax)
        | Some rv => (check_signature tx pubkeys rv, tvc, pmax)
        end
    end.

(** The overload for the pool: the result, [max_used_block_height],
    [max_used_block_id] and [tvc]. *)
Definition check_tx_inputs_for_pool (db : BlockchainLMDB) (table : scan_table) (now : Z) (tx : transaction) (max_id : hash)
    (tvc : TxPool.tx_verification_context) : bool * Z * hash * TxPool.tx_verification_context :=
  let '(res, tvc, max_used_block_height) := check_tx_inputs db table now tx tvc in
  if negb res then (false, max_used_block_height, max_id, tvc)
  else if negb (max_used_block_height <? height64 db) then (false, max_used_block_height, max_id, tvc)
  else
    match get_block_hash_from_height db (Z.to_nat max_used_block_height) with
    | Some h => (true, max_used_block_height, h, tvc)
    | None => (false, max_used_block_height, max_id, tvc)
    end.

End WithHash.

(** ** Outputs and key images *)

Definition check_tx_outputs {C : DbCrypto} (tx : transaction) (tvc : TxPool.tx_verification_context)
  : bool * TxPool.tx_verification_context :=
  let invalid := (false, TxPool.set_flag TxPool.Invalid_output true tvc) in
  if existsb (fun o => negb (amount o =? 0)) (vout (prefix tx)) then invalid
  else if existsb (fun o => match target o with To_key k => negb (check_key k) | _ => false end) (vout (prefix tx)) then invalid
  else (true, tvc).

Fixpoint have_keyimges_loop (db : BlockchainLMDB) (l : list txin_v) : bool :=
  match l with
  | [] => false
  | In_to_key x :: l => if has_key_image db (k_image x) then true else have_keyimges_loop db l
  | _ => true
  end.
Definition have_tx_keyimges_as_spent (db : BlockchainLMDB) (tx : transaction) : bool := have_keyimges_loop db (vin (prefix tx)).

Fixpoint check_for_double_spend (db : BlockchainLMDB) (l : list txin_v) (keys_this_block : gset key_image) : bool * gset key_image :=
  match l with
  | [] => (true, keys_this_block)
  | In_to_key x :: l =>
      let keys := {[k_image x]} ∪ keys_this_block in
      if bool_decide (k_image x ∈ keys_this_block) || has_key_image db (k_image x) then (false, keys)
      else check_for_double_spend db l keys
  | In_gen _ :: l => check_for_double_spend db l keys_this_block
  | _ => (false, keys_this_block)
  end.

(** * Properties *)

(** ** Ring members *)

Definition usable (db : BlockchainLMDB) (now : Z) (o : output_data_t) : Prop :=
  is_tx_spendtime_unlocked db now (od_unlock_time o) = true /\ (1 <= od_height o)%nat.
Definition to_ctkey (o : output_data_t) : ctkey := MkCtkey (od_pubkey o) (od_commitment o).
Definition absolute (x : txin_to_key) : list Z := relative_output_offsets_to_absolute (key_offsets x).
(** The members of the ring of an input. *)
Definition members (db : BlockchainLMDB) (x : txin_to_key) : option (list output_data_t) :=
  get_output_keys db (in_amount x) (Z.to_nat <$> absolute x).
(** [pmax] after the last member. *)
Definition raise_max (pmax : Z) (ring : list output_data_t) : Z :=
  match last ring with Some o => Z.max pmax (Z.of_nat (od_height o)) | None => pmax end.

(** The table holds outputs of the database, from the first member on. *)
Definition table_ok (db : BlockchainLMDB) (table : scan_table) (h : hash) (x : txin_to_key) : Prop :=
  forall outs, table !! h ≫= lookup (k_image x) = Some outs ->
    (length outs <= length (absolute x))%nat /\
    get_output_keys db (in_amount x) (Z.to_nat <$> take (length outs) (absolute x)) = Some outs.

Lemma length_absolute x : length (absolute x) = length (key_offsets x).
Proof.
  unfold absolute. destruct (key_offsets x) as [|o l]; [done|]. cbn. f_equal. revert o. induction l as [|y l IH]; intros o; [done|].
  cbn. f_equal. apply IH.
Qed.

(** The loop on the offsets that are left, with the members they have. *)
Lemma scan_loop_spec db now amount outputs offsets : forall count pmax ring,
  Forall2 (fun p o => (if (p.1 <? length outputs)%nat then outputs !! p.1 else get_output_key db amount (Z.to_nat p.2)) = Some o)
    (zip (seq count (length offsets)) offsets) ring ->
  scan_loop db now amount outputs count offsets pmax =
    if bool_decide (Forall (usable db now) ring) then Some (to_ctkey <$> ring, raise_max pmax ring) else None.
Proof.
  induction offsets as [|i offsets IH]; intros count pmax ring H; cbn [zip zip_with length seq] in H.
  { inversion H; subst. by rewrite bool_decide_true by constructor. }
  inversion H as [|? o ? ring' Ho Hr]; subst. cbn [fst snd] in Ho. cbn [scan_loop]. rewrite Ho. cbn [mbind option_bind].
  destruct (is_tx_spendtime_unlocked db now (od_unlock_time o)) eqn:Eu; cbn [negb].
  2:{ rewrite bool_decide_false; [done|]. intros [[Hu _] _]%Forall_cons. congruence. }
  destruct (Nat.ltb_spec (od_height o) 1) as [Hh|Hh].
  { rewrite bool_decide_false; [done|]. intros [[_ Hu] _]%Forall_cons. lia. }
  rewrite (IH _ _ _ Hr). assert (Hus : usable db now o) by (split; [done|lia]).
  destruct (bool_decide (Forall (usable db now) ring')) eqn:Eb.
  - apply bool_decide_eq_true in Eb. rewrite bool_decide_true by by constructor. cbn [mbind option_bind]. f_equal. f_equal.
    apply Forall2_length in Hr. rewrite length_zip_with, length_seq in Hr. unfold raise_max.
    destruct offsets as [|i' offsets], ring' as [|o' ring']; cbn in Hr; try lia.
    + cbn. destruct (Z.ltb_spec pmax (Z.of_nat (od_height o))); lia.
    + change (last (o :: o' :: ring')) with (last (o' :: ring')). done.
  - apply bool_decide_eq_false in Eb. rewrite bool_decide_false; [done|]. by intros [_ ?]%Forall_cons.
Qed.

Lemma get_output_keys_app db amount l1 l2 : get_output_keys db amount (l1 ++ l2) =
  (r1 ← get_output_keys db amount l1; r2 ← get_output_keys db amount l2; Some (r1 ++ r2)).
Proof.
  unfold get_output_keys. induction l1 as [|i l1 IH]; cbn [app mapM]; [by destruct (mapM _ l2)|].
  destruct (get_output_key db amount i) as [o|]; [|done]. cbn [mbind option_bind]. rewrite IH.
  destruct (mapM _ l1) as [r1|]; [|done]. cbn [mbind option_bind]. by destruct (mapM _ l2).
Qed.

Lemma zip_seq_lookup {A} (l : list A) i p : zip (seq 0 (length l)) l !! i = Some p -> p.1 = i /\ l !! i = Some p.2.
Proof.
  intros H. apply lookup_zip_with_Some in H as (a & b & -> & Ha & Hb). apply lookup_seq in Ha as [-> _]. done.
Qed.

(** Any outputs that agree with the database give the members. *)
Lemma scan_outputs db now x outputs ring pmax :
  members db x = Some ring -> outputs = ring \/ outputs = [] ->
  scan_loop db now (in_amount x) outputs 0 (absolute x) pmax =
    if bool_decide (Forall (usable db now) ring) then Some (to_ctkey <$> ring, raise_max pmax ring) else None.
Proof.
  intros Hm Ho. unfold members, get_output_keys in Hm. apply mapM_Some in Hm as HF2. pose proof (Forall2_length _ _ _ HF2) as Hl.
  rewrite length_fmap in Hl. apply scan_loop_spec. apply Forall2_same_length_lookup_2.
  { rewrite length_zip_with, length_seq. lia. }
  intros i p o Hp Hr. apply zip_seq_lookup in Hp as [Hp1 Hp2].
  assert (Hdb : get_output_key db (in_amount x) (Z.to_nat p.2) = Some o).
  { eapply (Forall2_lookup_lr _ _ _ i _ _ HF2); [|done]. by rewrite list_lookup_fmap, Hp2. }
  destruct Ho as [-> | ->]; [|done]. rewrite Hp1. pose proof (lookup_lt_Some _ _ _ Hr) as Hlt. apply Nat.ltb_lt in Hlt. by rewrite Hlt.
Qed.
Lemma scan_missing db now x offsets : get_output_keys db (in_amount x) (Z.to_nat <$> offsets) = None ->
  forall count pmax, scan_loop db now (in_amount x) [] count offsets pmax = None.
Proof.
  induction offsets as [|i offsets IH]; intros H count pmax; [done|]. cbn [scan_loop length]. change (count <? 0)%nat with false.
  unfold get_output_keys in *. cbn [fmap list_fmap mapM] in H.
  destruct (get_output_key db (in_amount x) (Z.to_nat i)) as [o|]; [|done]. cbn [mbind option_bind] in *.
  destruct (mapM _ (list_fmap _ _ _ offsets)) eqn:E; [done|]. destruct (negb _); [done|]. destruct (od_height o <? 1)%nat; [done|].
  by rewrite IH.
Qed.

Lemma scan_spec db table now x h pmax : table_ok db table h x ->
  scan_outputkeys_for_indexes db table now x h pmax =
    match key_offsets x with
    | [] => None
    | _ => ring ← members db x;
           if bool_decide (Forall (usable db now) ring) then Some (to_ctkey <$> ring, raise_max pmax ring) else None
    end.
Proof.
  intros Hok. unfold scan_outputkeys_for_indexes. destruct (key_offsets x) as [|o0 os] eqn:Eo; [done|]. rewrite <- Eo.
  fold (absolute x). fold (members db x). unfold table_ok in Hok. destruct (table !! h ≫= lookup (k_image x)) as [outs|].
  2:{ destruct (members db x) as [ring|] eqn:Em; [|done]. cbn [mbind option_bind]. by apply scan_outputs; [|left]. }
  destruct (Hok outs eq_refl) as [Hle Hout]. clear Hok.
  assert (Hmem : members db x = (rest ← get_output_keys db (in_amount x) (Z.to_nat <$> drop (length outs) (absolute x)); Some (outs ++ rest))).
  { unfold members. rewrite <- (take_drop (length outs) (absolute x)) at 1. rewrite fmap_app, get_output_keys_app, Hout. done. }
  destruct outs as [|o outs].
  - cbn [length]. change (0 <? 0)%nat with false. rewrite andb_false_r. cbn [mbind option_bind].
    destruct (members db x) as [ring|] eqn:Em; cbn [mbind option_bind]; [by apply scan_outputs; [|right]|by apply scan_missing].
  - rewrite Hmem. destruct (Nat.ltb_spec (length (o :: outs)) (length (absolute x))) as [Hlt|Hge]; cbn [andb].
    + change (0 <? length (o :: outs))%nat with true. cbn [andb].
      destruct (get_output_keys _ _ (_ <$> drop _ _)) as [rest|]; [|done]. cbn [mbind option_bind] in *.
      apply scan_outputs; [exact Hmem|by left].
    + rewrite (drop_ge (absolute x)) in * by lia. cbn [fmap list_fmap] in *.
      change (get_output_keys db (in_amount x) []) with (Some (@nil output_data_t)) in *. cbn [mbind option_bind] in *.
      rewrite app_nil_r in *. apply scan_outputs; [exact Hmem|by left].
Qed.

(** ** Inputs *)

(** An input that spends an unspent key image with a ring of usable outputs. *)
Definition input_ring (db : BlockchainLMDB) (now : Z) (i : txin_v) (ring : list output_data_t) : Prop :=
  exists x, i = In_to_key x /\ key_offsets x <> [] /\ (k_image x ∉ m_spent_keys (tbl db)) /\ members db x = Some ring /\
    Forall (usable db now) ring.

Lemma length_members db x ring : members db x = Some ring -> length ring = length (key_offsets x).
Proof.
  unfold members, get_output_keys. intros H%mapM_Some%Forall2_length. by rewrite <- H, length_fmap, length_absolute.
Qed.

Lemma check_tx_input_spec db table now x h pmax : table_ok db table h x ->
  check_tx_input db table now 2 x h pmax =
    match key_offsets x with
    | [] => None
    | _ => ring ← members db x;
           if bool_decide (Forall (usable db now) ring) then Some (to_ctkey <$> ring, raise_max pmax ring) else None
    end.
Proof.
  intros Hok. unfold check_tx_input. rewrite scan_spec by done. destruct (key_offsets x) as [|o os] eqn:Eo; [done|]. rewrite <- Eo.
  destruct (members db x) as [ring|] eqn:Em; [|done]. cbn [mbind option_bind].
  destruct (bool_decide _); [|done]. cbn [mbind option_bind]. by rewrite length_fmap, (length_members _ _ _ Em), Nat.eqb_refl.
Qed.

Definition tables_ok (db : BlockchainLMDB) (table : scan_table) (h : hash) (l : list txin_v) : Prop :=
  forall x, In_to_key x ∈ l -> table_ok db table h x.

Lemma check_inputs_loop_spec db table now h l : tables_ok db table h l -> forall pmax keys pmax',
  check_inputs_loop db table now 2 h l pmax = (inr keys, pmax') <->
  exists rings, Forall2 (input_ring db now) l rings /\ keys = fmap (M:=list) to_ctkey <$> rings /\ pmax' = foldl raise_max pmax rings.
Proof.
  induction l as [|i l IH]; intros Hok pmax keys pmax'; cbn [check_inputs_loop].
  { split; [intros [= <- <-]; by exists []|]. intros (rings & HF2 & -> & ->). by inversion HF2; subst. }
  assert (Hok' : tables_ok db table h l) by (intros x Hx; apply Hok; by right).
  destruct i as [g|sx|shx|x].
  1-3: split; [by intros [= ]|]; intros (rings & HF2 & _); inversion HF2 as [|? ? ? ? (x & Hx & _)]; discriminate Hx.
  assert (Htx : table_ok db table h x) by (apply Hok; by left).
  rewrite check_tx_input_spec by done. split.
  - destruct (Nat.eqb_spec (length (key_offsets x)) 0) as [E0|E0]; [by intros [= ]|].
    unfold has_key_image. destruct (bool_decide _) eqn:Ek; [by intros [= ]|]. apply bool_decide_eq_false in Ek.
    destruct (key_offsets x) as [|o os] eqn:Eo; [done|]. destruct (members db x) as [ring|] eqn:Em; [|by intros [= ]].
    cbn [mbind option_bind]. destruct (bool_decide _) eqn:Eu; [|by intros [= ]]. apply bool_decide_eq_true in Eu.
    destruct (check_inputs_loop db table now 2 h l (raise_max pmax ring)) as [[e|keys'] pm] eqn:Er; [by intros [= ]|].
    intros [= <- <-]. apply IH in Er as (rings & HF2 & -> & ->); [|done]. exists (ring :: rings). split; [|done].
    constructor; [|done]. exists x. rewrite Eo. done.
  - intros (rings & HF2 & -> & ->). inversion HF2 as [|? ring ? rings' (x' & Hx & Hne & Hk & Em & Hu) Hr]; subst. injection Hx as <-.
    destruct (key_offsets x) as [|o os] eqn:Eo; [done|]. cbn [length Nat.eqb]. unfold has_key_image.
    rewrite bool_decide_false by done. rewrite Em. cbn [mbind option_bind]. rewrite bool_decide_true by done.
    rewrite (proj2 (IH Hok' (raise_max pmax ring) (fmap (M:=list) to_ctkey <$> rings') (foldl raise_max (raise_max pmax ring) rings'))); [done|].
    by exists rings'.
Qed.

(** ** Ring sizes *)

Definition spends (tx : transaction) : list txin_to_key := omap to_key (vin (prefix tx)).
Definition unmixable (db : BlockchainLMDB) (x : txin_to_key) : bool :=
  negb (in_amount x =? 0) && (Z.of_nat (get_num_outputs db (in_amount x)) <=? TxPool.DEFAULT_MIXIN).
Definition others (x : txin_to_key) : Z := Z.of_nat (length (key_offsets x)) -w 1.

Lemma count_mixins_spec db l : forall u m mixin,
  0 <= u -> 0 <= m -> u + Z.of_nat (length l) < 2 ^ 64 -> m + Z.of_nat (length l) < 2 ^ 64 ->
  count_mixins db l u m mixin =
    (u + Z.of_nat (length (List.filter (unmixable db) (omap to_key l))),
     m + Z.of_nat (length (List.filter (fun x => negb (unmixable db x)) (omap to_key l))),
     foldl Z.min mixin (map others (omap to_key l))).
Proof.
  induction l as [|i l IH]; intros u m mixin Hu Hm Hul Hml; [cbn; by rewrite !Z.add_0_r|].
  cbn [length] in *. destruct i as [g|sx|shx|x]; cbn [count_mixins omap list_omap to_key]; try (rewrite IH by lia; done).
  cbn [List.filter map foldl]. fold (others x).
  replace (if others x <? mixin then others x else mixin) with (Z.min mixin (others x)) by (destruct (Z.ltb_spec (others x) mixin); lia).
  replace (if in_amount x =? 0 then _ else _) with (if unmixable db x then (u +w 1, m) else (u, m +w 1)).
  2:{ unfold unmixable. destruct (in_amount x =? 0); [done|]. cbn. by destruct (_ <=? TxPool.DEFAULT_MIXIN). }
  destruct (unmixable db x); cbn [negb]; rewrite wrap_small by (words; lia); rewrite IH by lia; cbn [length]; do 2 f_equal; lia.
Qed.

(** ** Signatures *)

Definition transpose (n : nat) (rings : list (list ctkey)) : list (list ctkey) :=
  map (fun m => omap (lookup m) rings) (seq 0 n).
Definition rectangular (n : nat) (rings : list (list ctkey)) : Prop := Forall (fun r => length r = n) rings.

Lemma omap_lookup_rect n rings m k : rectangular n rings -> (m < n)%nat -> omap (lookup m) rings !! k = rings !! k ≫= lookup m.
Proof.
  intros Hr Hm. revert k. induction Hr as [|r rings Hl _ IH]; intros k; [done|]. cbn [omap list_omap].
  destruct (lookup_lt_is_Some_2 r m) as [x Hx]; [lia|]. rewrite Hx. destruct k as [|k]; [done|]. apply IH.
Qed.
Lemma length_omap_rect n rings m : rectangular n rings -> (m < n)%nat -> length (omap (lookup m) rings) = length rings.
Proof.
  intros Hr Hm. induction Hr as [|r rings Hl _ IH]; [done|]. cbn [omap list_omap].
  destruct (lookup_lt_is_Some_2 r m) as [x Hx]; [lia|]. rewrite Hx. cbn. by rewrite IH.
Qed.

Lemma length_push_column rows column : length (push_column rows column) = length rows.
Proof. revert column. induction rows as [|r rows IH]; intros [|k column]; cbn; [done..|by rewrite IH]. Qed.
Lemma push_column_lookup rows column m k : column !! m = Some k -> push_column rows column !! m = (fun r => r ++ [k]) <$> rows !! m.
Proof.
  revert column m. induction rows as [|r rows IH]; intros [|x column] m H; try done. cbn [push_column].
  destruct m as [|m]; [by injection H as ->|]. by apply IH.
Qed.
Lemma length_push_columns n rings : forall rows rows', push_columns n rows rings = Some rows' -> length rows' = length rows.
Proof.
  induction rings as [|r rings IH]; intros rows rows' H; cbn [push_columns] in H; [by injection H as <-|].
  destruct (n <? length r)%nat; [done|]. apply IH in H. by rewrite H, length_push_column.
Qed.
Lemma push_columns_rect n rings : rectangular n rings -> forall rows, length rows = n ->
  exists rows', push_columns n rows rings = Some rows' /\
    forall m, (m < n)%nat -> rows' !! m = (fun r => r ++ omap (lookup m) rings) <$> rows !! m.
Proof.
  induction 1 as [|r rings Hl Hr IH]; intros rows Hn; cbn [push_columns].
  { exists rows. split; [done|]. intros m Hm. cbn. destruct (rows !! m) as [row|]; [|done]. cbn. by rewrite app_nil_r. }
  destruct (Nat.ltb_spec n (length r)) as [H|_]; [lia|]. destruct (IH (push_column rows r)) as (rows' & E & H).
  { by rewrite length_push_column. }
  exists rows'. split; [done|]. intros m Hm. rewrite (H m Hm). destruct (lookup_lt_is_Some_2 r m) as [x Hx]; [lia|].
  rewrite (push_column_lookup _ _ _ _ Hx). cbn [omap list_omap]. rewrite Hx. destruct (rows !! m) as [row|]; [|done]. cbn.
  by rewrite <- app_assoc.
Qed.
Lemma push_columns_transpose n rings : rectangular n rings -> push_columns n (repeat [] n) rings = Some (transpose n rings).
Proof.
  intros Hr. destruct (push_columns_rect n rings Hr (repeat [] n)) as (rows & E & H); [apply repeat_length|]. rewrite E. f_equal.
  apply list_eq. intros m. unfold transpose. rewrite list_lookup_fmap. destruct (decide (m < n)%nat) as [Hm|Hm].
  - rewrite (H m Hm). rewrite lookup_seq_lt by done. cbn.
    assert (Hx : repeat (@nil ctkey) n !! m = Some []) by (clear -Hm; revert m Hm; induction n as [|n IH]; intros [|m] Hm; cbn; [lia..|done|apply IH; lia]). by rewrite Hx.
  - rewrite lookup_ge_None_2 by (apply length_push_columns in E; rewrite E, repeat_length; lia).
    by rewrite lookup_seq_ge by lia.
Qed.

Lemma full_matches_rect n rings rows : push_columns n (repeat [] n) rings = Some rows ->
  full_matches rings rows = true <-> rectangular n rings.
Proof.
  intros E. pose proof (length_push_columns _ _ _ _ E) as Hl. rewrite repeat_length in Hl. unfold full_matches. split.
  - intros H. apply andb_true_iff in H as [[H _]%andb_true_iff _]. apply Forall_forall. intros r Hr.
    apply list_elem_of_In in Hr. rewrite forallb_forall in H. apply H in Hr. apply Nat.eqb_eq in Hr. lia.
  - intros Hr. assert (rows = transpose n rings) as -> by (rewrite push_columns_transpose in E by done; congruence).
    rewrite !andb_true_iff, !forallb_forall. split; [split|].
    + intros r Hin. apply Nat.eqb_eq. rewrite Hl. unfold rectangular in Hr. rewrite Forall_forall in Hr. by apply Hr, list_elem_of_In.
    + intros row Hin. apply in_map_iff in Hin as (m & <- & Hm%in_seq). apply Nat.eqb_eq. by rewrite (length_omap_rect n) by (done || lia).
    + intros k Hk. apply forallb_forall. intros m Hm%in_seq. apply bool_decide_eq_true. unfold transpose.
      rewrite Hl in Hm. rewrite list_lookup_fmap, lookup_seq_lt by lia. cbn. by rewrite (omap_lookup_rect n) by (done || lia).
Qed.

Section SignatureSpec.
Context {R : RctVerify}.

(** The ring signature of [tx] verifies for the message [h] and these rings, the
    key images of its inputs and the keys of its outputs. *)
Definition signed (tx : transaction) (h : hash) (rings : list (list ctkey)) : Prop :=
  exists images dests,
    mapM image_of (vin (prefix tx)) = Some images /\ mapM key_of (vout (prefix tx)) = Some dests /\
    length (outPk (rct_signatures tx)) = length (vout (prefix tx)) /\
    (rct_type (rct_signatures tx) = RCTTypeSimple /\ length (MGs (rct_signatures tx)) = length (vin (prefix tx)) /\
       verRctSimple (MkExpanded (rct_signatures tx) h rings (map (fun k => [k]) images) dests) = true \/
     rct_type (rct_signatures tx) = RCTTypeFull /\ exists n, rings <> [] /\ rectangular n rings /\
       verRct (MkExpanded (one_mg (rct_signatures tx)) h (transpose n rings) [images] dests) = true).

Lemma mapM_head_singletons (l : list key) : mapM head (map (fun k => [k]) l) = Some l.
Proof. induction l as [|k l IH]; [done|]. cbn. by rewrite IH. Qed.

Lemma expand_inv tx h rings rv : expand_transaction_2 tx h rings = Some rv ->
  exists images dests,
    mapM image_of (vin (prefix tx)) = Some images /\ mapM key_of (vout (prefix tx)) = Some dests /\
    length (outPk (rct_signatures tx)) = length (vout (prefix tx)) /\
    (rct_type (rct_signatures tx) = RCTTypeSimple /\ length (MGs (rct_signatures tx)) = length (vin (prefix tx)) /\
       rv = MkExpanded (rct_signatures tx) h rings (map (fun k => [k]) images) dests \/
     rct_type (rct_signatures tx) = RCTTypeFull /\ exists r l rows, rings = r :: l /\
       push_columns (length r) (repeat [] (length r)) rings = Some rows /\
       rv = MkExpanded (one_mg (rct_signatures tx)) h rows [images] dests).
Proof.
  unfold expand_transaction_2. intros H. destruct (negb (version _ =? 2)); [done|].
  apply bind_Some in H as (rows & Er & H). apply bind_Some in H as (images & Ei & H). apply bind_Some in H as (ii & Eii & H).
  destruct (Nat.eqb_spec (length (outPk (rct_signatures tx))) (length (vout (prefix tx)))) as [Ho|Ho]; [|done]. cbn [negb] in H.
  apply bind_Some in H as (dests & Ed & H). exists images, dests. do 3 (split; [done|]).
  destruct (Z.eqb_spec (rct_type (rct_signatures tx)) RCTTypeFull) as [Ef|Ef].
  - right. split; [done|]. destruct rings as [|r l]; [done|]. exists r, l, rows. split; [done|]. split; [done|]. congruence.
  - left. destruct (Z.eqb_spec (rct_type (rct_signatures tx)) RCTTypeSimple) as [Es|Es]; [|done].
    destruct (Nat.eqb_spec (length (MGs (rct_signatures tx))) (length (vin (prefix tx)))) as [Em|Em]; [|done]. split; [done|].
    split; [done|]. congruence.
Qed.
Lemma check_full tx rings n h images dests :
  mapM image_of (vin (prefix tx)) = Some images -> rct_type (rct_signatures tx) = RCTTypeFull ->
  forall rows, push_columns n (repeat [] n) rings = Some rows ->
  check_signature tx rings (MkExpanded (one_mg (rct_signatures tx)) h rows [images] dests) = true <->
  rectangular n rings /\ verRct (MkExpanded (one_mg (rct_signatures tx)) h (transpose n rings) [images] dests) = true.
Proof.
  intros Ei Ef rows Ep. unfold check_signature. cbn [x_sig one_mg rct_type mixRing MGs II head]. rewrite Ef, Ei.
  change (RCTTypeFull =? RCTTypeSimple) with false. rewrite Z.eqb_refl, bool_decide_true by done. cbn [length Nat.eqb].
  rewrite !andb_true_r, andb_true_iff, (full_matches_rect _ _ _ Ep). split; intros [Hr Hv]; (split; [done|]);
    pose proof (push_columns_transpose _ _ Hr) as Et; congruence.
Qed.
Lemma check_simple tx rings h images dests :
  mapM image_of (vin (prefix tx)) = Some images -> rct_type (rct_signatures tx) = RCTTypeSimple ->
  length (MGs (rct_signatures tx)) = length (vin (prefix tx)) ->
  check_signature tx rings (MkExpanded (rct_signatures tx) h rings (map (fun k => [k]) images) dests) =
    verRctSimple (MkExpanded (rct_signatures tx) h rings (map (fun k => [k]) images) dests).
Proof.
  intros Ei Es Em. unfold check_signature. cbn [x_sig mixRing II]. rewrite Es, Z.eqb_refl, Ei, mapM_head_singletons, Em, Nat.eqb_refl.
  unfold simple_matches. by rewrite !bool_decide_true.
Qed.

Lemma check_signature_spec tx h rings : version (prefix tx) = 2 ->
  (exists rv, expand_transaction_2 tx h rings = Some rv /\ check_signature tx rings rv = true) <-> signed tx h rings.
Proof.
  intros Hv. split.
  - intros (rv & He & Hc). apply expand_inv in He as (images & dests & Ei & Ed & Ho & [(Es & Em & ->)|(Ef & r & l & rows & Hr & Ep & ->)]);
      exists images, dests; do 3 (split; [done|]).
    + left. rewrite check_simple in Hc by done. done.
    + right. split; [done|]. apply (check_full _ _ _ _ _ _ Ei Ef _ Ep) in Hc as [? ?]. exists (length r). by subst rings.
  - intros (images & dests & Ei & Ed & Ho & H). unfold expand_transaction_2. rewrite Hv, Ei, Ed, Ho, Nat.eqb_refl. cbn [Z.eqb Pos.eqb negb].
    destruct H as [(Es & Em & Hver)|(Ef & n & Hne & Hr & Hver)].
    + rewrite Es, Em, Nat.eqb_refl. change (RCTTypeSimple =? RCTTypeFull) with false. rewrite Z.eqb_refl. cbn [mbind option_bind].
      eexists. split; [done|]. by rewrite check_simple.
    + destruct rings as [|r rings]; [done|]. assert (length r = n) as -> by by inversion Hr.
      pose proof (push_columns_transpose _ _ Hr) as Ep. rewrite Ef, Z.eqb_refl, Ep. cbn [mbind option_bind]. eexists. split; [done|].
      by apply (check_full _ _ n _ _ _ Ei Ef _ Ep).
Qed.

End SignatureSpec.

(** ** Accepted transactions *)

(** Every ring has at least seven members, unless an amount with too few outputs is
    spent beside at most one other; and some ring has at most 241. *)
Definition ring_sizes (db : BlockchainLMDB) (tx : transaction) : Prop :=
  (Forall (fun x => TxPool.DEFAULT_MIXIN < Z.of_nat (length (key_offsets x))) (spends tx) \/
   (exists x, x ∈ spends tx /\ unmixable db x = true) /\
   (length (List.filter (fun x => negb (unmixable db x)) (spends tx)) <= 1)%nat) /\
  Exists (fun x => Z.of_nat (length (key_offsets x)) <= TxPool.MAX_MIXIN + 1) (spends tx).

Lemma foldl_min_le l : forall m n, m <= foldl Z.min n l <-> m <= n /\ Forall (fun x => m <= x) l.
Proof.
  induction l as [|x l IH]; intros m n; cbn [foldl]; [split; [done|by intros [? _]]|]. rewrite IH, Forall_cons. intuition lia.
Qed.
Lemma foldl_min_ge l : forall m n, foldl Z.min n l <= m <-> n <= m \/ Exists (fun x => x <= m) l.
Proof.
  induction l as [|x l IH]; intros m n; cbn [foldl]; [rewrite Exists_nil; tauto|]. rewrite IH, Exists_cons. split.
  - intros [?|?]; [|tauto]. destruct (Z.min_spec n x) as [[_ Hm]|[_ Hm]]; rewrite Hm in *; tauto.
  - intros [?|[?|?]]; [left; lia|left; lia|by right].
Qed.
Lemma filter_none {A} (f : A -> bool) l : length (List.filter f l) = 0%nat <-> ~ exists x, x ∈ l /\ f x = true.
Proof.
  split.
  - intros H (x & Hx & Hf). assert (x ∈ List.filter f l) as Hin by (rewrite list_elem_of_In, filter_In, <- list_elem_of_In; done).
    destruct (List.filter f l); [by apply not_elem_of_nil in Hin|done].
  - intros H. destruct (List.filter f l) as [|x r] eqn:E; [done|]. exfalso. apply H. exists x.
    assert (Hin : x ∈ List.filter f l) by (rewrite E; by left). by rewrite list_elem_of_In, filter_In, <- list_elem_of_In in Hin.
Qed.

Definition nonempty_rings (tx : transaction) : Prop :=
  Forall (fun x => (0 < length (key_offsets x))%nat /\ Z.of_nat (length (key_offsets x)) < 2 ^ 64) (spends tx).

Lemma others_small tx : nonempty_rings tx -> map others (spends tx) = map (fun x => Z.of_nat (length (key_offsets x)) - 1) (spends tx).
Proof.
  intros H. apply map_ext_in. intros x Hx%list_elem_of_In. unfold nonempty_rings in H. rewrite Forall_forall in H.
  apply H in Hx as [? ?]. unfold others. rewrite wrap_small by (words; lia). done.
Qed.
Lemma length_spends tx : (length (spends tx) <= length (vin (prefix tx)))%nat.
Proof. unfold spends. induction (vin (prefix tx)) as [|i l IH]; [done|]. cbn. destruct (to_key i); cbn; lia. Qed.

Lemma ring_sizes_checked db tx : nonempty_rings tx -> Z.of_nat (length (vin (prefix tx))) < 2 ^ 64 ->
  let '(n_unmixable, n_mixable, mixin) := count_mixins db (vin (prefix tx)) 0 0 SIZE_MAX in
  (mixin <? TxPool.DEFAULT_MIXIN) && ((n_unmixable =? 0) || (1 <? n_mixable)) = false /\ (TxPool.MAX_MIXIN <? mixin) = false <->
  ring_sizes db tx.
Proof.
  intros Hne Hl. rewrite count_mixins_spec by lia. fold (spends tx). rewrite others_small by done.
  set (sizes := map _ (spends tx)). unfold ring_sizes.
  rewrite andb_false_iff, orb_false_iff, !Z.ltb_ge, Z.eqb_neq, foldl_min_le, foldl_min_ge.
  assert (H1 : Forall (fun m => TxPool.DEFAULT_MIXIN <= m) sizes <->
    Forall (fun x => TxPool.DEFAULT_MIXIN < Z.of_nat (length (key_offsets x))) (spends tx)).
  { unfold sizes. rewrite Forall_fmap. apply Forall_iff. intros x. cbn. lia. }
  assert (H2 : Exists (fun m => m <= TxPool.MAX_MIXIN) sizes <->
    Exists (fun x => Z.of_nat (length (key_offsets x)) <= TxPool.MAX_MIXIN + 1) (spends tx)).
  { unfold sizes. rewrite Exists_fmap. split; intros H; (eapply Exists_impl; [exact H|]); intros x; cbn; lia. }
  rewrite H1, H2. pose proof (filter_none (unmixable db) (spends tx)) as Hf.
  assert (Hd : (exists x, x ∈ spends tx /\ unmixable db x = true) <-> 0 + Z.of_nat (length (List.filter (unmixable db) (spends tx))) <> 0).
  { split; [intros H E; apply Hf; [lia|done]|]. intros H. destruct (List.filter (unmixable db) (spends tx)) as [|x r] eqn:E; [done|].
    exists x. assert (Hin : x ∈ List.filter (unmixable db) (spends tx)) by (rewrite E; by left).
    by rewrite list_elem_of_In, filter_In, <- list_elem_of_In in Hin. }
  rewrite Hd. unfold SIZE_MAX, TxPool.DEFAULT_MIXIN, TxPool.MAX_MIXIN in *. intuition (try lia).
Qed.

Lemma input_rings_nonempty db now tx rings : Forall2 (input_ring db now) (vin (prefix tx)) rings ->
  Forall (fun x => Z.of_nat (length (key_offsets x)) < 2 ^ 64) (spends tx) -> nonempty_rings tx.
Proof.
  intros H Hb. unfold nonempty_rings. apply Forall_and. split; [|done]. clear Hb. unfold spends.
  induction H as [|i ring l rings (x & -> & Hne & _) _ IH]; [constructor|]. cbn. constructor; [|done]. by destruct (key_offsets x); [|cbn; lia].
Qed.

Section Accepted.
Context {HF : FastHash} {R : RctVerify}.

(** [C40] [check_tx_inputs] accepts a transaction exactly when it has version 2, each
    of its inputs spends a key image the chain has not seen with a ring of outputs
    that exist, are unlocked and are not of the first block, the rings have the
    allowed sizes, and the ring signature verifies over the keys and commitments
    of exactly these outputs, with the prefix hash as the message, the key images
    of the inputs and the keys of the outputs.  The outputs that were read ahead
    do not change the answer, and the height returned is the highest one among the
    last members of the rings. *)
Theorem check_tx_inputs_correct db table now tx tvc tvc' pmax h :
  get_transaction_prefix_hash (prefix tx) = Some h -> tables_ok db table h (vin (prefix tx)) ->
  Z.of_nat (length (vin (prefix tx))) < 2 ^ 64 -> Forall (fun x => Z.of_nat (length (key_offsets x)) < 2 ^ 64) (spends tx) ->
  check_tx_inputs db table now tx tvc = (true, tvc', pmax) <->
  tvc' = tvc /\ version (prefix tx) = 2 /\ ring_sizes db tx /\
  exists rings, Forall2 (input_ring db now) (vin (prefix tx)) rings /\ signed tx h (fmap (M:=list) to_ctkey <$> rings) /\
    pmax = foldl raise_max 0 rings.
Proof.
  intros Hh Hok Hl Hb. unfold check_tx_inputs. rewrite Hh. change (default null_hash (Some h)) with h.
  pose proof (ring_sizes_checked db tx) as Hs. destruct (count_mixins db (vin (prefix tx)) 0 0 SIZE_MAX) as [[u m] mixin].
  assert (Hv : (CURRENT_TRANSACTION_VERSION <? version (prefix tx)) || (version (prefix tx) <? MIN_TRANSACTION_VERSION) = false <->
    version (prefix tx) = 2).
  { rewrite orb_false_iff, !Z.ltb_ge. unfold CURRENT_TRANSACTION_VERSION, MIN_TRANSACTION_VERSION. lia. }
  split.
  - destruct (_ && _) eqn:E1; [done|]. destruct (_ <? mixin) eqn:E2; [done|]. destruct (_ || (_ <? MIN_TRANSACTION_VERSION)) eqn:E3; [done|].
    rewrite (proj1 Hv) by done.
    destruct (check_inputs_loop _ _ _ _ _ _ _) as [[[| |]|keys] pm] eqn:El; [done..|].
    apply (check_inputs_loop_spec _ _ _ _ _ Hok) in El as (rings & HF2 & -> & ->).
    destruct (expand_transaction_2 _ _ _) as [rv|] eqn:Ee; [|discriminate]. intros H. injection H as Hc Ht Hp. split; [done|]. split; [done|].
    split; [by apply (Hs (input_rings_nonempty _ _ _ _ HF2 Hb) Hl)|]. exists rings. split; [done|]. split; [|done].
    apply check_signature_spec; [by apply Hv|]. by exists rv.
  - intros (-> & Hver & Hsz & rings & HF2 & Hsig & ->). apply (Hs (input_rings_nonempty _ _ _ _ HF2 Hb) Hl) in Hsz as [-> ->].
    rewrite (proj2 Hv Hver), Hver.
    rewrite (proj2 (check_inputs_loop_spec _ _ _ _ _ Hok 0 _ _)) by (exists rings; done).
    apply check_signature_spec in Hsig as (rv & -> & ->); done.
Qed.

End Accepted.

(** [check_for_double_spend] accepts inputs with distinct key images that neither
    the block nor the chain has spent. *)
Lemma check_for_double_spend_spec db l : forall keys keys',
  check_for_double_spend db l keys = (true, keys') <->
  Forall (fun i => match i with In_to_key _ | In_gen _ => True | _ => False end) l /\
  NoDup (k_image <$> omap to_key l) /\ Forall (fun x => (k_image x ∉ keys) /\ (k_image x ∉ m_spent_keys (tbl db))) (omap to_key l) /\
  keys' = keys ∪ list_to_set (k_image <$> omap to_key l).
Proof.
  induction l as [|i l IH]; intros keys keys'; cbn [check_for_double_spend omap list_omap].
  { cbn. split; [|intros (_ & _ & _ & ->); f_equal; set_solver].
    intros [= ->]. repeat split; [constructor..|set_solver]. }
  destruct i as [g|sx|shx|x]; cbn [to_key].
  - rewrite IH, Forall_cons. tauto.
  - split; [done|]. intros [H _]. by inversion H.
  - split; [done|]. intros [H _]. by inversion H.
  - cbn [fmap list_fmap list_to_set]. rewrite !Forall_cons, NoDup_cons. unfold has_key_image.
    destruct (bool_decide (k_image x ∈ keys)) eqn:E1; cbn [orb].
    { apply bool_decide_eq_true in E1. split; [done|]. intros (_ & _ & [[? _] _] & _). done. }
    destruct (bool_decide (k_image x ∈ m_spent_keys (tbl db))) eqn:E2.
    { apply bool_decide_eq_true in E2. split; [done|]. intros (_ & _ & [[_ ?] _] & _). done. }
    apply bool_decide_eq_false in E1, E2. rewrite IH, !Forall_forall. split.
    + intros (Hk & Hn & Hf & ->). split; [done|]. split; [split; [|done]|split; [split; [done|]|]].
      * intros (y & Hy & Hin)%list_elem_of_fmap. apply Hf in Hin as [Hy' _]. set_solver.
      * intros y Hy. destruct (Hf y Hy). set_solver.
      * set_solver.
    + intros ([_ Hk] & [Hx Hn] & [_ Hf] & ->). split; [done|]. split; [done|]. split; [|set_solver].
      intros y Hy. destruct (Hf y Hy) as [? ?]. split; [|done]. intros [Hq%elem_of_singleton|?]%elem_of_union; [|done].
      apply Hx. rewrite <- Hq. apply list_elem_of_fmap. by exists y.
Qed.

(** ** A concrete transaction *)

(** Eight outputs of the third block and a transaction whose ring is the first
    seven of them. *)
Definition sample_outputs_db : BlockchainLMDB :=
  MkDb (MkTables ∅ ∅ ∅ ∅ ∅ ∅ ∅
          {[0 := list_to_map (map (fun n => (n, MkOutkey n (MkOutputData (repeat (Z.of_nat n) 32) 0 2 (repeat 5 32)))) (seq 0 8))]} ∅ ∅ ∅)
    20 0 8 ∅ HardFork.sample_fork false.
Definition sample_spend (offsets : list Z) : transaction :=
  MkTransaction
    (MkPrefix 2 0 [In_to_key (MkTxinToKey 0 offsets (repeat 9 32))] [MkTxOut 0 (To_key (repeat 1 32))] [1; 7]) []
    (MkRctSig RCTTypeSimple 5750000 [repeat 3 32] [MkEcdhTuple (repeat 4 32) (repeat 5 32)] [repeat 8 32] []
       [MkMgSig [] (repeat 5 32)]).
(** Signatures are valid when the commitments of the ring are the same. *)
Definition sample_rct : RctVerify :=
  {| verRct _ := false; verRctSimple rv := forallb (forallb (fun k => bool_decide (mask k = repeat 5 32))) (mixRing rv) |}.

Lemma check_tx_inputs_correct_witness :
  let tx := sample_spend [0; 1; 1; 1; 1; 1; 1] in
  @check_tx_inputs truncating_FastHash sample_rct sample_outputs_db ∅ 0 tx (fun _ => false) = (true, (fun _ => false), 2) /\
  ring_sizes sample_outputs_db tx /\
  exists rings, Forall2 (input_ring sample_outputs_db 0) (vin (prefix tx)) rings.
Proof.
  cbv zeta. assert (H : @check_tx_inputs truncating_FastHash sample_rct sample_outputs_db ∅ 0 (sample_spend [0; 1; 1; 1; 1; 1; 1])
    (fun _ => false) = (true, (fun _ => false), 2)) by (vm_compute; reflexivity).
  split; [exact H|].
  assert (E : exists h, @get_transaction_prefix_hash truncating_FastHash (prefix (sample_spend [0; 1; 1; 1; 1; 1; 1])) = Some h)
    by (eexists; vm_compute; reflexivity).
  destruct E as [h E].
  destruct (proj1 (@check_tx_inputs_correct truncating_FastHash sample_rct sample_outputs_db ∅ 0 _ (fun _ => false) (fun _ => false) 2 h E
    ltac:(by intros x _ outs Hx) ltac:(cbn; lia) ltac:(cbn; constructor; [cbn; lia|constructor])) H) as (_ & _ & Hs & rings & HF2 & _).
  split; [exact Hs|]. by exists rings.
Defined.

(** The bound on the ring size is on the smallest ring only. *)
Example large_ring_accepted :
  count_mixins sample_outputs_db
    [In_to_key (MkTxinToKey 0 (repeat 1 7) (repeat 9 32)); In_to_key (MkTxinToKey 0 (repeat 1 1000) (repeat 8 32))] 0 0 SIZE_MAX = (0, 2, 6).
Proof. by vm_compute. Qed.

End TxVerify.
