(* ===== verification/Blockchain.v ===== *)
(** * The chain

    Model of the class [Blockchain] of [src/cryptonote_core/blockchain.cpp]: how a
    block is verified and appended to the main chain with its transactions taken
    from the pool, how blocks are taken off again, how blocks of other branches
    are kept, and how the node switches to a branch with more work.

    The state is the database (with the hard fork object), the pool, the cache of
    difficulties, the limit of the block size, the blocks of other branches, the
    blocks known to be invalid, the checkpoints and the tables filled ahead of a
    batch of blocks.  An operation returns the state changed, and an exception or
    a result.  [time(NULL)] is an argument: the clock stands still during a call.
    The locks are left out, and so is [PER_BLOCK_CHECKPOINT], which the build
    switches off. *)
From Stdlib Require Import SpecFloat.
From stdpp Require Import gmap sorting.
From S2P Require Import Prelude Keccak Median Difficulty HardFork Basic TxExtra FormatUtils Reward Checkpoints TxPool Database ChainRules TxVerify.
Import Basic TxExtra FormatUtils Reward Database ChainRules.
#[local] Set Warnings "-clear-no-such-hyp".

Module Blockchain.

(** [cn_pow_hash_v2::hash] *)
Class PowHash := { cn_pow_hash : list Z -> hash }.

(** What ends an operation: an exception of the database or of [boost::get], an
    undefined read or a failed assertion, or a loop that does not end. *)
Inductive error := Exception (e : db_error) | Bad_get | Abort | Out_of_fuel.

Record block_verification_context := MkBvc {
  m_added_to_main_chain : bool;
  m_verifivation_failed : bool;
  m_marked_as_orphaned : bool;
  m_already_exists : bool;
  m_partial_block_reward : bool
}.
Definition new_bvc : block_verification_context := MkBvc false false false false false.
Definition set_added (x : bool) b :=
  MkBvc x (m_verifivation_failed b) (m_marked_as_orphaned b) (m_already_exists b) (m_partial_block_reward b).
Definition set_failed b :=
  MkBvc (m_added_to_main_chain b) true (m_marked_as_orphaned b) (m_already_exists b) (m_partial_block_reward b).
Definition set_orphaned b :=
  MkBvc (m_added_to_main_chain b) (m_verifivation_failed b) true (m_already_exists b) (m_partial_block_reward b).
Definition set_exists b :=
  MkBvc (m_added_to_main_chain b) (m_verifivation_failed b) (m_marked_as_orphaned b) true (m_partial_block_reward b).
Definition set_partial (x : bool) b :=
  MkBvc (m_added_to_main_chain b) (m_verifivation_failed b) (m_marked_as_orphaned b) (m_already_exists b) x.

(** ** The state *)

Definition blocks_ext_by_hash : Type := gmap hash block_extended_info.
Record Blockchain := MkChain {
  m_db : BlockchainLMDB;
  m_tx_pool : TxPool.tx_memory_pool;
  m_cache : difficulty_cache;
  m_current_block_cumul_sz_limit : Z;
  m_alternative_chains : blocks_ext_by_hash;
  m_invalid_blocks : blocks_ext_by_hash;
  m_checkpoints : Checkpoints.points;
  m_blocks_longhash_table : gmap hash hash;
  m_scan_table : TxVerify.scan_table
}.
Definition set_db x s := MkChain x (m_tx_pool s) (m_cache s) (m_current_block_cumul_sz_limit s) (m_alternative_chains s)
  (m_invalid_blocks s) (m_checkpoints s) (m_blocks_longhash_table s) (m_scan_table s).
Definition set_pool x s := MkChain (m_db s) x (m_cache s) (m_current_block_cumul_sz_limit s) (m_alternative_chains s)
  (m_invalid_blocks s) (m_checkpoints s) (m_blocks_longhash_table s) (m_scan_table s).
Definition set_cache x s := MkChain (m_db s) (m_tx_pool s) x (m_current_block_cumul_sz_limit s) (m_alternative_chains s)
  (m_invalid_blocks s) (m_checkpoints s) (m_blocks_longhash_table s) (m_scan_table s).
Definition set_limit x s := MkChain (m_db s) (m_tx_pool s) (m_cache s) x (m_alternative_chains s)
  (m_invalid_blocks s) (m_checkpoints s) (m_blocks_longhash_table s) (m_scan_table s).
Definition set_alternative x s := MkChain (m_db s) (m_tx_pool s) (m_cache s) (m_current_block_cumul_sz_limit s) x
  (m_invalid_blocks s) (m_checkpoints s) (m_blocks_longhash_table s) (m_scan_table s).
Definition set_invalid x s := MkChain (m_db s) (m_tx_pool s) (m_cache s) (m_current_block_cumul_sz_limit s) (m_alternative_chains s)
  x (m_checkpoints s) (m_blocks_longhash_table s) (m_scan_table s).

Definition B (A : Type) : Type := Blockchain -> Blockchain * (error + A).
Definition ret {A} (x : A) : B A := fun s => (s, inr x).
Definition raise {A} (e : error) : B A := fun s => (s, inl e).
#[export] Instance B_bind : MBind B := fun A C f m s =>
  match m s with
  | (s, inl e) => (s, inl e)
  | (s, inr x) => f x s
  end.
Definition state : B Blockchain := fun s => (s, inr s).
Definition update (f : Blockchain -> Blockchain) : B () := fun s => (f s, inr tt).
Definition need {A} (e : error) (o : option A) : B A := match o with Some x => ret x | None => raise e end.
(** A read of the database; one that finds nothing throws. *)
Definition reads {A} (f : BlockchainLMDB -> option A) : B A := fun s =>
  match f (m_db s) with Some x => (s, inr x) | None => (s, inl (Exception BLOCK_DNE)) end.
Definition lift {A} (m : M A) : B A := fun s =>
  let '(db, r) := m (m_db s) in
  (set_db db s, match r with inl e => inl (Exception e) | inr x => inr x end).
(** [try { m } catch (const std::exception&)] *)
Definition try {A} (m : M A) : B (db_error + A) := fun s => let '(db, r) := m (m_db s) in (set_db db s, inr r).
Fixpoint for_each {A} (f : A -> B ()) (l : list A) : B () :=
  match l with
  | [] => ret tt
  | x :: l => _ ← f x; for_each f l
  end.

Section Chain.
Context {HF : FastHash} {C : DbCrypto} {R : TxVerify.RctVerify} {P : PowHash}.
(** Whether assertions are compiled out; the clock; what uninitialised fields of
    the pool hold. *)
Variables (ndebug : bool) (now : Z) (junk : Z * hash).

Definition block_id (b : block) : hash := default null_hash (get_block_hash b).
Definition blobsize (tx : transaction) : Z := Z.of_nat (default 0%nat (get_transaction_blob_size tx)).
Definition get_block_longhash (b : block) : hash := cn_pow_hash (default [] (get_block_hashing_blob b)).

(** ** What the pool asks of the chain

    [get_block_id_by_height] returns the zero hash for a block that does not
    exist.  A fee that cannot be computed would throw: it is refused. *)
Definition chain_view (s : Blockchain) : TxPool.Blockchain :=
  TxPool.MkBlockchain
    (fun blob_size fee => default false (check_fee (m_db s) (m_current_block_cumul_sz_limit s) blob_size fee))
    TxVerify.check_tx_outputs
    (fun tx _ max_used_block_id _ tvc =>
       TxVerify.check_tx_inputs_for_pool (m_db s) (m_scan_table s) now tx max_used_block_id tvc)
    (tx_exists (m_db s))
    (TxVerify.have_tx_keyimges_as_spent (m_db s))
    (fun alias => Database.get_alias_address (m_db s) alias true)
    (height64 (m_db s))
    (fun h => default null_hash (get_block_hash_from_height (m_db s) (Z.to_nat h))).

(** [m_tx_pool.add_tx(tx, tvc, true, true, version)] *)
Definition return_tx (tx : transaction) : B () :=
  s ← state;
  let '(_, p, _) := TxPool.add_tx_by_hash (chain_view s) now junk tx (fun _ => false) true true (m_tx_pool s) in
  update (set_pool p).
Definition return_tx_to_pool (txs : list transaction) : B () := for_each return_tx txs.

Definition flush_tx (s : bool * Blockchain) (txid : hash) : bool * Blockchain :=
  let '(res, s) := s in
  if TxPool.have_tx (m_tx_pool s) txid then
    match TxPool.take_tx txid (m_tx_pool s) with
    | Some (_, _, _, _, p) => (res, set_pool p s)
    | None => (false, s)
    end
  else (res, s).
Definition flush_txes_from_pool (txids : list hash) (s : Blockchain) : bool * Blockchain := foldl flush_tx (true, s) txids.

(** ** Small operations *)

Definition get_difficulty_for_next : B Z :=
  s ← state;
  '(d, c) ← need Abort (get_difficulty_for_next_block ndebug (m_db s) (m_cache s));
  _ ← update (set_cache c);
  ret d.
(** [m_timestamps_and_difficulties_height = 0] *)
Definition forget_difficulties : B () :=
  update (fun s => set_cache (MkCache (m_timestamps (m_cache s)) (m_difficulties (m_cache s)) 0) s).
Definition update_limit : B () :=
  limit ← reads update_next_cumulative_size_limit;
  update (set_limit limit).

(** [insert] keeps an entry that is there; the result says so and is ignored. *)
Definition add_block_as_invalid (bei : block_extended_info) (h : hash) : B () :=
  update (fun s => match m_invalid_blocks s !! h with
                   | Some _ => s
                   | None => set_invalid (<[h := bei]> (m_invalid_blocks s)) s
                   end).
Definition have_block (s : Blockchain) (id : hash) : bool :=
  block_exists (m_db s) id || bool_decide (is_Some (m_alternative_chains s !! id)) || bool_decide (is_Some (m_invalid_blocks s !! id)).

(** [HardFork::reorganize_from_chain_height], which writes in a batch. *)
Definition reorganize_from_chain_height (height : nat) : M bool :=
  match height with
  | O => returns false
  | S h =>
      db ← get;
      if (m_height db <=? h)%nat then returns false
      else
        _ ← batch_start;
        blocks ← require BLOCK_DNE (mapM (get_block_from_height db) (seq 0 (m_height db)));
        '(_, hf, hdb) ← require DB_ERROR
          (HardFork.reorganize_from_block_height h (m_hardfork db) (HardFork.MkDb (hf_header <$> blocks) (m_hf_versions (tbl db))));
        _ ← modify (set_hardfork hf);
        _ ← modify_tables (set_hf_versions (HardFork.hf_versions hdb));
        _ ← batch_stop;
        returns true
  end.

(** ** Appending a block *)

(** The loop over the transactions of a block; [None] is a failed verification,
    after the transactions that were taken have been returned.  The results are
    the transactions, the sum of their fees and the size of the block. *)
Fixpoint take_block_txs (bl : block) (id : hash) (tx_ids : list hash) (txs : list transaction) (fee_summary cumulative_block_size : Z)
  : B (option (list transaction * Z * Z)) :=
  match tx_ids with
  | [] => ret (Some (txs, fee_summary, cumulative_block_size))
  | tx_id :: tx_ids =>
      s ← state;
      if tx_exists (m_db s) tx_id then
        _ ← return_tx_to_pool txs; ret None
      else
        match TxPool.take_tx tx_id (m_tx_pool s) with
        | None => _ ← return_tx_to_pool txs; ret None
        | Some (tx, blob_size, fee, _, p) =>
            _ ← update (set_pool p);
            let txs := txs ++ [tx] in
            let alias := tx_alias (extra (prefix tx)) in
            if negb (TxVerify.check_tx_inputs (m_db s) (m_scan_table s) now tx (fun _ => false)).1.1 then
              _ ← add_block_as_invalid (MkExtended bl 0 0 0 0) id;
              _ ← return_tx_to_pool txs;
              ret None
            else if negb (bool_decide (alias = [])) && negb (bool_decide (Database.get_alias_address (m_db s) alias true = [])) then
              _ ← add_block_as_invalid (MkExtended bl 0 0 0 0) id;
              _ ← return_tx_to_pool txs;
              ret None
            else take_block_txs bl id tx_ids txs (fee_summary +w fee) (cumulative_block_size +w blob_size)
        end
  end.

(** The values that are stored with the block of a height. *)
Definition stored_before (f : BlockchainLMDB -> nat -> option Z) : B Z :=
  reads (fun db => if (m_height db =? 0)%nat then Some 0 else f db (m_height db - 1)%nat).

(** [m_db->add_block] and what follows. *)
Definition store_block (bl : block) (txs : list transaction) (block_size cumulative_difficulty already_generated_coins : Z)
    (bvc : block_verification_context) : B (bool * block_verification_context) :=
  r ← (if m_verifivation_failed bvc then ret (inr 0%nat)
       else try (add_block bl block_size cumulative_difficulty already_generated_coins txs));
  match r with
  | inl KEY_IMAGE_EXISTS => _ ← return_tx_to_pool txs; ret (false, set_failed bvc)
  | inl _ => _ ← return_tx_to_pool txs; ret (false, bvc)
  | inr _ => _ ← update_limit; ret (true, set_added true bvc)
  end.

(** Everything after the difficulty is known. *)
Definition append_block (bl : block) (id : hash) (current_diffic : Z) (bvc : block_verification_context)
  : B (bool * block_verification_context) :=
  s ← state;
  let height := height64 (m_db s) in
  let proof_of_work := match m_blocks_longhash_table s !! id with Some h => h | None => get_block_longhash bl end in
  if negb (Difficulty.check_hash proof_of_work current_diffic) then ret (false, set_failed bvc)
  else if Checkpoints.is_in_checkpoint_zone (m_checkpoints s) height && negb (Checkpoints.check_block (m_checkpoints s) height id).1
  then ret (false, set_failed bvc)
  else if negb (prevalidate_miner_transaction bl height) then ret (false, set_failed bvc)
  else
    r ← take_block_txs bl id (tx_hashes bl) [] 0 (blobsize (miner_tx bl));
    match r with
    | None => ret (false, set_failed bvc)
    | Some (txs, fee_summary, cumulative_block_size) =>
        coins ← reads cal_generated_coins;
        sizes ← reads (fun db => get_last_n_blocks_sizes db (Z.to_nat CRYPTONOTE_REWARD_BLOCKS_WINDOW));
        match validate_miner_transaction sizes height bl cumulative_block_size fee_summary coins with
        | None => _ ← return_tx_to_pool txs; ret (false, set_failed (set_partial false bvc))
        | Some (base_reward, partial_block_reward) =>
            already_generated_coins ← stored_before get_block_already_generated_coins;
            cumulative_difficulty ← stored_before get_block_cumulative_difficulty;
            store_block bl txs cumulative_block_size (current_diffic +w cumulative_difficulty)
              (next_generated_coins already_generated_coins base_reward) (set_partial partial_block_reward bvc)
        end
    end.

Definition handle_block_to_main_chain (bl : block) (id : hash) (bvc : block_verification_context)
  : B (bool * block_verification_context) :=
  tail ← reads top_block_hash;
  if negb (bool_decide (prev_id (Basic.header bl) = tail)) then ret (false, bvc)
  else
    s ← state;
    ok ← need Abort (HardFork.check (m_hardfork (m_db s)) (hf_header bl));
    if negb ok then ret (false, set_failed bvc)
    else
      '(ok, _) ← reads (fun db => check_block_timestamp db now bl);
      if negb ok then ret (false, set_failed bvc)
      else
        current_diffic ← get_difficulty_for_next;
        if current_diffic =? 0 then ret (false, bvc) else append_block bl id current_diffic bvc.

(** ** Taking blocks off *)

Definition pop_block_from_blockchain : B block :=
  _ ← forget_difficulties;
  '(popped_block, popped_txs) ← lift pop_block;
  _ ← for_each (fun tx => if is_coinbase tx then ret tt else return_tx tx) popped_txs;
  _ ← update_limit;
  _ ← reads top_block_hash;
  ret popped_block.

(** [while (m_db->height() != rollback_height)] *)
Fixpoint pop_to_height (fuel : nat) (rollback_height : Z) : B () :=
  s ← state;
  if height64 (m_db s) =? rollback_height then ret tt
  else
    match fuel with
    | O => raise Out_of_fuel
    | S fuel => _ ← pop_block_from_blockchain; pop_to_height fuel rollback_height
    end.

(** The loop that returns the original chain; [false] is the panic. *)
Fixpoint return_chain (original_chain : list block) : B bool :=
  match original_chain with
  | [] => ret true
  | bl :: original_chain =>
      '(r, bvc) ← handle_block_to_main_chain bl (block_id bl) new_bvc;
      if r && m_added_to_main_chain bvc then return_chain original_chain else ret false
  end.

Definition rollback_blockchain_switching (original_chain : list block) (rollback_height : Z) : B bool :=
  s ← state;
  if height64 (m_db s) <? rollback_height then ret true
  else
    _ ← forget_difficulties;
    _ ← pop_to_height (S (m_height (m_db s))) rollback_height;
    _ ← lift (reorganize_from_chain_height (Z.to_nat rollback_height));
    r ← return_chain original_chain;
    if negb r then ret false
    else
      _ ← lift (reorganize_from_chain_height (Z.to_nat rollback_height));
      ret true.

(** ** Other branches *)

(** [while (m_db->top_block_hash() != prev_id)]: the blocks that were popped, lowest
    first. *)
Fixpoint pop_to_block (fuel : nat) (prev : hash) (disconnected_chain : list block) : B (list block) :=
  top ← reads top_block_hash;
  if bool_decide (top = prev) then ret disconnected_chain
  else
    match fuel with
    | O => raise Out_of_fuel
    | S fuel => b ← pop_block_from_blockchain; pop_to_block fuel prev (b :: disconnected_chain)
    end.

(** The loop that connects the alternative chain; the blocks from the one that
    failed on. *)
Fixpoint connect (alt_chain : list (hash * block_extended_info)) : B (list (hash * block_extended_info)) :=
  match alt_chain with
  | [] => ret []
  | ch_ent :: rest =>
      '(r, bvc) ← handle_block_to_main_chain (bl ch_ent.2) (block_id (bl ch_ent.2)) new_bvc;
      if r && m_added_to_main_chain bvc then connect rest else ret alt_chain
  end.
Definition erase_alternative (h : hash) : B () := update (fun s => set_alternative (delete h (m_alternative_chains s)) s).

(** [handle_alternative] is [handle_alternative_block]. *)
Definition switch_to_alternative_blockchain
    (handle_alternative : block -> hash -> block_verification_context -> B (bool * block_verification_context))
    (alt_chain : list (hash * block_extended_info)) (discard_disconnected_chain : bool) : B bool :=
  _ ← forget_difficulties;
  match alt_chain with
  | [] => ret false
  | (_, front) :: _ =>
      s ← state;
      if negb (block_exists (m_db s) (prev_id (Basic.header (bl front)))) then ret false
      else
        disconnected_chain ← pop_to_block (S (m_height (m_db s))) (prev_id (Basic.header (bl front))) [];
        s ← state;
        let split_height := m_height (m_db s) in
        left ← connect alt_chain;
        match left with
        | (h, failed) :: rest =>
            _ ← rollback_blockchain_switching disconnected_chain (Z.of_nat split_height);
            _ ← add_block_as_invalid failed (block_id (bl failed));
            _ ← erase_alternative h;
            _ ← for_each (fun e => _ ← add_block_as_invalid e.2 e.1; erase_alternative e.1) rest;
            ret false
        | [] =>
            _ ← (if discard_disconnected_chain then ret tt
                 else for_each (fun b => _ ← handle_alternative b (block_id b) new_bvc; ret tt) disconnected_chain);
            _ ← for_each (fun e => erase_alternative e.1) alt_chain;
            _ ← lift (reorganize_from_chain_height split_height);
            ret true
        end
  end.

(** The blocks of other branches from one that builds on the main chain up to [h]. *)
Fixpoint alternative_chain (fuel : nat) (alts : blocks_ext_by_hash) (h : hash) : option (list (hash * block_extended_info)) :=
  match alts !! h with
  | None => Some []
  | Some e =>
      match fuel with
      | O => None
      | S fuel => l ← alternative_chain fuel alts (prev_id (Basic.header (bl e))); Some (l ++ [(h, e)])
      end
  end.

(** The checks of the connection to the main chain, and the timestamps before the
    block; [None] is [return false]. *)
Definition connection_timestamps (b : block) (alt_chain : list (hash * block_extended_info)) : B (option (list Z)) :=
  let timestamps := map (fun e => timestamp (Basic.header (bl e.2))) (rev alt_chain) in
  s ← state;
  match alt_chain with
  | (_, front) :: _ =>
      let prev := prev_id (Basic.header (bl front)) in
      if negb (bei_height front <? m_height (m_db s))%nat then ret None
      else if negb (block_exists (m_db s) prev) then ret None
      else
        h ← reads (fun db => match bei_height front with O => None | S h => get_block_hash_from_height db h end);
        if negb (bool_decide (h = prev)) then ret None
        else
          start ← reads (fun db => Database.get_block_height db prev);
          '(_, ts) ← reads (fun db => complete_timestamps_vector db start timestamps);
          ret (Some ts)
  | [] =>
      let prev := prev_id (Basic.header b) in
      if negb (block_exists (m_db s) prev) then ret None
      else
        start ← reads (fun db => Database.get_block_height db prev);
        '(_, ts) ← reads (fun db => complete_timestamps_vector db start timestamps);
        ret (Some ts)
  end.

(** The height after the parent of a block, and the cumulative difficulty of the parent. *)
Definition parent_info (b : block) (alt_chain : list (hash * block_extended_info)) : B (nat * Z) :=
  match last alt_chain with
  | Some (_, e) => ret (S (bei_height e), cumulative_difficulty e)
  | None =>
      h ← reads (fun db => Database.get_block_height db (prev_id (Basic.header b)));
      d ← reads (fun db => get_block_cumulative_difficulty db h);
      ret (S h, d)
  end.

(** [alt_chain] is the branch the block builds on. *)
Definition add_alternative_block
    (switch : list (hash * block_extended_info) -> bool -> B bool)
    (b : block) (id : hash) (bvc : block_verification_context) (alt_chain : list (hash * block_extended_info))
  : B (bool * block_verification_context) :=
  ts ← connection_timestamps b alt_chain;
  match ts with
  | None => ret (false, bvc)
  | Some timestamps =>
      if negb (check_timestamps timestamps b).1 then ret (false, set_failed bvc)
      else
        s ← state;
        '(height, parent_difficulty) ← parent_info b alt_chain;
        let '(ok, is_a_checkpoint) := Checkpoints.check_block (m_checkpoints s) (Z.of_nat height) id in
        if negb ok then ret (false, set_failed bvc)
        else
          current_diff ← need Abort (get_next_difficulty_for_alternative_chain ndebug (m_db s) alt_chain.*2 height);
          if current_diff =? 0 then ret (false, bvc)
          else if negb (Difficulty.check_hash (get_block_longhash b) current_diff) then ret (false, set_failed bvc)
          else if negb (prevalidate_miner_transaction b (Z.of_nat height)) then ret (false, set_failed bvc)
          else
            main_chain_cumulative_difficulty ← reads (fun db => get_block_cumulative_difficulty db (m_height db - 1));
            let bei := MkExtended b height 0 (parent_difficulty +w current_diff) 0 in
            if bool_decide (is_Some (m_alternative_chains s !! id)) then ret (false, bvc)
            else
              _ ← update (fun s => set_alternative (<[id := bei]> (m_alternative_chains s)) s);
              let alt_chain := alt_chain ++ [(id, bei)] in
              if is_a_checkpoint || (main_chain_cumulative_difficulty <? cumulative_difficulty bei) then
                r ← switch alt_chain is_a_checkpoint;
                ret (r : bool, if r : bool then set_added true bvc else set_failed bvc)
              else ret (true, bvc)
  end.

Fixpoint handle_alternative_block (fuel : nat) (b : block) (id : hash) (bvc : block_verification_context)
  : B (bool * block_verification_context) :=
  match fuel with
  | O => raise Out_of_fuel
  | S fuel =>
      _ ← forget_difficulties;
      let block_height := FormatUtils.get_block_height b in
      if block_height =? 0 then ret (false, set_failed bvc)
      else
        s ← state;
        if negb (Checkpoints.is_alternative_block_allowed (m_checkpoints s) (height64 (m_db s)) block_height)
        then ret (false, set_failed bvc)
        else
          let prev := prev_id (Basic.header b) in
          if bool_decide (is_Some (m_alternative_chains s !! prev)) || block_exists (m_db s) prev then
            alt_chain ← need Out_of_fuel (alternative_chain (size (m_alternative_chains s)) (m_alternative_chains s) prev);
            add_alternative_block (switch_to_alternative_blockchain (handle_alternative_block fuel)) b id bvc alt_chain
          else ret (true, set_orphaned bvc)
  end.

(** ** The operations of the node *)

(** A reorganisation pushes the old blocks to the other branches, which can at most
    switch again because of a checkpoint, without pushing blocks. *)
Definition SWITCH_FUEL : nat := 3.

Definition add_new_block (bl : block) (bvc : block_verification_context) : B (bool * block_verification_context) :=
  let id := block_id bl in
  s ← state;
  if have_block s id then ret (false, set_exists bvc)
  else
    tail ← reads top_block_hash;
    if negb (bool_decide (prev_id (Basic.header bl) = tail))
    then handle_alternative_block SWITCH_FUEL bl id (set_added false bvc)
    else handle_block_to_main_chain bl id bvc.

(** A checkpoint below height 2 makes the height to roll back to wrap around. *)
Definition check_point (points : Checkpoints.points) (enforce : bool) (pt : Z * hash) : B () :=
  s ← state;
  if height64 (m_db s) <=? pt.1 then ret tt
  else
    h ← reads (fun db => get_block_hash_from_height db (Z.to_nat pt.1));
    if (Checkpoints.check_block points pt.1 h).1 then ret tt
    else if enforce then _ ← rollback_blockchain_switching [] (pt.1 -w 2); ret tt
    else ret tt.
Definition check_against_checkpoints (points : Checkpoints.points) (enforce : bool) : B () :=
  _ ← lift batch_start;
  _ ← for_each (check_point points enforce) points;
  lift batch_stop.

End Chain.

End Blockchain.
