(* ===== verification/ChainInvariant.v ===== *)
(** * The chain stays valid

    The invariant of the chain of [Blockchain] and the proofs that every operation
    keeps it: the database holds a chain of blocks each of which satisfies the
    consensus rules relative to the blocks before it, whatever blocks are offered,
    in whatever order, with reorganisations, failed ones included.

    Operations are specified by their weakest preconditions: [wp m Q E s] says that
    [m], run in the state [s], returns a result and a state that satisfy [Q], or
    ends with an error and a state that satisfy [E]. *)
From Stdlib Require Import SpecFloat.
From stdpp Require Import gmap sorting.
From S2P Require Import Prelude Keccak Median Difficulty HardFork Serialization Basic TxExtra FormatUtils Reward Checkpoints TxPool Database ChainRules TxVerify Blockchain.
Import Serialization Basic TxExtra FormatUtils Reward Database ChainRules Blockchain.
#[local] Set Warnings "-clear-no-such-hyp".

Module ChainInvariant.

(** ** Weakest preconditions *)

Definition wp {A} (m : B A) (Q : A -> Blockchain -> Prop) (E : error -> Blockchain -> Prop) (s : Blockchain) : Prop :=
  match m s with
  | (s, inl e) => E e s
  | (s, inr x) => Q x s
  end.

Lemma wp_ret {A} (x : A) Q E s : Q x s -> wp (ret x) Q E s.
Proof. done. Qed.
Lemma wp_raise {A} e (Q : A -> Blockchain -> Prop) (E : error -> Blockchain -> Prop) s : E e s -> wp (raise e) Q E s.
Proof. done. Qed.
Lemma wp_bind {A C} (m : B A) (f : A -> B C) Q E s : wp m (fun x s' => wp (f x) Q E s') E s -> wp (m ≫= f) Q E s.
Proof. unfold wp, mbind, B_bind. destruct (m s) as [s' [e|x]]; done. Qed.
Lemma wp_state Q E s : Q s s -> wp state Q E s.
Proof. done. Qed.
Lemma wp_update f Q E s : Q tt (f s) -> wp (update f) Q E s.
Proof. done. Qed.
Lemma wp_need {A} e (o : option A) (Q : A -> Blockchain -> Prop) (E : error -> Blockchain -> Prop) s :
  (forall x, o = Some x -> Q x s) -> (o = None -> E e s) -> wp (need e o) Q E s.
Proof. destruct o; unfold wp; cbn; auto. Qed.
Lemma wp_reads {A} (f : BlockchainLMDB -> option A) x Q E s : f (m_db s) = Some x -> Q x s -> wp (reads f) Q E s.
Proof. unfold wp, reads. by intros ->. Qed.
Lemma wp_mono {A} (m : B A) (Q Q' : A -> Blockchain -> Prop) (E E' : error -> Blockchain -> Prop) s :
  wp m Q E s -> (forall x s', Q x s' -> Q' x s') -> (forall e s', E e s' -> E' e s') -> wp m Q' E' s.
Proof. unfold wp. destruct (m s) as [s' [e|x]]; auto. Qed.
Lemma wp_run {A} (m : B A) Q E s s' x : m s = (s', inr x) -> Q x s' -> wp m Q E s.
Proof. unfold wp. by intros ->. Qed.

(** A loop: an invariant indexed by the elements that are left. *)
Lemma wp_for_each {A} (f : A -> B ()) (I : list A -> Blockchain -> Prop) E l s :
  (forall x l' s, I (x :: l') s -> wp (f x) (fun _ s' => I l' s') E s) -> I l s -> wp (for_each f l) (fun _ s' => I [] s') E s.
Proof.
  intros Hf. revert s. induction l as [|x l IH]; intros s HI; [done|]. cbn [for_each]. apply wp_bind.
  eapply wp_mono; [by apply Hf|intros [] s'; apply IH|done].
Qed.

(** ** Blocks that satisfy the rules *)

Section Rules.
Context {HF : FastHash} {C : DbCrypto} {R : TxVerify.RctVerify} {P : PowHash}.
Variables (ndebug : bool).

(** A proof of work of a block with this hash. *)
Definition pow_of_id (id h : hash) : Prop := exists b, block_id b = id /\ get_block_longhash b = h.

Definition tail_hash (l : list entry) : hash := default null_hash (e_hash <$> last l).
Definition total_work (l : list entry) : Z := default 0 (e_difficulty <$> last l).
(** The coins that are stored with a block: none with the first. *)
Definition coins_at (l : list entry) (i : nat) : Z := default 0 (bi_coins <$> (e_info i <$> l !! i)).
Definition total_coins (l : list entry) : Z := if (length l =? 0)%nat then 0 else coins_at l (length l - 1).
Definition interval_coins (l : list entry) : Z :=
  let h := Z.of_nat (length l) in
  let c := h - h mod COIN_EMISSION_HEIGHT_INTERVAL in
  if c =? 0 then 0 else coins_at l (Z.to_nat (c - 1)).
Definition recent_sizes (l : list entry) : list Z := e_size <$> drop (length l - Z.to_nat CRYPTONOTE_REWARD_BLOCKS_WINDOW) l.
Definition sum_fees (txs : list transaction) : Z := foldl (fun a tx => a +w txnFee (rct_signatures tx)) 0 txs.
(** The size of a blob that parses to the transaction.  The parser accepts integers
    with leading zeros, and the pool keeps the size of the blob that arrived. *)
Definition encoded_size (tx : transaction) (n : Z) : Prop :=
  exists blob, bytes blob /\ parse_binary read_transaction blob = Some tx /\ Z.of_nat (length blob) = n.
Definition sum_sizes (b : block) (sizes : list Z) : Z := foldl (fun a n => a +w n) (blobsize (miner_tx b)) sizes.

(** What a block has to satisfy on top of the chain [l]. *)
Record valid_block (l : list entry) (e : entry) : Prop := {
  vb_parent : prev_id (Basic.header (e_block e)) = tail_hash l;
  vb_work : exists d pow, difficulty_after ndebug (e_work <$> l) = Some d /\ d <> 0 /\ pow_of_id (e_hash e) pow /\
    Difficulty.check_hash pow d = true /\ e_difficulty e = d +w total_work l;
  vb_time : (BLOCKCHAIN_TIMESTAMP_CHECK_WINDOW <= length l)%nat ->
    median (e_timestamp <$> drop (length l - BLOCKCHAIN_TIMESTAMP_CHECK_WINDOW) l) <= e_timestamp e;
  vb_miner : prevalidate_miner_transaction (e_block e) (Z.of_nat (length l)) = true;
  vb_hashes : tx_hashes (e_block e) = TxPool.tx_hash <$> e_txs e;
  vb_inputs : exists now table db, built l db /\
    Forall (fun tx => (TxVerify.check_tx_inputs db table now tx (fun _ => false)).1.1 = true) (e_txs e);
  vb_size : exists sizes, Forall2 encoded_size (e_txs e) sizes /\ e_size e = sum_sizes (e_block e) sizes;
  vb_reward : exists base partial,
    validate_miner_transaction (recent_sizes l) (Z.of_nat (length l)) (e_block e) (e_size e) (sum_fees (e_txs e)) (interval_coins l) =
      Some (base, partial) /\ e_coins e = next_generated_coins (total_coins l) base
}.
Definition valid_chain (l : list entry) : Prop := forall i e, l !! i = Some e -> valid_block (take i l) e.

Lemma valid_chain_snoc l e : valid_chain l -> valid_block l e -> valid_chain (l ++ [e]).
Proof.
  intros Hl He i e' Hi. rewrite lookup_snoc_decide in Hi. destruct (decide (i = length l)) as [->|Hne].
  - injection Hi as <-. by rewrite take_app_length.
  - pose proof (lookup_lt_Some _ _ _ Hi). rewrite take_app_le by lia. by apply Hl.
Qed.
Lemma valid_chain_app l l' : valid_chain (l ++ l') -> valid_chain l.
Proof.
  intros H i e Hi. pose proof (lookup_lt_Some _ _ _ Hi). specialize (H i e (lookup_app_l_Some _ _ _ _ Hi)). by rewrite take_app_le in H by lia.
Qed.

(** ** The invariant *)

(** What the callers hand in: blocks that the parser returns, whose miner
    transactions register no alias, or one that is signed. *)
Definition block_ok (b : block) : Prop := wf_block b /\ alias_ok (miner_tx b).
Definition alternative_ok (e : block_extended_info) : Prop := block_ok (bl e) /\ (0 < bei_height e)%nat.
Definition pool_good (p : TxPool.tx_memory_pool) : Prop :=
  TxPool.pool_ok p /\
  forall id d, TxPool.m_transactions p !! id = Some d ->
    storable (TxPool.td_tx d) /\ TxPool.fee d = txnFee (rct_signatures (TxPool.td_tx d)) /\ encoded_size (TxPool.td_tx d) (TxPool.blob_size d).
(** The hard forks know a version for every height of the chain. *)
Definition forks_ok (l : list entry) (db : BlockchainLMDB) : Prop :=
  HardFork.Inv (m_hardfork db) /\ forall i, (i < length l)%nat -> is_Some (m_hf_versions (tbl db) !! i).

Record Inv (l : list entry) (s : Blockchain) : Prop := {
  ci_built : built l (m_db s);
  ci_cached : cached (m_db s);
  ci_valid : valid_chain l;
  ci_cache : cache_ok l (m_cache s);
  ci_pool : pool_good (m_tx_pool s);
  ci_alternative : forall id e, m_alternative_chains s !! id = Some e -> alternative_ok e;
  ci_forks : forks_ok l (m_db s);
  ci_pow : forall id h, m_blocks_longhash_table s !! id = Some h -> pow_of_id id h
}.

(** ** The pool *)

Lemma blobsize_encoded tx : wf_transaction tx -> encoded_size tx (blobsize tx).
Proof.
  intros H. destruct (rt_transaction tx H) as (bs & E & Hb & _ & Hr). exists bs. split; [done|]. unfold parse_binary. specialize (Hr []). rewrite app_nil_r in Hr.
  rewrite Hr. split; [done|]. unfold blobsize, get_transaction_blob_size, dump_binary. by rewrite E.
Qed.
Lemma add_tx_good bc now junk tx bsize tvc kept rel p : pool_good p -> storable tx -> encoded_size tx bsize -> NoDup (TxPool.tx_images tx) ->
  pool_good (TxPool.add_tx bc now junk tx (TxPool.tx_hash tx) bsize tvc kept rel p).1.2.
Proof.
  intros [Hok Hg] Hst Hsz Hnd. pose proof (TxPool.add_tx_spec bc now junk tx _ bsize tvc kept rel p Hok eq_refl Hnd) as H.
  destruct (TxPool.add_tx _ _ _ _ _ _ _ _ _ _) as [[[|] p'] tvc']; cbn [TxPool.add_outcome fst snd] in *; [|by destruct H as [-> _]].
  destruct H as (_ & Hp & _ & _ & d & Ed & Ht & Hs & Hf & _). split; [done|]. intros id d'. rewrite Ed, lookup_insert_Some.
  intros [[_ <-]|[_ Hd']]; [|by eapply Hg]. by rewrite Ht, Hs, Hf.
Qed.
Lemma return_tx_run now junk tx s : pool_good (m_tx_pool s) -> storable tx -> NoDup (TxPool.tx_images tx) ->
  exists p, return_tx now junk tx s = (set_pool p s, inr tt) /\ pool_good p.
Proof.
  intros Hg Hst Hnd. unfold return_tx, mbind, B_bind, state, update. unfold TxPool.add_tx_by_hash.
  destruct (transaction_hash_is_hash tx (st_wf _ Hst)) as (h & Eh & _). rewrite Eh. fold (blobsize tx).
  assert (Hid : TxPool.tx_hash tx = h) by (unfold TxPool.tx_hash; by rewrite Eh). rewrite <- Hid.
  pose proof (add_tx_good (chain_view now s) now junk tx (blobsize tx) (fun _ => false) true true (m_tx_pool s) Hg Hst
    (blobsize_encoded tx (st_wf _ Hst)) Hnd) as H.
  destruct (TxPool.add_tx _ _ _ _ _ _ _ _ _ _) as [[r p] tvc]. by exists p.
Qed.
Definition returnable (tx : transaction) : Prop := storable tx /\ NoDup (TxPool.tx_images tx).
Lemma return_txs_run now junk txs : forall s, pool_good (m_tx_pool s) -> Forall returnable txs ->
  exists p, return_tx_to_pool now junk txs s = (set_pool p s, inr tt) /\ pool_good p.
Proof.
  unfold return_tx_to_pool. induction txs as [|tx txs IH]; intros s Hp Hf; cbn [for_each].
  { exists (m_tx_pool s). split; [|done]. by destruct s. }
  apply Forall_cons in Hf as [[Hst Hnd] Hf]. destruct (return_tx_run now junk tx s Hp Hst Hnd) as (p & E & Hp').
  unfold mbind, B_bind. rewrite E. destruct (IH (set_pool p s) Hp' Hf) as (p' & E' & Hp''). exists p'. by rewrite E'.
Qed.

Lemma take_tx_good id p tx bsize fee rel p' : pool_good p -> TxPool.take_tx id p = Some (tx, bsize, fee, rel, p') ->
  pool_good p' /\ returnable tx /\ TxPool.tx_hash tx = id /\ encoded_size tx bsize /\ fee = txnFee (rct_signatures tx).
Proof.
  intros [Hok Hg] E. pose proof (TxPool.take_tx_spec id p Hok) as H. destruct (TxPool.m_transactions p !! id) as [d|] eqn:Ed; [|congruence].
  destruct H as (p1 & E1 & Hok1 & Em & _). rewrite E in E1. injection E1 as -> -> -> _ ->. destruct (Hg _ _ Ed) as (Hst & Hf & Hs).
  destruct (TxPool.ok_hash p Hok _ _ Ed) as (Hid & _ & Hnd). split_and!; try done. split; [done|].
  intros id' d'. rewrite Em, lookup_delete_Some. intros [_ Hd']. by eapply Hg.
Qed.

(** ** Reading the stored chain *)

Lemma Inv_rep l s : Inv l s -> represents_blocks l (m_db s).
Proof. intros H. apply (built_represents _ _ (ci_built _ _ H)). Qed.

Section Reads.
Variables (l : list entry) (db : BlockchainLMDB).
Hypothesis Hrep : represents_blocks l db.

Lemma read_tail : top_block_hash db = Some (tail_hash l).
Proof.
  unfold top_block_hash, tail_hash. rewrite (rp_height _ _ Hrep). destruct (Nat.eqb_spec (length l) 0) as [E|E].
  - apply nil_length_inv in E as ->. done.
  - rewrite (stored_hash_at l db Hrep), last_lookup. replace (Init.Nat.pred (length l)) with (length l - 1)%nat by lia.
    destruct (lookup_lt_is_Some_2 l (length l - 1)) as [e ->]; [lia|]. done.
Qed.
Lemma read_coins i : (i < length l)%nat -> get_block_already_generated_coins db i = Some (coins_at l i).
Proof.
  intros Hi. unfold get_block_already_generated_coins, coins_at. rewrite (rp_info _ _ Hrep).
  destruct (lookup_lt_is_Some_2 l i Hi) as [e ->]. done.
Qed.
Lemma read_interval_coins : cal_generated_coins db = Some (interval_coins l).
Proof.
  unfold cal_generated_coins, interval_coins, height64. rewrite (rp_height _ _ Hrep).
  set (c := Z.of_nat (length l) - Z.of_nat (length l) mod COIN_EMISSION_HEIGHT_INTERVAL). cbv zeta.
  destruct (Z.eqb_spec c 0) as [E|E]; [done|]. apply read_coins.
  assert (0 < COIN_EMISSION_HEIGHT_INTERVAL) by done.
  pose proof (Z.mod_pos_bound (Z.of_nat (length l)) COIN_EMISSION_HEIGHT_INTERVAL).
  pose proof (Z.mod_le (Z.of_nat (length l)) COIN_EMISSION_HEIGHT_INTERVAL). lia.
Qed.
Lemma read_sizes : get_last_n_blocks_sizes db (Z.to_nat CRYPTONOTE_REWARD_BLOCKS_WINDOW) = Some (recent_sizes l).
Proof.
  unfold get_last_n_blocks_sizes, recent_sizes. rewrite (rp_height _ _ Hrep). set (w := Z.to_nat CRYPTONOTE_REWARD_BLOCKS_WINDOW).
  rewrite (mapM_seq l e_size _ _ _ (stored_size l db Hrep)) by lia.
  replace (length l - length l `min` w)%nat with (length l - w)%nat by lia. rewrite take_ge; [done|]. rewrite length_drop. lia.
Qed.
Lemma read_total_coins : (if (m_height db =? 0)%nat then Some 0 else get_block_already_generated_coins db (m_height db - 1)) = Some (total_coins l).
Proof.
  rewrite (rp_height _ _ Hrep). unfold total_coins. destruct (Nat.eqb_spec (length l) 0) as [E|E]; [done|]. apply read_coins. lia.
Qed.
Lemma read_total_work : (if (m_height db =? 0)%nat then Some 0 else get_block_cumulative_difficulty db (m_height db - 1)) = Some (total_work l).
Proof.
  rewrite (rp_height _ _ Hrep). unfold total_work. rewrite last_lookup. destruct (Nat.eqb_spec (length l) 0) as [E|E].
  - by apply nil_length_inv in E as ->.
  - rewrite (stored_difficulty l db Hrep). replace (Init.Nat.pred (length l)) with (length l - 1)%nat by lia.
    destruct (lookup_lt_is_Some_2 l (length l - 1)) as [e ->]; [lia|]. done.
Qed.
Lemma read_timestamp_check now b : exists r, check_block_timestamp db now b = Some r /\
  (r.1 = true -> (BLOCKCHAIN_TIMESTAMP_CHECK_WINDOW <= length l)%nat ->
   median (e_timestamp <$> drop (length l - BLOCKCHAIN_TIMESTAMP_CHECK_WINDOW) l) <= timestamp (Basic.header b)).
Proof.
  unfold check_block_timestamp. rewrite (rp_height _ _ Hrep). destruct (_ <? timestamp _); [eexists; split; [done|]; done|].
  destruct (Nat.ltb_spec (length l) BLOCKCHAIN_TIMESTAMP_CHECK_WINDOW) as [H|H]; [eexists; split; [done|]; lia|].
  rewrite (mapM_seq l e_timestamp _ _ _ (stored_timestamp l db Hrep)) by lia. cbn [mbind option_bind]. eexists. split; [done|].
  rewrite take_ge by (rewrite length_drop; lia). unfold check_timestamps. cbn [fst]. intros Hb%negb_true_iff%Z.ltb_ge _. done.
Qed.
Lemma read_limit : update_next_cumulative_size_limit db = Some (median (recent_sizes l) *w 2).
Proof. unfold update_next_cumulative_size_limit. by rewrite read_sizes. Qed.
End Reads.

(** ** Steps that leave the chain alone *)

Lemma Inv_set_pool l s p : Inv l s -> pool_good p -> Inv l (set_pool p s).
Proof. intros [] Hp. by split. Qed.
Lemma Inv_set_cache l s c : Inv l s -> cache_ok l c -> Inv l (set_cache c s).
Proof. intros [] Hc. by split. Qed.
Lemma Inv_set_limit l s x : Inv l s -> Inv l (set_limit x s).
Proof. intros []. by split. Qed.
Lemma Inv_set_invalid l s x : Inv l s -> Inv l (set_invalid x s).
Proof. intros []. by split. Qed.
Lemma Inv_set_alternative l s x : Inv l s -> (forall id e, x !! id = Some e -> alternative_ok e) -> Inv l (set_alternative x s).
Proof. intros [] H. by split. Qed.
Lemma forget_difficulties_run l s : Inv l s -> exists c, forget_difficulties s = (set_cache c s, inr tt) /\ Inv l (set_cache c s).
Proof. intros H. eexists. split; [done|]. apply Inv_set_cache; [done|]. by left. Qed.

Lemma add_invalid_run bei h s : exists i, add_block_as_invalid bei h s = (set_invalid i s, inr tt).
Proof.
  unfold add_block_as_invalid, update. destruct (m_invalid_blocks s !! h); [|by eexists]. exists (m_invalid_blocks s). by destruct s.
Qed.

(** The transactions of a block, as far as the loop takes them. *)
Lemma take_block_txs_run now junk b id ids : forall txs fee size s, pool_good (m_tx_pool s) -> Forall returnable txs ->
  exists i p r, take_block_txs now junk b id ids txs fee size s = (set_invalid i (set_pool p s), inr r) /\ pool_good p /\
    forall txs' fee' size', r = Some (txs', fee', size') -> exists new, txs' = txs ++ new /\ ids = TxPool.tx_hash <$> new /\
      Forall returnable new /\
      Forall (fun tx => (TxVerify.check_tx_inputs (m_db s) (m_scan_table s) now tx (fun _ => false)).1.1 = true) new /\
      fee' = foldl (fun a tx => a +w txnFee (rct_signatures tx)) fee new /\
      exists sizes, Forall2 encoded_size new sizes /\ size' = foldl (fun a n => a +w n) size sizes.
Proof.
  induction ids as [|tx_id ids IH]; intros txs fee size s Hp Hf; cbn [take_block_txs].
  { exists (m_invalid_blocks s), (m_tx_pool s), (Some (txs, fee, size)). split; [by destruct s|]. split; [done|]. intros ? ? ? [= <- <- <-].
    exists []. rewrite app_nil_r. split_and!; try done. by exists []. }
  unfold mbind at 1, B_bind at 1, state.
  assert (Hstop : forall s1 i p txs1, s1 = set_invalid i (set_pool p s) -> pool_good p -> Forall returnable txs1 ->
    exists i p r, (_ ← return_tx_to_pool now junk txs1; ret (None : option (list transaction * Z * Z))) s1 = (set_invalid i (set_pool p s), inr r) /\
      pool_good p /\ r = None).
  { intros s1 i p txs1 -> Hp1 Hf1. destruct (return_txs_run now junk txs1 (set_invalid i (set_pool p s)) Hp1 Hf1) as (p' & E & Hp').
    exists i, p', None. unfold mbind, B_bind. rewrite E. done. }
  assert (Hself : s = set_invalid (m_invalid_blocks s) (set_pool (m_tx_pool s) s)) by by destruct s.
  destruct (tx_exists (m_db s) tx_id).
  { destruct (Hstop s _ _ txs Hself Hp Hf) as (i & p & r & E & Hp' & ->). exists i, p, None. done. }
  destruct (TxPool.take_tx tx_id (m_tx_pool s)) as [[[[[tx bsize] fe] rel] p1]|] eqn:Et.
  2:{ destruct (Hstop s _ _ txs Hself Hp Hf) as (i & p & r & E & Hp' & ->). exists i, p, None. done. }
  destruct (take_tx_good _ _ _ _ _ _ _ Hp Et) as (Hp1 & Htx & Hid & Hsz & ->).
  assert (Hf1 : Forall returnable (txs ++ [tx])) by (apply Forall_app; split; [done|by constructor]).
  unfold mbind at 1, B_bind at 1, update.
  assert (Hinv : exists i p r, (_ ← add_block_as_invalid (MkExtended b 0 0 0 0) id; _ ← return_tx_to_pool now junk (txs ++ [tx]);
      ret (None : option (list transaction * Z * Z))) (set_pool p1 s) = (set_invalid i (set_pool p s), inr r) /\ pool_good p /\ r = None).
  { destruct (add_invalid_run (MkExtended b 0 0 0 0) id (set_pool p1 s)) as [i Ei]. unfold mbind at 1, B_bind at 1. rewrite Ei. by eapply Hstop. }
  destruct (negb _) eqn:Ec.
  { destruct Hinv as (i & p & r & E & Hp' & ->). exists i, p, None. done. }
  destruct (negb (bool_decide _) && _).
  { destruct Hinv as (i & p & r & E & Hp' & ->). exists i, p, None. done. }
  destruct (IH (txs ++ [tx]) (fee +w txnFee (rct_signatures tx)) (size +w bsize) (set_pool p1 s) Hp1 Hf1) as (i & p & r & E & Hp' & Hr).
  exists i, p, r. split; [exact E|]. split; [done|]. intros txs' fee' size' Er. destruct (Hr _ _ _ Er) as (new & -> & -> & Hn & Hc & -> & sizes & Hs & ->).
  exists (tx :: new). rewrite <- app_assoc. split; [done|]. split; [by rewrite fmap_cons, Hid|]. split; [by constructor|].
  split; [constructor; [|done]; by apply negb_false_iff|]. split; [done|]. exists (bsize :: sizes). split; [by constructor|done].
Qed.

(** ** Appending a block *)

Definition kept (s s' : Blockchain) : Prop :=
  m_alternative_chains s' = m_alternative_chains s /\ m_checkpoints s' = m_checkpoints s.

Lemma hf_header_u8 b : wf_block b -> is_u8 (HardFork.minor_version (hf_header b)).
Proof. intros [H _]. apply H. Qed.

(** What storing a block does to the hard forks. *)
Lemma forks_added l db db1 n e : forks_ok l db -> represents_blocks l db -> m_batch_active db = false -> wf_block (e_block e) ->
  HardFork.check (m_hardfork db) (hf_header (e_block e)) = Some true -> add_entry e db = (db1, inr n) -> forks_ok (l ++ [e]) db1.
Proof.
  intros [Hi Hv] Hrep Hb Hwf Hc Ha. pose proof (add_entry_forks e db Hb) as H. rewrite Ha in H. destruct H as (r & hdb & Hadd & Hver).
  destruct (HardFork.add_total (hf_header (e_block e)) (m_height db) (m_hardfork db) (HardFork.MkDb [] (m_hf_versions (tbl db))) Hi
    (hf_header_u8 _ Hwf)) as (r' & hf' & hdb' & Hadd' & Hc' & Hi' & [_ Hk] & Hr & _).
  rewrite Hadd in Hadd'. injection Hadd' as <- <- <-. rewrite Hc in Hc'. injection Hc' as <-. split; [done|].
  intros i Hlt. rewrite Hver. rewrite length_app in Hlt. cbn in Hlt. destruct (decide (i = length l)) as [->|Hne].
  - rewrite <- (rp_height _ _ Hrep). by apply Hr.
  - apply Hk. apply Hv. lia.
Qed.
Lemma forks_refused l db db1 er e : forks_ok l db -> m_batch_active db = false -> add_entry e db = (db1, inl er) -> forks_ok l db1.
Proof.
  intros Hf Hb Ha. pose proof (add_entry_forks e db Hb) as H. rewrite Ha in H. destruct H as [Hh Hv]. unfold forks_ok. by rewrite Hh, Hv.
Qed.

Definition appended (l : list entry) (b : block) (bvc : block_verification_context) (s : Blockchain)
    (rb : bool * block_verification_context) (s' : Blockchain) : Prop :=
  kept s s' /\
  if rb.1 then m_added_to_main_chain rb.2 = true /\ exists e, e_block e = b /\ valid_block l e /\ Inv (l ++ [e]) s'
  else m_added_to_main_chain rb.2 = m_added_to_main_chain bvc /\ Inv l s'.

Lemma store_block_wp now junk l e bvc s E : Inv l s -> storable_entry e -> Forall returnable (e_txs e) -> valid_block l e ->
  m_verifivation_failed bvc = false -> HardFork.check (m_hardfork (m_db s)) (hf_header (e_block e)) = Some true ->
  wp (store_block now junk (e_block e) (e_txs e) (e_size e) (e_difficulty e) (e_coins e) bvc) (appended l (e_block e) bvc s) E s.
Proof.
  intros HI Hst Hret Hval Hbvc Hcheck. unfold store_block. rewrite Hbvc. apply wp_bind. unfold wp at 1, try. fold (add_entry e).
  pose proof (built_batch _ _ (ci_built _ _ HI)) as Hbat.
  destruct (add_entry e (m_db s)) as [db1 [er|n]] eqn:Ea.
  - destruct (add_block_abort _ _ _ _ Hbat Ea) as [Hsame Hcach].
    assert (HI1 : Inv l (set_db db1 s)).
    { pose proof (forks_refused _ _ _ _ _ (ci_forks _ _ HI) Hbat Ea) as Hf. destruct HI. split; try done; [by eapply built_same|cbn; auto]. }
    destruct (return_txs_run now junk (e_txs e) (set_db db1 s) (ci_pool _ _ HI1) Hret) as (p & Er & Hp).
    assert (Hend : Inv l (set_pool p (set_db db1 s))) by by apply Inv_set_pool.
    destruct er; (apply wp_bind; eapply wp_run; [exact Er|]; apply wp_ret; done).
  - destruct (built_add _ _ _ _ _ (ci_built _ _ HI) (ci_cached _ _ HI) Hst Ea) as (_ & Hb1 & Hc1).
    assert (HI1 : Inv (l ++ [e]) (set_db db1 s)).
    { pose proof (forks_added _ _ _ _ _ (ci_forks _ _ HI) (Inv_rep _ _ HI) Hbat (se_block _ Hst) Hcheck Ea) as Hf. destruct HI.
      split; try done; [by apply valid_chain_snoc|by apply cache_ok_app]. }
    apply wp_bind. unfold update_limit. apply wp_bind. eapply wp_reads; [apply (read_limit _ _ (Inv_rep _ _ HI1))|]. apply wp_update, wp_ret.
    split; [done|]. cbn. split; [done|]. exists e. split_and!; [done..|]. by apply Inv_set_limit.
Qed.

Lemma prevalidated_inputs b height : prevalidate_miner_transaction b height = true -> inputs_ok (vin (prefix (miner_tx b))).
Proof.
  unfold prevalidate_miner_transaction. destruct (vin (prefix (miner_tx b))) as [|[g| | |] [|]]; try done. intros _. left. by exists g.
Qed.
Lemma append_block_wp now junk l b d bvc s E : Inv l s -> block_ok b -> prev_id (Basic.header b) = tail_hash l ->
  ((BLOCKCHAIN_TIMESTAMP_CHECK_WINDOW <= length l)%nat ->
   median (e_timestamp <$> drop (length l - BLOCKCHAIN_TIMESTAMP_CHECK_WINDOW) l) <= timestamp (Basic.header b)) ->
  difficulty_after ndebug (e_work <$> l) = Some d -> d <> 0 ->
  m_verifivation_failed bvc = false -> HardFork.check (m_hardfork (m_db s)) (hf_header b) = Some true ->
  wp (append_block now junk b (block_id b) d bvc) (appended l b bvc s) E s.
Proof.
  intros HI Hb Hprev Htime Hd Hnz Hbvc Hcheck. unfold append_block. apply wp_bind, wp_state.
  set (pow := match m_blocks_longhash_table s !! block_id b with Some h => h | None => get_block_longhash b end).
  assert (Hpow : pow_of_id (block_id b) pow).
  { unfold pow. destruct (m_blocks_longhash_table s !! block_id b) as [h|] eqn:E1; [by apply (ci_pow _ _ HI)|]. by exists b. }
  assert (Hstop : appended l b bvc s (false, set_failed bvc) s) by done.
  destruct (Difficulty.check_hash pow d) eqn:Ec; cbn [negb]; [|by apply wp_ret].
  destruct (Checkpoints.is_in_checkpoint_zone _ _ && _); [by apply wp_ret|].
  pose proof (Inv_rep _ _ HI) as Hrep. unfold height64. rewrite (rp_height _ _ Hrep).
  destruct (prevalidate_miner_transaction b (Z.of_nat (length l))) eqn:Ep; cbn [negb]; [|by apply wp_ret].
  destruct (take_block_txs_run now junk b (block_id b) (tx_hashes b) [] 0 (blobsize (miner_tx b)) s (ci_pool _ _ HI)) as (i & p & r & Et & Hp & Hr);
    [constructor|].
  apply wp_bind. eapply wp_run; [exact Et|]. set (s1 := set_invalid i (set_pool p s)).
  assert (HI1 : Inv l s1) by by apply Inv_set_invalid, Inv_set_pool.
  destruct r as [[[txs fees] size]|]; [|apply wp_ret; done].
  destruct (Hr _ _ _ eq_refl) as (new & Enew & Hids & Hret & Hin & -> & sizes & Hsizes & ->). cbn [app] in Enew. subst new.
  fold (sum_fees txs). fold (sum_sizes b sizes).
  apply wp_bind. eapply wp_reads; [apply (read_interval_coins l _ Hrep)|].
  apply wp_bind. eapply wp_reads; [apply (read_sizes l _ Hrep)|].
  destruct (validate_miner_transaction _ _ _ _ _ _) as [[base partial]|] eqn:Ev.
  2:{ destruct (return_txs_run now junk txs s1 Hp Hret) as (p' & Er & Hp'). apply wp_bind. eapply wp_run; [exact Er|]. apply wp_ret.
      split; [done|]. split; [done|]. by apply Inv_set_pool. }
  apply wp_bind. eapply wp_reads; [apply (read_total_coins l _ Hrep)|].
  apply wp_bind. eapply wp_reads; [apply (read_total_work l _ Hrep)|].
  set (e := MkEntry b (sum_sizes b sizes) (d +w total_work l) (next_generated_coins (total_coins l) base) txs).
  assert (Hval : valid_block l e).
  { split; cbn [e_block e_txs e_size e_difficulty e_coins e]; try done.
    - exists d, pow. done.
    - exists now, (m_scan_table s), (m_db s). split; [apply HI|done].
    - by exists sizes.
    - exists base, partial. done. }
  assert (Hst : storable_entry e).
  { destruct Hb as [Hwf Hm]. split; cbn [e_block e_txs e]; [done|split; [apply Hwf|by eapply prevalidated_inputs|done]| |by rewrite Hids, length_fmap].
    eapply Forall_impl; [exact Hret|]. by intros tx [? _]. }
  apply (store_block_wp now junk l e (set_partial partial bvc) s1 E HI1 Hst Hret Hval Hbvc Hcheck).
Qed.

(** An error is an assertion of [next_difficulty] that fails. *)
Definition aborted (l : list entry) (s : Blockchain) (e : error) (s' : Blockchain) : Prop :=
  e = Abort /\ kept s s' /\ Inv l s' /\ difficulty_after ndebug (e_work <$> l) = None.

Lemma fork_check_total l s b : Inv l s -> exists ok, HardFork.check (m_hardfork (m_db s)) (hf_header b) = Some ok.
Proof.
  intros HI. pose proof (HardFork.inv_index _ (proj1 (ci_forks _ _ HI))) as Hi. unfold HardFork.check, HardFork.do_check.
  destruct (lookup_lt_is_Some_2 (HardFork.heights (m_hardfork (m_db s))) _ Hi) as [q ->]. by eexists.
Qed.

Lemma handle_block_wp now junk l b bvc s : Inv l s -> block_ok b -> m_verifivation_failed bvc = false ->
  wp (handle_block_to_main_chain ndebug now junk b (block_id b) bvc) (appended l b bvc s) (aborted l s) s.
Proof.
  intros HI Hb Hbvc. unfold handle_block_to_main_chain. pose proof (Inv_rep _ _ HI) as Hrep.
  apply wp_bind. eapply wp_reads; [apply (read_tail l _ Hrep)|].
  destruct (bool_decide _) eqn:Eprev; cbn [negb]; [|by apply wp_ret]. apply bool_decide_eq_true in Eprev.
  apply wp_bind, wp_state. destruct (fork_check_total _ _ b HI) as [ok Eok]. rewrite Eok. apply wp_bind. cbn [need]. apply wp_ret.
  destruct ok; cbn [negb]; [|by apply wp_ret].
  destruct (read_timestamp_check l _ Hrep now b) as ([okt med] & Et & Htime).
  apply wp_bind. eapply wp_reads; [exact Et|]. destruct okt; cbn [negb]; [|by apply wp_ret].
  unfold get_difficulty_for_next. apply wp_bind. apply wp_bind, wp_state. rewrite (get_difficulty_spec l _ Hrep ndebug _ (ci_cache _ _ HI)).
  destruct (difficulty_after ndebug (e_work <$> l)) as [d|] eqn:Ed; cbn [mbind option_bind need]; [|by apply wp_bind, wp_raise].
  apply wp_bind, wp_ret. apply wp_bind, wp_update, wp_ret. set (s1 := set_cache _ s).
  assert (HI1 : Inv l s1) by (apply Inv_set_cache; [done|apply window_cache_ok]).
  destruct (Z.eqb_spec d 0) as [->|Hd]; [by apply wp_ret|].
  eapply wp_mono; [apply (append_block_wp now junk l b d bvc s1 (fun _ _ => False)); try done; intros H; by apply Htime| |done].
  intros rb s'. unfold appended, kept. done.
Qed.

(** ** Taking blocks off *)

Lemma NoDup_bind_elem {A D} (f : A -> list D) l x : NoDup (l ≫= f) -> x ∈ l -> NoDup (f x).
Proof.
  intros Hn (l1 & l2 & ->)%list_elem_of_split. rewrite bind_app, bind_cons in Hn. apply NoDup_app in Hn as (_ & _ & Hn). by apply NoDup_app in Hn as (? & _).
Qed.
Lemma stored_returnable l e db : built (l ++ [e]) db -> Forall returnable (e_txs e).
Proof.
  intros Hb. assert (Hst : storable_entry e).
  { inversion Hb as [|l0 e0 db0 db1 n db' Hb0 Hs Ha Hsame El]; [by destruct l|]. by apply app_inj_tail in El as [-> ->]. }
  pose proof (rp_keys_nodup _ _ (proj2 (built_represents _ _ Hb))) as Hn. rewrite chain_txs_snoc in Hn. unfold keys_of in Hn.
  rewrite bind_app in Hn. apply NoDup_app in Hn as (_ & _ & Hn).
  apply Forall_forall. intros tx Hin. split; [by apply (Forall_forall storable (e_txs e)); [apply Hst|]|].
  apply list_elem_of_lookup in Hin as [i Hi]. destruct (lookup_lt_is_Some_2 (tx_hashes (e_block e)) i) as [h Hh].
  { rewrite (se_hashes _ Hst). by eapply lookup_lt_Some. }
  apply (NoDup_bind_elem _ _ (h, tx)) in Hn; [exact Hn|]. right. apply (list_elem_of_lookup_2 _ i).
  apply lookup_zip_with_Some. by exists h, tx.
Qed.

Lemma pop_block_wp now junk l e s : Inv (l ++ [e]) s ->
  wp (pop_block_from_blockchain now junk) (fun b s' => b = e_block e /\ kept s s' /\ Inv l s') (fun _ _ => False) s.
Proof.
  intros HI. unfold pop_block_from_blockchain. apply wp_bind. unfold forget_difficulties. apply wp_update. apply wp_bind. unfold wp at 1, lift.
  destruct (built_pop _ _ _ (ci_built _ _ HI) (ci_cached _ _ HI)) as (db1 & Ep & Hb1 & Hc1).
  cbn [m_db set_cache]. rewrite Ep. set (s1 := set_db db1 (set_cache _ s)).
  assert (HI1 : Inv l s1).
  { pose proof (keeps_forks_pop_block (m_db s)) as [Hh Hv]. rewrite Ep in Hh, Hv. cbn [fst snd] in Hh, Hv. specialize (Hv (ex_intro _ _ eq_refl)).
    destruct HI. split; try done; [by eapply valid_chain_app|by left|].
    destruct ci_forks0 as [Hf Hvs]. split; cbn; rewrite ?Hh, ?Hv; [done|]. intros i Hi. apply Hvs. rewrite length_app. lia. }
  pose proof (stored_returnable _ _ _ (ci_built _ _ HI)) as Hret.
  assert (Hk1 : kept s s1) by done. clearbody s1. clear Ep Hb1 Hc1 db1.
  apply wp_bind. eapply wp_mono.
  - apply (wp_for_each _ (fun txs s' => Forall returnable txs /\ kept s s' /\ Inv l s') (fun _ _ => False)).
    + intros tx txs s2 (Hf & Hk & HI2). apply Forall_cons in Hf as [[Hst Hnd] Hf]. destruct (is_coinbase tx); [by apply wp_ret|].
      destruct (return_tx_run now junk tx s2 (ci_pool _ _ HI2) Hst Hnd) as (p & Er & Hp). eapply wp_run; [exact Er|].
      split; [done|]. split; [exact Hk|]. by apply Inv_set_pool.
    + split; [|done]. by apply Forall_rev.
  - intros [] s2 (_ & Hk & HI2). apply wp_bind. unfold update_limit. apply wp_bind. eapply wp_reads; [apply (read_limit _ _ (Inv_rep _ _ HI2))|].
    apply wp_update. apply wp_bind. eapply wp_reads; [apply (read_tail l _ (Inv_rep _ _ HI2))|]. apply wp_ret.
    split; [done|]. split; [exact Hk|]. by apply Inv_set_limit.
  - done.
Qed.

(** Reorganising the hard forks keeps the chain. *)
Lemma reorganize_run l db h : built l db -> cached db -> forks_ok l db -> Forall (fun e => wf_block (e_block e)) l ->
  exists r db1, reorganize_from_chain_height h db = (db1, inr r) /\ built l db1 /\ cached db1 /\ forks_ok l db1.
Proof.
  intros Hb Hc [Hi Hv] Hwf. destruct h as [|h]; cbn [reorganize_from_chain_height]; [by exists false, db|].
  pose proof (proj1 (built_represents _ _ Hb)) as Hrep. pose proof (built_batch _ _ Hb) as Hbat.
  unfold mbind at 1, M_bind at 1, get. rewrite (rp_height _ _ Hrep).
  destruct (Nat.leb_spec (length l) h) as [Hl|Hl]; [by exists false, db|].
  unfold batch_start, batch_stop, get, require, ensure, modify, modify_tables, returns, throw, mbind, M_bind. rewrite Hbat. cbn [negb].
  rewrite (mapM_seq l e_block _ _ _ (rp_blocks _ _ Hrep)) by lia. rewrite drop_0, take_ge by done. cbv beta iota.
  destruct (HardFork.reorganize_total h (m_hardfork db) (HardFork.MkDb (hf_header <$> (e_block <$> l)) (m_hf_versions (tbl db))) Hi)
    as (r & hf & hdb & -> & Hi' & [_ Hk]).
  { unfold HardFork.votes_u8. cbn. rewrite !Forall_fmap. eapply Forall_impl; [exact Hwf|]. intros e. apply hf_header_u8. }
  { intros i. unfold HardFork.db_height. cbn [HardFork.blocks HardFork.hf_versions]. rewrite !length_fmap. apply Hv. }
  cbn. do 2 eexists. split; [done|]. split.
  - eapply built_same; [exact Hb|]. do 3 eexists. unfold refresh. rewrite Hbat. reflexivity.
  - split; [exact Hc|]. split; [done|]. intros i Hlt. cbn. by apply Hk, Hv.
Qed.

Lemma built_storable l db : built l db -> Forall storable_entry l.
Proof. induction 1 as [|l e db0 db1 n db Hb IH Hs Ha Hsame]; [constructor|]. apply Forall_app. split; [done|by constructor]. Qed.

Lemma kept_trans s1 s2 s3 : kept s1 s2 -> kept s2 s3 -> kept s1 s3.
Proof. intros [H1 H2] [H3 H4]. split; congruence. Qed.
Lemma kept_refl s : kept s s.
Proof. done. Qed.

Lemma reorganize_wp l s h : Inv l s ->
  wp (lift (reorganize_from_chain_height h)) (fun _ s' => kept s s' /\ Inv l s') (fun _ _ => False) s.
Proof.
  intros HI. unfold wp, lift. destruct (reorganize_run l (m_db s) h (ci_built _ _ HI) (ci_cached _ _ HI) (ci_forks _ _ HI)) as (r & db1 & -> & Hb & Hc & Hf).
  { eapply Forall_impl; [exact (built_storable _ _ (ci_built _ _ HI))|]. apply se_block. }
  split; [done|]. destruct HI. by split.
Qed.

Lemma pop_to_height_wp now junk h fuel : forall l s, Inv l s -> (h <= length l)%nat -> (length l - h <= fuel)%nat ->
  wp (pop_to_height now junk fuel (Z.of_nat h)) (fun _ s' => kept s s' /\ Inv (take h l) s') (fun _ _ => False) s.
Proof.
  assert (Hdone : forall l s, Inv l s -> (h <= length l)%nat -> (length l = h)%nat -> kept s s /\ Inv (take h l) s).
  { intros l s HI _ Hl. split; [done|]. by rewrite take_ge by lia. }
  induction fuel as [|fuel IH]; intros l s HI Hh Hf; cbn [pop_to_height]; apply wp_bind, wp_state; unfold height64; rewrite (rp_height _ _ (Inv_rep _ _ HI));
    destruct (Z.eqb_spec (Z.of_nat (length l)) (Z.of_nat h)) as [E|E]; try (apply wp_ret, Hdone; [done|done|lia]); [lia|].
  destruct l as [|e l _] using rev_ind; [cbn in *; lia|]. rewrite length_app in *. cbn [length] in *.
  apply wp_bind. eapply wp_mono; [by apply pop_block_wp| |done]. intros b s1 (_ & Hk & HI1).
  eapply wp_mono; [apply (IH l s1 HI1); lia| |done]. intros [] s2 [Hk2 HI2]. split; [by eapply kept_trans|].
  by rewrite take_app_le by lia.
Qed.

(** The chain [l] followed by some of the blocks [bs], all of them if [r]. *)
Definition extended (l : list entry) (bs : list block) (s : Blockchain) (r : bool) (s' : Blockchain) : Prop :=
  kept s s' /\ exists l', Inv (l ++ l') s' /\ (e_block <$> l') `prefix_of` bs /\ (r = true -> e_block <$> l' = bs).

Lemma extended_none l bs s r s' : kept s s' -> Inv l s' -> r = false \/ bs = [] -> extended l bs s r s'.
Proof.
  intros Hk HI Hr. split; [done|]. exists []. rewrite app_nil_r. split; [done|]. split; [apply prefix_nil|]. intros ->. by destruct Hr as [? | ->].
Qed.
Lemma extended_cons l e bs s s1 r s2 : kept s s1 -> extended (l ++ [e]) bs s1 r s2 -> extended l (e_block e :: bs) s r s2.
Proof.
  intros Hk (Hk2 & l' & HI & Hp & Hr). split; [by eapply kept_trans|]. exists (e :: l'). rewrite <- app_assoc in HI. split; [done|].
  split; [by apply prefix_cons|]. intros Et. cbn. f_equal. by apply Hr.
Qed.

(** The difficulty after some of the blocks [bs] cannot be computed. *)
Definition stuck (l : list entry) (bs : list block) (s : Blockchain) : Prop :=
  exists l', Inv (l ++ l') s /\ (e_block <$> l') `prefix_of` bs /\ difficulty_after ndebug (e_work <$> l ++ l') = None.
Lemma stuck_here l bs s : Inv l s -> difficulty_after ndebug (e_work <$> l) = None -> stuck l bs s.
Proof. intros HI Hd. exists []. rewrite app_nil_r. split; [done|]. split; [apply prefix_nil|done]. Qed.
Lemma stuck_cons l e bs s : stuck (l ++ [e]) bs s -> stuck l (e_block e :: bs) s.
Proof. intros (l' & HI & Hp & Hd). exists (e :: l'). rewrite <- app_assoc in HI, Hd. split; [done|]. split; [by apply prefix_cons|done]. Qed.

Lemma return_chain_wp now junk bs : forall l s, Inv l s -> Forall block_ok bs ->
  wp (return_chain ndebug now junk bs) (extended l bs s) (fun e s' => e = Abort /\ stuck l bs s') s.
Proof.
  induction bs as [|b bs IH]; intros l s HI Hf; cbn [return_chain]. { apply wp_ret, extended_none; [done..|by right]. }
  apply Forall_cons in Hf as [Hb Hf]. apply wp_bind. eapply wp_mono; [apply (handle_block_wp now junk l b new_bvc s HI Hb eq_refl)| |].
  - intros [[|] bvc] s1 [Hk H]; cbn [fst snd] in H.
    + destruct H as (-> & e & <- & _ & HI1). cbn [andb]. eapply wp_mono; [by apply (IH (l ++ [e]))| |].
      * intros r s2. by apply extended_cons.
      * intros er s2 [-> H2]. split; [done|]. by apply stuck_cons.
    + apply wp_ret, extended_none; [done|apply H|by left].
  - intros er s1 (-> & _ & HI1 & Hd). split; [done|]. by apply stuck_here.
Qed.

Lemma rollback_wp now junk bs l s h : Inv l s -> Forall block_ok bs -> (h <= length l)%nat ->
  wp (rollback_blockchain_switching ndebug now junk bs (Z.of_nat h)) (extended (take h l) bs s)
     (fun e s' => e = Abort /\ stuck (take h l) bs s') s.
Proof.
  intros HI Hf Hh. unfold rollback_blockchain_switching. pose proof (rp_height _ _ (Inv_rep _ _ HI)) as Hhe.
  apply wp_bind, wp_state. unfold height64. rewrite Hhe. destruct (Z.ltb_spec (Z.of_nat (length l)) (Z.of_nat h)); [lia|].
  apply wp_bind. destruct (forget_difficulties_run _ _ HI) as (c & Ec & HIc). eapply wp_run; [exact Ec|].
  apply wp_bind. eapply wp_mono; [apply (pop_to_height_wp now junk h (S (length l)) l _ HIc); lia| |done]. intros [] s1 [Hk1 HI1].
  assert (Hk : kept s s1) by (eapply kept_trans; [|exact Hk1]; done). clear Hk1 Ec HIc.
  apply wp_bind. rewrite Nat2Z.id. eapply wp_mono; [by apply reorganize_wp| |done]. intros _ s2 [Hk2 HI2].
  apply wp_bind. eapply wp_mono; [by apply (return_chain_wp now junk bs (take h l) s2)| |done].
  intros [|] s3 (Hk3 & l' & HI3 & Hp & Hr); cbn [negb].
  - apply wp_bind. eapply wp_mono; [by apply reorganize_wp| |done]. intros _ s4 [Hk4 HI4]. apply wp_ret.
    split; [by repeat (eapply kept_trans; [eassumption|])|]. by exists l'.
  - apply wp_ret. split; [by repeat (eapply kept_trans; [eassumption|])|]. by exists l'.
Qed.

(** ** Other branches *)

Lemma tail_hash_snoc l e : tail_hash (l ++ [e]) = e_hash e.
Proof. unfold tail_hash. by rewrite last_snoc. Qed.
(** The hash of a block is that of one height. *)
Lemma hash_height l db i j e e' : represents_blocks l db -> l !! i = Some e -> l !! j = Some e' -> e_hash e = e_hash e' -> i = j.
Proof.
  intros Hrep Hi Hj E. assert (H : get_block_height db (e_hash e) = Some i) by (apply (rp_heights _ _ Hrep); by rewrite Hi).
  assert (H' : get_block_height db (e_hash e) = Some j) by (apply (rp_heights _ _ Hrep); by rewrite Hj, E). congruence.
Qed.
Lemma block_exists_split l db h : represents_blocks l db -> block_exists db h = true ->
  exists l0 e l1, l = (l0 ++ [e]) ++ l1 /\ e_hash e = h.
Proof.
  intros Hrep H. unfold block_exists in H. apply bool_decide_eq_true in H as [i Hi]. apply (rp_heights _ _ Hrep) in Hi.
  destruct (l !! i) as [e|] eqn:E; [|done]. injection Hi as Hi. apply list_elem_of_split_length in E as (l0 & l1 & -> & _).
  exists l0, e, l1. by rewrite <- app_assoc.
Qed.

Lemma pop_to_block_wp now junk l0 e fuel : forall l acc s, Inv ((l0 ++ [e]) ++ l) s -> (length l <= fuel)%nat ->
  wp (pop_to_block now junk fuel (e_hash e) acc)
     (fun bs s' => kept s s' /\ Inv (l0 ++ [e]) s' /\ bs = (e_block <$> l) ++ acc) (fun _ _ => False) s.
Proof.
  induction fuel as [|fuel IH]; intros l acc s HI Hf; cbn [pop_to_block]; apply wp_bind;
    (eapply wp_reads; [apply (read_tail _ _ (Inv_rep _ _ HI))|]).
  - destruct l; [|cbn in Hf; lia]. rewrite app_nil_r in *. rewrite tail_hash_snoc, bool_decide_true by done. by apply wp_ret.
  - destruct l as [|e' l _] using rev_ind.
    { rewrite app_nil_r in *. rewrite tail_hash_snoc, bool_decide_true by done. by apply wp_ret. }
    rewrite app_assoc in HI |- *. rewrite tail_hash_snoc. rewrite bool_decide_false.
    2:{ intros E. apply (hash_height _ _ (length ((l0 ++ [e]) ++ l)) (length l0) e' e (Inv_rep _ _ HI)) in E.
        - rewrite !length_app in E. cbn in E. lia.
        - by apply list_lookup_middle.
        - rewrite <- !app_assoc. by apply list_lookup_middle. }
    rewrite length_app in Hf. cbn in Hf. apply wp_bind. eapply wp_mono; [by apply pop_block_wp| |done]. intros b s1 (-> & Hk & HI1).
    eapply wp_mono; [apply (IH l _ s1 HI1); lia| |done]. intros bs s2 (Hk2 & HI2 & ->). split; [by eapply kept_trans|]. split; [done|].
    rewrite fmap_app. by rewrite <- app_assoc.
Qed.

(** The blocks of the branch that are connected, and those that are left. *)
Definition connected (l : list entry) (alt : list (hash * block_extended_info)) (s : Blockchain)
    (left : list (hash * block_extended_info)) (s' : Blockchain) : Prop :=
  kept s s' /\ exists l' done, Inv (l ++ l') s' /\ alt = done ++ left /\ e_block <$> l' = (fun x => bl x.2) <$> done.

Lemma connect_wp now junk alt : forall l s, Inv l s -> Forall (fun x => block_ok (bl x.2)) alt ->
  wp (connect ndebug now junk alt) (connected l alt s) (fun e s' => e = Abort /\ stuck l ((fun x => bl x.2) <$> alt) s') s.
Proof.
  induction alt as [|x alt IH]; intros l s HI Hf; cbn [connect].
  { apply wp_ret. split; [done|]. exists [], []. by rewrite app_nil_r. }
  apply Forall_cons in Hf as [Hb Hf]. apply wp_bind. eapply wp_mono; [apply (handle_block_wp now junk l _ new_bvc s HI Hb eq_refl)| |].
  - intros [[|] bvc] s1 [Hk H]; cbn [fst snd] in H.
    + destruct H as (-> & e & Ee & _ & HI1). cbn [andb].
      assert (Hstep : forall left s2, connected (l ++ [e]) alt s1 left s2 -> connected l (x :: alt) s left s2).
      { intros left s2 (Hk2 & l' & done & HI2 & -> & E2). split; [by eapply kept_trans|]. exists (e :: l'), (x :: done).
        rewrite <- app_assoc in HI2. split; [done|]. split; [done|]. rewrite !fmap_cons. by rewrite Ee, E2. }
      eapply wp_mono; [by apply (IH (l ++ [e]))|exact Hstep|]. intros er s2 [-> H2]. split; [done|]. rewrite fmap_cons, <- Ee. by apply stuck_cons.
    + apply wp_ret. split; [done|]. exists [], []. rewrite app_nil_r. split; [apply H|done].
  - intros er s1 (-> & _ & HI1 & Hd). split; [done|]. by apply stuck_here.
Qed.

(** A reorganisation that fails leaves the old chain, or as much of it as could be
    added again, and forgets the blocks from the one that failed on. *)
Definition restored (l : list entry) (alt : list (hash * block_extended_info)) (s s' : Blockchain) : Prop :=
  exists l', Inv l' s' /\ (e_block <$> l') `prefix_of` (e_block <$> l) /\ m_checkpoints s' = m_checkpoints s /\
    m_alternative_chains s' ⊆ m_alternative_chains s /\ forall x, last alt = Some x -> m_alternative_chains s' !! x.1 = None.

Lemma drop_left_wp left : forall l s, Inv l s ->
  wp (for_each (fun e : hash * block_extended_info => _ ← add_block_as_invalid e.2 e.1; erase_alternative e.1) left)
    (fun _ s' => Inv l s' /\ m_checkpoints s' = m_checkpoints s /\ m_alternative_chains s' ⊆ m_alternative_chains s /\
      (forall h, m_alternative_chains s !! h = None -> m_alternative_chains s' !! h = None) /\
      forall x, last left = Some x -> m_alternative_chains s' !! x.1 = None) (fun _ _ => False) s.
Proof.
  induction left as [|x left IH]; intros l s HI; cbn [for_each]; [by apply wp_ret|].
  apply wp_bind. apply wp_bind. destruct (add_invalid_run x.2 x.1 s) as [i Ei]. eapply wp_run; [exact Ei|]. unfold erase_alternative. apply wp_update.
  set (s1 := set_alternative _ _). assert (HI1 : Inv l s1).
  { apply Inv_set_alternative; [by apply Inv_set_invalid|]. intros id e [_ He]%lookup_delete_Some. by eapply (ci_alternative _ _ HI). }
  eapply wp_mono; [by apply (IH l s1)| |done]. intros [] s2 (HI2 & Hc2 & Hs2 & Hn2 & Hl2). split; [done|]. split; [done|].
  assert (Hsub : m_alternative_chains s1 ⊆ m_alternative_chains s) by apply delete_subseteq. split; [by etrans|]. split.
  - intros h Hh. apply Hn2, lookup_delete_None. by right.
  - intros y Hy. destruct left as [|z left]; [|by apply Hl2]. injection Hy as <-. apply Hn2, lookup_delete_None. by left.
Qed.

Lemma failed_wp now junk l0 l1 new left disconnected s s1 : Inv (l0 ++ new) s1 -> kept s s1 -> Forall (fun e => block_ok (e_block e)) l1 ->
  disconnected = e_block <$> l1 -> left <> [] ->
  wp (_ ← rollback_blockchain_switching ndebug now junk disconnected (Z.of_nat (length l0));
      match left with
      | (h, failed) :: rest =>
          _ ← add_block_as_invalid failed (block_id (bl failed));
          _ ← erase_alternative h;
          _ ← for_each (fun e => _ ← add_block_as_invalid e.2 e.1; erase_alternative e.1) rest;
          ret false
      | [] => ret true
      end) (fun r s' => r = false /\ restored (l0 ++ l1) left s s')
    (fun e s' => e = Abort /\ stuck l0 (e_block <$> l1) s') s1.
Proof.
  intros HI Hk Hb -> Hne. apply wp_bind.
  assert (Hpre : forall l' : list entry, (e_block <$> l') `prefix_of` (e_block <$> l1) -> (e_block <$> l0 ++ l') `prefix_of` (e_block <$> l0 ++ l1)).
  { intros l' Hp. rewrite !fmap_app. by apply prefix_app. }
  eapply wp_mono; [apply (rollback_wp now junk (e_block <$> l1) _ s1 (length l0) HI)| |].
  { by rewrite Forall_fmap. } { rewrite length_app. lia. }
  2:{ by rewrite take_app_length. }
  rewrite take_app_length. intros r s2 (Hk2 & l' & HI2 & Hp & _). destruct left as [|[h failed] rest]; [done|].
  apply wp_bind. destruct (add_invalid_run failed (block_id (bl failed)) s2) as [i Ei]. eapply wp_run; [exact Ei|].
  apply wp_bind. unfold erase_alternative. apply wp_update. set (s3 := set_alternative _ _).
  assert (HI3 : Inv (l0 ++ l') s3).
  { apply Inv_set_alternative; [by apply Inv_set_invalid|]. intros id e [_ He]%lookup_delete_Some. by eapply (ci_alternative _ _ HI2). }
  apply wp_bind. eapply wp_mono; [by apply (drop_left_wp rest (l0 ++ l') s3)| |done]. intros [] s4 (HI4 & Hc4 & Hs4 & Hn4 & Hl4). apply wp_ret.
  split; [done|]. exists (l0 ++ l'). split; [done|]. split; [auto|]. destruct Hk as [Ka Kc], Hk2 as [Ka2 Kc2].
  split; [rewrite Hc4; cbn; congruence|]. split.
  - etrans; [exact Hs4|]. cbn. rewrite Ka2, Ka. apply delete_subseteq.
  - intros x Hx. destruct rest as [|y rest]; [|by apply Hl4]. injection Hx as <-. apply Hn4, lookup_delete_None. by left.
Qed.

(** Switching to the branch [alt], which builds on the block [e] of the main chain.
    [K] is what holds after the old blocks have been kept as another branch. *)
Lemma switch_wp now junk (ha : block -> hash -> block_verification_context -> B (bool * block_verification_context)) l0 e l1
    (alt : list (hash * block_extended_info)) x (discard : bool) s (K : Blockchain -> Prop) (E : error -> Blockchain -> Prop) :
  let l := (l0 ++ [e]) ++ l1 in
  Inv l s -> head alt = Some x -> prev_id (Basic.header (bl x.2)) = e_hash e -> Forall (fun x => block_ok (bl x.2)) alt ->
  Forall (fun e => block_ok (e_block e)) l1 ->
  (forall new s1, kept s s1 -> Inv ((l0 ++ [e]) ++ new) s1 -> e_block <$> new = (fun x => bl x.2) <$> alt ->
    wp (if discard then ret tt else for_each (fun b => _ ← ha b (block_id b) new_bvc; ret tt) (e_block <$> l1)) (fun _ s2 => K s2) E s1) ->
  (forall h s1, K s1 -> K (set_alternative (delete h (m_alternative_chains s1)) s1)) ->
  (forall h s1, K s1 -> wp (lift (reorganize_from_chain_height h)) (fun _ s2 => K s2) E s1) ->
  (forall s1, stuck (l0 ++ [e]) ((fun x => bl x.2) <$> alt) s1 \/ stuck (l0 ++ [e]) (e_block <$> l1) s1 -> E Abort s1) ->
  wp (switch_to_alternative_blockchain ndebug now junk ha alt discard)
    (fun r s' => if r then K s' else restored l alt s s') E s.
Proof.
  intros l HI Hx Hprev Halt Hl1 Hafter Herase Hreorg Habort. unfold switch_to_alternative_blockchain.
  apply wp_bind. destruct (forget_difficulties_run _ _ HI) as (c & Ec & HIc). eapply wp_run; [exact Ec|].
  destruct alt as [|[h0 front] rest]; [done|]. injection Hx as <-. cbn [snd] in Hprev. apply wp_bind, wp_state. rewrite Hprev.
  pose proof (rp_height _ _ (Inv_rep _ _ HIc)) as Hhe. set (s0 := set_cache c s) in *.
  assert (He : block_exists (m_db s0) (e_hash e) = true).
  { unfold block_exists. apply bool_decide_eq_true. exists (length l0). apply (rp_heights _ _ (Inv_rep _ _ HIc)). unfold l.
    rewrite <- !app_assoc. cbn [app]. by rewrite list_lookup_middle. }
  rewrite He. cbn [negb]. apply wp_bind.
  eapply wp_mono; [apply (pop_to_block_wp now junk l0 e _ l1 [] s0 HIc); rewrite Hhe; unfold l; rewrite !length_app; lia| |done].
  intros bs s1 (Hk1 & HI1 & ->). rewrite app_nil_r. apply wp_bind, wp_state. rewrite (rp_height _ _ (Inv_rep _ _ HI1)).
  assert (Hk : kept s s1) by (eapply kept_trans; [|exact Hk1]; done).
  apply wp_bind. eapply wp_mono; [by apply (connect_wp now junk _ (l0 ++ [e]) s1 HI1)| |].
  2:{ intros er s2 [-> H2]. apply Habort. by left. }
  intros left s2 (Hk2 & new & done & HI2 & Ealt & Enew). assert (Hks : kept s s2) by by eapply kept_trans.
  destruct left as [|[h failed] left].
  - rewrite app_nil_r in Ealt. subst done. apply wp_bind.
    eapply wp_mono; [by apply (Hafter new s2)| |done]. intros [] s3 HK3. apply wp_bind.
    eapply wp_mono; [apply (wp_for_each _ (fun _ s' => K s') E); [|exact HK3]| |done].
    { intros y _ s4 HK4. unfold erase_alternative. apply wp_update. auto. }
    intros [] s4 HK4. apply wp_bind. eapply wp_mono; [by apply Hreorg| |done]. intros r s5 HK5. by apply wp_ret.
  - eapply wp_mono; [apply (failed_wp now junk (l0 ++ [e]) l1 new ((h, failed) :: left) (e_block <$> l1) s s2 HI2 Hks Hl1 eq_refl); done| |].
    + intros r s3 (-> & l' & HI3 & Hp & Hc & Hs & Hl). exists l'. split_and!; try done. intros y Hy. apply Hl. rewrite Ealt, last_app in Hy.
      destruct (last ((h, failed) :: left)) as [z|] eqn:Ez; [congruence|]. by apply last_None in Ez.
    + intros er s3 [-> H3]. apply Habort. by right.
Qed.

(** Where a block that builds on the branch [alt] leaves the main chain: after the
    block [e], the last of [l0 ++ [e]]. *)
Record branches (l : list entry) (alt : list (hash * block_extended_info)) (b : block) (l0 : list entry) (e : entry) (l1 : list entry)
    (height : nat) (parent_work : Z) : Prop := {
  br_chain : l = (l0 ++ [e]) ++ l1;
  br_prev : prev_id (Basic.header (from_option (fun x => bl x.2) b (head alt))) = e_hash e;
  br_front : match head alt with Some x => bei_height x.2 = S (length l0) | None => True end;
  br_height : height = match last alt with Some x => S (bei_height x.2) | None => S (length l0) end;
  br_work : parent_work = match last alt with Some x => cumulative_difficulty x.2 | None => e_difficulty e end
}.

Lemma complete_timestamps_total l db start ts : represents_blocks l db -> (start < length l)%nat ->
  exists r, complete_timestamps_vector db start ts = Some r.
Proof.
  intros Hrep Hs. destruct (decide (length ts <= 12)%nat) as [Ht|Ht].
  - destruct (complete_timestamps l db Hrep (S start) ts) as (more & E & _); [lia|done|]. cbn in E. rewrite Nat.sub_0_r in E. by eexists.
  - unfold complete_timestamps_vector. destruct (Nat.leb_spec BLOCKCHAIN_TIMESTAMP_CHECK_WINDOW (length ts)) as [|H]; [by eexists|].
    unfold BLOCKCHAIN_TIMESTAMP_CHECK_WINDOW in H. lia.
Qed.

Lemma stored_at l0 e l1 db : represents_blocks ((l0 ++ [e]) ++ l1) db ->
  Database.get_block_height db (e_hash e) = Some (length l0) /\ get_block_hash_from_height db (length l0) = Some (e_hash e) /\
  get_block_cumulative_difficulty db (length l0) = Some (e_difficulty e).
Proof.
  intros Hrep. assert (E : ((l0 ++ [e]) ++ l1) !! length l0 = Some e) by (rewrite <- app_assoc; by apply list_lookup_middle).
  split; [apply (rp_heights _ _ Hrep); by rewrite E|]. rewrite (stored_hash_at _ _ Hrep), (stored_difficulty _ _ Hrep), E. done.
Qed.

Lemma connection_wp l alt b s E : Inv l s -> Forall (fun x => alternative_ok x.2) alt ->
  wp (connection_timestamps b alt) (fun r s' => s' = s /\
    (r <> None -> exists l0 e l1 height work, branches l alt b l0 e l1 height work)) E s.
Proof.
  intros HI Hok. pose proof (Inv_rep _ _ HI) as Hrep. unfold connection_timestamps. apply wp_bind, wp_state.
  set (ts := map _ (rev alt)). destruct alt as [|[h front] rest] eqn:Ealt; [|rewrite <- Ealt; apply Forall_cons in Hok as [[_ Hpos] _]; cbn [snd] in Hpos].
  - destruct (block_exists (m_db s) _) eqn:Eb; cbn [negb]; [|by apply wp_ret].
    destruct (block_exists_split _ _ _ Hrep Eb) as (l0 & e & l1 & -> & He). destruct (stored_at _ _ _ _ Hrep) as (Sh & _ & _). rewrite <- He.
    apply wp_bind. eapply wp_reads; [exact Sh|].
    destruct (complete_timestamps_total _ _ (length l0) ts Hrep) as [[r ts'] Ec]; [rewrite !length_app; cbn; lia|].
    apply wp_bind. eapply wp_reads; [exact Ec|]. apply wp_ret. split; [done|]. intros _.
    exists l0, e, l1, (S (length l0)), (e_difficulty e). by split.
  - rewrite (rp_height _ _ Hrep). destruct (Nat.ltb_spec (bei_height front) (length l)) as [Hlt|Hlt]; cbn [negb]; [|by apply wp_ret].
    destruct (block_exists (m_db s) _) eqn:Eb; cbn [negb]; [|by apply wp_ret].
    destruct (block_exists_split _ _ _ Hrep Eb) as (l0 & e & l1 & -> & He). destruct (stored_at _ _ _ _ Hrep) as (Sh & Shh & _).
    destruct (bei_height front) as [|hf] eqn:Ehf; [lia|].
    destruct (lookup_lt_is_Some_2 ((l0 ++ [e]) ++ l1) hf) as [e' He']; [lia|].
    apply wp_bind. eapply wp_reads; [rewrite (stored_hash_at _ _ Hrep), He'; done|].
    destruct (bool_decide _) eqn:Eh; cbn [negb]; [|by apply wp_ret]. apply bool_decide_eq_true in Eh.
    assert (Hidx : hf = length l0).
    { eapply (hash_height _ _ _ _ e' e Hrep He'); [rewrite <- app_assoc; by apply list_lookup_middle|congruence]. }
    rewrite <- He. apply wp_bind. eapply wp_reads; [exact Sh|].
    destruct (complete_timestamps_total _ _ (length l0) ts Hrep) as [[r ts'] Ec]; [rewrite !length_app; cbn; lia|].
    apply wp_bind. eapply wp_reads; [exact Ec|]. apply wp_ret. split; [done|]. intros _. subst alt.
    destruct (last ((h, front) :: rest)) as [[hl el]|] eqn:El; [|by apply last_None in El].
    exists l0, e, l1, (S (bei_height el)), (cumulative_difficulty el). split; rewrite ?El; try done; cbn [head snd]; congruence.
Qed.

Lemma parent_info_wp l alt b l0 e l1 height work s Q E : Inv l s -> branches l alt b l0 e l1 height work ->
  Q (height, work) s -> wp (parent_info b alt) Q E s.
Proof.
  intros HI [Hl Hp _ Hh Hw] HQ. pose proof (Inv_rep _ _ HI) as Hrep. unfold parent_info. destruct (last alt) as [[h x]|] eqn:Ea.
  - apply wp_ret. cbn in Hh, Hw. congruence.
  - apply last_None in Ea as ->. cbn in Hp. subst. destruct (stored_at _ _ _ _ Hrep) as (Sh & _ & Sd). rewrite Hp.
    apply wp_bind. eapply wp_reads; [exact Sh|]. apply wp_bind. eapply wp_reads; [exact Sd|]. by apply wp_ret.
Qed.

(** A block of another branch is refused, and nothing changes, or it is recorded with
    its height, its work and its place, and the switch is considered. *)
Lemma add_alternative_wp switch b id bvc alt l s Q (E : error -> Blockchain -> Prop) : Inv l s -> Forall (fun x => alternative_ok x.2) alt ->
  (forall bvc', bvc' = bvc \/ bvc' = set_failed bvc -> Q (false, bvc') s) ->
  (forall l0 e l1 height work, branches l alt b l0 e l1 height work ->
    get_next_difficulty_for_alternative_chain ndebug (m_db s) alt.*2 height = None -> E Abort s) ->
  (forall l0 e l1 height work d is_a_checkpoint, branches l alt b l0 e l1 height work ->
    get_next_difficulty_for_alternative_chain ndebug (m_db s) alt.*2 height = Some d -> d <> 0 ->
    prevalidate_miner_transaction b (Z.of_nat height) = true ->
    Checkpoints.check_block (m_checkpoints s) (Z.of_nat height) id = (true, is_a_checkpoint) ->
    m_alternative_chains s !! id = None ->
    let bei := MkExtended b height 0 (work +w d) 0 in
    wp (if is_a_checkpoint || (total_work l <? work +w d) then
          r ← switch (alt ++ [(id, bei)]) is_a_checkpoint;
          ret (r : bool, if r : bool then set_added true bvc else set_failed bvc)
        else ret (true, bvc)) Q E (set_alternative (<[id := bei]> (m_alternative_chains s)) s)) ->
  wp (add_alternative_block ndebug switch b id bvc alt) Q E s.
Proof.
  intros HI Hok Hno Habort Hyes. pose proof (Inv_rep _ _ HI) as Hrep. unfold add_alternative_block. apply wp_bind.
  eapply wp_mono; [by apply (connection_wp l alt b s E)| |done]. intros ts s' [-> Hbr]. destruct ts as [ts|]; [|apply wp_ret; auto].
  destruct Hbr as (l0 & e & l1 & height & work & Hbr); [done|]. destruct (check_timestamps ts b).1; cbn [negb]; [|apply wp_ret; auto].
  apply wp_bind, wp_state, wp_bind. eapply parent_info_wp; [done..|].
  destruct (Checkpoints.check_block _ _ id) as [[|] ck] eqn:Ec; cbn [negb]; [|apply wp_ret; auto].
  apply wp_bind, wp_need; [|by eapply Habort]. intros d Ed. destruct (Z.eqb_spec d 0) as [|Hd]; [apply wp_ret; auto|].
  destruct (Difficulty.check_hash _ _); cbn [negb]; [|apply wp_ret; auto].
  destruct (prevalidate_miner_transaction b _) eqn:Ep; cbn [negb]; [|apply wp_ret; auto].
  pose proof (read_total_work _ _ Hrep) as Hw. rewrite (rp_height _ _ Hrep) in Hw. apply wp_bind. eapply wp_reads.
  { rewrite (rp_height _ _ Hrep). destruct (Nat.eqb_spec (length l) 0) as [H0|_]; [|exact Hw].
    rewrite (br_chain _ _ _ _ _ _ _ _ Hbr), !length_app in H0. cbn in H0. lia. }
  destruct (m_alternative_chains s !! id) as [x|] eqn:Ei; [apply wp_ret; auto|].
  rewrite bool_decide_false by (by intros [? ?]). apply wp_bind, wp_update. by eapply Hyes.
Qed.

(** ** The whole node *)

Lemma alternative_chain_elem fuel alts : forall h l x, alternative_chain fuel alts h = Some l -> x ∈ l -> alts !! x.1 = Some x.2.
Proof.
  induction fuel as [|fuel IH]; intros h l x; cbn; destruct (alts !! h) as [e|] eqn:Eh.
  - done.
  - intros [= <-] Hx. by apply elem_of_nil in Hx.
  - destruct (alternative_chain fuel alts _) as [l'|] eqn:E; [|done]. intros [= <-] [Hx|Hx]%elem_of_app; [by eapply IH|].
    apply list_elem_of_singleton in Hx as ->. done.
  - intros [= <-] Hx. by apply elem_of_nil in Hx.
Qed.
Lemma chain_blocks_ok l s : Inv l s -> Forall (fun e => block_ok (e_block e)) l.
Proof.
  intros HI. eapply Forall_impl; [apply (built_storable _ _ (ci_built _ _ HI))|]. intros e He. split; [apply He|apply (st_alias _ (se_miner _ He))].
Qed.

(** Some valid chain: what holds whenever a step may have moved to another branch. *)
Definition some_chain (s : Blockchain) : Prop := exists l, Inv l s.
Definition stopped (e : error) (s : Blockchain) : Prop := (e = Abort \/ e = Out_of_fuel) /\ some_chain s.

Lemma some_chain_erase h s : some_chain s -> some_chain (set_alternative (delete h (m_alternative_chains s)) s).
Proof.
  intros [l HI]. exists l. apply Inv_set_alternative; [done|]. intros id e [_ He]%lookup_delete_Some. by eapply (ci_alternative _ _ HI).
Qed.
Lemma Inv_record l s id e : Inv l s -> alternative_ok e -> Inv l (set_alternative (<[id := e]> (m_alternative_chains s)) s).
Proof.
  intros HI He. apply Inv_set_alternative; [done|]. intros id' e' [[_ <-]|[_ H]]%lookup_insert_Some; [done|]. by eapply (ci_alternative _ _ HI).
Qed.
Lemma branches_front l alt b l0 e l1 height work id bei : branches l alt b l0 e l1 height work -> bl bei = b ->
  exists x, head (alt ++ [(id, bei)]) = Some x /\ prev_id (Basic.header (bl x.2)) = e_hash e.
Proof. intros [_ Hp _ _ _] <-. destruct alt as [|x alt]; by eexists. Qed.
Lemma branches_height l alt b l0 e l1 height work : branches l alt b l0 e l1 height work -> (0 < height)%nat.
Proof. intros [_ _ _ -> _]. destruct (last alt); lia. Qed.

Lemma handle_alternative_wp now junk fuel : forall l b id bvc s, Inv l s -> block_ok b ->
  wp (handle_alternative_block ndebug now junk fuel b id bvc) (fun _ => some_chain) stopped s.
Proof.
  induction fuel as [|fuel IH]; intros l b id bvc s HI Hb; cbn [handle_alternative_block].
  { apply wp_raise. split; [by right|by exists l]. }
  apply wp_bind. destruct (forget_difficulties_run _ _ HI) as (c & Ec & HIc). eapply wp_run; [exact Ec|]. clear HI Ec. set (s0 := set_cache c s) in *.
  assert (Hsc : some_chain s0) by by exists l. destruct (_ =? 0); [by apply wp_ret|].
  apply wp_bind, wp_state. destruct (Checkpoints.is_alternative_block_allowed _ _ _); cbn [negb]; [|by apply wp_ret].
  destruct (_ || _); [|by apply wp_ret]. apply wp_bind, wp_need; [|split; [by right|done]]. intros alt Ealt.
  assert (Hok : Forall (fun x => alternative_ok x.2) alt).
  { apply Forall_forall. intros x Hx. eapply (ci_alternative _ _ HIc). by eapply alternative_chain_elem. }
  apply (add_alternative_wp _ b id bvc alt l s0); [done|done|by intros|by intros; split; [left|]|].
  intros l0 e l1 height work d ck Hbr _ _ _ _ _ bei. pose proof (branches_height _ _ _ _ _ _ _ _ Hbr) as Hpos.
  assert (Hbei : alternative_ok bei) by done. pose proof (Inv_record _ _ id bei HIc Hbei) as HI1. set (s1 := set_alternative _ s0) in *.
  destruct (ck || _); [|apply wp_ret; by exists l]. apply wp_bind.
  destruct (branches_front _ _ _ _ _ _ _ _ id bei Hbr eq_refl) as (x & Hx & Hpx). pose proof (br_chain _ _ _ _ _ _ _ _ Hbr) as ->.
  eapply wp_mono; [apply (switch_wp now junk (handle_alternative_block ndebug now junk fuel) l0 e l1 _ x ck s1 some_chain stopped HI1 Hx Hpx)| |done].
  - apply Forall_app_2; [eapply Forall_impl; [exact Hok|by intros y [? _]]|by apply Forall_singleton].
  - pose proof (chain_blocks_ok _ _ HI1) as H. by apply Forall_app in H as [_ H].
  - intros new s2 _ HI2 _. destruct ck; [apply wp_ret; by eexists|].
    pose proof (chain_blocks_ok _ _ HI1) as H. apply Forall_app in H as [_ H]. assert (Hbs : Forall block_ok (e_block <$> l1)) by by rewrite Forall_fmap.
    assert (Hs2 : some_chain s2) by by eexists. clear HI2. revert s2 Hs2 Hbs. generalize (e_block <$> l1). intros bs.
    induction bs as [|b' bs IHbs]; intros s2 [l2 HI2] Hbs; cbn [for_each]; [by exists l2|]. apply Forall_cons in Hbs as [Hb' Hbs].
    apply wp_bind, wp_bind. eapply wp_mono; [by apply (IH l2 b')| |done]. intros r s3 Hs3. apply wp_ret. by apply IHbs.
  - intros h s2. apply some_chain_erase.
  - intros h s2 [l2 HI2]. eapply wp_mono; [by apply reorganize_wp| |done]. intros r s3 [_ ?]. by exists l2.
  - intros s2 [(l2 & HI2 & _)|(l2 & HI2 & _)]; (split; [by left|by eexists]).
  - intros [|] s2 H; apply wp_ret; [done|]. destruct H as (l2 & HI2 & _). by exists l2.
Qed.

Lemma add_new_block_wp now junk l b bvc s : Inv l s -> block_ok b -> m_verifivation_failed bvc = false ->
  wp (add_new_block ndebug now junk b bvc) (fun _ => some_chain) stopped s.
Proof.
  intros HI Hb Hbvc. unfold add_new_block. apply wp_bind, wp_state. destruct (have_block s _); [apply wp_ret; by exists l|].
  apply wp_bind. eapply wp_reads; [apply (read_tail _ _ (Inv_rep _ _ HI))|]. destruct (negb _); [by eapply handle_alternative_wp|].
  eapply wp_mono; [by apply handle_block_wp| |].
  - intros [[|] bvc'] s' [_ H]; cbn [fst snd] in H; [|exists l; apply H]. destruct H as (_ & e & _ & _ & HI'). by eexists.
  - intros er s' (-> & _ & HI' & _). split; [by left|by exists l].
Qed.

(** What happens to a node: blocks and transactions arrive, the tables are filled
    ahead of a batch of blocks, checkpoints are loaded.  The result of an operation
    does not matter, nor when the pool is cleaned up. *)
Inductive node_step (s : Blockchain) : Blockchain -> Prop :=
  | Step_block now junk b bvc : block_ok b -> m_verifivation_failed bvc = false -> node_step s (add_new_block ndebug now junk b bvc s).1
  | Step_tx now junk tx bsize tvc kept rel : storable tx -> encoded_size tx bsize -> NoDup (TxPool.tx_images tx) ->
      node_step s (set_pool (TxPool.add_tx (chain_view now s) now junk tx (TxPool.tx_hash tx) bsize tvc kept rel (m_tx_pool s)).1.2 s)
  | Step_remove_tx id tx bsize fee rel p : TxPool.take_tx id (m_tx_pool s) = Some (tx, bsize, fee, rel, p) -> node_step s (set_pool p s)
  | Step_tables pows scan : (forall id h, pows !! id = Some h -> pow_of_id id h) ->
      node_step s (MkChain (m_db s) (m_tx_pool s) (m_cache s) (m_current_block_cumul_sz_limit s) (m_alternative_chains s)
        (m_invalid_blocks s) (m_checkpoints s) pows scan)
  | Step_checkpoints points :
      node_step s (MkChain (m_db s) (m_tx_pool s) (m_cache s) (m_current_block_cumul_sz_limit s) (m_alternative_chains s)
        (m_invalid_blocks s) points (m_blocks_longhash_table s) (m_scan_table s)).

(** A node with an empty database. *)
Definition fresh_node (hf : HardFork.HardFork) (points : Checkpoints.points) : Blockchain :=
  MkChain (empty_db ∅ ∅ hf) (TxPool.MkPool ∅ ∅ ∅ [] ∅) (MkCache [] [] 0) 0 ∅ ∅ points ∅ ∅.

Lemma fresh_Inv hf points : HardFork.Inv hf -> Inv [] (fresh_node hf points).
Proof.
  intros Hhf. destruct (empty_built ∅ hf) as [Hb Hc]. split; cbn; try done.
  - by left.
  - split; [apply TxPool.empty_pool_ok|]. cbn. intros id d Hd. by rewrite lookup_empty in Hd.
  - split; [done|]. cbn. intros i Hi. lia.
Qed.
Lemma node_step_Inv s s' : some_chain s -> node_step s s' -> some_chain s'.
Proof.
  intros [l HI] [now junk b bvc Hb Hbvc|now junk tx bsize tvc kept rel Hst Hsz Hnd|id tx bsize fee rel p E|pows scan Hp|points].
  - pose proof (add_new_block_wp now junk l b bvc s HI Hb Hbvc) as H. unfold wp in H.
    destruct (add_new_block _ _ _ _ _ s) as [s2 [er|r]]; [apply H|exact H].
  - exists l. apply Inv_set_pool; [done|]. apply add_tx_good; [apply HI|done..].
  - exists l. apply Inv_set_pool; [done|]. by destruct (take_tx_good _ _ _ _ _ _ _ (ci_pool _ _ HI) E) as [? _].
  - exists l. destruct HI. by split.
  - exists l. destruct HI. by split.
Qed.
Lemma node_steps_Inv s s' : rtc node_step s s' -> some_chain s -> some_chain s'.
Proof. induction 1 as [|s1 s2 s3 Hstep _ IH]; [done|]. intros H. by apply IH, (node_step_Inv s1). Qed.

(** Whatever blocks and transactions arrive at a node that starts with an empty
    database, in whatever order and with whatever branches, switches between them and
    failures to switch, the database always holds a chain of blocks that satisfy
    the rules: each builds on the one before it, has the proof of work of the
    difficulty the blocks before it give, a timestamp not before the median, a miner
    transaction that creates what the rules allow, and transactions whose inputs were
    checked against the outputs of the blocks before it. *)
Theorem chain_always_valid hf points s : HardFork.Inv hf -> rtc node_step (fresh_node hf points) s ->
  exists l, built l (m_db s) /\ represents_blocks l (m_db s) /\ valid_chain l.
Proof.
  intros Hhf Hs. assert (H : some_chain s) by (eapply node_steps_Inv; [exact Hs|]; exists []; by apply fresh_Inv).
  destruct H as [l HI]. exists l. split_and!; [apply HI|by apply Inv_rep|apply HI].
Qed.


End Rules.

(** ** A concrete history *)

(** Every block has the proof of work that any difficulty accepts. *)
Definition sample_pow : PowHash := {| cn_pow_hash _ := repeat 0 32 |}.
Definition sample_coinbase (height : Z) : transaction :=
  MkTransaction (MkPrefix 2 (height + 10) [In_gen (MkTxinGen height)] [MkTxOut 5000 (To_key (repeat 7 32))] [1; 7]) [] rct_null.
Definition sample_block (height time : Z) (prev : hash) : block :=
  MkBlock (MkHeader 1 1 (1546266600 + time) prev 7) (sample_coinbase height) [].
Definition sample_id (b : block) : hash := @block_id truncating_FastHash b.
Definition sample_first : block := sample_block 0 0 (repeat 0 32).
(** Two blocks on the first one, and a third on the second of them. *)
Definition sample_main : block := sample_block 1 100 (sample_id sample_first).
Definition sample_other : block := sample_block 1 200 (sample_id sample_first).
Definition sample_next : block := sample_block 2 300 (sample_id sample_other).
Definition sample_node : Blockchain := fresh_node HardFork.sample_fork [].
Definition sample_add (b : block) (s : Blockchain) : Blockchain * (error + bool * block_verification_context) :=
  @add_new_block truncating_FastHash sample_crypto TxVerify.sample_rct sample_pow true 1546270000 (0, null_hash) b new_bvc s.
Lemma sample_block_ok height time prev : 0 <= height < 1000 -> 0 <= time < 1000 -> is_hash prev ->
  @block_ok truncating_FastHash sample_crypto (sample_block height time prev).
Proof.
  intros Hh Ht Hp. assert (Hwf : wf_transaction (sample_coinbase height)).
  { split; [|split; [done|split; [done|by left]]]. wf_concrete; try done; unfold word; try lia. }
  split.
  - split; [wf_concrete; try apply Hp; unfold word; lia|]. split; [done|]. cbn. split; [constructor|]. words. lia.
  - intros a b c H. by vm_compute in H.
Qed.
Lemma sample_step b s : @block_ok truncating_FastHash sample_crypto b ->
  @node_step truncating_FastHash sample_crypto TxVerify.sample_rct sample_pow true s (sample_add b s).1.
Proof. intros Hb. exact (Step_block true s 1546270000 (0, null_hash) b new_bvc Hb eq_refl). Qed.
Lemma sample_blocks_ok : Forall (@block_ok truncating_FastHash sample_crypto) [sample_first; sample_main; sample_other; sample_next].
Proof.
  repeat apply Forall_cons_2; [..|apply Forall_nil_2]; (apply sample_block_ok; [lia|lia|]); by apply sample_hash.
Qed.
Definition sample_history : Blockchain := foldl (fun s b => (sample_add b s).1) sample_node [sample_first; sample_main; sample_other; sample_next].
Lemma sample_steps bs : forall s, Forall (@block_ok truncating_FastHash sample_crypto) bs ->
  rtc (@node_step truncating_FastHash sample_crypto TxVerify.sample_rct sample_pow true) s (foldl (fun s b => (sample_add b s).1) s bs).
Proof.
  induction bs as [|b bs IH]; intros s Hbs; [apply rtc_refl|]. apply Forall_cons in Hbs as [Hb Hbs].
  eapply rtc_l; [by apply sample_step|]. by apply IH.
Qed.

(** The node ends up on the longer branch. *)
Lemma chain_always_valid_witness :
  top_block_hash (m_db sample_history) = Some (sample_id sample_next) /\ m_height (m_db sample_history) = 3%nat /\
  exists l, @represents_blocks truncating_FastHash l (m_db sample_history) /\
    @valid_chain truncating_FastHash sample_crypto TxVerify.sample_rct sample_pow true l.
Proof.
  split; [vm_compute; reflexivity|]. split; [vm_compute; reflexivity|].
  destruct (@chain_always_valid truncating_FastHash sample_crypto TxVerify.sample_rct sample_pow true HardFork.sample_fork [] sample_history
    HardFork.sample_fork_Inv (sample_steps _ _ sample_blocks_ok)) as (l & _ & H1 & H2).
  by exists l.
Defined.


(** A checkpoint that the chain does not pass rolls the chain back inside a batch: the
    hard forks open a batch of their own, which throws, and the batch stays open. *)
Definition sample_fourth : block := sample_block 3 400 (sample_id sample_next).
Example checkpoint_rollback_throws :
  let s := (sample_add sample_fourth sample_history).1 in
  let '(s', r) := @check_against_checkpoints truncating_FastHash sample_crypto TxVerify.sample_rct sample_pow true 1546270000 (0, null_hash)
    [(3, repeat 1 32)] true s in
  r = inl (Exception DB_ERROR) /\ m_height (m_db s) = 4%nat /\ m_height (m_db s') = 1%nat /\ m_batch_active (m_db s') = true.
Proof. vm_compute. auto. Qed.

End ChainInvariant.
