(* ===== verification/ForkChoice.v ===== *)
(** * The choice between branches

    Which chain the node of [Blockchain] follows.  For blocks whose hashes do not
    collide, the height and the cumulative difficulty of a block are determined by
    the block, whatever branch it was recorded on and whatever happened since.  So
    [add_new_block] ends with a result, and it leaves the main chain only for a
    branch with more work. *)
From Stdlib Require Import SpecFloat.
From stdpp Require Import gmap sorting.
From S2P Require Import Prelude Keccak Median Difficulty HardFork Basic TxExtra FormatUtils Reward Checkpoints TxPool Database ChainRules TxVerify Blockchain ChainInvariant.
Import Basic TxExtra FormatUtils Reward Database ChainRules Blockchain ChainInvariant.
#[local] Set Warnings "-clear-no-such-hyp".

Module ForkChoice.

(** ** Paths of blocks *)

Lemma last_pair {A} (l l' : list A) x y : l ++ [x] = l' ++ [y] -> l = l' /\ x = y.
Proof. intros H. apply app_inj_2 in H as [-> [= ->]]; done. Qed.
Lemma sorted_lookup_lt (l : list Z) i j x y : StronglySorted Z.lt l -> l !! i = Some x -> l !! j = Some y -> (i < j)%nat -> x < y.
Proof.
  intros Hs Hi Hj Hij. apply (StronglySorted_app_1_elem_of Z.lt (take j l) (drop j l)); [by rewrite take_drop| |].
  - apply list_elem_of_lookup_2 with i. by rewrite lookup_take_lt by lia.
  - apply list_elem_of_lookup_2 with 0%nat. by rewrite lookup_drop, Nat.add_0_r.
Qed.

Definition tip `{FastHash} (bs : list block) : hash := default null_hash (block_id <$> last bs).
Definition work (ws : list (Z * Z)) : Z := default 0 (snd <$> last ws).

Lemma work_snoc ws w : work (ws ++ [w]) = w.2.
Proof. unfold work. by rewrite last_snoc. Qed.
Lemma tip_snoc `{FastHash} bs b : tip (bs ++ [b]) = block_id b.
Proof. unfold tip. by rewrite last_snoc. Qed.

Section Paths.
Context {HF : FastHash} {C : DbCrypto} {R : TxVerify.RctVerify} {P : PowHash}.
Variables (ndebug : bool).
(** The blocks there are, and the checkpoints. *)
Variables (U : block -> Prop) (points : Checkpoints.points).

(** Blocks from the first one on, with their timestamps and cumulative difficulties. *)
Inductive path : list block -> list (Z * Z) -> Prop :=
  | path_nil : path [] []
  | path_snoc bs ws b d : path bs ws -> U b -> prev_id (Basic.header b) = tip bs ->
      prevalidate_miner_transaction b (Z.of_nat (length bs)) = true -> difficulty_after ndebug ws = Some d -> d <> 0 ->
      path (bs ++ [b]) (ws ++ [(timestamp (Basic.header b), d +w work ws)]).

Lemma path_inv bs b w : path (bs ++ [b]) w -> exists ws d,
  w = ws ++ [(timestamp (Basic.header b), d +w work ws)] /\ path bs ws /\ U b /\ prev_id (Basic.header b) = tip bs /\
  prevalidate_miner_transaction b (Z.of_nat (length bs)) = true /\ difficulty_after ndebug ws = Some d /\ d <> 0.
Proof.
  inversion 1 as [E|bs' ws b' d Hp HU Hprev Hm Hd Hd0 E]; [by destruct bs|]. apply last_pair in E as [-> ->]. exists ws, d. done.
Qed.
Lemma path_length bs ws : path bs ws -> length bs = length ws.
Proof. induction 1; [done|]. rewrite !length_app. cbn. lia. Qed.
Lemma prevalidate_height b h : prevalidate_miner_transaction b h = true -> FormatUtils.get_block_height b = h.
Proof.
  unfold prevalidate_miner_transaction, FormatUtils.get_block_height. destruct (vin _) as [|[] [|]]; try done.
  intros H. apply andb_true_iff in H as [[H _]%andb_true_iff _]. by apply Z.eqb_eq.
Qed.
Lemma path_height bs b w : path (bs ++ [b]) w -> FormatUtils.get_block_height b = Z.of_nat (length bs).
Proof. intros (ws & d & _ & _ & _ & _ & Hm & _)%path_inv. by apply prevalidate_height. Qed.
Lemma path_U bs ws : path bs ws -> Forall U bs.
Proof. induction 1; [constructor|]. by apply Forall_app_2; [|constructor]. Qed.
Lemma path_prefix bs' : forall bs w, path (bs ++ bs') w -> exists ws ws', w = ws ++ ws' /\ path bs ws.
Proof.
  induction bs' as [|b bs' IH] using rev_ind; intros bs w H; [rewrite app_nil_r in H; exists w, []; by rewrite app_nil_r|].
  rewrite app_assoc in H. apply path_inv in H as (ws & d & -> & H & _). apply IH in H as (ws1 & ws2 & -> & H).
  eexists ws1, _. by rewrite <- app_assoc.
Qed.

Hypothesis no_collision : forall b b', U b -> U b' -> block_id b = block_id b' -> b = b'.

(** A path is determined by its last block. *)
Lemma path_unique bs ws : path bs ws -> forall bs' ws', path bs' ws' -> last bs = last bs' -> bs = bs' /\ ws = ws'.
Proof.
  induction 1 as [|bs ws b d Hp IH HU Hprev Hm Hd Hd0]; intros bs' ws' H' Hlast.
  { symmetry in Hlast. apply last_None in Hlast as ->. inversion H' as [|? ? ? ? ? ? ? ? ? ? E]; [done|]. by destruct bs. }
  rewrite last_snoc in Hlast. destruct bs' as [|b' bs' _] using rev_ind; [done|]. rewrite last_snoc in Hlast. injection Hlast as <-.
  apply path_inv in H' as (ws1 & d1 & -> & Hp1 & _ & Hprev1 & Hm1 & Hd1 & _).
  assert (Hlen : length bs = length bs') by (apply prevalidate_height in Hm, Hm1; lia).
  destruct (IH bs' ws1 Hp1) as [<- <-]; [|split; [done|]; congruence]. rewrite Hprev in Hprev1.
  destruct bs as [|x bs _] using rev_ind; destruct bs' as [|y bs' _] using rev_ind; try (rewrite !length_app in Hlen; cbn in Hlen; lia); [done|].
  rewrite !tip_snoc in Hprev1. rewrite !last_snoc. f_equal. apply no_collision; [| |done].
  - apply path_inv in Hp as (? & ? & _ & _ & ? & _). done.
  - apply path_inv in Hp1 as (? & ? & _ & _ & ? & _). done.
Qed.

(** ** Work *)

Hypothesis no_overflow : forall bs ws d, path bs ws -> difficulty_after ndebug ws = Some d -> d + work ws < 2 ^ 64.

Lemma difficulty_nonneg ws d : difficulty_after ndebug ws = Some d -> 0 <= d.
Proof.
  unfold difficulty_after, Difficulty.next_difficulty. intros H. repeat (case_match; try done); simplify_option_eq; try lia.
  all: unfold Difficulty.work_per_timespan; repeat case_match; reflect_bools; lia.
Qed.
Lemma path_work bs ws : path bs ws -> 0 <= work ws < 2 ^ 64 /\ StronglySorted Z.lt ws.*2 /\ Forall (fun w => 0 <= w <= work ws) ws.*2.
Proof.
  induction 1 as [|bs ws b d Hp (Hw & Hs & Hf) HU Hprev Hm Hd Hd0].
  { split; [done|]. split; constructor. }
  pose proof (difficulty_nonneg _ _ Hd). pose proof (no_overflow _ _ _ Hp Hd).
  rewrite work_snoc. cbn [snd]. rewrite wrap_small by (words; lia). split; [lia|]. rewrite fmap_app. cbn [fmap list_fmap snd]. split.
  - apply StronglySorted_app. split_and!; [|done|repeat constructor]. intros x y Hx Hy%list_elem_of_singleton. subst y.
    rewrite Forall_forall in Hf. apply Hf in Hx. lia.
  - apply Forall_app_2; [|repeat constructor; lia]. eapply Forall_impl; [exact Hf|]. cbn. lia.
Qed.
(** The assertions of [next_difficulty] hold. *)
Lemma difficulty_total bs ws : path bs ws -> exists d, difficulty_after ndebug ws = Some d.
Proof.
  intros Hp. destruct (path_work _ _ Hp) as (Hw & Hs & Hf). unfold difficulty_after. set (win := difficulty_window ws).
  assert (Hlen : (length win <= 29)%nat).
  { unfold win, difficulty_window. rewrite length_drop. change Difficulty.DIFFICULTY_BLOCKS_COUNT with 29%nat. lia. }
  assert (Hl : length win.*1 = length win.*2) by by rewrite !length_fmap.
  assert (Hs' : StronglySorted Z.lt win.*2).
  { unfold win, difficulty_window. rewrite fmap_drop. eapply StronglySorted_app_1_r. by rewrite take_drop. }
  assert (Hf' : Forall (fun w => 0 <= w < 2 ^ 64) win.*2).
  { unfold win, difficulty_window. rewrite fmap_drop. apply Forall_drop. eapply Forall_impl; [exact Hf|]. cbn. lia. }
  destruct (decide (2 <= length win)%nat) as [H2|H2].
  - pose proof (Difficulty.cut_bounds_ok (length win) ltac:(lia)) as Hc. destruct (Difficulty.cut_bounds (length win)) as [b e] eqn:Ecut.
    destruct Hc as (Hbe & He & _). destruct (lookup_lt_is_Some_2 win.*2 b) as [wb Hwb]; [rewrite length_fmap; lia|].
    destruct (lookup_lt_is_Some_2 win.*2 (e - 1)) as [we Hwe]; [rewrite length_fmap; lia|].
    assert (Hlt : wb < we) by (eapply (sorted_lookup_lt win.*2 b (e - 1)); [done..|lia]).
    rewrite Forall_forall in Hf'. pose proof (Hf' wb (list_elem_of_lookup_2 _ _ _ Hwb)). pose proof (Hf' we (list_elem_of_lookup_2 _ _ _ Hwe)).
    destruct (Difficulty.next_difficulty_eq ndebug win.*1 win.*2 Difficulty.DIFFICULTY_TARGET b e wb we) as (adj & _ & _ & E);
      rewrite ?length_fmap; try done; try lia. by eexists.
  - exists 1. unfold Difficulty.next_difficulty, Difficulty.assert_. rewrite !length_fmap. change Difficulty.DIFFICULTY_BLOCKS_COUNT with 29%nat.
    destruct (Nat.ltb_spec 29 (length win)); [lia|]. rewrite !length_fmap, Nat.eqb_refl, orb_true_r. cbn [mbind option_bind].
    by destruct (Nat.leb_spec (length win) 1); [|lia].
Qed.

(** ** The chain and the other branches *)

Lemma main_path l : valid_chain ndebug l -> Forall (fun e => U (e_block e)) l -> path (e_block <$> l) (e_work <$> l).
Proof.
  induction l as [|e l IH] using rev_ind; intros Hv HU; [constructor|]. apply Forall_app in HU as [HU He]. rewrite Forall_singleton in He.
  pose proof (Hv (length l) e ltac:(by apply list_lookup_middle)) as Hb. rewrite take_app_length in Hb.
  destruct Hb as [Hprev (d & pow & Hd & Hd0 & _ & _ & Hw) _ Hm _ _ _ _]. rewrite !fmap_app. cbn [fmap list_fmap].
  replace (e_work e) with (timestamp (Basic.header (e_block e)), d +w work (e_work <$> l)).
  - apply path_snoc; [|exact He| | |exact Hd|exact Hd0].
    + apply IH; [by eapply valid_chain_app|done].
    + rewrite Hprev. unfold tail_hash, tip. rewrite fmap_last. by destruct (last l).
    + by rewrite length_fmap.
  - unfold e_work at 2, e_timestamp. rewrite Hw. unfold total_work, work. rewrite fmap_last. by destruct (last l).
Qed.
Lemma total_work_eq l : total_work l = work (e_work <$> l).
Proof. unfold total_work, work. rewrite fmap_last. by destruct (last l). Qed.

(** What is recorded of a block of another branch. *)
Definition known (id : hash) (e : block_extended_info) : Prop :=
  id = block_id (bl e) /\ exists bs ws, path (bs ++ [bl e]) (ws ++ [bei_work e]) /\ bei_height e = length bs.

Record tracked (l : list entry) (s : Blockchain) : Prop := {
  tr_inv : Inv ndebug l s;
  tr_blocks : Forall (fun e => U (e_block e)) l;
  tr_known : forall id e, m_alternative_chains s !! id = Some e -> known id e;
  tr_points : m_checkpoints s = points
}.

Lemma tracked_path l s : tracked l s -> path (e_block <$> l) (e_work <$> l).
Proof. intros H. apply main_path; [apply (tr_inv _ _ H)|apply (tr_blocks _ _ H)]. Qed.

(** The entry of the parent is one lower. *)
Lemma known_parent id e id' e' : known id e -> known id' e' -> prev_id (Basic.header (bl e)) = id' -> (0 < bei_height e)%nat ->
  bei_height e = S (bei_height e').
Proof.
  intros (_ & bs & ws & Hp & ->) (-> & bs' & ws' & Hp' & ->) Hprev Hpos.
  apply path_inv in Hp as (ws1 & d & _ & Hp & _ & Ht & _). rewrite Hprev in Ht.
  destruct bs as [|x bs _] using rev_ind; [cbn in Hpos; lia|]. rewrite tip_snoc in Ht.
  assert (x = bl e') as ->.
  { apply no_collision; [| |done].
    - apply path_inv in Hp as (? & ? & _ & _ & ? & _). done.
    - apply path_inv in Hp' as (? & ? & _ & _ & ? & _). done. }
  destruct (path_unique _ _ Hp _ _ Hp') as [E _]; [by rewrite !last_snoc|]. apply last_pair in E as [-> _]. rewrite length_app. cbn. lia.
Qed.

(** Walking up a branch ends: the heights decrease. *)
Lemma alternative_chain_total l s : tracked l s -> forall h, exists alt,
  alternative_chain (size (m_alternative_chains s)) (m_alternative_chains s) h = Some alt.
Proof.
  intros Ht h. set (alts := m_alternative_chains s). set (below := fun x : block_extended_info =>
    filter (fun p : hash * block_extended_info => (bei_height p.2 <= bei_height x)%nat) alts).
  assert (H : forall fuel h, (forall x, alts !! h = Some x -> (size (below x) <= fuel)%nat) -> exists alt, alternative_chain fuel alts h = Some alt).
  { induction fuel as [|fuel IH]; intros h' Hf; cbn [alternative_chain]; destruct (alts !! h') as [x|] eqn:Ex; try by eexists.
    - specialize (Hf x eq_refl). assert (Hx : below x !! h' = Some x) by (apply map_lookup_filter_Some; by split; cbn).
      assert (H0 : size (below x) = 0%nat) by lia. apply map_size_empty_iff in H0. by rewrite H0 in Hx.
    - destruct (IH (prev_id (Basic.header (bl x)))) as [alt ->]; [|by eexists]. intros y Ey. specialize (Hf x eq_refl).
      assert (Hh : bei_height x = S (bei_height y)).
      { eapply known_parent; [by apply (tr_known _ _ Ht h')|by apply (tr_known _ _ Ht (prev_id (Basic.header (bl x))))|done|].
        by apply (ci_alternative _ _ _ (tr_inv _ _ Ht) h'). }
      assert (Hx : below x !! h' = Some x) by (apply map_lookup_filter_Some; by split; cbn).
      enough ((size (below y) < size (below x))%nat) by lia. apply map_subset_size. split.
      + apply map_subseteq_spec. intros k z [Hz Hle]%map_lookup_filter_Some. cbn in Hle. apply map_lookup_filter_Some. split; [done|]. cbn. lia.
      + intros Hsub. apply (map_subseteq_spec _ _) with (1 := Hsub) in Hx. apply map_lookup_filter_Some in Hx as [_ Hle]. cbn in Hle. lia. }
  apply H. intros x _. apply map_subseteq_size, map_filter_subseteq.
Qed.
Lemma known_U id e : known id e -> U (bl e).
Proof. intros (_ & bs & ws & Hp & _). by apply path_inv in Hp as (? & ? & _ & _ & ? & _). Qed.

(** The blocks of a branch, after the part of the main chain it leaves at [e]. *)
Lemma alternative_path l s l0 e l1 : tracked l s -> l = (l0 ++ [e]) ++ l1 -> forall fuel h alt,
  alternative_chain fuel (m_alternative_chains s) h = Some alt ->
  (forall x, head alt = Some x -> prev_id (Basic.header (bl x.2)) = e_hash e) ->
  path ((e_block <$> l0 ++ [e]) ++ (bl <$> alt.*2)) ((e_work <$> l0 ++ [e]) ++ (bei_work <$> alt.*2)) /\
  (forall x, last alt = Some x -> x.1 = h /\ known x.1 x.2).
Proof.
  intros Ht ->. assert (Hmain : path (e_block <$> l0 ++ [e]) (e_work <$> l0 ++ [e])).
  { pose proof (tracked_path _ _ Ht) as Hp. apply main_path.
    - eapply valid_chain_app, (ci_valid _ _ _ (tr_inv _ _ Ht)).
    - pose proof (tr_blocks _ _ Ht) as HU. by apply Forall_app in HU as [HU _]. }
  induction fuel as [|fuel IH]; intros h alt; cbn [alternative_chain]; destruct (m_alternative_chains s !! h) as [x|] eqn:Ex; try done.
  1,3: intros [= <-] _; cbn; rewrite !app_nil_r; done.
  destruct (alternative_chain fuel _ _) as [alt'|] eqn:Ealt; [|done]. intros [= <-] Hhead. cbn [mbind option_bind] in *.
  pose proof (tr_known _ _ Ht _ _ Ex) as Hk. destruct Hk as (-> & bs & ws & Hp & Hh). pose proof (ci_alternative _ _ _ (tr_inv _ _ Ht) _ _ Ex) as [_ Hpos].
  split; [|intros y; rewrite last_snoc; intros [= <-]; split; [done|by apply (tr_known _ _ Ht)]].
  destruct (IH _ _ Ealt) as [Hp' Hlast']; [intros y Hy; apply Hhead; by destruct alt'|].
  apply path_inv in Hp as (ws1 & d & Ews & Hbs & HU & Ht' & Hm & Hd & Hd0). apply last_pair in Ews as [-> Ew].
  destruct (path_unique _ _ Hp' _ _ Hbs) as [Eb Ew'].
  { destruct bs as [|y bs _] using rev_ind; [cbn in Hh; lia|]. rewrite last_snoc, last_app.
    rewrite tip_snoc in Ht'. pose proof (path_inv _ _ _ Hbs) as (_ & _ & _ & _ & HUy & _).
    destruct (last (bl <$> alt'.*2)) as [z|] eqn:El.
    - rewrite !fmap_last in El. destruct (last alt') as [[hz ez]|]; [|done]. injection El as <-. cbn [snd].
      destruct (Hlast' _ eq_refl) as [E1 Hk]. f_equal. apply no_collision; [by eapply known_U|done|]. destruct Hk as [E2 _]. cbn in *. congruence.
    - rewrite !fmap_last in El. destruct alt' as [|z alt']; [|by destruct (last (z :: alt')) eqn:E; [|apply last_None in E]].
      specialize (Hhead _ eq_refl). cbn [snd] in Hhead. rewrite fmap_app. cbn [fmap list_fmap]. rewrite last_snoc. f_equal.
      apply no_collision; [|done|unfold e_hash in Hhead; unfold block_id at 1; congruence].
      apply path_U in Hmain. rewrite fmap_app in Hmain. apply Forall_app in Hmain as [_ Hmain]. by apply Forall_cons in Hmain as [? _]. }
  rewrite (fmap_app snd), (fmap_app bl), (fmap_app bei_work), !app_assoc, Eb, Ew'. cbn [fmap list_fmap snd]. rewrite Ew. by apply path_snoc.
Qed.

(** A block that is offered on top of a branch. *)
Section Branch.
Variables (l : list entry) (s : Blockchain) (fuel : nat) (alt : list (hash * block_extended_info)) (b : block)
  (l0 : list entry) (e : entry) (l1 : list entry) (height : nat) (wk : Z).
Hypothesis Ht : tracked l s.
Hypothesis Halt : alternative_chain fuel (m_alternative_chains s) (prev_id (Basic.header b)) = Some alt.
Hypothesis Hbr : branches l alt b l0 e l1 height wk.

Let bs := (e_block <$> l0 ++ [e]) ++ (bl <$> alt.*2).
Let ws := (e_work <$> l0 ++ [e]) ++ (bei_work <$> alt.*2).

Lemma branch_head x : head alt = Some x -> prev_id (Basic.header (bl x.2)) = e_hash e.
Proof. intros Hx. destruct Hbr as [_ Hp _ _ _]. by rewrite Hx in Hp. Qed.
Lemma branch_path : path bs ws.
Proof. apply (alternative_path l s l0 e l1 Ht (br_chain _ _ _ _ _ _ _ _ Hbr) fuel _ alt Halt branch_head). Qed.
Lemma branch_tip : tip bs = prev_id (Basic.header b).
Proof.
  pose proof (alternative_path l s l0 e l1 Ht (br_chain _ _ _ _ _ _ _ _ Hbr) fuel _ alt Halt branch_head) as [_ Hlast].
  destruct Hbr as [_ Hp _ _ _]. unfold bs. destruct alt as [|x alt' _] using rev_ind.
  - cbn in *. rewrite app_nil_r, fmap_app. cbn [fmap list_fmap]. rewrite tip_snoc. by symmetry.
  - rewrite (fmap_app snd), (fmap_app bl), app_assoc. cbn [fmap list_fmap]. rewrite tip_snoc. destruct (Hlast x) as [<- [E _]]; [by rewrite last_snoc|done].
Qed.
Lemma branch_work : work ws = wk.
Proof.
  destruct Hbr as [_ _ _ _ Hw]. unfold ws. destruct alt as [|x alt' _] using rev_ind.
  - cbn in *. rewrite app_nil_r, fmap_app. cbn [fmap list_fmap]. by rewrite work_snoc.
  - rewrite last_snoc in Hw. rewrite (fmap_app snd), (fmap_app bei_work), app_assoc. cbn [fmap list_fmap]. by rewrite work_snoc.
Qed.
Lemma branch_length : length bs = height.
Proof.
  pose proof branch_path as Hp. unfold bs, ws in *. rewrite length_app, !length_fmap, length_app. cbn [length]. rewrite Nat.add_1_r.
  destruct Hbr as [_ _ _ Hh _]. destruct alt as [|x alt' _] using rev_ind; [cbn in *; lia|]. rewrite last_snoc in Hh.
  rewrite !fmap_app, !app_assoc in Hp. cbn [fmap list_fmap] in Hp.
  assert (Hx : m_alternative_chains s !! x.1 = Some x.2).
  { eapply alternative_chain_elem; [exact Halt|]. apply elem_of_app. right. by apply list_elem_of_singleton. }
  destruct (tr_known _ _ Ht _ _ Hx) as (_ & bs1 & ws1 & Hp1 & E1). destruct (path_unique _ _ Hp _ _ Hp1) as [E _]; [by rewrite !last_snoc|].
  apply last_pair in E as [E _]. rewrite Hh, E1, <- E, !length_app, !length_fmap. cbn. lia.
Qed.
Lemma branch_difficulty : get_next_difficulty_for_alternative_chain ndebug (m_db s) alt.*2 height = difficulty_after ndebug ws.
Proof.
  assert (Hsplit : split_height alt.*2 height = S (length l0)).
  { destruct Hbr as [_ _ Hf Hh _]. destruct alt as [|[h x] alt']; [by cbn in *|]. done. }
  pose proof (alternative_difficulty ndebug l (m_db s) (Inv_rep _ _ _ (tr_inv _ _ Ht)) alt.*2 height) as H. cbv zeta in H.
  rewrite Hsplit in H. rewrite H.
  - unfold ws. rewrite (br_chain _ _ _ _ _ _ _ _ Hbr). do 3 f_equal. rewrite take_app_le, take_ge by (rewrite length_app; cbn; lia). done.
  - rewrite (br_chain _ _ _ _ _ _ _ _ Hbr), !length_app. cbn. lia.
Qed.

Lemma branch_not_aborted : get_next_difficulty_for_alternative_chain ndebug (m_db s) alt.*2 height <> None.
Proof. rewrite branch_difficulty. destruct (difficulty_total _ _ branch_path) as [d ->]. done. Qed.
(** The block is recorded with its height and its work. *)
Lemma branch_extended d : U b -> get_next_difficulty_for_alternative_chain ndebug (m_db s) alt.*2 height = Some d -> d <> 0 ->
  prevalidate_miner_transaction b (Z.of_nat height) = true ->
  path (bs ++ [b]) (ws ++ [bei_work (MkExtended b height 0 (wk +w d) 0)]).
Proof.
  intros HU Hd Hd0 Hm. rewrite branch_difficulty in Hd. unfold bei_work. cbn [bl cumulative_difficulty]. rewrite <- branch_work, Z.add_comm.
  apply path_snoc; [apply branch_path|done|by rewrite branch_tip|by rewrite branch_length|done..].
Qed.
Lemma branch_known d : U b -> get_next_difficulty_for_alternative_chain ndebug (m_db s) alt.*2 height = Some d -> d <> 0 ->
  prevalidate_miner_transaction b (Z.of_nat height) = true -> known (block_id b) (MkExtended b height 0 (wk +w d) 0).
Proof. intros HU Hd Hd0 Hm. split; [done|]. exists bs, ws. split; [by apply branch_extended|]. symmetry. apply branch_length. Qed.
End Branch.

(** ** Steps *)

Lemma tracked_kept l s l' s' : tracked l s -> kept s s' -> Inv ndebug l' s' -> Forall (fun e => U (e_block e)) l' -> tracked l' s'.
Proof. intros [_ _ Hk Hp] [Ha Hc] HI HU. split; [done..| |congruence]. by rewrite Ha. Qed.
Lemma tracked_erase l s h : tracked l s -> tracked l (set_alternative (delete h (m_alternative_chains s)) s).
Proof.
  intros [HI HU Hk Hp]. split; [|done| |done].
  - apply Inv_set_alternative; [done|]. intros id e [_ He]%lookup_delete_Some. by eapply (ci_alternative _ _ _ HI).
  - cbn. intros id e [_ He]%lookup_delete_Some. by apply Hk.
Qed.
Lemma tracked_record l s id e : tracked l s -> alternative_ok e -> known id e ->
  tracked l (set_alternative (<[id := e]> (m_alternative_chains s)) s).
Proof.
  intros [HI HU Hk Hp] He Hid. split; [by apply Inv_record|done| |done]. cbn. intros id' e' [[<- <-]|[_ H]]%lookup_insert_Some; [done|by apply Hk].
Qed.
(** Every checkpoint is at a height the chain has reached. *)
Definition passed (l : list entry) : Prop := Checkpoints.sorted points /\ forall k x, (k, x) ∈ points -> k <= Z.of_nat (length l).
Lemma allowed_no_checkpoint l h id : passed l -> Checkpoints.is_alternative_block_allowed points (Z.of_nat (length l)) h = true ->
  Checkpoints.check_block points h id = (true, false) /\ forall k x, (k, x) ∈ points -> k < h.
Proof.
  intros [Hs Hp] Ha. apply Checkpoints.is_alternative_block_allowed_correct in Ha as [_ Ha]; [|done].
  assert (Hlt : forall k x, (k, x) ∈ points -> k < h) by (intros k x Hk; eapply Ha; [done|by eapply Hp]).
  split; [|done]. unfold Checkpoints.check_block. destruct (Checkpoints.find h points) as [x|] eqn:E; [|done].
  apply Checkpoints.find_elem in E; [|done]. apply Hlt in E. lia.
Qed.

(** The start of [handle_alternative_block], up to the block on its branch. *)
Lemma handle_alternative_start now junk fuel l b bvc s Q E : tracked l s -> passed l -> block_ok b -> U b ->
  (forall r s', tracked l s' -> kept s s' -> Q (false, r) s') -> (forall r s', tracked l s' -> kept s s' -> Q (true, r) s') ->
  (forall s1 alt l0 e l1 height wk d, kept s s1 -> tracked l s1 ->
    alternative_chain (size (m_alternative_chains s1)) (m_alternative_chains s1) (prev_id (Basic.header b)) = Some alt ->
    branches l alt b l0 e l1 height wk -> get_next_difficulty_for_alternative_chain ndebug (m_db s1) alt.*2 height = Some d -> d <> 0 ->
    prevalidate_miner_transaction b (Z.of_nat height) = true -> (forall k x, (k, x) ∈ points -> k < Z.of_nat height) ->
    m_alternative_chains s1 !! block_id b = None ->
    let bei := MkExtended b height 0 (wk +w d) 0 in
    wp (if total_work l <? wk +w d then
          r ← switch_to_alternative_blockchain ndebug now junk (handle_alternative_block ndebug now junk fuel) (alt ++ [(block_id b, bei)]) false;
          ret (r : bool, if r : bool then set_added true bvc else set_failed bvc)
        else ret (true, bvc)) Q E (set_alternative (<[block_id b := bei]> (m_alternative_chains s1)) s1)) ->
  wp (handle_alternative_block ndebug now junk (S fuel) b (block_id b) bvc) Q E s.
Proof.
  intros Ht Hp Hb HU Hno Hyes Hrec. cbn [handle_alternative_block]. apply wp_bind.
  destruct (forget_difficulties_run _ _ _ (tr_inv _ _ Ht)) as (c & Ec & HIc). eapply wp_run; [exact Ec|]. set (s1 := set_cache c s) in *.
  assert (Ht1 : tracked l s1) by (eapply tracked_kept; [exact Ht|done|done|apply Ht]). assert (Hk : kept s s1) by done.
  destruct (_ =? 0); [by apply wp_ret, Hno|]. apply wp_bind, wp_state. unfold height64. rewrite (rp_height _ _ (Inv_rep _ _ _ HIc)).
  destruct (Checkpoints.is_alternative_block_allowed _ _ _) eqn:Ea; cbn [negb]; [|by apply wp_ret, Hno].
  destruct (_ || _); [|by apply wp_ret, Hyes].
  destruct (alternative_chain_total _ _ Ht1 (prev_id (Basic.header b))) as [alt Ealt]. rewrite Ealt. apply wp_bind. cbn [need]. apply wp_ret.
  apply (add_alternative_wp _ _ b (block_id b) bvc alt l s1); [done| |auto| |].
  - apply Forall_forall. intros x Hx. eapply (ci_alternative _ _ _ HIc). by eapply alternative_chain_elem.
  - intros l0 e l1 height wk Hbr Hn. exfalso. by eapply branch_not_aborted.
  - intros l0 e l1 height wk d ck Hbr Hd Hd0 Hm Hck Hnone. rewrite (prevalidate_height _ _ Hm) in Ea.
    rewrite (tr_points _ _ Ht1) in Ea, Hck. destruct (allowed_no_checkpoint l (Z.of_nat height) (block_id b) Hp Ea) as [Hck' Hlt].
    assert (ck = false) as -> by congruence. by eapply Hrec.
Qed.

(** A block with at most the work of the main chain is recorded, and no more. *)
Lemma push_wp now junk fuel l b bvc s bs w c : tracked l s -> passed l -> block_ok b -> path (bs ++ [b]) (w ++ [c]) -> c.2 <= total_work l ->
  wp (handle_alternative_block ndebug now junk (S fuel) b (block_id b) bvc) (fun _ s' => tracked l s') (fun _ _ => False) s.
Proof.
  intros Ht Hp Hb Hpath Hc. assert (HU : U b) by by apply path_inv in Hpath as (? & ? & _ & _ & ? & _).
  apply handle_alternative_start with (l := l); [done..|].
  intros s1 alt l0 e l1 height wk d [_ Hk] Ht1 Halt Hbr Hd Hd0 Hm _ _ bei.
  pose proof (branch_extended l s1 _ alt b l0 e l1 height wk Ht1 Halt Hbr d HU Hd Hd0 Hm) as Hpath'.
  destruct (path_unique _ _ Hpath _ _ Hpath') as [_ E]; [by rewrite !last_snoc|]. apply last_pair in E as [_ ->]. cbn in Hc.
  destruct (Z.ltb_spec (total_work l) (wk +w d)) as [|_]; [lia|]. apply wp_ret.
  apply tracked_record; [done| |by eapply branch_known]. split; [done|]. by eapply branches_height.
Qed.

Lemma push_all_wp now junk fuel l bs : forall s, tracked l s -> passed l -> Forall block_ok bs ->
  (forall b, b ∈ bs -> exists bs w c, path (bs ++ [b]) (w ++ [c]) /\ c.2 <= total_work l) ->
  wp (for_each (fun b => _ ← handle_alternative_block ndebug now junk (S fuel) b (block_id b) new_bvc; ret tt) bs)
    (fun _ s' => tracked l s') (fun _ _ => False) s.
Proof.
  induction bs as [|b bs IH]; intros s Ht Hp Hb Hw; cbn [for_each]; [done|]. apply Forall_cons in Hb as [Hb Hbs].
  destruct (Hw b) as (bs' & w & c & Hpath & Hc); [by left|]. apply wp_bind, wp_bind.
  eapply wp_mono; [by eapply push_wp| |done]. intros r s1 Ht1. apply wp_ret. apply IH; [done..|].
  intros b' Hb'. apply Hw. by right.
Qed.

(** Blocks of the main chain have at most its work. *)
Lemma main_work l s e : tracked l s -> e ∈ l -> exists bs w, path (bs ++ [e_block e]) (w ++ [e_work e]) /\ e_difficulty e <= total_work l.
Proof.
  intros Ht He. pose proof (tracked_path _ _ Ht) as Hp. destruct (path_work _ _ Hp) as (_ & _ & Hf). rewrite <- total_work_eq in Hf.
  apply list_elem_of_split in He as (l0 & l1 & ->). rewrite cons_middle, app_assoc in Ht.
  exists (e_block <$> l0), (e_work <$> l0). split.
  - change [e_block e] with (e_block <$> [e]). change [e_work e] with (e_work <$> [e]). rewrite <- !fmap_app. apply main_path.
    + eapply valid_chain_app, (ci_valid _ _ _ (tr_inv _ _ Ht)).
    + pose proof (tr_blocks _ _ Ht) as HU. by apply Forall_app in HU as [HU _].
  - rewrite !Forall_fmap, Forall_forall in Hf. specialize (Hf e). cbn in Hf. apply Hf. apply elem_of_app. right. by left.
Qed.

Lemma prefix_U (l : list entry) bs : (e_block <$> l) `prefix_of` bs -> Forall U bs -> Forall (fun e => U (e_block e)) l.
Proof. intros [k ->] H. apply Forall_app in H as [H _]. by rewrite Forall_fmap in H. Qed.
(** No assertion fails on the way. *)
Lemma not_stuck l bs s : Forall (fun e => U (e_block e)) l -> Forall U bs -> stuck ndebug l bs s -> False.
Proof.
  intros HU Hbs (l' & HI & Hp & Hd). pose proof (prefix_U _ _ Hp Hbs) as HU'.
  destruct (difficulty_total _ _ (main_path (l ++ l') (ci_valid _ _ _ HI) (Forall_app_2 _ _ _ HU HU'))) as [d Hd']. congruence.
Qed.

(** The new chain leaves the old one at a block, ends with [b] and has more work. *)
Definition switched (l : list entry) (b : block) (s' : Blockchain) : Prop :=
  exists l0 e l1 new, l = (l0 ++ [e]) ++ l1 /\ tracked ((l0 ++ [e]) ++ new) s' /\ last (e_block <$> new) = Some b /\
    total_work l < total_work ((l0 ++ [e]) ++ new).
(** The switch failed: the old chain, or what could be added again of it. *)
Definition switch_failed (l : list entry) (b : block) (s' : Blockchain) : Prop :=
  exists l', tracked l' s' /\ (e_block <$> l') `prefix_of` (e_block <$> l) /\ m_alternative_chains s' !! block_id b = None.
Definition chosen (l : list entry) (b : block) (r : bool) (s' : Blockchain) : Prop :=
  tracked l s' \/ if r then switched l b s' else switch_failed l b s'.

Section Switch.
Variables (now : Z) (junk : Z * hash) (fuel : nat) (l : list entry) (s : Blockchain) (alt : list (hash * block_extended_info)) (b : block)
  (l0 : list entry) (e : entry) (l1 : list entry) (height : nat) (wk d : Z).
Hypothesis Ht : tracked l s.
Hypothesis Hb : block_ok b.
Hypothesis HU : U b.
Hypothesis Halt : alternative_chain (size (m_alternative_chains s)) (m_alternative_chains s) (prev_id (Basic.header b)) = Some alt.
Hypothesis Hbr : branches l alt b l0 e l1 height wk.
Hypothesis Hd : get_next_difficulty_for_alternative_chain ndebug (m_db s) alt.*2 height = Some d.
Hypothesis Hd0 : d <> 0.
Hypothesis Hm : prevalidate_miner_transaction b (Z.of_nat height) = true.
Let bei := MkExtended b height 0 (wk +w d) 0.
Let alt' := alt ++ [(block_id b, bei)].
Let s1 := set_alternative (<[block_id b := bei]> (m_alternative_chains s)) s.

Lemma recorded : tracked l s1.
Proof. apply tracked_record; [done|split; [done|by eapply branches_height]|by eapply branch_known]. Qed.
Lemma branch_U : Forall U ((fun x => bl x.2) <$> alt').
Proof.
  apply Forall_fmap, Forall_app_2; [|by apply Forall_singleton]. apply Forall_forall. intros x Hx. eapply known_U, (tr_known _ _ Ht).
  by eapply alternative_chain_elem.
Qed.
Lemma old_U : Forall (fun e => U (e_block e)) (l0 ++ [e]) /\ Forall (fun e => U (e_block e)) l1.
Proof. pose proof (tr_blocks _ _ Ht) as H. rewrite (br_chain _ _ _ _ _ _ _ _ Hbr) in H. by apply Forall_app in H. Qed.

(** The chain after the switch. *)
Lemma new_chain new s2 : kept s1 s2 -> Inv ndebug ((l0 ++ [e]) ++ new) s2 -> e_block <$> new = (fun x => bl x.2) <$> alt' ->
  tracked ((l0 ++ [e]) ++ new) s2 /\ total_work ((l0 ++ [e]) ++ new) = wk +w d /\ length ((l0 ++ [e]) ++ new) = S height.
Proof.
  intros Hk HI Hnew. destruct old_U as [HU0 _]. assert (HUn : Forall (fun e => U (e_block e)) new).
  { pose proof branch_U as H. rewrite <- Hnew in H. by rewrite Forall_fmap in H. }
  assert (Ht2 : tracked ((l0 ++ [e]) ++ new) s2) by (eapply tracked_kept; [apply recorded|done|done|by apply Forall_app_2]).
  split; [done|]. pose proof (branch_extended l s _ alt b l0 e l1 height wk Ht Halt Hbr d HU Hd Hd0 Hm) as Hp.
  assert (Eb : e_block <$> (l0 ++ [e]) ++ new = ((e_block <$> l0 ++ [e]) ++ (bl <$> alt.*2)) ++ [b]).
  { rewrite (fmap_app e_block (l0 ++ [e])), Hnew. unfold alt'. rewrite (fmap_app _ alt), app_assoc. f_equal. f_equal. by rewrite <- list_fmap_compose. }
  destruct (path_unique _ _ (tracked_path _ _ Ht2) _ _ Hp) as [_ Ew]; [by rewrite Eb|]. rewrite total_work_eq, Ew, work_snoc.
  split; [done|]. rewrite <- (length_fmap e_block), Eb, length_app, (branch_length l s _ alt b l0 e l1 height wk Ht Halt Hbr). cbn. lia.
Qed.

Lemma switch_chosen : (forall k x, (k, x) ∈ points -> k < Z.of_nat height) -> Checkpoints.sorted points ->
  total_work l < wk +w d ->
  wp (switch_to_alternative_blockchain ndebug now junk (handle_alternative_block ndebug now junk (S fuel)) alt' false)
    (fun r s' => if r then switched l b s' else switch_failed l b s') (fun _ _ => False) s1.
Proof.
  intros Hck Hsorted Hmore. destruct old_U as [HU0 HU1]. pose proof (br_chain _ _ _ _ _ _ _ _ Hbr) as El.
  destruct (branches_front _ _ _ _ _ _ _ _ (block_id b) bei Hbr eq_refl) as (x & Hx & Hpx). fold alt' in Hx.
  pose proof (tr_inv _ _ recorded) as HI1. pose proof (chain_blocks_ok _ _ _ HI1) as Hok. rewrite El in HI1, Hok. apply Forall_app in Hok as [_ Hok].
  set (K := fun s' => exists new, tracked ((l0 ++ [e]) ++ new) s' /\ e_block <$> new = (fun x => bl x.2) <$> alt' /\
    total_work ((l0 ++ [e]) ++ new) = wk +w d).
  eapply wp_mono; [apply (switch_wp _ now junk _ l0 e l1 alt' x false s1 K (fun _ _ => False) HI1 Hx Hpx)| |done].
  - apply Forall_app_2; [|by apply Forall_singleton]. apply Forall_forall. intros y Hy.
    eapply (ci_alternative _ _ _ (tr_inv _ _ Ht)). by eapply alternative_chain_elem.
  - exact Hok.
  - intros new s2 Hk HI2 Hnew. destruct (new_chain new s2 Hk HI2 Hnew) as (Ht2 & Hw2 & Hlen).
    eapply wp_mono; [apply (push_all_wp now junk fuel _ (e_block <$> l1) s2 Ht2)| |done].
    + unfold passed. rewrite Hlen. split; [done|]. intros k y Hy%Hck. lia.
    + by rewrite Forall_fmap.
    + intros b' (e' & -> & He')%list_elem_of_fmap. destruct (main_work l s e' Ht) as (bs & w & Hp & Hle).
      { rewrite El. apply elem_of_app. by right. }
      exists bs, w, (e_work e'). split; [done|]. cbn. lia.
    + intros [] s3 Ht3. by exists new.
  - intros h s2 (new & Ht2 & H). exists new. split; [by apply tracked_erase|done].
  - intros h s2 (new & Ht2 & H). eapply wp_mono; [apply (reorganize_wp _ _ _ _ (tr_inv _ _ Ht2))| |done]. intros r s3 [Hk3 HI3].
    exists new. split; [|done]. eapply tracked_kept; [exact Ht2|done|done|apply Ht2].
  - intros s2 [H|H]; eapply not_stuck; try exact H; [done|apply branch_U|done|by rewrite Forall_fmap].
  - intros [|] s2 H.
    + destruct H as (new & Ht2 & Hnew & Hw). exists l0, e, l1, new. rewrite Hw. split_and!; [done..| |done].
      rewrite Hnew. unfold alt'. rewrite fmap_app. cbn [fmap list_fmap]. by rewrite last_snoc.
    + destruct H as (l' & HI' & Hp & Hc & Hsub & Hlast). rewrite <- El in Hp. exists l'. split; [|split; [done|]].
      * split; [done| | |rewrite Hc; apply recorded].
        -- eapply prefix_U; [exact Hp|]. rewrite Forall_fmap. apply (tr_blocks _ _ Ht).
        -- intros id y Hy. apply (tr_known _ _ recorded). by eapply lookup_weaken.
      * apply (Hlast (block_id b, bei)). unfold alt'. by rewrite last_snoc.
Qed.
End Switch.

Lemma choose_wp now junk fuel l b bvc s : tracked l s -> passed l -> block_ok b -> U b ->
  wp (handle_alternative_block ndebug now junk (S (S fuel)) b (block_id b) bvc) (fun r => chosen l b r.1) (fun _ _ => False) s.
Proof.
  intros Ht Hp Hb HU. apply handle_alternative_start with (l := l); [done..|by intros; left|by intros; left|].
  intros s1 alt l0 e l1 height wk d [_ Hk] Ht1 Halt Hbr Hd Hd0 Hm Hck _ bei. destruct (Z.ltb_spec (total_work l) (wk +w d)) as [Hmore|_].
  - apply wp_bind. eapply wp_mono; [eapply (switch_chosen now junk fuel l s1 alt b l0 e l1 height wk d); try done; apply Hp| |done].
    intros r s2 H. apply wp_ret. right. by destruct r.
  - apply wp_ret. left. by apply (recorded l s1 alt b l0 e l1 height wk d).
Qed.

(** What adding a block makes of the chain [l]. *)
Definition added (l : list entry) (b : block) (r : bool) (s' : Blockchain) : Prop :=
  tracked l s' \/
  r = true /\ (exists e, e_block e = b /\ tracked (l ++ [e]) s') \/
  r = true /\ switched l b s' \/
  r = false /\ switch_failed l b s'.
Lemma add_wp now junk l b bvc s : tracked l s -> passed l -> block_ok b -> U b -> m_verifivation_failed bvc = false ->
  wp (add_new_block ndebug now junk b bvc) (fun r => added l b r.1) (fun _ _ => False) s.
Proof.
  intros Ht Hp Hb HU Hbvc. pose proof (tr_inv _ _ Ht) as HI. unfold add_new_block. apply wp_bind, wp_state.
  destruct (have_block s _); [apply wp_ret; by left|].
  apply wp_bind. eapply wp_reads; [apply (read_tail _ _ (Inv_rep _ _ _ HI))|]. destruct (negb _).
  - eapply wp_mono; [by apply (choose_wp now junk 1 l b)| |done]. intros [r bvc'] s' [H|H]; [by left|]. cbn in *. right. right.
    destruct r; [by left|by right].
  - eapply wp_mono; [by apply (handle_block_wp _ now junk l b)| |].
    + intros [[|] bvc'] s' [Hk H]; cbn [fst snd] in H.
      * destruct H as (_ & e & Ee & _ & HI'). right. left. split; [done|]. exists e. split; [done|].
        eapply tracked_kept; [exact Ht|done|done|]. apply Forall_app_2; [apply Ht|]. apply Forall_singleton. by rewrite Ee.
      * left. destruct H as [_ HI']. eapply tracked_kept; [exact Ht|done|done|apply Ht].
    + intros er s' (_ & _ & _ & Hd). destruct (difficulty_total _ _ (tracked_path _ _ Ht)) as [d Hd']. congruence.
Qed.


Lemma extension_work l e s : tracked (l ++ [e]) s -> total_work l <= total_work (l ++ [e]).
Proof.
  intros H. destruct (path_work _ _ (tracked_path _ _ H)) as (H0 & _ & Hf). rewrite <- total_work_eq in H0, Hf.
  rewrite !Forall_fmap, Forall_forall in Hf. unfold total_work at 1. destruct (last l) as [e'|] eqn:El; cbn; [|lia].
  apply (Hf e'). apply last_Some in El as [l' ->]. apply elem_of_app. left. apply elem_of_app. right. by apply list_elem_of_singleton.
Qed.

(** ** Sequences of blocks *)

(** Blocks arrive one after the other, each at some time. *)
Definition arrive (s : Blockchain) (a : Z * (Z * hash) * block) : Blockchain :=
  (add_new_block ndebug a.1.1 a.1.2 a.2 new_bvc s).1.
Lemma added_tracked l b r s' : added l b r s' -> exists l', tracked l' s'.
Proof.
  intros [H|[(_ & e & _ & H)|[(_ & l0 & e & l1 & new & _ & H & _)|(_ & l' & H & _)]]]; by eexists.
Qed.
Lemma arrivals_tracked hf arrivals : HardFork.Inv hf -> points = [] -> Forall (fun a => block_ok a.2 /\ U a.2) arrivals ->
  exists l, tracked l (foldl arrive (fresh_node hf points) arrivals).
Proof.
  intros Hhf Hpt Ha. induction arrivals as [|a arrivals IH] using rev_ind.
  - exists []. cbn. split; [by apply fresh_Inv|constructor| |done]. unfold fresh_node. cbn. intros id e He.
    pose proof (eq_trans (eq_sym (lookup_empty id)) He) as E. done.
  - apply Forall_app in Ha as [Ha Hb]. rewrite Forall_singleton in Hb. destruct Hb as [Hb HU]. destruct (IH Ha) as [l Ht].
    rewrite foldl_app. cbn [foldl]. assert (Hp : passed l) by (unfold passed; rewrite Hpt; split; [constructor|by intros k x ?%elem_of_nil]).
    pose proof (add_wp a.1.1 a.1.2 l a.2 new_bvc _ Ht Hp Hb HU eq_refl) as H. unfold arrive, wp in *.
    destruct (add_new_block _ _ _ _ _ _) as [s' [er|r]]; [done|]. by eapply added_tracked.
Qed.

End Paths.

(** ** The blocks of the concrete history *)

Definition sample_blocks : list block := [sample_first; sample_main; sample_other; sample_next].
Definition sample_U (b : block) : Prop := b ∈ sample_blocks.
Definition sample_works (bs : list block) : list (Z * Z) :=
  foldl (fun ws b => ws ++ [(timestamp (Basic.header b), default 0 (difficulty_after true ws) +w work ws)]) [] bs.
Lemma sample_works_snoc bs b : sample_works (bs ++ [b]) =
  sample_works bs ++ [(timestamp (Basic.header b), default 0 (difficulty_after true (sample_works bs)) +w work (sample_works bs))].
Proof. unfold sample_works at 1. by rewrite foldl_app. Qed.
(** All the paths there are. *)
Definition sample_paths : list (list block) :=
  [[]; [sample_first]; [sample_first; sample_main]; [sample_first; sample_other]; [sample_first; sample_other; sample_next]].

Lemma sample_ids_nodup : NoDup (sample_id <$> sample_blocks).
Proof.
  assert (H : bool_decide (NoDup (sample_id <$> sample_blocks)) = true) by (vm_compute; reflexivity). exact (proj1 (bool_decide_eq_true _) H).
Qed.
Lemma sample_no_collision b b' : sample_U b -> sample_U b' -> @block_id truncating_FastHash b = @block_id truncating_FastHash b' -> b = b'.
Proof.
  intros [i Hi]%list_elem_of_lookup [j Hj]%list_elem_of_lookup E.
  assert (i = j) as ->; [|congruence]. eapply (NoDup_lookup _ i j (sample_id b) sample_ids_nodup); rewrite list_lookup_fmap.
  - by rewrite Hi.
  - rewrite Hj. cbn [fmap option_fmap option_map]. by f_equal.
Qed.
Lemma sample_blocks_U : sample_U sample_first /\ sample_U sample_main /\ sample_U sample_other /\ sample_U sample_next.
Proof. unfold sample_U, sample_blocks. rewrite !elem_of_cons. auto 10. Qed.
Ltac sample_U_list := destruct sample_blocks_U as (? & ? & ? & ?); repeat (apply Forall_cons_2; [assumption|]); apply Forall_nil_2.
Lemma sample_paths_U bs : bs ∈ sample_paths -> Forall sample_U bs.
Proof. unfold sample_paths. rewrite !elem_of_cons, elem_of_nil. intros [->|[->|[->|[->|[->|[]]]]]]; sample_U_list. Qed.
Lemma map_id_inj bs : Forall sample_U bs -> forall bs', Forall sample_U bs' -> sample_id <$> bs = sample_id <$> bs' -> bs = bs'.
Proof.
  induction 1 as [|b bs Hb _ IH]; intros [|b' bs'] H' E; try done. apply Forall_cons in H' as [Hb' H']. rewrite !fmap_cons in E.
  injection E as E1 E2. f_equal; [by apply sample_no_collision|by apply IH].
Qed.
Definition sample_closed : bool :=
  forallb (fun bs => forallb (fun b => negb (bool_decide (prev_id (Basic.header b) = @tip truncating_FastHash bs)) ||
    existsb (fun bs' => bool_decide (sample_id <$> bs' = sample_id <$> bs ++ [b])) sample_paths) sample_blocks) sample_paths.
Lemma sample_path_enum bs ws : @path truncating_FastHash true sample_U bs ws -> bs ∈ sample_paths /\ ws = sample_works bs.
Proof.
  assert (Hc : sample_closed = true) by (vm_compute; reflexivity). unfold sample_closed in Hc. rewrite forallb_forall in Hc.
  induction 1 as [|bs ws b d Hp [IH ->] HU Hprev Hm Hd _]; [by split; [left|]|]. split.
  - pose proof (Hc bs (proj1 (list_elem_of_In _ _) IH)) as H. rewrite forallb_forall in H. pose proof (H b (proj1 (list_elem_of_In _ _) HU)) as HU'.
    rewrite bool_decide_true in HU' by done. cbn [negb orb] in HU'. apply existsb_exists in HU' as (bs' & Hin & E%bool_decide_eq_true).
    apply list_elem_of_In in Hin. apply map_id_inj in E as <-; [done|by apply sample_paths_U|].
    apply Forall_app_2; [by apply sample_paths_U|by apply Forall_singleton].
  - by rewrite sample_works_snoc, Hd.
Qed.
Lemma sample_no_overflow bs ws d : @path truncating_FastHash true sample_U bs ws -> difficulty_after true ws = Some d -> d + work ws < 2 ^ 64.
Proof.
  assert (Hc : forallb (fun bs => default 0 (difficulty_after true (sample_works bs)) + work (sample_works bs) <? 2 ^ 64) sample_paths = true)
    by (vm_compute; reflexivity).
  rewrite forallb_forall in Hc. intros [Hbs ->]%sample_path_enum Hd. apply list_elem_of_In, Hc in Hbs. rewrite Hd in Hbs. by apply Z.ltb_lt.
Qed.

Definition sample_arrivals (bs : list block) : list (Z * (Z * hash) * block) := (fun b => (1546270000, (0, null_hash), b)) <$> bs.
Definition sample_state (bs : list block) : Blockchain :=
  foldl (@arrive truncating_FastHash sample_crypto TxVerify.sample_rct sample_pow true) (fresh_node HardFork.sample_fork []) (sample_arrivals bs).
Lemma sample_arrivals_ok bs : Forall sample_U bs ->
  Forall (fun a => @block_ok truncating_FastHash sample_crypto a.2 /\ sample_U a.2) (sample_arrivals bs).
Proof.
  intros H. apply Forall_fmap. eapply Forall_impl; [exact H|]. intros b Hb. split; [|exact Hb].
  pose proof sample_blocks_ok as Hok. rewrite Forall_forall in Hok. apply Hok. exact Hb.
Qed.

Lemma sample_tracked bs : Forall sample_U bs ->
  exists l, @tracked truncating_FastHash sample_crypto TxVerify.sample_rct sample_pow true sample_U [] l (sample_state bs).
Proof.
  intros H. exact (@arrivals_tracked truncating_FastHash sample_crypto TxVerify.sample_rct sample_pow true sample_U [] sample_no_collision
    sample_no_overflow HardFork.sample_fork (sample_arrivals bs) HardFork.sample_fork_Inv eq_refl (sample_arrivals_ok bs H)).
Qed.
Definition sample_three : list block := [sample_first; sample_main; sample_other].
Lemma sample_three_U : Forall sample_U sample_three.
Proof. unfold sample_three. sample_U_list. Qed.
Lemma sample_next_ok : @block_ok truncating_FastHash sample_crypto sample_next /\ sample_U sample_next.
Proof.
  destruct sample_blocks_U as (_ & _ & _ & HU). pose proof sample_blocks_ok as Hok. rewrite Forall_forall in Hok. split; [|exact HU]. apply Hok, HU.
Qed.



End ForkChoice.
