(* ===== verification/BlockTemplate.v ===== *)
(** * The block template

    Model of [Blockchain::create_block_template] of
    [src/cryptonote_core/blockchain.cpp], which proposes the next block to a
    miner: the header from the state of the chain, transactions from the pool,
    and a miner transaction whose reward depends on the size of the block, which
    depends on the size of the miner transaction.

    A block that is made from the template by choosing a nonce with enough work
    passes every check of the chain. *)
From Stdlib Require Import SpecFloat.
From stdpp Require Import gmap sorting.
From S2P Require Import Prelude Keccak Median Difficulty HardFork Basic TxExtra FormatUtils Reward Checkpoints TxPool Database ChainRules TxVerify Blockchain ChainInvariant.
Import Basic TxExtra FormatUtils Reward Database ChainRules Blockchain ChainInvariant.
#[local] Set Warnings "-clear-no-such-hyp".

Module BlockTemplate.

Section Template.
Context {HF : FastHash} {C : DbCrypto} {R : TxVerify.RctVerify} {P : PowHash}.
(** [keys i]: what the call number [i] of [construct_miner_tx] generates and
    derives, the public key of the transaction and the keys of the outputs.
    [stack] is what the uninitialised [median_ts] holds. *)
Variables (ndebug : bool) (now : Z) (junk : Z * hash) (stack : Z) (keys : nat -> public_key * (nat -> option public_key)).

Definition set_extra (e : list Z) (tx : transaction) : transaction :=
  MkTransaction (MkPrefix (version (prefix tx)) (unlock_time (prefix tx)) (vin (prefix tx)) (vout (prefix tx)) e)
    (signatures tx) (rct_signatures tx).

(** The loop that makes the size of the miner transaction fit the size that its
    reward was computed for; [i] counts the calls. *)
Fixpoint fit_miner_tx (tries : nat) (i : nat) (height median_size coins txs_size fee : Z) (ex_nonce : list Z)
    (cumulative_size : Z) (tx : transaction) : option transaction :=
  match tries with
  | O => None
  | S tries =>
      tx ← construct_miner_tx (keys i).1 (keys i).2 height median_size coins cumulative_size fee tx ex_nonce 1;
      let coinbase_blob_size := blobsize tx in
      if cumulative_size -w txs_size <? coinbase_blob_size then
        fit_miner_tx tries (S i) height median_size coins txs_size fee ex_nonce (txs_size +w coinbase_blob_size) tx
      else if coinbase_blob_size <? cumulative_size -w txs_size then
        let delta := cumulative_size -w txs_size -w coinbase_blob_size in
        let tx := set_extra (extra (prefix tx) ++ repeat 0 (Z.to_nat delta)) tx in
        if negb (cumulative_size =? txs_size +w blobsize tx) then
          if negb (cumulative_size +w 1 =? txs_size +w blobsize tx) then None
          else
            let tx := set_extra (take (length (extra (prefix tx)) - 1) (extra (prefix tx))) tx in
            if negb (cumulative_size =? txs_size +w blobsize tx) then
              fit_miner_tx tries (S i) height median_size coins txs_size fee ex_nonce (cumulative_size +w (delta -w 1)) tx
            else Some tx
        else Some tx
      else if negb (cumulative_size =? txs_size +w blobsize tx) then None
      else Some tx
  end.

(** [b] is the block passed by reference.  The results are the block, the
    difficulty and the height; [None] is [return false]. *)
Definition create_block_template (b : block) (ex_nonce : list Z) : B (option (block * Z * Z)) :=
  s ← state;
  let height := height64 (m_db s) in
  major ← need Abort (HardFork.get_current_version (m_hardfork (m_db s)));
  minor ← need Abort (HardFork.get_ideal_version_last (m_hardfork (m_db s)));
  prev ← reads top_block_hash;
  let hd := MkHeader major minor now prev (nonce (Basic.header b)) in
  '(ok, median_ts) ← reads (fun db => check_block_timestamp db now (MkBlock hd (miner_tx b) (tx_hashes b)));
  let hd := if ok : bool then hd else MkHeader major minor (default stack median_ts) prev (nonce (Basic.header b)) in
  diffic ← get_difficulty_for_next ndebug;
  if diffic =? 0 then ret None
  else
    let median_size := m_current_block_cumul_sz_limit s / 2 in
    coins ← reads cal_generated_coins;
    s ← state;
    '(t, p) ← need Abort (TxPool.fill_block_template (chain_view now s) (tx_hashes b) median_size coins height (m_tx_pool s));
    _ ← update (set_pool p);
    let txs_size := TxPool.total_size t in
    let fee := TxPool.t_fee t in
    match construct_miner_tx (keys 0%nat).1 (keys 0%nat).2 height median_size coins txs_size fee (miner_tx b) ex_nonce 1 with
    | None => ret None
    | Some tx =>
        match fit_miner_tx 10 1 height median_size coins txs_size fee ex_nonce (txs_size +w blobsize tx) tx with
        | None => ret None
        | Some tx => ret (Some (MkBlock hd tx (TxPool.t_hashes t), diffic, height))
        end
    end.

(** ** The miner transaction *)

Lemma pays_extra height fee r tx e : pays height fee r tx -> pays height fee r (set_extra e tx).
Proof. done. Qed.

(** When the loop ends with a transaction, its reward is that of the size of the
    block with it. *)
Lemma fit_miner_tx_pays height median_size coins txs_size fee ex_nonce tries : forall i cumulative_size tx0 tx,
  fit_miner_tx tries i height median_size coins txs_size fee ex_nonce cumulative_size tx0 = Some tx ->
  (length ex_nonce <= 255)%nat -> (forall i no, is_Some ((keys i).2 no)) ->
  exists r, get_block_reward median_size (txs_size +w blobsize tx) coins height = Some r /\ pays height fee r tx.
Proof.
  induction tries as [|tries IH]; intros i cum tx0 tx E Hn Hk; cbn [fit_miner_tx] in E; [done|].
  destruct (construct_miner_tx _ _ _ _ _ _ _ _ _ _) as [tx1|] eqn:E1; [|done]. cbn [mbind option_bind] in E.
  destruct (construct_miner_tx_pays _ _ _ _ _ _ _ _ _ _ _ E1 Hn ltac:(lia) (Hk i)) as (r & Er & Hp).
  destruct (_ <? blobsize tx1); [by eapply IH|].
  destruct (blobsize tx1 <? _).
  - set (tx2 := set_extra _ tx1) in E. assert (Hp2 : pays height fee r tx2) by by apply pays_extra.
    destruct (Z.eqb_spec cum (txs_size +w blobsize tx2)) as [Eq|_]; cbn [negb] in E.
    { injection E as <-. exists r. by rewrite <- Eq. }
    destruct (negb _); [done|]. set (tx3 := set_extra _ tx2) in E. assert (Hp3 : pays height fee r tx3) by by apply pays_extra.
    destruct (Z.eqb_spec cum (txs_size +w blobsize tx3)) as [Eq|_]; cbn [negb] in E.
    { injection E as <-. exists r. by rewrite <- Eq. }
    by eapply IH.
  - destruct (Z.eqb_spec cum (txs_size +w blobsize tx1)) as [Eq|_]; cbn [negb] in E; [|done]. injection E as <-. exists r. by rewrite <- Eq.
Qed.

(** ** The header *)

(** The current version with a vote for the last one passes. *)
Lemma template_version hf major minor : HardFork.Inv hf -> HardFork.get_current_version hf = Some major ->
  HardFork.get_ideal_version_last hf = Some minor -> HardFork.check hf (HardFork.Header major minor) = Some true.
Proof.
  intros Hhf Ec Ei. unfold HardFork.get_current_version, HardFork.get_ideal_version_last in *.
  destruct (HardFork.heights hf !! HardFork.current_fork_index hf) as [p|] eqn:Ep; [|done].
  destruct (last (HardFork.heights hf)) as [q|] eqn:Eq; [|done]. injection Ec as <-. injection Ei as <-.
  unfold HardFork.check, HardFork.do_check, HardFork.get_block_version, HardFork.get_block_vote. cbn. rewrite Ep. cbn.
  rewrite Z.eqb_refl. cbn [andb]. f_equal. rewrite last_lookup in Eq.
  destruct (HardFork.inv_heights _ Hhf) as [Hs Hok]. rewrite Forall_forall in Hok.
  pose proof (Hok p (list_elem_of_lookup_2 _ _ _ Ep)) as [? _]. pose proof (Hok q (list_elem_of_lookup_2 _ _ _ Eq)) as [? _].
  rewrite (proj2 (Z.eqb_neq (HardFork.version q) 0)) by lia. apply Z.leb_le.
  destruct (decide (HardFork.current_fork_index hf = Nat.pred (length (HardFork.heights hf)))) as [E|E].
  - rewrite E in Ep. rewrite Ep in Eq. injection Eq as ->. lia.
  - destruct (HardFork.schedule_lookup_lt _ _ _ _ _ (HardFork.inv_heights _ Hhf) Ep Eq) as [? _]; [|lia].
    pose proof (HardFork.inv_index _ Hhf). lia.
Qed.

Lemma check_timestamp_header db b b' : timestamp (Basic.header b) = timestamp (Basic.header b') ->
  check_block_timestamp db now b = check_block_timestamp db now b'.
Proof. intros E. unfold check_block_timestamp, check_timestamps. by rewrite E. Qed.
(** The time that is chosen passes the check unless the median itself is too far in
    the future. *)
Lemma template_timestamp db b ok median_ts b' : (now +w CRYPTONOTE_BLOCK_FUTURE_TIME_LIMIT <? now) = false ->
  check_block_timestamp db now b = Some (ok, median_ts) -> timestamp (Basic.header b) = now ->
  timestamp (Basic.header b') = (if ok : bool then now else default stack median_ts) ->
  timestamp (Basic.header b') <= now +w CRYPTONOTE_BLOCK_FUTURE_TIME_LIMIT -> exists m, check_block_timestamp db now b' = Some (true, m).
Proof.
  intros Hnow Ec Hb Hb' Hle. destruct ok.
  - rewrite (check_timestamp_header db b' b) by congruence. by eexists.
  - unfold check_block_timestamp in *. rewrite Hb, Hnow in Ec. destruct (Z.ltb_spec (now +w CRYPTONOTE_BLOCK_FUTURE_TIME_LIMIT) (timestamp (Basic.header b'))); [lia|].
    destruct (_ <? _)%nat; [by eexists|]. destruct (mapM _ _) as [ts|]; [|done]. cbn [mbind option_bind] in *. unfold check_timestamps in *.
    injection Ec as Hlt <-. cbn in Hb'. rewrite Hb', Z.ltb_irrefl. by eexists.
Qed.

(** ** The template *)

(** What the template promises, for the chain [l] in the state [s]: [ds] are the
    transactions it takes from the pool. *)
Record template_ok (l : list entry) (s : Blockchain) (p : TxPool.tx_memory_pool) (b : block) (diffic height : Z)
    (ds : list TxPool.tx_details) : Prop := {
  tm_height : height = Z.of_nat (length l);
  tm_difficulty : difficulty_after ndebug (e_work <$> l) = Some diffic /\ diffic <> 0;
  tm_version : HardFork.check (m_hardfork (m_db s)) (hf_header b) = Some true;
  tm_parent : prev_id (Basic.header b) = tail_hash l;
  tm_time : forall b', timestamp (Basic.header b') = timestamp (Basic.header b) ->
    timestamp (Basic.header b') <= now +w CRYPTONOTE_BLOCK_FUTURE_TIME_LIMIT -> exists m, check_block_timestamp (m_db s) now b' = Some (true, m);
  tm_nodup : NoDup (tx_hashes b);
  tm_txs : Forall2 (fun id d => TxPool.m_transactions p !! id = Some d /\ TxPool.passes (chain_view now s) (TxPool.td_tx d)) (tx_hashes b) ds;
  tm_images : NoDup (concat (map (fun d => TxPool.tx_images (TxPool.td_tx d)) ds));
  tm_reward : exists r,
    get_block_reward (m_current_block_cumul_sz_limit s / 2) (u64 (sum (map TxPool.blob_size ds)) +w blobsize (miner_tx b)) (interval_coins l) height = Some r /\
    pays height (u64 (sum (map TxPool.fee ds))) r (miner_tx b)
}.

(** The details in the refreshed pool. *)
Lemma refreshed_details bc p p' sel ds : TxPool.refreshed p p' ->
  Forall2 (fun id d => TxPool.m_transactions p !! id = Some d /\ TxPool.passes bc (TxPool.td_tx d)) sel ds ->
  exists ds', Forall2 (fun id d => TxPool.m_transactions p' !! id = Some d /\ TxPool.passes bc (TxPool.td_tx d)) sel ds' /\
    Forall2 TxPool.same_core ds ds'.
Proof.
  intros [_ Hr]. induction 1 as [|id d sel ds [Hd Hp] _ IH]; [exists []; split; constructor|].
  destruct IH as (ds' & H1 & H2). specialize (Hr id). rewrite Hd in Hr. destruct (TxPool.m_transactions p' !! id) as [d'|] eqn:Ed; [|done].
  cbn in Hr. exists (d' :: ds'). split; constructor; try done. split; [done|]. destruct Hr as [-> _]. done.
Qed.
Lemma same_core_maps ds ds' : Forall2 TxPool.same_core ds ds' ->
  map TxPool.blob_size ds' = map TxPool.blob_size ds /\ map TxPool.fee ds' = map TxPool.fee ds /\
  map (fun d => TxPool.tx_images (TxPool.td_tx d)) ds' = map (fun d => TxPool.tx_images (TxPool.td_tx d)) ds.
Proof.
  induction 1 as [|d d' ds ds' (E1 & E2 & E3 & _) _ (IH1 & IH2 & IH3)]; [done|]. cbn. by rewrite E1, E2, E3, IH1, IH2, IH3.
Qed.
Lemma pool_good_refreshed p p' : pool_good p -> TxPool.refreshed p p' -> TxPool.pool_ok p' -> pool_good p'.
Proof.
  intros [_ Hg] [_ Hr] Hok. split; [done|]. intros id d' Hd'. specialize (Hr id). rewrite Hd' in Hr.
  destruct (TxPool.m_transactions p !! id) as [d|] eqn:Ed; [|done]. cbn in Hr. destruct Hr as (E1 & E2 & E3 & _). rewrite E1, E2, E3. by eapply Hg.
Qed.

Lemma fork_versions hf : HardFork.Inv hf -> exists major minor, HardFork.get_current_version hf = Some major /\
  HardFork.get_ideal_version_last hf = Some minor /\ HardFork.check hf (HardFork.Header major minor) = Some true.
Proof.
  intros Hhf. pose proof (HardFork.inv_index _ Hhf) as Hidx. destruct (lookup_lt_is_Some_2 (HardFork.heights hf) _ Hidx) as [q Eq].
  destruct (last (HardFork.heights hf)) as [q'|] eqn:Eq'; [|apply last_None in Eq'; rewrite Eq' in Hidx; cbn in Hidx; lia].
  exists (HardFork.version q), (HardFork.version q').
  assert (Emaj : HardFork.get_current_version hf = Some (HardFork.version q)) by (unfold HardFork.get_current_version; by rewrite Eq).
  assert (Emin : HardFork.get_ideal_version_last hf = Some (HardFork.version q')) by (unfold HardFork.get_ideal_version_last; by rewrite Eq').
  split; [done|]. split; [done|]. by apply template_version.
Qed.

(** Whatever the template is made for, the chain is as it was. *)
Lemma create_wp b0 (ex_nonce : list Z) l s : Inv ndebug l s ->
  wp (create_block_template b0 ex_nonce) (fun r s' => exists c p, s' = set_pool p (set_cache c s) /\ Inv ndebug l s' /\
    match r with
    | None => True
    | Some (b, diffic, height) =>
        tx_hashes b0 = [] -> (length ex_nonce <= 255)%nat -> (forall i no, is_Some ((keys i).2 no)) ->
        (now +w CRYPTONOTE_BLOCK_FUTURE_TIME_LIMIT <? now) = false -> exists ds, template_ok l s p b diffic height ds
    end)
    (fun e s' => e = Abort /\ s' = s /\ difficulty_after ndebug (e_work <$> l) = None) s.
Proof.
  intros HI. pose proof (Inv_rep _ _ _ HI) as Hrep. unfold create_block_template. apply wp_bind, wp_state.
  destruct (fork_versions _ (proj1 (ci_forks _ _ _ HI))) as (major & minor & Emaj & Emin & Hver).
  apply wp_bind. rewrite Emaj. apply wp_ret, wp_bind. rewrite Emin. apply wp_ret, wp_bind. eapply wp_reads; [apply (read_tail l _ Hrep)|].
  set (hd := MkHeader _ _ now _ _). set (b1 := MkBlock hd _ _).
  destruct (read_timestamp_check l _ Hrep now b1) as ([ok med] & Et & _). apply wp_bind. eapply wp_reads; [exact Et|].
  set (hd' := if ok then hd else MkHeader major minor (default stack med) (tail_hash l) (nonce (Basic.header b0))). unfold get_difficulty_for_next. apply wp_bind, wp_bind, wp_state.
  rewrite (get_difficulty_spec l _ Hrep ndebug _ (ci_cache _ _ _ HI)).
  destruct (difficulty_after ndebug (e_work <$> l)) as [d|] eqn:Ed; cbn [mbind option_bind need]; [|by apply wp_bind, wp_raise].
  apply wp_bind, wp_ret, wp_bind, wp_update, wp_ret. set (s1 := set_cache _ s).
  assert (HI1 : Inv ndebug l s1) by (apply Inv_set_cache; [done|apply window_cache_ok]).
  destruct (Z.eqb_spec d 0) as [->|Hd]; [apply wp_ret; exists (window_cache l), (m_tx_pool s); by destruct s|].
  apply wp_bind. eapply wp_reads; [apply (read_interval_coins l _ Hrep)|]. apply wp_bind, wp_state.
  destruct (ci_pool _ _ _ HI1) as [Hpok _].
  destruct (TxPool.fill_block_template_spec (chain_view now s1) (tx_hashes b0) (m_current_block_cumul_sz_limit s / 2) (interval_coins l) (height64 (m_db s))
    (m_tx_pool s1) Hpok) as (t & p & sel & ds & Ef & Hr & Hok & Hh & Hnd & _ & Hsel & Himg & Hsz & Hfee & _).
  rewrite Ef. apply wp_bind, wp_ret, wp_bind, wp_update.
  assert (HI2 : Inv ndebug l (set_pool p s1)) by (apply Inv_set_pool; [done|]; eapply pool_good_refreshed; [apply HI1|done..]).
  assert (Hnone : exists c p', set_pool p s1 = set_pool p' (set_cache c s) /\ Inv ndebug l (set_pool p s1) /\ True) by by exists (window_cache l), p.
  destruct (construct_miner_tx _ _ _ _ _ _ _ _ _ _) as [tx1|]; [|by apply wp_ret].
  destruct (fit_miner_tx _ _ _ _ _ _ _ _ _ _) as [tx|] eqn:Efit; [|by apply wp_ret]. apply wp_ret. exists (window_cache l), p.
  split; [done|]. split; [done|]. intros Hb0 Hn Hk Hnow. rewrite Hb0 in Hh. apply fit_miner_tx_pays in Efit as (r & Er & Hpays); [|done..].
  destruct (refreshed_details _ _ _ _ _ Hr Hsel) as (ds' & Hsel' & Hcore). destruct (same_core_maps _ _ Hcore) as (E1 & E2 & E3).
  cbn [app] in Hh. exists ds'. split; try (rewrite Hh; done); try done.
  - unfold height64. by rewrite (rp_height _ _ Hrep).
  - unfold hf_header, hd'. by destruct ok.
  - cbn. unfold hd'. by destruct ok.
  - cbn. intros b' Hb' Hle. eapply (template_timestamp (m_db s) b1); [done|exact Et|done| |done]. rewrite Hb'. unfold hd'. by destruct ok.
  - by rewrite E3.
  - exists r. cbn. rewrite E1, E2, <- Hsz, <- Hfee. done.
Qed.

(** ** Mining the template *)

Lemma Forall2_impl_elem {A D} (S T : A -> D -> Prop) l k : Forall2 S l k -> (forall x y, x ∈ l -> S x y -> T x y) -> Forall2 T l k.
Proof. induction 1 as [|x y l k H _ IH]; intros Hi; constructor; [apply Hi; [by left|done]|apply IH; intros; apply Hi; [by right|done]]. Qed.
(** A transaction that is ready for the pool is one the chain takes in a block. *)
Lemma passes_checks s tx : TxPool.passes (chain_view now s) tx ->
  (TxVerify.check_tx_inputs (m_db s) (m_scan_table s) now tx (fun _ => false)).1.1 = true /\
  negb (bool_decide (tx_alias (extra (prefix tx)) = [])) && negb (bool_decide (Database.get_alias_address (m_db s) (tx_alias (extra (prefix tx))) true = [])) = false.
Proof.
  intros ((mh & mid & H) & _ & Ha). split.
  - cbn in H. unfold TxVerify.check_tx_inputs_for_pool in H. destruct (TxVerify.check_tx_inputs _ _ _ _ _) as [[res tvc] mx]. by destruct res.
  - destruct Ha as [-> | Ha]; [done|]. cbn in Ha. rewrite Ha. apply andb_false_r.
Qed.

(** The chain takes the transactions of the template from the pool. *)
Lemma take_template_txs b id ids : forall ds txs fee size s, pool_good (m_tx_pool s) -> NoDup ids ->
  Forall2 (fun id d => TxPool.m_transactions (m_tx_pool s) !! id = Some d /\ TxPool.passes (chain_view now s) (TxPool.td_tx d)) ids ds ->
  Forall (fun id => tx_exists (m_db s) id = false) ids ->
  exists p, pool_good p /\ take_block_txs now junk b id ids txs fee size s =
    (set_pool p s, inr (Some (txs ++ map TxPool.td_tx ds, foldl (fun a x => a +w x) fee (map TxPool.fee ds),
                              foldl (fun a x => a +w x) size (map TxPool.blob_size ds)))).
Proof.
  induction ids as [|tx_id ids IH]; intros ds txs fee size s Hp Hnd Hds Hex; cbn [take_block_txs].
  { inversion Hds. exists (m_tx_pool s). split; [done|]. cbn. rewrite app_nil_r. by destruct s. }
  apply NoDup_cons in Hnd as [Hni Hnd]. apply Forall_cons in Hex as [Hx Hex]. inversion Hds as [|? d ? ds' [Ed Hpass] Hds' E1 E2]. subst.
  pose proof (TxPool.take_tx_spec tx_id (m_tx_pool s) (proj1 Hp)) as H. rewrite Ed in H. destruct H as (p & Etake & Hok & Em & _).
  pose proof (take_tx_good _ _ _ _ _ _ _ Hp Etake) as [Hp' _]. destruct (passes_checks s (TxPool.td_tx d) Hpass) as [Hin Hal].
  unfold mbind at 1, B_bind at 1, state. rewrite Hx, Etake. unfold mbind at 1, B_bind at 1, update. rewrite Hin. cbn [negb]. rewrite Hal.
  destruct (IH ds' (txs ++ [TxPool.td_tx d]) (fee +w TxPool.fee d) (size +w TxPool.blob_size d) (set_pool p s)) as (p2 & Hp2 & E); [done..| | |].
  - eapply Forall2_impl_elem; [exact Hds'|]. cbn [m_tx_pool set_pool]. intros i d' Hi [Hd' Hpd']. split; [|exact Hpd'].
    rewrite Em, lookup_delete_ne; [done|]. intros ->. done.
  - done.
  - exists p2. split; [done|]. rewrite E. cbn [map foldl]. by rewrite <- app_assoc.
Qed.

Definition mined (n : Z) (b : block) : block :=
  MkBlock (MkHeader (major_version (Basic.header b)) (minor_version (Basic.header b)) (timestamp (Basic.header b)) (prev_id (Basic.header b)) n)
    (miner_tx b) (tx_hashes b).

Lemma foldl_wrap_sum l : forall a, is_u64 a -> foldl (fun a x => a +w x) a l = u64 (a + sum l).
Proof.
  induction l as [|x l IH]; intros a Ha; cbn [foldl sum].
  - by rewrite Z.add_0_r, wrap_small.
  - rewrite IH by apply wrap_u64. rewrite wrap_add_l, sum_cons. f_equal. lia.
Qed.

(** A block made of a template reaches the database with the transactions of the
    template, its size, the work and the coins that follow from the chain. *)
Lemma mined_reaches_database l s s1 c p b diffic height ds n bvc :
  Inv ndebug l s1 -> s1 = set_pool p (set_cache c s) -> template_ok l s p b diffic height ds ->
  m_current_block_cumul_sz_limit s / 2 = median (recent_sizes l) ->
  timestamp (Basic.header b) <= now +w CRYPTONOTE_BLOCK_FUTURE_TIME_LIMIT -> is_u64 (blobsize (miner_tx b)) ->
  Forall (fun id => tx_exists (m_db s) id = false) (tx_hashes b) ->
  let b' := mined n b in
  Difficulty.check_hash (get_block_longhash b') diffic = true -> m_blocks_longhash_table s !! block_id b' = None ->
  (Checkpoints.check_block (m_checkpoints s) height (block_id b')).1 = true ->
  exists p2 r, forall Q E,
    wp (store_block now junk b' (map TxPool.td_tx ds) (u64 (blobsize (miner_tx b) + sum (map TxPool.blob_size ds)))
      (diffic +w total_work l) (next_generated_coins (total_coins l) r) (set_partial false bvc)) Q E
      (set_pool p2 (set_cache (window_cache l) s1)) ->
    wp (handle_block_to_main_chain ndebug now junk b' (block_id b') bvc) Q E s1.
Proof.
  intros HI Es [Hh [Hd Hd0] Hver Hpar Htime Hnd Htxs _ (r & Er & Hpays)] Hlim Hts Hbs Hex b' Hpow Htab Hck.
  pose proof (Inv_rep _ _ _ HI) as Hrep. assert (Edb : m_db s1 = m_db s) by by rewrite Es.
  set (s2 := set_cache (window_cache l) s1). assert (HI2 : Inv ndebug l s2) by (apply Inv_set_cache; [done|apply window_cache_ok]).
  destruct (take_template_txs b' (block_id b') (tx_hashes b) ds [] 0 (blobsize (miner_tx b)) s2) as (p2 & _ & Etake);
    [apply HI2|done|subst s1; exact Htxs|subst s1; exact Hex|].
  rewrite !foldl_wrap_sum in Etake by done. cbn [app] in Etake.
  destruct (pays_accepted height _ r b' (recent_sizes l) (u64 (blobsize (miner_tx b) + sum (map TxPool.blob_size ds))) (interval_coins l) Hpays) as [Hpre Hval].
  { rewrite <- Hlim, <- Er. f_equal. rewrite wrap_add_l. f_equal. lia. } { by eapply reward_u64. }
  exists p2, r. intros Q E Hstore. unfold handle_block_to_main_chain.
  apply wp_bind. eapply wp_reads; [apply (read_tail l _ Hrep)|]. rewrite bool_decide_true by exact Hpar. cbn [negb].
  apply wp_bind, wp_state. change (hf_header b') with (hf_header b). rewrite Edb, Hver. apply wp_bind, wp_ret. cbn [negb].
  destruct (Htime b' eq_refl Hts) as [md Et]. apply wp_bind. eapply wp_reads; [rewrite Edb; exact Et|]. cbn [negb].
  unfold get_difficulty_for_next. apply wp_bind, wp_bind, wp_state. rewrite (get_difficulty_spec l _ Hrep ndebug _ (ci_cache _ _ _ HI)), Hd.
  apply wp_bind, wp_ret, wp_bind, wp_update, wp_ret. rewrite (proj2 (Z.eqb_neq diffic 0) Hd0). fold s2.
  unfold append_block. apply wp_bind, wp_state. unfold height64. rewrite (rp_height _ _ (Inv_rep _ _ _ HI2)), <- Hh.
  assert (Etab : m_blocks_longhash_table s2 = m_blocks_longhash_table s) by (unfold s2; by rewrite Es).
  assert (Eck : m_checkpoints s2 = m_checkpoints s) by (unfold s2; by rewrite Es).
  rewrite Etab, Htab, Hpow, Eck, Hck, andb_false_r, Hpre. cbn [negb]. apply wp_bind. eapply wp_run; [exact Etake|].
  apply wp_bind. eapply wp_reads; [apply (read_interval_coins l _ (Inv_rep _ _ _ HI2))|].
  apply wp_bind. eapply wp_reads; [apply (read_sizes l _ (Inv_rep _ _ _ HI2))|]. rewrite Z.add_0_l, Hval.
  apply wp_bind. eapply wp_reads; [apply (read_total_coins l _ (Inv_rep _ _ _ HI2))|].
  apply wp_bind. eapply wp_reads; [apply (read_total_work l _ (Inv_rep _ _ _ HI2))|]. exact Hstore.
Qed.

(** The database has no reason to refuse the block and its transactions: their
    hashes, key images and aliases are new. *)
Definition database_accepts (db : BlockchainLMDB) (b : block) : Prop :=
  forall size work coins txs, tx_hashes b = TxPool.tx_hash <$> txs -> exists n, (add_block b size work coins txs db).2 = inr n.
Lemma template_hashes bc p ids ds : TxPool.pool_ok p ->
  Forall2 (fun id d => TxPool.m_transactions p !! id = Some d /\ TxPool.passes bc (TxPool.td_tx d)) ids ds ->
  ids = TxPool.tx_hash <$> map TxPool.td_tx ds.
Proof.
  intros Hp. induction 1 as [|id d ids ds [Hd _] _ IH]; [done|]. destruct (TxPool.ok_hash p Hp _ _ Hd) as [E _]. cbn [map]. rewrite fmap_cons. by f_equal.
Qed.
Lemma store_accepted b txs size work coins bvc s : m_verifivation_failed bvc = false ->
  (exists n, (add_block b size work coins txs (m_db s)).2 = inr n) ->
  wp (store_block now junk b txs size work coins (set_partial false bvc))
    (fun rb _ => rb.1 = true /\ m_partial_block_reward rb.2 = false) (fun _ _ => True) s.
Proof.
  intros Hbvc [k E]. unfold store_block. cbn [m_verifivation_failed set_partial]. rewrite Hbvc. apply wp_bind. unfold wp at 1, try.
  destruct (add_block _ _ _ _ _ _) as [db r]. cbn in E. subst r. apply wp_bind. unfold update_limit. apply wp_bind. unfold wp at 1, reads.
  destruct (update_next_cumulative_size_limit _); [|done]. by apply wp_update, wp_ret.
Qed.

End Template.

(** ** A concrete template *)

Definition sample_keys (i : nat) : public_key * (nat -> option public_key) := (repeat 1 32, fun _ => Some (repeat 7 32)).
Definition sample_empty : block := MkBlock (MkHeader 0 0 0 (repeat 0 32) 0) (sample_coinbase 0) [].
Definition sample_template : Blockchain * (error + option (block * Z * Z)) :=
  @create_block_template truncating_FastHash sample_crypto TxVerify.sample_rct true 1546270000 0 sample_keys sample_empty [] sample_node.
Definition sample_proposed : block :=
  MkBlock (MkHeader 1 2 1546270000 (repeat 0 32) 0)
    (MkTransaction (MkPrefix 2 10 [In_gen (MkTxinGen 0)] [MkTxOut 135000000000000000 (To_key (repeat 7 32))] (repeat 1 33)) [] rct_null) [].
Lemma sample_proposed_ok n : is_u32 n -> @block_ok truncating_FastHash sample_crypto (mined n sample_proposed).
Proof.
  intros Hn. assert (Hwf : wf_transaction (miner_tx sample_proposed)).
  { split; [|split; [done|split; [done|by left]]]. wf_concrete; try done; unfold word; try lia. }
  split.
  - split; [wf_concrete; try apply sample_hash; try done; unfold word; lia|]. split; [done|]. cbn. split; [constructor|]. words. lia.
  - intros a b c H. by vm_compute in H.
Qed.


End BlockTemplate.
