(* ===== verification/Prepare.v ===== *)
(** * Preparing a batch of blocks

    Model of [Blockchain::prepare_handle_incoming_blocks] of
    [src/cryptonote_core/blockchain.cpp] with its workers, and of
    [cleanup_handle_incoming_blocks].  Before the blocks of a batch are added one
    by one, their proof-of-work hashes are computed by threads and the outputs
    that their transactions refer to are looked up in bulk.

    The threads work on separate parts of the batch and write to separate maps:
    their results are put together in order.  The clock, [m_cancel] and the
    compiled-in hashes, which the build leaves out, are not modelled. *)
From stdpp Require Import gmap sorting.
From S2P Require Import Prelude Keccak Median Difficulty HardFork Serialization Basic TxExtra FormatUtils Reward Checkpoints TxPool Database ChainRules TxVerify Blockchain ChainInvariant.
Import Serialization Basic TxExtra FormatUtils Reward Database ChainRules TxVerify Blockchain ChainInvariant.
#[local] Set Warnings "-clear-no-such-hyp".

Module Prepare.

(** [block_complete_entry]: the blob of a block and those of its transactions. *)
Record block_complete_entry := MkComplete { ce_block : list Z; ce_txs : list (list Z) }.

Definition set_longhash (x : gmap hash hash) (s : Blockchain) : Blockchain :=
  MkChain (m_db s) (m_tx_pool s) (m_cache s) (m_current_block_cumul_sz_limit s) (m_alternative_chains s) (m_invalid_blocks s) (m_checkpoints s)
    x (m_scan_table s).
Definition set_scan (x : scan_table) (s : Blockchain) : Blockchain :=
  MkChain (m_db s) (m_tx_pool s) (m_cache s) (m_current_block_cumul_sz_limit s) (m_alternative_chains s) (m_invalid_blocks s) (m_checkpoints s)
    (m_blocks_longhash_table s) x.

(** [std::unique] on a sorted vector, and the [erase] after it. *)
Fixpoint unique (l : list Z) : list Z :=
  match l with
  | x :: (y :: _) as l' => if x =? y then unique l' else x :: unique l'
  | _ => l
  end.

Section Prepare.
Context {HF : FastHash} {C : DbCrypto} {R : RctVerify} {P : PowHash}.

Definition parse_and_validate_block_from_blob (blob : list Z) : option block := parse_binary read_block blob.
(** The transaction and the hash of its prefix. *)
Definition parse_and_validate_tx_from_blob (blob : list Z) : option (transaction * hash) :=
  tx ← parse_binary read_transaction blob;
  Some (tx, default null_hash (get_transaction_prefix_hash (prefix tx))).

(** ** The hashes *)

(** How the blocks of a thread are collected: the first block does not belong to
    the chain; or the rest of the batch, the blocks, and whether one of them is
    known. *)
Inductive collected :=
  | Foreign
  | Collected (it : list block_complete_entry) (blocks : list block) (blocks_exist : bool).
Fixpoint collect (s : Blockchain) (first : option hash) (batches : nat) (it : list block_complete_entry) (blocks : list block) : collected :=
  match batches, it with
  | S batches, e :: rest =>
      match parse_and_validate_block_from_blob (ce_block e) with
      | None => collect s None batches rest blocks
      | Some b =>
          if match first with Some tophash => negb (bool_decide (prev_id (Basic.header b) = tophash)) | None => false end then Foreign
          else if have_block s (block_id b) then Collected it blocks true
          else collect s None batches rest (blocks ++ [b])
      end
  | _, _ => Collected it blocks false
  end.
(** The loop over the threads; [sizes] are the numbers of blocks of each. *)
Fixpoint collect_all (s : Blockchain) (first : option hash) (sizes : list nat) (it : list block_complete_entry)
  : option (list block_complete_entry * list (list block) * bool) :=
  match sizes with
  | [] => Some (it, [], false)
  | n :: sizes =>
      match collect s first n it [] with
      | Foreign => None
      | Collected it blocks blocks_exist =>
          '(it, rest, known) ← collect_all s None sizes it;
          Some (it, blocks :: rest, blocks_exist || known)
      end
  end.
(** [for (int i = 0; i < extra && !blocks_exist; i++)]: one block for each of the
    first threads. *)
Fixpoint collect_extra (s : Blockchain) (extra : nat) (it : list block_complete_entry) (blocks : list (list block)) : list (list block) * bool :=
  match extra, it, blocks with
  | S extra, e :: it, bs :: blocks =>
      match parse_and_validate_block_from_blob (ce_block e) with
      | None => let '(blocks, known) := collect_extra s extra it blocks in (bs :: blocks, known)
      | Some b =>
          if have_block s (block_id b) then (bs :: blocks, true)
          else let '(blocks, known) := collect_extra s extra it blocks in ((bs ++ [b]) :: blocks, known)
      end
  | _, _, _ => (blocks, false)
  end.

Definition block_longhash_worker (blocks : list block) : gmap hash hash :=
  foldl (fun m b => match m !! block_id b with Some _ => m | None => <[block_id b := get_block_longhash b]> m end) ∅ blocks.

(** [None] is [return true] after the first block; the result says whether a block
    is known. *)
Definition prepare_longhashes (max_concurrency m_max_prepare_blocks_threads : nat) (entries : list block_complete_entry) : B (option bool) :=
  s ← state;
  if (1 <? length entries)%nat && (1 <? max_concurrency)%nat && (1 <? m_max_prepare_blocks_threads)%nat then
    let threads := (max_concurrency `min` m_max_prepare_blocks_threads)%nat in
    let batches := (length entries / threads)%nat in
    let extra := (length entries mod threads)%nat in
    top ← reads top_block_hash;
    match collect_all s (Some top) (repeat batches threads) entries with
    | None => ret None
    | Some (it, blocks, blocks_exist) =>
        let '(blocks, blocks_exist) := if blocks_exist : bool then (blocks, true) else collect_extra s extra it blocks in
        if blocks_exist : bool then ret (Some true)
        else
          _ ← update (set_longhash (foldl (fun t m => t ∪ m) ∅ (map block_longhash_worker blocks)));
          ret (Some false)
    end
  else ret (Some false).

(** ** The outputs *)

(** [boost::get<txin_to_key>] of every input; another type throws. *)
Definition to_key_inputs (tx : transaction) : option (list txin_to_key) := mapM to_key (vin (prefix tx)).

(** What the first loop collects: the amounts, sorted, and the offsets of each,
    sorted. *)
Record offsets_found := MkOffsets { amounts : list Z; offset_map : gmap Z (list Z) }.
Definition add_inputs_offsets (f : offsets_found) (ins : list txin_to_key) : offsets_found :=
  let amounts' := unique (sort (amounts f ++ map in_amount ins)) in
  let m := foldl (fun m a => match m !! a with Some _ => m | None => <[a := []]> m end) (offset_map f) amounts' in
  let m := foldl (fun m x => <[in_amount x := default [] (m !! in_amount x) ++ relative_output_offsets_to_absolute (key_offsets x)]> m) m ins in
  MkOffsets amounts' ((fun l => unique (sort l)) <$> m).

(** One transaction of the first loop; [None] is [SCAN_TABLE_QUIT].  The table of
    the key images of a transaction is empty when it is searched for duplicates. *)
Definition scan_tx (f : offsets_found) (tx_blob : list Z) : B (option offsets_found) :=
  match parse_and_validate_tx_from_blob tx_blob with
  | None => _ ← update (set_scan ∅); ret None
  | Some (tx, tx_prefix_hash) =>
      s ← state;
      if bool_decide (is_Some (m_scan_table s !! tx_prefix_hash)) then _ ← update (set_scan ∅); ret None
      else
        _ ← update (set_scan (<[tx_prefix_hash := ∅]> (m_scan_table s)));
        ins ← need Bad_get (to_key_inputs tx);
        ret (Some (add_inputs_offsets f ins))
  end.
Fixpoint scan_txs (f : offsets_found) (blobs : list (list Z)) : B (option offsets_found) :=
  match blobs with
  | [] => ret (Some f)
  | blob :: blobs =>
      r ← scan_tx f blob;
      match r with
      | None => ret None
      | Some f => scan_txs f blobs
      end
  end.

(** The outputs up to the first that does not exist. *)
Fixpoint output_scan_worker (db : BlockchainLMDB) (amount : Z) (offsets : list Z) : list output_data_t :=
  match offsets with
  | [] => []
  | i :: offsets =>
      match get_output_key db amount (Z.to_nat i) with
      | Some o => o :: output_scan_worker db amount offsets
      | None => []
      end
  end.

(** The position of an offset. *)
Fixpoint position (x : Z) (l : list Z) : option nat :=
  match l with
  | [] => None
  | y :: l => if x =? y then Some 0%nat else S <$> position x l
  end.
Fixpoint needed_outputs (offsets : list Z) (outs : list output_data_t) (needed : list Z) : list output_data_t :=
  match needed with
  | [] => []
  | x :: needed =>
      match position x offsets ≫= (fun pos => outs !! pos) with
      | Some o => o :: needed_outputs offsets outs needed
      | None => []
      end
  end.

(** One transaction of the second loop: [emplace] keeps an entry that is there. *)
Definition table_input (f : offsets_found) (tx_map : gmap Z (list output_data_t)) (t : gmap key_image (list output_data_t)) (x : txin_to_key)
  : gmap key_image (list output_data_t) :=
  let outputs := needed_outputs (default [] (offset_map f !! in_amount x)) (default [] (tx_map !! in_amount x))
                   (relative_output_offsets_to_absolute (key_offsets x)) in
  match t !! k_image x with Some _ => t | None => <[k_image x := outputs]> t end.
Definition table_tx (f : offsets_found) (tx_map : gmap Z (list output_data_t)) (tx_blob : list Z) : B bool :=
  match parse_and_validate_tx_from_blob tx_blob with
  | None => _ ← update (set_scan ∅); ret false
  | Some (tx, tx_prefix_hash) =>
      s ← state;
      match m_scan_table s !! tx_prefix_hash with
      | None => _ ← update (set_scan ∅); ret false
      | Some t =>
          ins ← need Bad_get (to_key_inputs tx);
          _ ← update (set_scan (<[tx_prefix_hash := foldl (table_input f tx_map) t ins]> (m_scan_table s)));
          ret true
      end
  end.
Fixpoint table_txs (f : offsets_found) (tx_map : gmap Z (list output_data_t)) (blobs : list (list Z)) : B bool :=
  match blobs with
  | [] => ret true
  | blob :: blobs => r ← table_tx f tx_map blob; if r : bool then table_txs f tx_map blobs else ret false
  end.

Definition tx_blobs (entries : list block_complete_entry) : list (list Z) := entries ≫= ce_txs.

Definition prepare_handle_incoming_blocks (max_concurrency m_max_prepare_blocks_threads : nat) (entries : list block_complete_entry) : B bool :=
  match entries with
  | [] => ret false
  | _ =>
      r ← prepare_longhashes max_concurrency m_max_prepare_blocks_threads entries;
      match r with
      | None | Some true => ret true
      | Some false =>
          _ ← update (set_scan ∅);
          r ← scan_txs (MkOffsets [] ∅) (tx_blobs entries);
          match r with
          | None => ret false
          | Some f =>
              s ← state;
              let tx_map := map_imap (fun a offsets => Some (output_scan_worker (m_db s) a offsets)) (offset_map f) in
              table_txs f tx_map (tx_blobs entries)
          end
      end
  end.

(** The tables are emptied after the batch; storing the database is the business
    of LMDB. *)
Definition cleanup_handle_incoming_blocks : B bool :=
  _ ← update (fun s => set_scan ∅ (set_longhash ∅ s));
  ret true.

(** * Properties *)

(** ** The hashes *)

Definition pow_table (t : gmap hash hash) : Prop := forall id h, t !! id = Some h -> pow_of_id id h.

Lemma worker_pow blocks : pow_table (block_longhash_worker blocks).
Proof.
  unfold block_longhash_worker. assert (H0 : pow_table ∅) by (intros id h; by rewrite lookup_empty). revert H0. generalize (∅ : gmap hash hash).
  induction blocks as [|b blocks IH]; intros m Hm; [done|]. cbn [foldl]. apply IH. destruct (m !! block_id b); [done|].
  intros id h [[<- <-]|[_ H]]%lookup_insert_Some; [by exists b|by apply Hm].
Qed.
Lemma tables_pow ts : Forall pow_table ts -> forall t, pow_table t -> pow_table (foldl (fun t m => t ∪ m) t ts).
Proof.
  induction 1 as [|m ts Hm _ IH]; intros t Ht; [done|]. cbn [foldl]. apply IH. intros id h [H|[_ H]]%lookup_union_Some_raw; auto.
Qed.

Lemma Inv_set_longhash ndebug l s t : Inv ndebug l s -> pow_table t -> Inv ndebug l (set_longhash t s).
Proof. intros [] Ht. by split. Qed.
Lemma Inv_set_scan ndebug l s t : Inv ndebug l s -> Inv ndebug l (set_scan t s).
Proof. intros []. by split. Qed.

Lemma longhashes_wp ndebug l n m entries s Q E : Inv ndebug l s ->
  (forall r t, Inv ndebug l (set_longhash t s) -> Q r (set_longhash t s)) -> wp (prepare_longhashes n m entries) Q E s.
Proof.
  intros HI HQ. assert (Hs : forall r, Q r s) by (intros r; specialize (HQ r (m_blocks_longhash_table s)); destruct s; by apply HQ).
  unfold prepare_longhashes. apply wp_bind, wp_state. destruct (_ && _ && _)%nat; [|by apply wp_ret].
  apply wp_bind. eapply wp_reads; [apply (read_tail _ _ (Inv_rep _ _ _ HI))|].
  destruct (collect_all _ _ _ _) as [[[it blocks] known]|]; [|by apply wp_ret].
  destruct (if known then _ else _) as [blocks' known']. destruct known'; [by apply wp_ret|]. apply wp_bind, wp_update, wp_ret, HQ.
  apply Inv_set_longhash; [done|]. apply tables_pow; [|intros id h; by rewrite lookup_empty]. apply Forall_map, Forall_true. intros x. apply worker_pow.
Qed.

(** ** The outputs *)

Lemma position_lookup x l pos : position x l = Some pos -> l !! pos = Some x.
Proof.
  revert pos. induction l as [|y l IH]; intros pos; cbn; [done|]. destruct (Z.eqb_spec x y) as [->|]; [by intros [= <-]|].
  destruct (position x l) as [p|]; [|done]. intros [= <-]. cbn. by apply IH.
Qed.
Lemma worker_lookup db a offsets : forall pos o, output_scan_worker db a offsets !! pos = Some o ->
  exists i, offsets !! pos = Some i /\ get_output_key db a (Z.to_nat i) = Some o.
Proof.
  induction offsets as [|i offsets IH]; intros pos o; cbn; [done|]. destruct (get_output_key db a (Z.to_nat i)) as [o'|] eqn:E; [|done].
  destruct pos as [|pos]; cbn; [intros [= <-]; by exists i|]. apply IH.
Qed.
(** Whatever was looked up ahead, what is found are outputs of the database. *)
Lemma needed_correct db a offsets needed :
  let os := needed_outputs offsets (output_scan_worker db a offsets) needed in
  (length os <= length needed)%nat /\ get_output_keys db a (Z.to_nat <$> take (length os) needed) = Some os.
Proof.
  induction needed as [|x needed [IH1 IH2]]; cbn; [done|]. destruct (position x offsets) as [pos|] eqn:Ep; cbn [mbind option_bind]; [|split; [cbn; lia|done]].
  destruct (output_scan_worker db a offsets !! pos) as [o|] eqn:Eo; [|split; [cbn; lia|done]].
  apply worker_lookup in Eo as (i & Hi & Ho). apply position_lookup in Ep. rewrite Hi in Ep. injection Ep as ->. cbn. split; [lia|].
  unfold get_output_keys in *. cbn. rewrite Ho. cbn. by rewrite IH2.
Qed.

(** ** The scan table *)

(** No two transactions of the batch have the same prefix. *)
Definition distinct (blobs : list (list Z)) : Prop :=
  forall b1 b2 t1 t2 h, b1 ∈ blobs -> b2 ∈ blobs -> parse_and_validate_tx_from_blob b1 = Some (t1, h) ->
    parse_and_validate_tx_from_blob b2 = Some (t2, h) -> b1 = b2.
Definition blank (t : scan_table) : Prop := forall h m, t !! h = Some m -> m = ∅.
Definition listed (blobs : list (list Z)) (t : scan_table) : Prop :=
  forall b tx h, b ∈ blobs -> parse_and_validate_tx_from_blob b = Some (tx, h) -> is_Some (t !! h).
(** The state with another scan table. *)
Definition rescanned (J : scan_table -> Prop) (s s' : Blockchain) : Prop := exists t, s' = set_scan t s /\ J t.

Lemma blank_empty : blank ∅.
Proof. intros h m H. pose proof (eq_trans (eq_sym (lookup_empty h)) H). done. Qed.
Lemma rescanned_trans J J' s s1 s2 : rescanned J s s1 -> rescanned J' s1 s2 -> rescanned J' s s2.
Proof. intros (t & -> & _) (t' & -> & H). by exists t'. Qed.

Lemma scan_txs_wp todo : forall before f s, blank (m_scan_table s) -> listed before (m_scan_table s) -> distinct before ->
  wp (scan_txs f todo) (fun r s' => rescanned blank s s' /\ (r <> None -> distinct (before ++ todo))) (fun _ => rescanned blank s) s.
Proof.
  induction todo as [|b todo IH]; intros before f s Hb Hl Hd; cbn [scan_txs].
  { apply wp_ret. split; [exists (m_scan_table s); by destruct s|]. by rewrite app_nil_r. }
  apply wp_bind. unfold scan_tx. destruct (parse_and_validate_tx_from_blob b) as [[tx h]|] eqn:Ep.
  2:{ apply wp_bind, wp_update, wp_ret, wp_ret. split; [|done]. exists ∅. split; [done|]. apply blank_empty. }
  apply wp_bind, wp_state. destruct (bool_decide _) eqn:Eh.
  { apply wp_bind, wp_update, wp_ret, wp_ret. split; [|done]. exists ∅. split; [done|]. apply blank_empty. }
  apply bool_decide_eq_false in Eh. apply wp_bind, wp_update. set (t := <[h := ∅]> (m_scan_table s)).
  assert (Et : t !! h = Some ∅) by exact (lookup_insert_eq (m_scan_table s) h ∅).
  assert (Ene : forall h', h <> h' -> t !! h' = m_scan_table s !! h') by (intros h' Hne; exact (lookup_insert_ne (m_scan_table s) h h' ∅ Hne)).
  assert (Hbt : blank t) by (intros h' m [[_ <-]|[_ H]]%lookup_insert_Some; [done|by eapply Hb]).
  apply wp_bind, wp_need; [|intros _; by exists t]. intros ins _. apply wp_ret.
  eapply wp_mono; [apply (IH (before ++ [b]) (add_inputs_offsets f ins) (set_scan t s))| |].
  - done.
  - cbn. intros b' tx' h' Hin Ep'. destruct (decide (h = h')) as [->|Hne]; [rewrite Et; by eexists|].
    rewrite Ene by done. apply elem_of_app in Hin as [Hin|Hin]; [by eapply Hl|].
    apply list_elem_of_singleton in Hin as ->. rewrite Ep in Ep'. by injection Ep' as _ ->.
  - intros b1 b2 t1 t2 h' H1 H2 E1 E2. rewrite elem_of_app, list_elem_of_singleton in H1, H2.
    destruct H1 as [H1 | ->], H2 as [H2 | ->]; [by eapply Hd| | |done].
    + rewrite Ep in E2. injection E2 as _ ->. destruct Eh. by eapply Hl.
    + rewrite Ep in E1. injection E1 as _ ->. destruct Eh. by eapply Hl.
  - intros r s' [H Hr]. rewrite <- app_assoc in Hr. split; [|done]. eapply rescanned_trans; [exists t; split; [done|exact Hbt]|exact H].
  - intros er s' H. eapply rescanned_trans; [exists t; split; [done|exact Hbt]|exact H].
Qed.

(** The first outputs of the ring of an input. *)
Definition found (db : BlockchainLMDB) (x : txin_to_key) (outs : list output_data_t) : Prop :=
  (length outs <= length (absolute x))%nat /\ get_output_keys db (in_amount x) (Z.to_nat <$> take (length outs) (absolute x)) = Some outs.
Definition filled (db : BlockchainLMDB) (ins : list txin_to_key) (m : gmap key_image (list output_data_t)) : Prop :=
  forall img outs, m !! img = Some outs -> exists x, x ∈ ins /\ k_image x = img /\ found db x outs.
Definition right_table (db : BlockchainLMDB) (blobs : list (list Z)) (t : scan_table) : Prop :=
  forall b tx h ins m, b ∈ blobs -> parse_and_validate_tx_from_blob b = Some (tx, h) -> to_key_inputs tx = Some ins -> t !! h = Some m -> filled db ins m.

Lemma blank_right db blobs t : blank t -> right_table db blobs t.
Proof.
  intros Hb b tx h ins m _ _ _ Hm. apply Hb in Hm as ->. intros img outs H. pose proof (eq_trans (eq_sym (lookup_empty img)) H). done.
Qed.

Lemma table_inputs_filled db f ins all : (forall x, x ∈ ins -> x ∈ all) -> forall m, filled db all m ->
  filled db all (foldl (table_input f (map_imap (fun a offsets => Some (output_scan_worker db a offsets)) (offset_map f))) m ins).
Proof.
  induction ins as [|x ins IH]; intros Hin m Hm; [done|]. cbn [foldl]. apply IH; [intros y Hy; apply Hin; by right|].
  unfold table_input. destruct (m !! k_image x) eqn:Ex; [done|]. intros img outs [[<- <-]|[_ H]]%lookup_insert_Some; [|by apply Hm].
  exists x. split; [apply Hin; by left|]. split; [done|]. rewrite map_lookup_imap. unfold found, absolute.
  destruct (offset_map f !! in_amount x) as [offsets|]; cbn [mbind option_bind default from_option]; [apply needed_correct|].
  apply (needed_correct db (in_amount x) []).
Qed.

Lemma table_txs_wp f db blobs : distinct blobs -> forall todo s, (forall b, b ∈ todo -> b ∈ blobs) -> m_db s = db -> right_table db blobs (m_scan_table s) ->
  wp (table_txs f (map_imap (fun a offsets => Some (output_scan_worker db a offsets)) (offset_map f)) todo)
    (fun _ => rescanned (right_table db blobs) s) (fun _ => rescanned (right_table db blobs) s) s.
Proof.
  intros Hd. induction todo as [|b todo IH]; intros s Hin Hdb Ht; cbn [table_txs].
  { apply wp_ret. exists (m_scan_table s). split; [by destruct s|done]. }
  assert (Hsame : rescanned (right_table db blobs) s s) by (exists (m_scan_table s); split; [by destruct s|done]).
  assert (Hempty : rescanned (right_table db blobs) s (set_scan ∅ s)) by (exists ∅; split; [done|apply blank_right, blank_empty]).
  apply wp_bind. unfold table_tx. destruct (parse_and_validate_tx_from_blob b) as [[tx h]|] eqn:Ep; [|by apply wp_bind, wp_update, wp_ret, wp_ret].
  apply wp_bind, wp_state. destruct (m_scan_table s !! h) as [m|] eqn:Em; [|by apply wp_bind, wp_update, wp_ret, wp_ret].
  apply wp_bind, wp_need; [|done]. intros ins Hins. apply wp_bind, wp_update, wp_ret. set (m' := foldl _ m ins). set (t := <[h := m']> (m_scan_table s)).
  assert (Hrt : right_table db blobs t).
  { intros b' tx' h' ins' mm Hb' Ep' Hins' [[<- <-]|[_ Hmm]]%lookup_insert_Some; [|by eapply Ht].
    assert (b' = b) as -> by (eapply Hd; [done| |done|done]; apply Hin; by left). rewrite Ep in Ep'. injection Ep' as <-.
    rewrite Hins in Hins'. injection Hins' as <-. apply table_inputs_filled; [done|]. eapply Ht; [apply Hin; by left|done..]. }
  assert (Hstep : rescanned (right_table db blobs) s (set_scan t s)) by by exists t.
  eapply wp_mono; [apply (IH (set_scan t s)); [intros b' Hb'; apply Hin; by right|done|done]|..].
  - intros r s'. by eapply rescanned_trans.
  - intros er s'. by eapply rescanned_trans.
Qed.

Lemma images_to_keys l ins : mapM to_key l = Some ins -> TxPool.images l = map k_image ins.
Proof.
  intros H%mapM_Some_1. induction H as [|i x l ins Hx _ IH]; [done|]. unfold TxPool.images in *. cbn. destruct i; try done. injection Hx as ->. cbn. by f_equal.
Qed.
Lemma right_table_ok db blobs t blob tx h : right_table db blobs t -> blob ∈ blobs -> parse_and_validate_tx_from_blob blob = Some (tx, h) ->
  NoDup (TxPool.tx_images tx) -> Forall (fun i => is_Some (to_key i)) (vin (prefix tx)) -> tables_ok db t h (vin (prefix tx)).
Proof.
  intros Ht Hb Hp Hnd Hk x Hx outs Ho. destruct (mapM_is_Some_2 to_key _ Hk) as [ins Hins]. destruct (t !! h) as [m|] eqn:Em; [|done].
  destruct (Ht _ _ _ _ _ Hb Hp Hins Em _ _ Ho) as (y & Hy & Hi & Hf). assert (x = y) as ->; [|done].
  unfold TxPool.tx_images in Hnd. rewrite (images_to_keys _ _ Hins) in Hnd. apply mapM_Some_1 in Hins.
  assert (Hx' : x ∈ ins).
  { apply list_elem_of_lookup in Hx as [i Hi']. destruct (Forall2_lookup_l _ _ _ _ _ Hins Hi') as (x' & Hx' & E). injection E as ->. by eapply list_elem_of_lookup_2. }
  apply list_elem_of_lookup in Hx' as [i Ei], Hy as [j Ej].
  assert (i = j) as ->; [|congruence]. eapply (NoDup_lookup _ i j (k_image x) Hnd); rewrite list_lookup_fmap; [by rewrite Ei|by rewrite Ej; cbn; rewrite Hi].
Qed.

Lemma prepare_wp ndebug l n m entries s : Inv ndebug l s -> m_scan_table s = ∅ ->
  let J := fun s' => exists t, rescanned (right_table (m_db s) (tx_blobs entries)) (set_longhash t s) s' /\ Inv ndebug l (set_longhash t s) in
  wp (prepare_handle_incoming_blocks n m entries) (fun _ => J) (fun _ => J) s.
Proof.
  intros HI Hs0 J. assert (Hsame : forall t, Inv ndebug l (set_longhash t s) -> J (set_longhash t s)).
  { intros t Ht. exists t. split; [|done]. exists ∅. split; [destruct s; cbn in *; by subst|]. apply blank_right, blank_empty. }
  unfold prepare_handle_incoming_blocks. destruct entries as [|e entries'].
  { apply wp_ret. specialize (Hsame (m_blocks_longhash_table s)). destruct s; by apply Hsame. }
  set (entries := e :: entries') in *. apply wp_bind. eapply longhashes_wp; [exact HI|]. intros r t HIt.
  assert (HJ : forall s', rescanned (right_table (m_db s) (tx_blobs entries)) (set_longhash t s) s' -> J s') by (intros s' Hs'; by exists t).
  assert (Hblank : forall s', rescanned blank (set_scan ∅ (set_longhash t s)) s' -> J s').
  { intros s' (t' & -> & Hb). apply HJ. exists t'. split; [done|]. by apply blank_right. }
  destruct r as [[|]|]; [by apply wp_ret, Hsame| |by apply wp_ret, Hsame]. apply wp_bind, wp_update, wp_bind.
  eapply wp_mono; [apply (scan_txs_wp (tx_blobs entries) []); [apply blank_empty|by intros ??? ?%elem_of_nil|by intros ????? ?%elem_of_nil]| |auto].
  intros [f|] s1 [Hr Hd]; [|by apply wp_ret, Hblank]. specialize (Hd ltac:(done)). destruct Hr as (t1 & -> & Hb). apply wp_bind, wp_state.
  assert (Hfin : forall s', rescanned (right_table (m_db s) (tx_blobs entries)) (set_scan t1 (set_scan ∅ (set_longhash t s))) s' -> J s').
  { intros s' (t' & -> & Ht'). apply HJ. by exists t'. }
  eapply wp_mono; [apply (table_txs_wp f (m_db s) (tx_blobs entries) Hd); [done|done|by apply blank_right]|auto..].
Qed.

(** [C6] What is prepared is right.  Whatever the batch holds and however the
    preparation ends, the chain is as it was; every proof of work in the table is
    that of a block with the hash it is filed under; and for every transaction of the
    batch with different key images, the outputs in the scan table are those that
    the database holds for the first members of the ring, so that verifying the
    transaction with the table is verifying it with the database. *)
Theorem prepare_handle_incoming_blocks_correct ndebug l n m entries s : Inv ndebug l s -> m_scan_table s = ∅ ->
  let '(s', _) := prepare_handle_incoming_blocks n m entries s in
  Inv ndebug l s' /\ m_db s' = m_db s /\ m_tx_pool s' = m_tx_pool s /\
  forall blob tx h, blob ∈ tx_blobs entries -> parse_and_validate_tx_from_blob blob = Some (tx, h) ->
    NoDup (TxPool.tx_images tx) -> Forall (fun i => is_Some (to_key i)) (vin (prefix tx)) ->
    tables_ok (m_db s') (m_scan_table s') h (vin (prefix tx)).
Proof.
  intros HI Hs0. pose proof (prepare_wp ndebug l n m entries s HI Hs0) as H. cbn zeta in H. unfold wp in H.
  destruct (prepare_handle_incoming_blocks n m entries s) as [s' [er|r]]; destruct H as (t & (t' & -> & Ht) & HIt).
  all: split; [by apply Inv_set_scan|]; split; [done|]; split; [done|]; intros blob tx h Hb Hp Hnd Hk; by eapply right_table_ok.
Qed.

End Prepare.

(** ** A batch with a spend *)

(** The next block comes with a spend of one of the two outputs of the chain. *)
Definition sample_stored : Blockchain := foldl (fun s b => (sample_add b s).1) sample_node [sample_first; sample_main].
Definition sample_spender : transaction :=
  MkTransaction (MkPrefix 2 0 [In_to_key (MkTxinToKey 0 [0; 1] (repeat 3 32))] [] []) [] rct_null.
Definition sample_blob : list Z := default [] (dump_binary write_transaction sample_spender).
Definition sample_batch : list block_complete_entry := [MkComplete (default [] (dump_binary write_block sample_next)) [sample_blob]].
Definition sample_prepared : Blockchain * (error + bool) :=
  @prepare_handle_incoming_blocks truncating_FastHash sample_pow 4 4 sample_batch sample_stored.

(** Both outputs are in the prepared table. *)
Lemma prepare_handle_incoming_blocks_correct_witness :
  sample_prepared.2 = inr true /\
  (length <$> (m_scan_table sample_prepared.1 !! take 32 sample_blob ≫= lookup (repeat 3 32)) = Some 2%nat) /\
  tables_ok (m_db sample_prepared.1) (m_scan_table sample_prepared.1) (take 32 sample_blob) (vin (prefix sample_spender)) /\
  exists l, @Inv truncating_FastHash sample_crypto TxVerify.sample_rct sample_pow true l sample_prepared.1.
Proof.
  split; [vm_compute; reflexivity|]. split; [vm_compute; reflexivity|].
  assert (Hp : @parse_and_validate_tx_from_blob truncating_FastHash sample_blob = Some (sample_spender, take 32 sample_blob)) by (vm_compute; reflexivity).
  assert (H : @some_chain truncating_FastHash sample_crypto TxVerify.sample_rct sample_pow true sample_stored).
  { eapply node_steps_Inv; [apply sample_steps|exists []; exact (fresh_Inv true _ _ HardFork.sample_fork_Inv)].
    repeat apply Forall_cons_2; [..|apply Forall_nil_2]; (apply sample_block_ok; [lia|lia|]); by apply sample_hash. }
  destruct H as [l HI].
  assert (H := @prepare_handle_incoming_blocks_correct truncating_FastHash sample_crypto TxVerify.sample_rct sample_pow true l 4 4
    sample_batch sample_stored HI eq_refl).
  unfold sample_prepared. destruct (prepare_handle_incoming_blocks 4 4 sample_batch sample_stored) as [s' r].
  destruct H as (HI' & _ & _ & H). split; [|by exists l]. cbn [fst]. apply (H sample_blob).
  - by apply list_elem_of_singleton.
  - exact Hp.
  - apply NoDup_singleton.
  - apply Forall_singleton. by eexists.
Defined.

End Prepare.
