(* ===== verification/Miner.v ===== *)
(** * The miner

    Model of [src/cryptonote_core/miner.cpp]: the template that the threads share,
    the counters, and the loop of a worker thread as a step relation, so that
    threads interleave with each other and with new templates.

    A thread reads the shared fields one at a time; what is done under
    [m_template_lock] is one step.  Threads sleep, print and measure time beside
    this.  [crypto::rand] and the clock are arguments. *)
From stdpp Require Import gmap.
From S2P Require Import Prelude Difficulty Basic Database TxVerify Keccak Blockchain.
Import Basic Blockchain.

Module Miner.

(** [m_threads] is the number of threads that were started and not joined. *)
Record miner := MkMiner {
  m_stop : bool;
  m_template : block;
  m_template_no : Z;
  m_starter_nonce : Z;
  m_diffic : Z;
  m_height : Z;
  m_thread_index : Z;
  m_threads_total : Z;
  m_pausers_count : Z;
  m_threads : nat;
  m_extra_messages : list (list Z);
  current_extra_message_index : Z;
  m_last_hr_merge_time : Z;
  m_hashes : Z;
  m_current_hash_rate : Z;
  m_last_hash_rates : list Z;
  m_do_mining : bool
}.

Definition set_template_fields (b : block) (no nonce d h : Z) (m : miner) : miner :=
  MkMiner (m_stop m) b no nonce d h (m_thread_index m) (m_threads_total m) (m_pausers_count m) (m_threads m) (m_extra_messages m)
    (current_extra_message_index m) (m_last_hr_merge_time m) (m_hashes m) (m_current_hash_rate m) (m_last_hash_rates m) (m_do_mining m).
Definition set_threads (stop : bool) (index total : Z) (n : nat) (nonce : Z) (m : miner) : miner :=
  MkMiner stop (m_template m) (m_template_no m) nonce (m_diffic m) (m_height m) index total (m_pausers_count m) n (m_extra_messages m)
    (current_extra_message_index m) (m_last_hr_merge_time m) (m_hashes m) (m_current_hash_rate m) (m_last_hash_rates m) (m_do_mining m).
Definition set_pausers (n : Z) (m : miner) : miner :=
  MkMiner (m_stop m) (m_template m) (m_template_no m) (m_starter_nonce m) (m_diffic m) (m_height m) (m_thread_index m) (m_threads_total m) n
    (m_threads m) (m_extra_messages m) (current_extra_message_index m) (m_last_hr_merge_time m) (m_hashes m) (m_current_hash_rate m)
    (m_last_hash_rates m) (m_do_mining m).
Definition set_message_index (i : Z) (m : miner) : miner :=
  MkMiner (m_stop m) (m_template m) (m_template_no m) (m_starter_nonce m) (m_diffic m) (m_height m) (m_thread_index m) (m_threads_total m)
    (m_pausers_count m) (m_threads m) (m_extra_messages m) i (m_last_hr_merge_time m) (m_hashes m) (m_current_hash_rate m)
    (m_last_hash_rates m) (m_do_mining m).
Definition set_rates (time hashes rate : Z) (rates : list Z) (m : miner) : miner :=
  MkMiner (m_stop m) (m_template m) (m_template_no m) (m_starter_nonce m) (m_diffic m) (m_height m) (m_thread_index m) (m_threads_total m)
    (m_pausers_count m) (m_threads m) (m_extra_messages m) (current_extra_message_index m) time hashes rate rates (m_do_mining m).

(** ** The operations *)

Definition is_mining (m : miner) : bool := negb (m_stop m).

Definition set_block_template (rand : Z) (bl : block) (di height : Z) (m : miner) : miner :=
  set_template_fields bl (u32 (m_template_no m + 1)) rand di height m.

(** The message that the next block carries. *)
Definition extra_nonce (m : miner) : list Z :=
  match m_extra_messages m with
  | [] => []
  | _ =>
      if current_extra_message_index m <? Z.of_nat (length (m_extra_messages m))
      then default [] (m_extra_messages m !! Z.to_nat (current_extra_message_index m)) else []
  end.

(** [template] is the answer of [m_phandler->get_block_template] to
    [extra_nonce m]. *)
Definition request_block_template (rand : Z) (template : option (block * Z * Z)) (m : miner) : bool * miner :=
  match template with
  | None => (false, m)
  | Some (bl, di, height) => (true, set_block_template rand bl di height m)
  end.
Definition on_block_chain_update (rand : Z) (template : option (block * Z * Z)) (m : miner) : bool * miner :=
  if negb (is_mining m) then (true, m) else request_block_template rand template m.

Definition merge_hr (now now' : Z) (m : miner) : miner :=
  let '(rate, rates) :=
    if negb (m_last_hr_merge_time m =? 0) && is_mining m then
      let rate := (m_hashes m *w 1000) / ((now -w m_last_hr_merge_time m) +w 1) in
      let rates := m_last_hash_rates m ++ [rate] in
      (rate, if (19 <? length rates)%nat then tail rates else rates)
    else (m_current_hash_rate m, m_last_hash_rates m) in
  set_rates now' 0 rate rates m.
Definition get_speed (m : miner) : Z := if is_mining m then m_current_hash_rate m else 0.

(** The counter is an [int32_t]. *)
Definition pause (m : miner) : miner := set_pausers (i32 (m_pausers_count m + 1)) m.
Definition resume (m : miner) : miner :=
  let n := i32 (m_pausers_count m - 1) in
  set_pausers (if n <? 0 then 0 else n) m.

(** [rand] is the starter nonce; [rand'] that of a template that is requested.
    The address of the miner enters [template]. *)
Definition start (rand rand' : Z) (threads_count : nat) (template : option (block * Z * Z)) (m : miner) : bool * miner :=
  let m := set_threads (m_stop m) (m_thread_index m) (u32 (Z.of_nat threads_count)) (m_threads m) rand m in
  if is_mining m then (false, m)
  else if negb (m_threads m =? 0)%nat then (false, m)
  else
    let m := if m_template_no m =? 0 then (request_block_template rand' template m).2 else m in
    (true, set_threads false 0 (m_threads_total m) threads_count (m_starter_nonce m) m).
(** The threads end before they are joined. *)
Definition stop (m : miner) : bool * miner :=
  if negb (is_mining m) then (true, m)
  else (true, set_threads true (m_thread_index m) (m_threads_total m) 0 (m_starter_nonce m) m).

Section Work.
Context {HF : FastHash} {P : PowHash}.

Definition set_nonce (n : Z) (b : block) : block :=
  MkBlock (MkHeader (major_version (Basic.header b)) (minor_version (Basic.header b)) (timestamp (Basic.header b)) (prev_id (Basic.header b)) n)
    (miner_tx b) (tx_hashes b).

(** The loop runs until the nonce is the largest of its type; [n] is the number of
    nonces that are left before it. *)
Fixpoint find_nonce_loop (n : nat) (bl : block) (diffic : Z) : bool * block :=
  match n with
  | O => (false, bl)
  | S n =>
      if Difficulty.check_hash (get_block_longhash bl) diffic then (true, bl)
      else find_nonce_loop n (set_nonce (u32 (nonce (Basic.header bl) + 1)) bl) diffic
  end.
Definition find_nonce_for_given_block (bl : block) (diffic : Z) : bool * block :=
  find_nonce_loop (Z.to_nat (2 ^ 32 - 1 - nonce (Basic.header bl))) bl diffic.

(** ** Worker threads *)

(** Where a thread is: the tests of [m_stop], [m_pausers_count] and the version of
    the template, the copy under the lock, the reads after it, the hash, the end of
    the round.  [Found] waits for the answer of [handle_block_found]. *)
Inductive place := At_stop | At_pause | At_version | At_copy | At_take | At_nonce | At_set | At_hash | At_found | At_next | At_end.
Record worker := MkWorker {
  w_place : place;
  w_index : Z;
  w_nonce : Z;
  w_block : block;
  w_diff : Z;
  w_version : Z
}.
Definition go (p : place) (w : worker) : worker := MkWorker p (w_index w) (w_nonce w) (w_block w) (w_diff w) (w_version w).
(** [b] starts as whatever it is. *)
Definition new_worker (index starter : Z) (b : block) : worker := MkWorker At_stop index (u32 (starter + index)) b 0 0.

(** One step of a thread, with what it does to the shared state. *)
Definition worker_step (m : miner) (w : worker) : worker * miner :=
  match w_place w with
  | At_stop => (go (if m_stop m then At_end else At_pause) w, m)
  | At_pause => (go (if m_pausers_count m =? 0 then At_version else At_stop) w, m)
  | At_version => (go (if w_version w =? m_template_no m then At_set else At_copy) w, m)
  | At_copy => (MkWorker At_take (w_index w) (w_nonce w) (m_template m) (m_diffic m) (w_version w), m)
  | At_take => (MkWorker At_nonce (w_index w) (w_nonce w) (w_block w) (w_diff w) (m_template_no m), m)
  | At_nonce => (MkWorker At_set (w_index w) (u32 (m_starter_nonce m + w_index w)) (w_block w) (w_diff w) (w_version w), m)
  | At_set => (go (if w_version w =? 0 then At_stop else At_hash) w, m)
  | At_hash =>
      let b := set_nonce (w_nonce w) (w_block w) in
      let w := MkWorker At_next (w_index w) (w_nonce w) b (w_diff w) (w_version w) in
      if Difficulty.check_hash (get_block_longhash b) (w_diff w)
      then (go At_found w, set_message_index (current_extra_message_index m +w 1) m) else (w, m)
  | At_found => (w, m)
  | At_next =>
      (MkWorker At_stop (w_index w) (u32 (w_nonce w + m_threads_total m)) (w_block w) (w_diff w) (w_version w),
       set_rates (m_last_hr_merge_time m) (m_hashes m +w 1) (m_current_hash_rate m) (m_last_hash_rates m) m)
  | At_end => (w, m)
  end.
(** What follows when [handle_block_found] returns. *)
Definition found_step (accepted : bool) (m : miner) (w : worker) : worker * miner :=
  (go At_next w, if accepted then m else set_message_index (current_extra_message_index m -w 1) m).

(** The miner with its threads, the templates that were ever set with their
    difficulties, and the blocks that were handed to [handle_block_found]. *)
Record mining := MkMining { shared : miner; workers : list worker; templates : list (block * Z); found : list block }.
Inductive step (s : mining) : mining -> Prop :=
  | Step_worker i w w' m' : workers s !! i = Some w -> w_place w <> At_found -> worker_step (shared s) w = (w', m') ->
      step s (MkMining m' (<[i := w']> (workers s)) (templates s)
        (match w_place w' with At_found => found s ++ [w_block w'] | _ => found s end))
  | Step_answer i w accepted : workers s !! i = Some w -> w_place w = At_found ->
      step s (MkMining (found_step accepted (shared s) w).2 (<[i := go At_next w]> (workers s)) (templates s) (found s))
  | Step_template rand bl di height :
      step s (MkMining (set_block_template rand bl di height (shared s)) (workers s) (templates s ++ [(bl, di)]) (found s))
  | Step_pause : step s (MkMining (pause (shared s)) (workers s) (templates s) (found s))
  | Step_resume : step s (MkMining (resume (shared s)) (workers s) (templates s) (found s))
  | Step_stop : step s (MkMining (stop (shared s)).2 (workers s) (templates s) (found s))
  | Step_rates now now' : step s (MkMining (merge_hr now now' (shared s)) (workers s) (templates s) (found s)).
(** [atomic_inc32] returns the old value: the threads get different indices. *)
Definition started (m : miner) (ts : list (block * Z)) (starter : Z) (junk : nat -> block) : mining :=
  MkMining m (imap (fun i b => new_worker (Z.of_nat i) starter b) (map junk (seq 0 (m_threads m)))) ts [].

(** * Properties *)

(** ** What is found *)

(** A worker holds a template with its difficulty, up to the nonce. *)
Definition holds (ts : list (block * Z)) (w : worker) : Prop :=
  exists t n, (t, w_diff w) ∈ ts /\ w_block w = set_nonce n t.
Definition worker_ok (ts : list (block * Z)) (w : worker) : Prop :=
  (w_version w <> 0 -> holds ts w) /\
  match w_place w with
  | At_copy => ts <> []
  | At_take | At_nonce => holds ts w
  | At_hash | At_next => w_version w <> 0
  | At_found => w_version w <> 0 /\ Difficulty.check_hash (get_block_longhash (w_block w)) (w_diff w) = true
  | _ => True
  end.
Definition work_ok (ts : list (block * Z)) (b : block) : Prop :=
  exists t d n, (t, d) ∈ ts /\ b = set_nonce n t /\ Difficulty.check_hash (get_block_longhash b) d = true.
Record mining_ok (s : mining) : Prop := {
  mo_shared : m_template_no (shared s) <> 0 -> templates s <> [];
  mo_template : templates s <> [] -> (m_template (shared s), m_diffic (shared s)) ∈ templates s;
  mo_workers : Forall (worker_ok (templates s)) (workers s);
  mo_found : Forall (work_ok (templates s)) (found s)
}.

Lemma set_nonce_id b : set_nonce (nonce (Basic.header b)) b = b.
Proof. by destruct b as [[] ]. Qed.
Lemma set_nonce_twice n n' b : set_nonce n (set_nonce n' b) = set_nonce n b.
Proof. done. Qed.
Lemma holds_nonempty ts w : holds ts w -> ts <> [].
Proof. intros (t & n & H & _) ->. by apply elem_of_nil in H. Qed.
Lemma worker_ok_mono ts x w : worker_ok ts w -> worker_ok (ts ++ [x]) w.
Proof.
  assert (Hm : forall w, holds ts w -> holds (ts ++ [x]) w).
  { intros w' (t & n & H & E). exists t, n. split; [|done]. apply elem_of_app. by left. }
  intros [Hv Hp]. split; [auto|]. destruct (w_place w); auto. by destruct ts.
Qed.
Lemma work_ok_mono ts x b : work_ok ts b -> work_ok (ts ++ [x]) b.
Proof. intros (t & d & n & H & E). exists t, d, n. split; [|done]. apply elem_of_app. by left. Qed.

Definition same_template (m m' : miner) : Prop :=
  m_template_no m' = m_template_no m /\ m_template m' = m_template m /\ m_diffic m' = m_diffic m.

Ltac wcbn := cbn [w_place w_version w_block w_diff go w_index w_nonce set_message_index set_rates m_template_no m_template m_diffic].
Ltac wcbn_in H := cbn [w_place w_version w_block w_diff go w_index w_nonce] in H.
Lemma worker_step_ok ts m w : (m_template_no m <> 0 -> ts <> []) -> (ts <> [] -> (m_template m, m_diffic m) ∈ ts) -> worker_ok ts w ->
  w_place w <> At_found ->
  let '(w', m') := worker_step m w in worker_ok ts w' /\ same_template m m' /\ (w_place w' = At_found -> work_ok ts (w_block w')).
Proof.
  intros Hno Ht [Hv Hp] Hnf. unfold worker_step, worker_ok, same_template. destruct w as [pl i nn b d v]. cbn [w_place] in *.
  destruct pl; cbn [w_place w_version w_block w_diff go w_index w_nonce] in *.
  - destruct (m_stop m); wcbn; (split; [|done]); done.
  - destruct (_ =? 0); wcbn; (split; [|done]); done.
  - destruct (Z.eqb_spec v (m_template_no m)) as [->|Hne]; wcbn; (split; [split; [done|]|done]); [done|].
    destruct (decide (v = 0)) as [->|Hv0]; [apply Hno; lia|]. by eapply holds_nonempty, Hv.
  - assert (H : holds ts (MkWorker At_take i nn (m_template m) (m_diffic m) v)).
    { exists (m_template m), (nonce (Basic.header (m_template m))). split; [by apply Ht|]. wcbn. by rewrite set_nonce_id. }
    split_and!; [intros _; exact H|exact H|done..].
  - split_and!; [intros _; exact Hp|exact Hp|done..].
  - split_and!; [exact Hv|exact I|done..].
  - destruct (Z.eqb_spec v 0) as [->|Hv0]; wcbn; (split; [|done]); done.
  - assert (H : forall p, holds ts (MkWorker p i nn (set_nonce nn b) d v)).
    { destruct (Hv Hp) as (t & n & Hin & E). wcbn_in Hin; wcbn_in E. intros p. exists t, nn. split; [done|]. wcbn. by rewrite E. }
    destruct (Difficulty.check_hash _ d) eqn:Ec; wcbn; [|split_and!; [intros _; apply H|exact Hp|done..]].
    split_and!; [intros _; apply H|exact Hp|exact Ec|done..|]. intros _. destruct (H At_found) as (t & n & Hin & E). by exists t, d, n.
  - by destruct Hnf.
  - split_and!; [exact Hv|exact I|done..].
  - split_and!; [exact Hv|exact I|done..].
Qed.

Lemma step_ok s s' : mining_ok s -> step s s' -> mining_ok s'.
Proof.
  intros [Hno Ht Hw Hf]. destruct 1 as [i w w' m' Hi Hnf Es|i w acc Hi Hfd|rand bl di height| | | |now now'].
  - pose proof (worker_step_ok (templates s) (shared s) w Hno Ht (Forall_lookup_1 _ _ _ _ Hw Hi) Hnf) as H. rewrite Es in H.
    destruct H as (Hw' & (E1 & E2 & E3) & Hfd). split; cbn [shared workers templates found].
    + by rewrite E1.
    + by rewrite E2, E3.
    + by apply Forall_insert.
    + destruct (w_place w'); try done. apply Forall_app_2; [done|]. apply Forall_singleton. by apply Hfd.
  - split; cbn [shared workers templates found]; [by destruct acc|by destruct acc| |done]. apply Forall_insert; [done|].
    destruct (Forall_lookup_1 _ _ _ _ Hw Hi) as [Hv Hp]. rewrite Hfd in Hp. split; [exact Hv|]. apply Hp.
  - split; cbn [shared workers templates found]; [by destruct (templates s)| | |].
    + intros _. apply elem_of_app. right. by apply list_elem_of_singleton.
    + eapply Forall_impl; [exact Hw|]. intros w. apply worker_ok_mono.
    + eapply Forall_impl; [exact Hf|]. intros w. apply work_ok_mono.
  - by split.
  - by split.
  - unfold stop. destruct (negb _); by split.
  - unfold merge_hr. destruct (negb (_ =? 0) && _); by split.
Qed.

Lemma started_ok m ts starter junk : (m_template_no m <> 0 -> ts <> []) -> (ts <> [] -> (m_template m, m_diffic m) ∈ ts) ->
  mining_ok (started m ts starter junk).
Proof.
  intros Hno Ht. split; cbn [started shared workers templates found]; [done|done| |constructor].
  apply Forall_lookup_2. intros i w. rewrite list_lookup_imap. intros (b & _ & ->)%fmap_Some. by split.
Qed.

(** [C9] However threads, new templates, pauses and stops interleave, a block that a
    thread hands to [handle_block_found] is one of the templates that were set, with
    another nonce, and its proof of work satisfies the difficulty that was set with
    that template. *)
Theorem found_blocks_have_work m ts starter junk s : (m_template_no m <> 0 -> ts <> []) ->
  (ts <> [] -> (m_template m, m_diffic m) ∈ ts) -> rtc step (started m ts starter junk) s ->
  Forall (work_ok (templates s)) (found s).
Proof.
  intros Hno Ht Hs. apply mo_found. assert (H0 := started_ok m ts starter junk Hno Ht). induction Hs as [|s1 s2 s3 H _ IH]; [done|].
  apply IH. by eapply step_ok.
Qed.

(** ** Which nonces are tried *)

(** The nonce of the thread [index] in round [k] on a template. *)
Fixpoint nonce_in_round (starter index total : Z) (k : nat) : Z :=
  match k with
  | O => u32 (starter + index)
  | S k => u32 (nonce_in_round starter index total k + total)
  end.
Lemma nonce_in_round_eq starter index total k : nonce_in_round starter index total k = u32 (starter + index + Z.of_nat k * total).
Proof.
  induction k as [|k IH]; cbn [nonce_in_round]; [f_equal; lia|]. rewrite IH, wrap_add_l. f_equal. lia.
Qed.

(** Threads never try the same nonce of a template as long as the rounds of all
    threads fit the nonces there are. *)
Lemma nonces_differ starter total i j k k' : 0 <= i < total -> 0 <= j < total -> Z.of_nat k < 2 ^ 32 / total -> Z.of_nat k' < 2 ^ 32 / total ->
  nonce_in_round starter i total k = nonce_in_round starter j total k' -> i = j /\ k = k'.
Proof.
  intros Hi Hj Hk Hk' E. rewrite !nonce_in_round_eq in E. assert (Hd : total * (2 ^ 32 / total) <= 2 ^ 32) by (apply Z.mul_div_le; lia).
  set (q := 2 ^ 32 / total) in *. assert (Hb : forall a x, 0 <= a < total -> Z.of_nat x < q -> 0 <= a + Z.of_nat x * total < 2 ^ 32) by (intros; nia).
  pose proof (Hb i k Hi Hk). pose proof (Hb j k' Hj Hk').
  assert (Heq : i + Z.of_nat k * total = j + Z.of_nat k' * total).
  { unfold u32, wrap in E. rewrite <- !Z.add_assoc in E.
    assert (E' : ((starter + (i + Z.of_nat k * total)) - starter) mod 2 ^ 32 = ((starter + (j + Z.of_nat k' * total)) - starter) mod 2 ^ 32)
      by (rewrite Zminus_mod, E, <- Zminus_mod; done).
    rewrite !Z.add_simpl_l, !Z.mod_small in E' by lia. done. }
  assert (Z.of_nat k = Z.of_nat k') by nia. split; [nia|lia].
Qed.

(** ** The sequential search *)

Lemma find_nonce_loop_spec n : forall b d, is_u32 (nonce (Basic.header b)) -> nonce (Basic.header b) + Z.of_nat n < 2 ^ 32 ->
  let works i := Difficulty.check_hash (get_block_longhash (set_nonce (nonce (Basic.header b) + Z.of_nat i) b)) d in
  match find_nonce_loop n b d with
  | (true, b') => exists i, (i < n)%nat /\ b' = set_nonce (nonce (Basic.header b) + Z.of_nat i) b /\ works i = true /\ forall j, (j < i)%nat -> works j = false
  | (false, _) => forall j, (j < n)%nat -> works j = false
  end.
Proof.
  induction n as [|n IH]; intros b d Hb Hn works; cbn [find_nonce_loop]; [intros; lia|].
  assert (E0 : set_nonce (nonce (Basic.header b) + Z.of_nat 0) b = b) by (rewrite Z.add_0_r; apply set_nonce_id).
  assert (H0 : works 0%nat = Difficulty.check_hash (get_block_longhash b) d) by (unfold works; by rewrite E0).
  destruct (Difficulty.check_hash (get_block_longhash b) d) eqn:Ec.
  { exists 0%nat. rewrite E0. split_and!; [lia|done|done|intros; lia]. }
  set (b1 := set_nonce (u32 (nonce (Basic.header b) + 1)) b).
  assert (E1 : nonce (Basic.header b1) = nonce (Basic.header b) + 1) by (cbn [b1 set_nonce Basic.header nonce]; apply wrap_small; unfold word in *; lia).
  assert (Es : forall i, set_nonce (nonce (Basic.header b1) + Z.of_nat i) b1 = set_nonce (nonce (Basic.header b) + Z.of_nat (S i)) b).
  { intros i. unfold b1 at 2. rewrite set_nonce_twice, E1. f_equal. lia. }
  specialize (IH b1 d ltac:(unfold word in *; lia) ltac:(lia)). cbv zeta in IH. destruct (find_nonce_loop n b1 d) as [[|] b'].
  - destruct IH as (i & Hi & -> & Hw & Hj). exists (S i). rewrite Es in *. split_and!; [lia|done|done|].
    intros [|j] Hlt; [done|]. unfold works. rewrite <- Es. apply Hj. lia.
  - intros [|j] Hlt; [done|]. unfold works. rewrite <- Es. apply IH. lia.
Qed.

(** ** Schedules *)

(** A run given as a list of what happens, for concrete interleavings. *)
Inductive action := Act_worker (i : nat) | Act_answer (i : nat) (accepted : bool) | Act_template (rand : Z) (bl : block) (di height : Z).
Definition act (s : mining) (a : action) : option mining :=
  match a with
  | Act_worker i =>
      w ← workers s !! i;
      match w_place w with
      | At_found => None
      | _ =>
          let '(w', m') := worker_step (shared s) w in
          Some (MkMining m' (<[i := w']> (workers s)) (templates s) (match w_place w' with At_found => found s ++ [w_block w'] | _ => found s end))
      end
  | Act_answer i accepted =>
      w ← workers s !! i;
      match w_place w with
      | At_found => Some (MkMining (found_step accepted (shared s) w).2 (<[i := go At_next w]> (workers s)) (templates s) (found s))
      | _ => None
      end
  | Act_template rand bl di height =>
      Some (MkMining (set_block_template rand bl di height (shared s)) (workers s) (templates s ++ [(bl, di)]) (found s))
  end.
Fixpoint acts (s : mining) (l : list action) : option mining :=
  match l with
  | [] => Some s
  | a :: l => s ← act s a; acts s l
  end.
Lemma act_step s a s' : act s a = Some s' -> step s s'.
Proof.
  destruct a as [i|i acc|rand bl di height]; cbn [act].
  - destruct (workers s !! i) as [w|] eqn:Ew; cbn [mbind option_bind]; [|done]. destruct (worker_step (shared s) w) as [w' m'] eqn:Es.
    assert (H : w_place w <> At_found -> step s (MkMining m' (<[i := w']> (workers s)) (templates s)
      (match w_place w' with At_found => found s ++ [w_block w'] | _ => found s end))) by (intros Hn; by eapply Step_worker).
    destruct (w_place w); intros [= <-]; by apply H.
  - destruct (workers s !! i) as [w|] eqn:Ew; cbn [mbind option_bind]; [|done]. destruct (w_place w) eqn:Ep; intros [= <-]. by eapply Step_answer.
  - intros [= <-]. apply Step_template.
Qed.
Lemma acts_steps l : forall s s', acts s l = Some s' -> rtc step s s'.
Proof.
  induction l as [|a l IH]; intros s s'; cbn [acts]; [intros [= <-]; apply rtc_refl|]. intros (s1 & E & H)%bind_Some.
  eapply rtc_l; [by eapply act_step|by apply IH].
Qed.

End Work.

(** ** Concrete runs *)

(** The largest byte of the proof of work of a block is that of its nonce. *)
Definition sample_pow : PowHash := {| cn_pow_hash blob := repeat 0 31 ++ [List.nth 35 blob 0] |}.
Definition sample_template (prev : Z) : block :=
  MkBlock (MkHeader 1 1 0 (repeat prev 32) 0) (MkTransaction (MkPrefix 2 10 [In_gen (MkTxinGen 0)] [] []) [] rct_null) [].
Definition idle_miner : miner := MkMiner true (sample_template 0) 0 0 0 0 0 0 0 0 [] 0 0 0 0 [] false.
Definition sample_miner : miner := (start 5 7 2 None idle_miner).2.
Definition sample_start : mining := started sample_miner [] 5 (fun _ => sample_template 9).
Definition sample_run (l : list action) : option mining := @acts truncating_FastHash sample_pow sample_start l.
Lemma sample_run_steps l s : sample_run l = Some s -> rtc (@step truncating_FastHash sample_pow) sample_start s.
Proof. apply acts_steps. Qed.

(** The first thread finds a block. *)
Definition sample_luck : list action := Act_template 7 (sample_template 1) 32 0 :: repeat (Act_worker 0) 8.
Lemma sample_luck_run : exists s, rtc (@step truncating_FastHash sample_pow) sample_start s /\ found s = [set_nonce 7 (sample_template 1)].
Proof.
  assert (E : found <$> sample_run sample_luck = Some [set_nonce 7 (sample_template 1)]) by (vm_compute; reflexivity).
  pose proof (sample_run_steps sample_luck) as H.
  revert E H. generalize (sample_run sample_luck). intros [s|] E H; [|done]. exists s. injection E as E. split; [by apply H|done].
Qed.
Lemma found_blocks_have_work_witness : exists s, found s = [set_nonce 7 (sample_template 1)] /\
  Forall (@work_ok truncating_FastHash sample_pow (templates s)) (found s).
Proof.
  destruct sample_luck_run as (s & Es & Ef). exists s. split; [exact Ef|].
  apply (@found_blocks_have_work truncating_FastHash sample_pow sample_miner [] 5 (fun _ => sample_template 9) s).
  - intros H. exfalso. apply H. reflexivity.
  - intros H. exfalso. by apply H.
  - exact Es.
Defined.

(** A template that is set between the copy and the read of its number is missed: the
    thread hashes the old template although its number is the new one. *)
Definition sample_race : list action :=
  [Act_template 7 (sample_template 1) 32 0] ++ repeat (Act_worker 0) 4 ++ [Act_template 8 (sample_template 2) 32 1] ++ repeat (Act_worker 0) 3.
Example template_missed : exists s w, sample_run sample_race = Some s /\ workers s !! 0%nat = Some w /\ w_place w = At_hash /\
  w_version w = m_template_no (shared s) /\ w_block w = sample_template 1 /\ m_template (shared s) = sample_template 2.
Proof. do 2 eexists. vm_compute. split_and!; reflexivity. Qed.
(** Starting a miner that runs is refused, but changes the number of threads that the
    running threads step by. *)
Example start_refused_changes :
  let '(r, m) := start 1 2 8 None sample_miner in r = false /\ m_threads m = 2%nat /\ m_threads_total m = 8.
Proof. vm_compute. split_and!; reflexivity. Qed.
End Miner.
