(* ===== verification/ChainQueries.v ===== *)
(** * Queries on the chain

    Model of the functions of [src/cryptonote_core/blockchain.cpp] that answer other
    nodes and the RPC server: blocks and transactions by height or id, the objects
    that a synchronizing node asks for, and outputs to mix with.

    An exception that a function lets through is [None].  Random numbers are a list
    of draws; a loop that draws more of them than the list has is [None], too. *)
From Stdlib Require Import SpecFloat.
From stdpp Require Import gmap.
From S2P Require Import Prelude Keccak HardFork Serialization Basic FormatUtils Reward Database ChainRules TxVerify Blockchain ChainInvariant Prepare.
Import Serialization Basic FormatUtils Reward Database ChainRules Blockchain ChainInvariant Prepare.

#[local] Set Warnings "-clear-no-such-hyp".

Module ChainQueries.

(** ** Blocks and transactions *)

Definition have_tx (s : Blockchain) (id : hash) : bool := tx_exists (m_db s) id.
Definition have_tx_keyimg_as_spent (s : Blockchain) (key_im : key_image) : bool := has_key_image (m_db s) key_im.
Definition get_tail_id (s : Blockchain) : option hash := top_block_hash (m_db s).
(** With the height of the last block, which wraps around for an empty chain. *)
Definition get_tail_id_height (s : Blockchain) : option (hash * Z) :=
  h ← get_tail_id s; Some (h, height64 (m_db s) -w 1).
Definition get_block_id_by_height (s : Blockchain) (height : nat) : hash :=
  default null_hash (get_block_hash_from_height (m_db s) height).

(** [BLOCK_DNE] for a block that is not there, another exception for one that does
    not parse. *)
Definition block_missing (db : BlockchainLMDB) (h : hash) : bool :=
  match get_block_height db h ≫= fun height => m_blocks (tbl db) !! height with Some _ => false | None => true end.
(** [Some None] is [false]. *)
Definition get_block_by_hash (s : Blockchain) (h : hash) : option (option block) :=
  match get_block (m_db s) h with
  | Some b => Some (Some b)
  | None => if block_missing (m_db s) h then Some (bl <$> m_alternative_chains s !! h) else None
  end.

(** [get_transactions]: the result, the transactions found and the ids missed. *)
Fixpoint get_transactions (db : BlockchainLMDB) (ids : list hash) : bool * list transaction * list hash :=
  match ids with
  | [] => (true, [], [])
  | id :: ids =>
      match get_tx db id with
      | Some tx => let '(r, txs, missed) := get_transactions db ids in (r, tx :: txs, missed)
      | None =>
          match get_tx_error db id with
          | TX_DNE => let '(r, txs, missed) := get_transactions db ids in (r, txs, id :: missed)
          | _ => (false, [], [])
          end
      end
  end.
(** The template [get_blocks] over ids. *)
Fixpoint get_blocks_by_ids (db : BlockchainLMDB) (ids : list hash) : bool * list block * list hash :=
  match ids with
  | [] => (true, [], [])
  | id :: ids =>
      match get_block db id with
      | Some b => let '(r, bs, missed) := get_blocks_by_ids db ids in (r, b :: bs, missed)
      | None =>
          if block_missing db id then let '(r, bs, missed) := get_blocks_by_ids db ids in (r, bs, id :: missed)
          else (false, [], [])
      end
  end.

(** [for (i = start_offset; i < start_offset + count && i < m_db->height(); i++)];
    [Some None] is [false]. *)
Definition get_blocks (db : BlockchainLMDB) (start_offset count : Z) : option (option (list block)) :=
  if height64 db <? start_offset then Some None
  else
    let stop := Z.min (start_offset +w count) (height64 db) in
    bs ← mapM (get_block_from_height db) (seq (Z.to_nat start_offset) (Z.to_nat (stop - start_offset)));
    Some (Some bs).
(** The transactions of the blocks one after the other; [None] when one is missed. *)
Fixpoint blocks_transactions (db : BlockchainLMDB) (bs : list block) : option (list transaction) :=
  match bs with
  | [] => Some []
  | b :: bs =>
      let '(_, txs, missed) := get_transactions db (tx_hashes b) in
      match missed with
      | [] => rest ← blocks_transactions db bs; Some (txs ++ rest)
      | _ => None
      end
  end.
Definition get_blocks_with_txs (db : BlockchainLMDB) (start_offset count : Z) : option (option (list block * list transaction)) :=
  if height64 db <? start_offset then Some None
  else
    r ← get_blocks db start_offset count;
    match r with
    | None => Some None
    | Some bs =>
        match blocks_transactions db bs with
        | None => Some None
        | Some txs => Some (Some (bs, txs))
        end
    end.

(** [find_blockchain_supplement] with full blocks: the blocks with their
    transactions, the total height and the start height. *)
Fixpoint supplement_blocks (db : BlockchainLMDB) (heights : list nat) : option (option (list (block * list transaction))) :=
  match heights with
  | [] => Some (Some [])
  | i :: heights =>
      b ← get_block_from_height db i;
      let '(_, txs, mis) := get_transactions db (tx_hashes b) in
      match mis with
      | [] =>
          rest ← supplement_blocks db heights;
          match rest with None => Some None | Some rest => Some (Some ((b, txs) :: rest)) end
      | _ => Some None
      end
  end.
Definition find_blockchain_supplement_full (db : BlockchainLMDB) (req_start_block : Z) (qblock_ids : list hash) (max_count : nat)
  : option (option (list (block * list transaction) * nat * nat)) :=
  let start :=
    if 0 <? req_start_block then if height64 db <=? req_start_block then None else Some (Z.to_nat req_start_block)
    else find_split db qblock_ids in
  match start with
  | None => Some None
  | Some start_height =>
      let total_height := m_height db in
      r ← supplement_blocks db (seq start_height ((total_height - start_height) `min` max_count));
      match r with None => Some None | Some bs => Some (Some (bs, total_height, start_height)) end
  end.

(** ** What a synchronizing node asks for *)

Definition to_blob {A} (put : writer A) (v : A) : list Z := default [] (dump_binary put v).

Record response := MkResponse {
  rsp_txs : list (list Z);
  rsp_blocks : list block_complete_entry;
  missed_ids : list hash;
  current_blockchain_height : Z
}.
(** The loop over the blocks; a missed transaction ends it with its ids. *)
Fixpoint pack_blocks (db : BlockchainLMDB) (bs : list block) : list block_complete_entry * option (list hash) :=
  match bs with
  | [] => ([], None)
  | b :: bs =>
      let '(_, txs, missed) := get_transactions db (tx_hashes b) in
      match missed with
      | [] => let '(es, r) := pack_blocks db bs in (MkComplete (to_blob write_block b) (to_blob write_transaction <$> txs) :: es, r)
      | _ => ([], Some missed)
      end
  end.
Definition handle_get_objects (s : Blockchain) (arg_blocks arg_txs : list hash) : bool * response :=
  let db := m_db s in
  let '(_, bs, missed) := get_blocks_by_ids db arg_blocks in
  let '(es, r) := pack_blocks db bs in
  match r with
  | Some missed_tx => (false, MkResponse [] es (missed ++ missed_tx) (height64 db))
  | None =>
      let '(_, txs, missed_tx) := get_transactions db arg_txs in
      (true, MkResponse (to_blob write_transaction <$> txs) es (missed ++ missed_tx) (height64 db))
  end.

Definition get_alternative_blocks (s : Blockchain) : list block := (fun x => bl x.2) <$> map_to_list (m_alternative_chains s).
Definition get_alternative_blocks_count (s : Blockchain) : nat := size (m_alternative_chains s).
(** [get_hashes_range(0, m_db->height() - 1)], whose end wraps around for an empty
    chain. *)
Definition get_all_known_block_ids (s : Blockchain) : option (list hash * list hash * list hash) :=
  match m_height (m_db s) with
  | O => None
  | S h =>
      main ← get_hashes_range (m_db s) 0 h;
      Some (main, (map_to_list (m_alternative_chains s)).*1, (map_to_list (m_invalid_blocks s)).*1)
  end.
Definition block_difficulty (s : Blockchain) (i : nat) : Z := default 0 (get_block_difficulty (m_db s) i).
Definition get_total_transactions (s : Blockchain) : nat := get_tx_count (m_db s).
(** [Some None] is [false]. *)
Definition get_tx_outputs_gindexs (s : Blockchain) (tx_id : hash) : option (option (list nat)) :=
  match m_tx_indices (tbl (m_db s)) !! tx_id with
  | None => Some None
  | Some ti =>
      match get_tx_amount_output_indices (m_db s) (td_tx_id ti) with
      | [] => tx ← get_tx (m_db s) tx_id; match vout (prefix tx) with [] => Some (Some []) | _ => Some None end
      | indexs => Some (Some indexs)
      end
  end.

(** ** Outputs to mix with *)

Section Outs.
Context {HF : FastHash} {C : DbCrypto}.
Variable now : Z.

Record outkey_entry := MkOutEntry { oe_key : public_key; oe_mask : key; oe_unlocked : bool }.
(** Whether the transaction of an output is unlocked. *)
Definition output_unlocked (db : BlockchainLMDB) (amount : Z) (i : nat) : option bool :=
  toi ← get_output_tx_and_index db amount i;
  t ← get_tx_unlock_time db toi.1;
  Some (is_tx_spendtime_unlocked db now t).
Definition get_outs (db : BlockchainLMDB) (req : list (Z * nat)) : option (list outkey_entry) :=
  mapM (fun '(amount, i) =>
    od ← get_output_key db amount i;
    unlocked ← output_unlocked db amount i;
    Some (MkOutEntry (od_pubkey od) (od_commitment od) unlocked)) req.

(** The number of outputs that are old enough: from the last one down. *)
Fixpoint usable_outs (db : BlockchainLMDB) (amount : Z) (num_outs : nat) : option nat :=
  match num_outs with
  | O => Some O
  | S n =>
      toi ← get_output_tx_and_index db amount n;
      height ← get_tx_block_height db toi.1;
      if (height + CRYPTONOTE_DEFAULT_TX_SPENDABLE_AGE <=? m_height db)%nat then Some num_outs else usable_outs db amount n
  end.

Record random_out := MkRandomOut { ro_amount : Z; ro_index : nat; ro_key : public_key; ro_commitment : key }.
Definition add_random_out (db : BlockchainLMDB) (amount : Z) (outs : list random_out) (i : nat) : option (list random_out) :=
  unlocked ← output_unlocked db amount i;
  if unlocked : bool then
    data ← get_output_key db amount i;
    Some (outs ++ [MkRandomOut amount i (od_pubkey data) (od_commitment data)])
  else Some outs.
(** [sqrt((double)r / 2^53)] of a draw, times the number of outputs; a product that
    rounds up to that number is the last output. *)
Definition draw_index (num_outs : nat) (r : Z) : nat :=
  let r := r mod 2 ^ 53 in
  let frac := SFsqrt prec emax (ddiv (of_u64 r) (of_u64 (2 ^ 53))) in
  let i := Z.to_nat (to_u64 (dmul frac (of_u64 (Z.of_nat num_outs)))) in
  if (i =? num_outs)%nat then (i - 1)%nat else i.
(** The loop that draws: [None] is an exception, or the end of the draws. *)
Fixpoint draw_outs (db : BlockchainLMDB) (amount : Z) (outs_count num_outs : nat) (seen : gset nat) (outs : list random_out) (draws : list Z)
  : option (list random_out * list Z) :=
  if negb (length outs <? outs_count)%nat then Some (outs, draws)
  else if (size seen =? num_outs)%nat then Some (outs, draws)
  else
    match draws with
    | [] => None
    | r :: draws =>
        let i := draw_index num_outs r in
        if bool_decide (i ∈ seen) then draw_outs db amount outs_count num_outs seen outs draws
        else
          outs ← add_random_out db amount outs i;
          draw_outs db amount outs_count num_outs ({[ i ]} ∪ seen) outs draws
    end.
Fixpoint add_random_outs (db : BlockchainLMDB) (amount : Z) (outs : list random_out) (todo : list nat) : option (list random_out) :=
  match todo with
  | [] => Some outs
  | i :: todo => outs ← add_random_out db amount outs i; add_random_outs db amount outs todo
  end.
Definition random_outs (db : BlockchainLMDB) (amount : Z) (outs_count : nat) (draws : list Z) : option (list random_out * list Z) :=
  num_outs ← usable_outs db amount (get_num_outputs db amount);
  if (num_outs <=? outs_count)%nat then outs ← add_random_outs db amount [] (seq 0 num_outs); Some (outs, draws)
  else draw_outs db amount outs_count num_outs ∅ [] draws.

Fixpoint get_random_outs_for_amounts (db : BlockchainLMDB) (outs_count : nat) (amounts : list Z) (draws : list Z)
  : option (list (Z * list random_out)) :=
  match amounts with
  | [] => Some []
  | amount :: amounts =>
      '(outs, draws) ← random_outs db amount outs_count draws;
      rest ← get_random_outs_for_amounts db outs_count amounts draws;
      Some ((amount, outs) :: rest)
  end.
(** The result is [false] when there are too few. *)
Definition get_random_rct_outs (db : BlockchainLMDB) (outs_count : nat) (draws : list Z) : option (bool * list random_out) :=
  '(outs, _) ← random_outs db 0 outs_count draws;
  Some (negb (length outs <? outs_count)%nat, outs).

End Outs.

(** * Properties *)

Section Answers.
Context {HF : FastHash} {C : DbCrypto}.
Variables (l : list entry) (db : BlockchainLMDB).
Hypothesis Hb : built l db.

(** The block with an id, and the transaction with an id, of the stored chain. *)
Definition entry_of (h : hash) : option entry := snd <$> list_find (fun e => e_hash e = h) l.
Definition tx_of (h : hash) : option transaction := (fun x => x.2.2) <$> list_find (fun x : hash * transaction => x.1 = h) (chain_txs l).
Definition packed (e : entry) : block_complete_entry := MkComplete (to_blob write_block (e_block e)) (to_blob write_transaction <$> e_txs e).

Lemma entry_of_lookup h i e : l !! i = Some e -> e_hash e = h -> entry_of h = Some e.
Proof.
  intros Hi Hh. pose proof (built_represents _ _ Hb) as [Hr _]. unfold entry_of. destruct (list_find _ l) as [[j e']|] eqn:E.
  - apply list_find_Some in E as (Hj & He' & _). assert (H1 : get_block_height db h = Some i) by (apply (rp_heights _ _ Hr); by rewrite Hi, <- Hh).
    assert (H2 : get_block_height db h = Some j) by (apply (rp_heights _ _ Hr); by rewrite Hj, <- He'). cbn. congruence.
  - apply list_find_None in E. rewrite Forall_lookup in E. by destruct (E _ _ Hi).
Qed.
Lemma stored_block h : get_block db h = e_block <$> entry_of h /\ block_missing db h = (match entry_of h with Some _ => false | None => true end).
Proof.
  pose proof (built_represents _ _ Hb) as [Hr _]. unfold get_block, block_missing. destruct (get_block_height db h) as [i|] eqn:Eh; cbn [mbind option_bind].
  - apply (rp_heights _ _ Hr) in Eh. destruct (l !! i) as [e|] eqn:Ei; [|done]. injection Eh as Eh. rewrite (entry_of_lookup h i e Ei Eh).
    pose proof (rp_blocks _ _ Hr i) as Hbl. rewrite Ei in Hbl. rewrite Hbl. split; [done|]. unfold get_block_from_height in Hbl. by destruct (m_blocks (tbl db) !! i).
  - assert (E : entry_of h = None); [|by rewrite E]. unfold entry_of. destruct (list_find _ l) as [[j e']|] eqn:E; [|done].
    apply list_find_Some in E as (Hj & He' & _). assert (H2 : get_block_height db h = Some j); [|congruence].
    apply (rp_heights _ _ Hr). by rewrite Hj, <- He'.
Qed.

Lemma tx_of_elem h tx : (h, tx) ∈ chain_txs l -> tx_of h = Some tx.
Proof.
  intros Hin. pose proof (built_represents _ _ Hb) as [_ Hr]. unfold tx_of. destruct (list_find _ _) as [[j [h' tx']]|] eqn:E.
  - apply list_find_Some in E as (Hj & He' & _). cbn in He'. subst h'. apply list_elem_of_lookup in Hin as [i Hi].
    assert (i = j) as ->; [|cbn; congruence]. eapply (NoDup_lookup _ i j h (rp_txs_nodup _ _ Hr)); rewrite list_lookup_fmap; [by rewrite Hi|by rewrite Hj].
  - apply list_find_None in E. rewrite Forall_forall in E. by destruct (E _ Hin).
Qed.
Lemma stored_tx h tx : (h, tx) ∈ chain_txs l -> get_tx db h = Some tx.
Proof.
  intros Hin. pose proof (built_represents _ _ Hb) as [_ Hr]. apply list_elem_of_bind in Hin as (e & Hin & He).
  apply list_elem_of_lookup in He as [i Hi]. apply (rp_txs _ _ Hr i e h tx Hi Hin).
Qed.
Lemma get_tx_of h : get_tx db h = tx_of h /\ (tx_of h = None -> get_tx_error db h = TX_DNE).
Proof.
  pose proof (built_represents _ _ Hb) as [_ Hr]. destruct (tx_of h) as [tx|] eqn:E.
  - split; [|done]. apply stored_tx. unfold tx_of in E. apply fmap_Some in E as ([j [h' tx']] & E & ->).
    apply list_find_Some in E as (Hj & He' & _). cbn in He'. subst h'. by eapply list_elem_of_lookup_2.
  - assert (Hn : m_tx_indices (tbl db) !! h = None).
    { destruct (m_tx_indices (tbl db) !! h) as [ti|] eqn:Et; [|done]. assert (He : tx_exists db h = true) by (unfold tx_exists; by rewrite Et).
      apply (rp_exists _ _ Hr), list_elem_of_fmap in He as ([h' tx] & -> & Hin). cbn in E. rewrite (tx_of_elem _ _ Hin) in E. done. }
    unfold get_tx, get_tx_error. rewrite Hn. done.
Qed.

Lemma get_transactions_spec ids : get_transactions db ids = (true, omap tx_of ids, filter (fun h => tx_of h = None) ids).
Proof.
  induction ids as [|h ids IH]; [done|]. cbn [get_transactions]. destruct (get_tx_of h) as [E1 E2]. rewrite E1, IH. cbn [omap list_omap].
  rewrite filter_cons. destruct (tx_of h) as [tx|]; [by rewrite decide_False|]. rewrite decide_True by done. by rewrite E2.
Qed.
Lemma get_blocks_by_ids_spec ids : get_blocks_by_ids db ids = (true, e_block <$> omap entry_of ids, filter (fun h => entry_of h = None) ids).
Proof.
  induction ids as [|h ids IH]; [done|]. cbn [get_blocks_by_ids]. destruct (stored_block h) as [E1 E2]. rewrite E1, E2, IH. cbn [omap list_omap].
  rewrite filter_cons. destruct (entry_of h) as [e|]; [by rewrite decide_False|]. by rewrite decide_True.
Qed.

Lemma omap_zip {A D} (f : A -> option D) (ks : list A) (vs : list D) : length ks = length vs ->
  (forall k v, (k, v) ∈ zip ks vs -> f k = Some v) -> omap f ks = vs /\ filter (fun k => f k = None) ks = [].
Proof.
  revert vs. induction ks as [|k ks IH]; intros [|v vs] Hl H; [done..|]. cbn in Hl. destruct (IH vs) as [E1 E2]; [lia|intros; apply H; by right|].
  cbn [omap list_omap]. rewrite filter_cons, (H k v) by by left. rewrite decide_False by done. by rewrite E1.
Qed.
Lemma block_transactions e : e ∈ l -> get_transactions db (tx_hashes (e_block e)) = (true, e_txs e, []).
Proof.
  intros He. rewrite get_transactions_spec. destruct (omap_zip tx_of (tx_hashes (e_block e)) (e_txs e)) as [-> ->]; [| |done].
  - apply se_hashes. by eapply (Forall_forall storable_entry l); [apply (built_storable _ _ Hb)|].
  - intros h tx Hz. apply tx_of_elem, list_elem_of_bind. exists e. split; [by right|done].
Qed.
Lemma pack_blocks_spec es : (forall e, e ∈ es -> e ∈ l) -> pack_blocks db (e_block <$> es) = (packed <$> es, None).
Proof.
  induction es as [|e es IH]; intros H; [done|]. rewrite fmap_cons. cbn [pack_blocks]. rewrite block_transactions by (apply H; by left).
  rewrite IH by (intros; apply H; by right). done.
Qed.
Lemma entry_of_elem h e : entry_of h = Some e -> e ∈ l /\ e_hash e = h.
Proof. intros ([i e'] & E & ->)%fmap_Some. apply list_find_Some in E as (Hi & He & _). split; [by eapply list_elem_of_lookup_2|done]. Qed.
Lemma packed_parses e : e ∈ l -> parse_and_validate_block_from_blob (ce_block (packed e)) = Some (e_block e) /\
  Forall2 (fun blob tx => parse_binary read_transaction blob = Some tx) (ce_txs (packed e)) (e_txs e).
Proof.
  intros He. assert (Hs : storable_entry e) by (by eapply (Forall_forall storable_entry l); [apply (built_storable _ _ Hb)|]). split.
  - destruct (parse_dump _ _ _ (rt_rt0 _ _ _ (rt_block _ (se_block _ Hs)))) as (blob & E & Hp).
    unfold packed, to_blob, parse_and_validate_block_from_blob. cbn [ce_block]. by rewrite E.
  - cbn [packed ce_txs]. rewrite Forall2_fmap_l. apply Forall_Forall2_diag. eapply Forall_impl; [apply (se_txs _ Hs)|]. intros tx Htx.
    destruct (parse_dump _ _ _ (rt_rt0 _ _ _ (rt_transaction _ (st_wf _ Htx)))) as (blob & E & Hp).
    change (parse_binary read_transaction (default [] (dump_binary write_transaction tx)) = Some tx). rewrite E. exact Hp.
Qed.

End Answers.

(** [C10] A node answers a request for objects completely: with the blobs of exactly
    the requested blocks that its chain has, each with the blobs of all its
    transactions in order, from which the asking node parses the blocks and
    transactions of the chain; with the requested transactions it has; and with the
    ids of what it does not have. *)
Theorem handle_get_objects_correct `{HF : FastHash, C : DbCrypto} l s arg_blocks arg_txs : built l (m_db s) ->
  handle_get_objects s arg_blocks arg_txs =
    (true, MkResponse (to_blob write_transaction <$> omap (tx_of l) arg_txs) (packed <$> omap (entry_of l) arg_blocks)
       (filter (fun h => entry_of l h = None) arg_blocks ++ filter (fun h => tx_of l h = None) arg_txs) (Z.of_nat (length l))) /\
  (forall h e, entry_of l h = Some e <-> e ∈ l /\ e_hash e = h) /\
  (forall e, e ∈ l -> parse_and_validate_block_from_blob (ce_block (packed e)) = Some (e_block e) /\
     Forall2 (fun blob tx => parse_binary read_transaction blob = Some tx) (ce_txs (packed e)) (e_txs e)).
Proof.
  intros Hb. pose proof (built_represents _ _ Hb) as [Hr _]. split; [|split; [|by apply packed_parses with (m_db s)]].
  - unfold handle_get_objects. rewrite (get_blocks_by_ids_spec l _ Hb), (pack_blocks_spec l _ Hb).
    + rewrite (get_transactions_spec l _ Hb). unfold height64. by rewrite (rp_height _ _ Hr).
    + intros e (h & _ & E)%list_elem_of_omap. by apply entry_of_elem in E as [? _].
  - intros h e. split; [apply entry_of_elem|]. intros [[i Hi]%list_elem_of_lookup He]. by eapply entry_of_lookup.
Qed.

Lemma handle_get_objects_correct_witness : exists l,
  @built truncating_FastHash sample_crypto l (m_db sample_history) /\
  handle_get_objects sample_history [sample_id sample_next; repeat 9 32] [repeat 8 32] =
    (true, MkResponse (to_blob write_transaction <$> omap (@tx_of truncating_FastHash l) [repeat 8 32])
       (packed <$> omap (@entry_of truncating_FastHash l) [sample_id sample_next; repeat 9 32])
       (filter (fun h => @entry_of truncating_FastHash l h = None) [sample_id sample_next; repeat 9 32] ++ filter (fun h => @tx_of truncating_FastHash l h = None) [repeat 8 32])
       (Z.of_nat (length l))) /\
  missed_ids (handle_get_objects sample_history [sample_id sample_next; repeat 9 32] [repeat 8 32]).2 = [repeat 9 32; repeat 8 32].
Proof.
  assert (Hm : missed_ids (handle_get_objects sample_history [sample_id sample_next; repeat 9 32] [repeat 8 32]).2 = [repeat 9 32; repeat 8 32])
    by (vm_compute; reflexivity).
  assert (H : @some_chain truncating_FastHash sample_crypto TxVerify.sample_rct sample_pow true sample_history).
  { eapply node_steps_Inv; [apply sample_steps, sample_blocks_ok|exists []; exact (fresh_Inv true _ _ HardFork.sample_fork_Inv)]. }
  destruct H as [l HI]. exists l. split; [exact (ci_built _ _ _ HI)|].
  split; [exact (proj1 (@handle_get_objects_correct truncating_FastHash sample_crypto l sample_history _ _ (ci_built _ _ _ HI)))|exact Hm].
Defined.

(** ** Outputs to mix with *)

Definition real_out (now : Z) (db : BlockchainLMDB) (amount : Z) (o : random_out) : Prop :=
  ro_amount o = amount /\ output_unlocked now db amount (ro_index o) = Some true /\
  exists od, get_output_key db amount (ro_index o) = Some od /\ ro_key o = od_pubkey od /\ ro_commitment o = od_commitment od.
(** Different outputs, whose indices are among those seen. *)
Definition drawn (now : Z) (db : BlockchainLMDB) (amount : Z) (seen : gset nat) (outs : list random_out) : Prop :=
  NoDup (ro_index <$> outs) /\ (forall o, o ∈ outs -> ro_index o ∈ seen) /\ Forall (real_out now db amount) outs.

Lemma add_random_out_drawn now db amount seen outs i outs' : drawn now db amount seen outs -> i ∉ seen ->
  add_random_out now db amount outs i = Some outs' ->
  drawn now db amount ({[ i ]} ∪ seen) outs' /\ (length outs' <= S (length outs))%nat.
Proof.
  intros (Hn & Hs & Hr) Hi. unfold add_random_out. destruct (output_unlocked now db amount i) as [[|]|] eqn:Eu; cbn [mbind option_bind]; [| |done].
  - intros (data & Ed & [= <-])%bind_Some. rewrite length_app. cbn [length]. split; [|lia]. split_and!.
    + rewrite fmap_app. apply NoDup_app. split; [done|]. split; [|apply NoDup_singleton].
      intros x (o & -> & Ho)%list_elem_of_fmap Hx. apply list_elem_of_singleton in Hx. cbn in Hx. apply Hi. rewrite <- Hx. by apply Hs.
    + intros o [Ho|Ho]%elem_of_app; [specialize (Hs o Ho); set_solver|]. apply list_elem_of_singleton in Ho as ->. cbn. set_solver.
    + apply Forall_app_2; [done|]. apply Forall_singleton. split; [done|]. split; [done|]. by exists data.
  - intros [= <-]. split; [|lia]. split_and!; [done| |done]. intros o Ho. specialize (Hs o Ho). set_solver.
Qed.

Lemma draw_outs_drawn now db amount outs_count num_outs draws : forall seen outs outs' draws', drawn now db amount seen outs -> (length outs <= outs_count)%nat ->
  draw_outs now db amount outs_count num_outs seen outs draws = Some (outs', draws') ->
  exists seen', drawn now db amount seen' outs' /\ (length outs' <= outs_count)%nat.
Proof.
  induction draws as [|r draws IH]; intros seen outs outs' draws' Hd Hl E; cbn [draw_outs] in E;
    (destruct (Nat.ltb_spec (length outs) outs_count) as [Hlt|_]; cbn [negb] in E; [|injection E as <- <-; by exists seen]);
    (destruct (size seen =? num_outs)%nat; [injection E as <- <-; by exists seen|]); [done|].
  destruct (bool_decide (draw_index num_outs r ∈ seen)) eqn:Es; [by eapply IH|]. apply bool_decide_eq_false in Es.
  apply bind_Some in E as (outs1 & E1 & E). destruct (add_random_out_drawn _ _ _ _ _ _ _ Hd Es E1) as [Hd1 Hl1]. eapply IH; [exact Hd1|lia|exact E].
Qed.
Lemma add_random_outs_drawn now db amount n : forall a seen outs outs', drawn now db amount seen outs -> (forall i, (a <= i)%nat -> i ∉ seen) ->
  add_random_outs now db amount outs (seq a n) = Some outs' ->
  exists seen', drawn now db amount seen' outs' /\ (length outs' <= length outs + n)%nat.
Proof.
  induction n as [|n IH]; intros a seen outs outs' Hd Ha E; cbn [seq add_random_outs] in E; [injection E as <-; exists seen; split; [done|lia]|].
  apply bind_Some in E as (outs1 & E1 & E). destruct (add_random_out_drawn _ _ _ _ _ _ _ Hd (Ha a ltac:(lia)) E1) as [Hd1 Hl1].
  assert (Ha1 : forall i, (S a <= i)%nat -> i ∉ ({[ a ]} ∪ seen : gset nat)) by (intros i Hi; specialize (Ha i ltac:(lia)); set_solver by lia).
  destruct (IH (S a) _ _ _ Hd1 Ha1 E) as (seen' & Hd' & Hl'). exists seen'. split; [done|lia].
Qed.
Lemma random_outs_drawn now db amount outs_count draws outs draws' : random_outs now db amount outs_count draws = Some (outs, draws') ->
  NoDup (ro_index <$> outs) /\ (length outs <= outs_count)%nat /\ Forall (real_out now db amount) outs.
Proof.
  unfold random_outs. intros (n & _ & E)%bind_Some. assert (H0 : drawn now db amount ∅ []) by (split_and!; [constructor|set_solver|constructor]).
  destruct (Nat.leb_spec n outs_count) as [Hn|Hn].
  - apply bind_Some in E as (outs1 & E & [= <- <-]). destruct (add_random_outs_drawn _ _ _ _ _ _ _ _ H0 ltac:(set_solver) E) as (seen & (H1 & _ & H2) & Hl).
    cbn in Hl. split_and!; [done|lia|done].
  - destruct (draw_outs_drawn _ _ _ _ _ _ _ _ _ _ H0 ltac:(cbn; lia) E) as (seen & (H1 & _ & H2) & Hl). done.
Qed.

(** The outputs offered for a ring are different, exist with the key and commitment
    given, and are unlocked; there are never more than asked for, and the answer is
    [true] when there are as many. *)
Theorem get_random_rct_outs_correct now db outs_count draws r outs : get_random_rct_outs now db outs_count draws = Some (r, outs) ->
  NoDup (ro_index <$> outs) /\ (length outs <= outs_count)%nat /\ (r = true <-> length outs = outs_count) /\ Forall (real_out now db 0) outs.
Proof.
  unfold get_random_rct_outs. intros ([outs1 d] & E & [= <- <-])%bind_Some. apply random_outs_drawn in E as (Hn & Hl & Hr).
  split_and!; [done..| |done]. destruct (Nat.ltb_spec (length outs1) outs_count); cbn; split; intros; try done; lia.
Qed.
End ChainQueries.
