(* ===== verification/Core.v ===== *)
(** * The core

    Model of [src/cryptonote_core/cryptonote_core.cpp]: what happens to the bytes of
    a transaction or a block between the network and the chain, and how the parts
    work together: the parser, the checks of the form of a transaction, the pool, the
    chain, the checkpoints and the template of the miner.

    An operation returns the new state and a result, or an exception.  The multiple
    of a key image by the order of the curve is an interface.  The file with
    checkpoints, the clock and random numbers are arguments; options, statistics,
    files and the relaying itself belong to other parts of the program. *)
From stdpp Require Import gmap.
From S2P Require Import Prelude Keccak Difficulty HardFork Serialization Basic Typing TxExtra FormatUtils Reward Base58 Address Checkpoints TxPool Database ChainRules TxVerify Blockchain ChainInvariant BlockTemplate Prepare Miner ChainQueries.
Import Serialization Basic Typing TxExtra FormatUtils Reward Base58 Address Database ChainRules Blockchain ChainInvariant BlockTemplate Prepare ChainQueries.
#[local] Set Warnings "-clear-no-such-hyp".

Module Core.

(** [rct::scalarmultKey] throws for bytes that are not a point. *)
Class KeyMultiples := { scalarmultKey : key -> key -> option key }.
Definition curveOrder : key :=
  [0xed; 0xd3; 0xf5; 0x5c; 0x1a; 0x63; 0x12; 0x58; 0xd6; 0x9c; 0xf7; 0xa2; 0xde; 0xf9; 0xde; 0x14;
   0x00; 0x00; 0x00; 0x00; 0x00; 0x00; 0x00; 0x00; 0x00; 0x00; 0x00; 0x00; 0x00; 0x00; 0x00; 0x10].
Definition identity : key := 1 :: repeat 0 31.

Definition CRYPTONOTE_MAX_BLOCK_SIZE : Z := 500000000.
Definition CRYPTONOTE_MAX_TX_SIZE : Z := 1000000000.

(** An exception of the chain, or of a key image that is not a point. *)
Inductive core_error := Chain_error (e : error) | Bad_point.

Record core := MkCore {
  m_blockchain_storage : Blockchain;
  m_miner : Miner.miner;
  m_last_json_checkpoints_update : Z;
  m_checkpoints_updating : bool
}.
Definition set_storage (s : Blockchain) (c : core) : core :=
  MkCore s (m_miner c) (m_last_json_checkpoints_update c) (m_checkpoints_updating c).
Definition set_miner (m : Miner.miner) (c : core) : core :=
  MkCore (m_blockchain_storage c) m (m_last_json_checkpoints_update c) (m_checkpoints_updating c).
Definition set_updating (u : bool) (c : core) : core := MkCore (m_blockchain_storage c) (m_miner c) (m_last_json_checkpoints_update c) u.
Definition set_last_update (t : Z) (c : core) : core := MkCore (m_blockchain_storage c) (m_miner c) t (m_checkpoints_updating c).
Definition set_core_pool (p : TxPool.tx_memory_pool) (c : core) : core := set_storage (set_pool p (m_blockchain_storage c)) c.

(** Operations on the state that can throw. *)
Definition N (A : Type) : Type := core -> core * (core_error + A).
Definition done_with {A} (x : A) : N A := fun c => (c, inr x).
#[export] Instance N_bind : MBind N := fun A B f m c => match m c with (c, inl e) => (c, inl e) | (c, inr x) => f x c end.
Definition the_core : N core := fun c => (c, inr c).
Definition change (f : core -> core) : N () := fun c => (f c, inr tt).
Definition on_chain {A} (m : B A) : N A := fun c =>
  match m (m_blockchain_storage c) with
  | (s, inl e) => (set_storage s c, inl (Chain_error e))
  | (s, inr x) => (set_storage s c, inr x)
  end.
Definition or_throw {A} (o : option A) : N A := fun c => match o with Some x => (c, inr x) | None => (c, inl Bad_point) end.

Section Core.
Context {HF : FastHash} {C : DbCrypto} {R : TxVerify.RctVerify} {P : PowHash} {K : KeyMultiples}.
(** The build, the network, the clock, what uninitialised memory holds, the keys of
    the miner's outputs, the random number of a new template. *)
Variables (ndebug m_testnet m_fakechain : bool) (now : Z) (junk : Z * hash) (stack : Z).
Variables (keys : nat -> public_key * (nat -> option public_key)) (rand : Z).

(** ** Transactions *)

Fixpoint images_differ (seen : gset key_image) (vin : list txin_v) : bool :=
  match vin with
  | [] => true
  | i :: vin =>
      match to_key i with
      | None => false
      | Some x => if bool_decide (k_image x ∈ seen) then false else images_differ ({[ k_image x ]} ∪ seen) vin
      end
  end.
Definition check_tx_inputs_keyimages_diff (tx : transaction) : bool := images_differ ∅ (vin (prefix tx)).
(** [None] is an exception. *)
Fixpoint images_in_domain (vin : list txin_v) : option bool :=
  match vin with
  | [] => Some true
  | i :: vin =>
      match to_key i with
      | None => Some false
      | Some x =>
          m ← scalarmultKey (k_image x) curveOrder;
          if bool_decide (m = identity) then images_in_domain vin else Some false
      end
  end.
Definition check_tx_inputs_keyimages_domain (tx : transaction) : option bool := images_in_domain (vin (prefix tx)).

(** The alias of a transaction, if it registers one, has to be signed. *)
Definition check_alias (tx : transaction) : bool :=
  match alias_fields (extra (prefix tx)) with
  | None => true
  | Some (alias, address, signature) =>
      match get_account_address_from_str check_key m_testnet blank_info address with
      | None => false
      | Some info =>
          let alias := convert_alias alias in
          if bool_decide (alias = []) then false else verifyHelper alias (Address.address info) signature
      end
  end.
Definition check_tx_semantic (s : Blockchain) (tx : transaction) (keeped_by_block : bool) : option bool :=
  match vin (prefix tx) with
  | [] => Some false
  | _ =>
      if negb (check_inputs_types_supported tx) then Some false
      else if negb (check_outs_valid check_key tx) then Some false
      else if (1 <? version (prefix tx)) && negb (length (outPk (rct_signatures tx)) =? length (vout (prefix tx)))%nat then Some false
      else if negb (check_money_overflow tx) then Some false
      else if (version (prefix tx) =? 1) && (default 0 (get_inputs_money_amount tx) <=? get_outs_money_amount tx) then Some false
      else if negb keeped_by_block &&
              (m_current_block_cumul_sz_limit s -w TxPool.CRYPTONOTE_COINBASE_BLOB_RESERVED_SIZE <=? blobsize tx) then Some false
      else if negb (check_tx_inputs_keyimages_diff tx) then Some false
      else
        domain ← check_tx_inputs_keyimages_domain tx;
        if negb domain then Some false else Some (check_alias tx)
  end.

(** Without a blob, the size is that of the canonical one. *)
Definition add_new_tx (tx : transaction) (tx_hash : hash) (blob_size : Z) (tvc : TxPool.tx_verification_context) (keeped_by_block relayed : bool)
  : N (bool * TxPool.tx_verification_context) :=
  c ← the_core;
  let s := m_blockchain_storage c in
  if TxPool.have_tx (m_tx_pool s) tx_hash then done_with (true, tvc)
  else if have_tx s tx_hash then done_with (true, tvc)
  else
    let '(r, p, tvc) := TxPool.add_tx (chain_view now s) now junk tx tx_hash blob_size tvc keeped_by_block relayed (m_tx_pool s) in
    _ ← change (set_core_pool p);
    done_with (r, tvc).

Definition handle_incoming_tx (tx_blob : list Z) (keeped_by_block relayed : bool) : N (bool * TxPool.tx_verification_context) :=
  let tvc : TxPool.tx_verification_context := fun _ => false in
  let rejected := done_with (false, TxPool.fail [] tvc) in
  if CRYPTONOTE_MAX_TX_SIZE <? Z.of_nat (length tx_blob) then done_with (false, TxPool.fail [TxPool.Too_big] tvc)
  else
    match parse_and_validate_tx_from_blob tx_blob with
    | None => rejected
    | Some (tx, _) =>
        if (version (prefix tx) =? 0) || (CURRENT_TRANSACTION_VERSION <? version (prefix tx)) then rejected
        else
          c ← the_core;
          ok ← or_throw (check_tx_semantic (m_blockchain_storage c) tx keeped_by_block);
          if negb ok then rejected
          else add_new_tx tx (TxPool.tx_hash tx) (Z.of_nat (length tx_blob)) tvc keeped_by_block relayed
    end.

Definition is_key_image_spent (s : Blockchain) (k : key_image) : bool := have_tx_keyimg_as_spent s k.
Definition are_key_images_spent (s : Blockchain) (key_im : list key_image) : list bool := map (is_key_image_spent s) key_im.

(** ** Checkpoints *)

(** [file] is what [load_checkpoints_from_json] reads; [None] of its result is the
    undefined maximum of no checkpoints. *)
Definition set_checkpoints (points : Checkpoints.points) (s : Blockchain) : Blockchain :=
  MkChain (m_db s) (m_tx_pool s) (m_cache s) (m_current_block_cumul_sz_limit s) (m_alternative_chains s) (m_invalid_blocks s) points
    (m_blocks_longhash_table s) (m_scan_table s).
Definition chain_update_checkpoints (file : option (list (Z * list Z))) : B bool :=
  s ← state;
  '(r, points) ← need Abort (Checkpoints.load_checkpoints_from_json file (m_checkpoints s));
  _ ← update (set_checkpoints points);
  if r : bool then _ ← check_against_checkpoints ndebug now junk points true; ret true else ret false.
(** Every ten minutes; [graceful_exit] raises a signal.  An exception leaves the flag
    set. *)
Definition update_checkpoints (file : option (list (Z * list Z))) : N bool :=
  if m_testnet || m_fakechain then done_with true
  else
    c ← the_core;
    if m_checkpoints_updating c then done_with true
    else
      _ ← change (set_updating true);
      res ← (if 600 <=? now - m_last_json_checkpoints_update c then
               res ← on_chain (chain_update_checkpoints file);
               _ ← change (set_last_update now);
               done_with res
             else done_with true);
      _ ← change (set_updating false);
      done_with res.

(** ** Blocks *)

(** [AUTO_VAL_INIT(bl)] *)
Definition null_block : block := MkBlock (MkHeader 0 0 0 null_hash 0) (MkTransaction (MkPrefix 1 0 [] [] []) [] rct_null) [].

Definition get_block_template (b : block) (ex_nonce : list Z) : N (option (block * Z * Z)) :=
  on_chain (create_block_template ndebug now stack keys b ex_nonce).
(** [m_miner.on_block_chain_update()] *)
Definition update_miner_block_template : N bool :=
  c ← the_core;
  if negb (Miner.is_mining (m_miner c)) then done_with true
  else
    t ← get_block_template null_block (Miner.extra_nonce (m_miner c));
    c ← the_core;
    let '(_, m) := Miner.on_block_chain_update rand t (m_miner c) in
    _ ← change (set_miner m);
    done_with true.

(** [false] leaves the context of the caller as it is when the checkpoints conflict. *)
Definition handle_incoming_block (file : option (list (Z * list Z))) (block_blob : list Z) (bvc : block_verification_context)
    (update_miner_blocktemplate : bool) : N (bool * block_verification_context) :=
  ok ← update_checkpoints file;
  if negb ok then done_with (false, bvc)
  else if CRYPTONOTE_MAX_BLOCK_SIZE <? Z.of_nat (length block_blob) then done_with (false, set_failed new_bvc)
  else
    match parse_and_validate_block_from_blob block_blob with
    | None => done_with (false, set_failed new_bvc)
    | Some b =>
        '(_, bvc) ← on_chain (add_new_block ndebug now junk b new_bvc);
        _ ← (if update_miner_blocktemplate && m_added_to_main_chain bvc then update_miner_block_template else done_with true);
        done_with (true, bvc)
    end.
Definition check_incoming_block_size (block_blob : list Z) : bool := negb (CRYPTONOTE_MAX_BLOCK_SIZE <? Z.of_nat (length block_blob)).

(** A block that the miner found; what is relayed is the height with the block and
    its transactions.  The miner stays paused when an exception ends it. *)
Definition handle_block_found (b : block) : N (bool * option (Z * block_complete_entry)) :=
  _ ← change (fun c => set_miner (Miner.pause (m_miner c)) c);
  '(_, bvc) ← on_chain (add_new_block ndebug now junk b new_bvc);
  _ ← update_miner_block_template;
  _ ← change (fun c => set_miner (Miner.resume (m_miner c)) c);
  if m_verifivation_failed bvc then done_with (false, None)
  else if m_added_to_main_chain bvc then
    c ← the_core;
    let s := m_blockchain_storage c in
    let '(_, txs, missed) := get_transactions (m_db s) (tx_hashes b) in
    if negb (length missed =? 0)%nat && negb (bool_decide (get_block_id_by_height s (Z.to_nat (FormatUtils.get_block_height b)) = block_id b))
    then done_with (true, None)
    else if negb (length txs =? length (tx_hashes b))%nat || negb (length missed =? 0)%nat then done_with (false, None)
    else done_with (true, Some (height64 (m_db s), MkComplete (to_blob write_block b) (to_blob write_transaction <$> txs)))
  else done_with (false, None).

(** The results of the chain are ignored. *)
Definition prepare_incoming_blocks (max_concurrency max_threads : nat) (entries : list block_complete_entry) : N bool :=
  _ ← on_chain (prepare_handle_incoming_blocks max_concurrency max_threads entries);
  done_with true.
Definition cleanup_incoming_blocks : N bool :=
  _ ← on_chain cleanup_handle_incoming_blocks;
  done_with true.

(** ** Relaying *)

(** What is sent to the peers. *)
Definition relay_txpool_transactions : N (list (list Z)) :=
  c ← the_core;
  let p := m_tx_pool (m_blockchain_storage c) in
  match TxPool.get_relayable_transactions now p with
  | [] => done_with []
  | txs =>
      _ ← change (set_core_pool (TxPool.set_relayed now txs p));
      done_with (to_blob write_transaction <$> txs.*2)
  end.
Definition on_transaction_relayed (tx_blob : list Z) : N () :=
  match parse_and_validate_tx_from_blob tx_blob with
  | None => done_with tt
  | Some (tx, _) => change (fun c => set_core_pool (TxPool.set_relayed now [(TxPool.tx_hash tx, tx)] (m_tx_pool (m_blockchain_storage c))) c)
  end.
(** The timers of [on_idle] are arguments: the relaying, the template of the miner
    and the pool. *)
Definition on_idle (relay_due template_due stuck_due : bool) : N () :=
  _ ← (if relay_due then relay_txpool_transactions else done_with []);
  _ ← (if template_due then update_miner_block_template else done_with true);
  if stuck_due
  then change (fun c => set_core_pool (TxPool.remove_stuck_transactions now (m_tx_pool (m_blockchain_storage c))) c)
  else done_with tt.

(** The coins created and the fees of a range of blocks; the first block is left
    out. *)
Definition coinbase_sum (db : BlockchainLMDB) (acc : Z * Z) (b : block) : Z * Z :=
  let '(_, txs, _) := get_transactions db (tx_hashes b) in
  let tx_fee_amount := foldl (fun a tx => a +w get_tx_fee tx) 0 txs in
  (acc.1 +w (get_outs_money_amount (miner_tx b) -w tx_fee_amount), acc.2 +w tx_fee_amount).
Definition get_coinbase_tx_sum (s : Blockchain) (start_offset count : Z) : option (Z * Z) :=
  r ← get_blocks (m_db s) (Z.max 1 start_offset) count;
  Some (foldl (coinbase_sum (m_db s)) (0, 0) (default [] r)).

End Core.

(** * Properties *)

Section Properties.
Context {HF : FastHash} {C : DbCrypto} {R : TxVerify.RctVerify} {P : PowHash} {K : KeyMultiples}.
Variables (ndebug m_testnet m_fakechain : bool).

(** ** The form of a transaction *)

Lemma images_differ_spec l : forall seen, images_differ seen l = true ->
  Forall (fun i => exists x, i = In_to_key x) l /\ NoDup (TxPool.images l) /\ Forall (fun k => k ∉ seen) (TxPool.images l).
Proof.
  induction l as [|i l IH]; intros seen H; cbn [images_differ] in H; [by repeat constructor|].
  destruct i as [g|x|x|x]; try done. cbn [to_key] in H. destruct (bool_decide (k_image x ∈ seen)) eqn:Es; [done|]. apply bool_decide_eq_false in Es.
  destruct (IH _ H) as (Hk & Hn & Hs). unfold TxPool.images in *. cbn. split; [constructor; [by exists x|done]|].
  rewrite Forall_forall in Hs. split; [apply NoDup_cons; split; [|done]|].
  - intros Hin. specialize (Hs _ Hin). set_solver.
  - constructor; [done|]. apply Forall_forall. intros k Hin. specialize (Hs _ Hin). set_solver.
Qed.

(** An alias of an address in the base58 form. *)
Definition modern_alias (tx : transaction) : Prop :=
  forall alias address sig, alias_fields (extra (prefix tx)) = Some (alias, address, sig) -> length address <> (2 * outer_blob_size)%nat.

Lemma address_network ck tn info str info' : length str <> (2 * outer_blob_size)%nat -> get_account_address_from_str ck tn info str = Some info' ->
  exists pre data, decode_addr str = Some (pre, data) /\
    (pre =? PUBLIC_ADDRESS_BASE58_PREFIX true) || (pre =? PUBLIC_INTEGRATED_ADDRESS_BASE58_PREFIX true)
      || (pre =? PUBLIC_SUBADDRESS_BASE58_PREFIX true) = tn.
Proof.
  intros Hl. unfold get_account_address_from_str. destruct (Nat.eqb_spec (2 * outer_blob_size) (length str)) as [E|_]; [by destruct Hl|].
  cbn [negb]. intros ([pre data] & -> & H)%bind_Some. exists pre, data. split; [done|]. apply bind_Some in H as ([sub pid] & H & _).
  destruct (Z.eqb_spec (PUBLIC_INTEGRATED_ADDRESS_BASE58_PREFIX tn) pre) as [<-|_]; [by destruct tn|].
  destruct (Z.eqb_spec (PUBLIC_ADDRESS_BASE58_PREFIX tn) pre) as [<-|_]; [by destruct tn|].
  destruct (Z.eqb_spec (PUBLIC_SUBADDRESS_BASE58_PREFIX tn) pre) as [<-|_]; [by destruct tn|]. done.
Qed.
Lemma check_alias_ok tx : modern_alias tx -> check_alias m_testnet tx = true -> alias_ok tx.
Proof.
  intros Hm H alias address sig Ef. unfold check_alias in H. rewrite Ef in H. unfold removable_alias. rewrite Ef. cbn [mbind option_bind].
  destruct (get_account_address_from_str check_key m_testnet blank_info address) as [info|] eqn:Ei; [|done].
  destruct (address_network _ _ _ _ _ (Hm _ _ _ Ef) Ei) as (pre & data & -> & Et). cbn [mbind option_bind]. rewrite Et, Ei. cbn [mbind option_bind].
  destruct (bool_decide (convert_alias alias = [])); [done|]. by rewrite H.
Qed.
Ltac pass H := match type of H with (if ?b then Some false else _) = Some true => destruct b eqn:?; [discriminate H|] end.
Lemma semantic_passed s tx kept : check_tx_semantic m_testnet s tx kept = Some true ->
  vin (prefix tx) <> [] /\ check_outs_valid check_key tx = true /\ check_money_overflow tx = true /\
  (version (prefix tx) = 1 -> get_outs_money_amount tx < default 0 (get_inputs_money_amount tx)) /\
  check_tx_inputs_keyimages_diff tx = true /\ check_tx_inputs_keyimages_domain tx = Some true /\ check_alias m_testnet tx = true.
Proof.
  unfold check_tx_semantic. destruct (vin (prefix tx)) as [|i l] eqn:Ev; [done|]. intros H. repeat pass H.
  apply bind_Some in H as ([|] & Hd & Ha); [|done]. injection Ha as Ha. cbn in *. reflect_bools. split_and!; try done; try (by apply negb_false_iff).
  intros Hv. rewrite Hv in *. cbn in *. lia.
Qed.
Lemma semantic_storable s tx kept : wf_transaction tx -> modern_alias tx -> check_tx_semantic m_testnet s tx kept = Some true ->
  storable tx /\ NoDup (TxPool.tx_images tx).
Proof.
  intros Hwf Hm H. apply semantic_passed in H as (_ & _ & _ & _ & Hd & _ & Ha). apply images_differ_spec in Hd as (Hk & Hn & _).
  split; [|done]. split; [done|by right|by apply check_alias_ok].
Qed.

(** ** Operations that keep the chain valid *)

Definition valid_core (c : core) : Prop := some_chain ndebug (m_blockchain_storage c).
Definition keeps {A} (m : N A) : Prop := forall c, valid_core c -> valid_core (m c).1.

Lemma keeps_done {A} (x : A) : keeps (done_with x).
Proof. by intros c Hc. Qed.
Lemma keeps_or_throw {A} (o : option A) : keeps (or_throw o).
Proof. intros c Hc. by destruct o. Qed.
Lemma keeps_bind {A D} (m : N A) (f : A -> N D) : keeps m -> (forall x, keeps (f x)) -> keeps (m ≫= f).
Proof.
  intros Hm Hf c Hc. specialize (Hm c Hc). unfold mbind, N_bind. destruct (m c) as [c' [e|x]]; [done|]. by apply Hf.
Qed.
Lemma keeps_the_core {A} (f : core -> N A) : (forall c, valid_core c -> valid_core (f c c).1) -> keeps (the_core ≫= f).
Proof. intros H c Hc. by apply H. Qed.
Lemma keeps_change f : (forall c, valid_core c -> valid_core (f c)) -> keeps (change f).
Proof. intros H c Hc. by apply H. Qed.
Lemma keeps_on_chain {A} (m : B A) : (forall l s, Inv ndebug l s -> wp m (fun _ => some_chain ndebug) (fun _ => some_chain ndebug) s) -> keeps (on_chain m).
Proof.
  intros H c [l HI]. specialize (H _ _ HI). unfold wp in H. unfold on_chain. destruct (m (m_blockchain_storage c)) as [s [e|x]]; done.
Qed.
Lemma keeps_set_pool c p : valid_core c -> (forall l, Inv ndebug l (m_blockchain_storage c) -> pool_good p) -> valid_core (set_core_pool p c).
Proof. intros [l HI] Hp. exists l. apply Inv_set_pool; [done|by eapply Hp]. Qed.

Lemma keeps_add_new_block now junk b bvc : block_ok b -> m_verifivation_failed bvc = false -> keeps (on_chain (add_new_block ndebug now junk b bvc)).
Proof.
  intros Hb Hbvc. apply keeps_on_chain. intros l s HI. eapply wp_mono; [by eapply add_new_block_wp|done|]. by intros er s' [_ ?].
Qed.
Lemma keeps_template now stack keys b ex_nonce : keeps (get_block_template ndebug now stack keys b ex_nonce).
Proof.
  apply keeps_on_chain. intros l s HI. eapply wp_mono; [by apply create_wp| |].
  - intros r s' (c & p & _ & HI' & _). by exists l.
  - intros er s' (_ & -> & _). by exists l.
Qed.
Lemma keeps_update_template now stack keys rand : keeps (update_miner_block_template ndebug now stack keys rand).
Proof.
  apply keeps_the_core. intros c Hc. destruct (negb _); [done|]. eapply keeps_bind; [apply keeps_template| |exact Hc]. intros t.
  apply keeps_the_core. intros c' Hc'. by destruct (Miner.on_block_chain_update _ _ _).
Qed.

(** Checkpoints that the stored chain agrees with. *)
Definition no_conflict (file : option (list (Z * list Z))) (s : Blockchain) : Prop :=
  forall points, Checkpoints.load_checkpoints_from_json file (m_checkpoints s) = Some (true, points) ->
  forall pt, pt ∈ points -> pt.1 < height64 (m_db s) ->
    exists h, get_block_hash_from_height (m_db s) (Z.to_nat pt.1) = Some h /\ (Checkpoints.check_block points pt.1 h).1 = true.

Lemma Inv_set_checkpoints l s points : Inv ndebug l s -> Inv ndebug l (set_checkpoints points s).
Proof. intros []. by split. Qed.
Lemma check_points_run now junk points pts s : (forall pt, pt ∈ pts -> pt.1 < height64 (m_db s) ->
    exists h, get_block_hash_from_height (m_db s) (Z.to_nat pt.1) = Some h /\ (Checkpoints.check_block points pt.1 h).1 = true) ->
  for_each (check_point ndebug now junk points true) pts s = (s, inr tt).
Proof.
  induction pts as [|pt pts IH]; intros H; [done|]. cbn [for_each]. unfold mbind at 1, B_bind at 1.
  assert (E : check_point ndebug now junk points true pt s = (s, inr tt)); [|rewrite E; apply IH; intros pt' Hpt'; apply H; by right].
  unfold check_point, mbind, B_bind, state. destruct (Z.leb_spec (height64 (m_db s)) pt.1) as [Hle|Hlt]; [done|].
  destruct (H pt) as (h & Eh & Hc); [by left|done|]. unfold reads. rewrite Eh. by rewrite Hc.
Qed.
Lemma checkpoints_wp now junk file l s : Inv ndebug l s -> no_conflict file s ->
  wp (chain_update_checkpoints ndebug now junk file) (fun _ => some_chain ndebug) (fun _ => some_chain ndebug) s.
Proof.
  intros HI Hno. unfold chain_update_checkpoints. apply wp_bind, wp_state, wp_bind, wp_need; [|by exists l].
  intros [r points] Hl. apply wp_bind, wp_update. pose proof (Inv_set_checkpoints l s points HI) as HI1.
  destruct r; [|apply wp_ret; by exists l]. apply wp_bind. eapply (wp_run _ _ _ _ (set_checkpoints points s)); [|apply wp_ret; by exists l].
  pose proof (built_batch _ _ (ci_built _ _ _ HI)) as Hb. unfold check_against_checkpoints, mbind, B_bind.
  assert (E1 : lift batch_start (set_checkpoints points s) = (set_db (set_batch_active true (m_db s)) (set_checkpoints points s), inr tt)).
  { unfold lift, batch_start, mbind, M_bind, get, ensure. cbn [m_db set_checkpoints]. by rewrite Hb. }
  rewrite E1, check_points_run by (intros pt Hin Hlt; by apply (Hno points Hl)).
  unfold lift, batch_stop, mbind, M_bind, get, ensure, set_db, set_checkpoints. cbn. f_equal. f_equal.
  clear -Hb. destruct (m_db s). cbn in *. by subst.
Qed.

(** Preparing a batch changes the tables only. *)
Lemma rescanned_any J s s' : rescanned J s s' -> rescanned (fun _ => True) s s'.
Proof. intros (t & -> & _). by exists t. Qed.
Lemma rescanned_self s : rescanned (fun _ => True) s s.
Proof. exists (m_scan_table s). by destruct s. Qed.
Lemma scan_txs_tables f blobs s :
  wp (scan_txs f blobs) (fun _ => rescanned (fun _ => True) s) (fun _ => rescanned (fun _ => True) s) s.
Proof.
  revert f s. induction blobs as [|b blobs IH]; intros f s; cbn [scan_txs]; [apply wp_ret, rescanned_self|]. apply wp_bind. unfold scan_tx.
  assert (He : rescanned (fun _ => True) s (set_scan ∅ s)) by by exists ∅.
  destruct (parse_and_validate_tx_from_blob b) as [[tx h]|]; [|by apply wp_bind, wp_update, wp_ret, wp_ret].
  apply wp_bind, wp_state. destruct (bool_decide _); [by apply wp_bind, wp_update, wp_ret, wp_ret|].
  set (t := <[h := ∅]> (m_scan_table s)). assert (Ht : rescanned (fun _ => True) s (set_scan t s)) by by exists t.
  apply wp_bind, wp_update, wp_bind, wp_need; [|done]. intros ins _. apply wp_ret.
  eapply wp_mono; [apply IH|intros r s'|intros er s']; apply (rescanned_trans _ _ _ _ _ Ht).
Qed.
Lemma table_txs_tables f m blobs s :
  wp (table_txs f m blobs) (fun _ => rescanned (fun _ => True) s) (fun _ => rescanned (fun _ => True) s) s.
Proof.
  revert s. induction blobs as [|b blobs IH]; intros s; cbn [table_txs]; [apply wp_ret, rescanned_self|]. apply wp_bind. unfold table_tx.
  assert (He : rescanned (fun _ => True) s (set_scan ∅ s)) by by exists ∅.
  destruct (parse_and_validate_tx_from_blob b) as [[tx h]|]; [|by apply wp_bind, wp_update, wp_ret, wp_ret].
  apply wp_bind, wp_state. destruct (m_scan_table s !! h) as [t|]; [|by apply wp_bind, wp_update, wp_ret, wp_ret].
  apply wp_bind, wp_need; [|intros; apply rescanned_self]. intros ins _. apply wp_bind, wp_update, wp_ret.
  match goal with |- wp _ _ _ (set_scan ?t s) => assert (Ht : rescanned (fun _ => True) s (set_scan t s)) by by exists t end.
  eapply wp_mono; [apply IH|intros r s'|intros er s']; apply (rescanned_trans _ _ _ _ _ Ht).
Qed.
Lemma keeps_prepare n m entries : keeps (prepare_incoming_blocks n m entries).
Proof.
  apply keeps_bind; [|intros x; apply keeps_done]. apply keeps_on_chain. intros l s HI. unfold prepare_handle_incoming_blocks.
  destruct entries as [|e entries]; [apply wp_ret; exists l; exact HI|]. apply wp_bind. eapply longhashes_wp; [exact HI|]. intros r t HIt.
  assert (Hre : forall s1 s', s1 = set_scan ∅ (set_longhash t s) -> rescanned (fun _ => True) s1 s' -> some_chain ndebug s').
  { intros s1 s' -> (t' & -> & _). exists l. by apply Inv_set_scan, Inv_set_scan. }
  destruct r as [[|]|]; [apply wp_ret; exists l; exact HIt| |apply wp_ret; exists l; exact HIt].
  apply wp_bind, wp_update, wp_bind. eapply wp_mono; [apply scan_txs_tables| |intros er s'; by eapply Hre].
  intros [f|] s1 H1; [|apply wp_ret; by eapply Hre]. apply wp_bind, wp_state.
  eapply wp_mono; [apply table_txs_tables|intros r s'|intros er s']; intros H2; (eapply Hre; [reflexivity|apply (rescanned_trans _ _ _ _ _ H1 H2)]).
Qed.
Lemma keeps_cleanup : keeps cleanup_incoming_blocks.
Proof.
  apply keeps_bind; [|intros x; apply keeps_done]. apply keeps_on_chain. intros l s HI. unfold cleanup_handle_incoming_blocks.
  apply wp_bind, wp_update, wp_ret. exists l. apply Inv_set_scan, Inv_set_longhash; [done|]. intros id h H. by rewrite lookup_empty in H.
Qed.

Lemma relayed_good now txs p : pool_good p -> pool_good (TxPool.set_relayed now txs p).
Proof.
  intros Hp. assert (H : TxPool.refreshed p (TxPool.set_relayed now txs p)); [|eapply pool_good_refreshed; [done..|]; eapply TxPool.refreshed_ok; [apply Hp|done]].
  unfold TxPool.set_relayed. pose proof (TxPool.refreshed_refl p) as H0. revert H0. generalize p at 2 4. induction txs as [|[id tx] txs IH]; intros q Hq; [done|].
  cbn [fold_left fst]. apply IH. destruct (TxPool.m_transactions q !! id) as [d|] eqn:Ed; [|done].
  destruct (TxPool.refreshed_lookup p q id d Hq Ed) as (d0 & Ed0 & Hs). eapply TxPool.refreshed_insert; [done|exact Ed0|].
  destruct Hs as (E1 & E2 & E3 & E4 & E5). unfold TxPool.same_core. cbn. done.
Qed.
Lemma stuck_good now p : pool_good p -> pool_good (TxPool.remove_stuck_transactions now p).
Proof.
  intros [Hok Hg]. destruct (TxPool.remove_stuck_transactions_spec now p Hok) as (Hok' & Hm & _). split; [done|].
  intros id d Hd. apply Hm in Hd as [Hd _]. by eapply Hg.
Qed.
Lemma keeps_relay now : keeps (relay_txpool_transactions now).
Proof.
  apply keeps_the_core. intros c Hc. cbv zeta.
  destruct (TxPool.get_relayable_transactions now (m_tx_pool (m_blockchain_storage c))) as [|x txs]; [exact Hc|].
  apply keeps_set_pool; [done|]. intros l HI. apply relayed_good, HI.
Qed.
Lemma keeps_relayed now blob : keeps (on_transaction_relayed now blob).
Proof.
  unfold on_transaction_relayed. destruct (parse_and_validate_tx_from_blob blob) as [[tx h]|]; [|apply keeps_done].
  apply keeps_change. intros c Hc. apply keeps_set_pool; [done|]. intros l HI. apply relayed_good, HI.
Qed.
Lemma keeps_idle now stack keys rand relay_due template_due stuck_due : keeps (on_idle ndebug now stack keys rand relay_due template_due stuck_due).
Proof.
  apply keeps_bind; [destruct relay_due; [apply keeps_relay|apply keeps_done]|]. intros _.
  apply keeps_bind; [destruct template_due; [apply keeps_update_template|apply keeps_done]|]. intros _.
  destruct stuck_due; [|apply keeps_done]. apply keeps_change. intros c Hc. apply keeps_set_pool; [done|]. intros l HI. apply stuck_good, HI.
Qed.

Lemma parse_tx_typed blob tx h : bytes blob -> parse_and_validate_tx_from_blob blob = Some (tx, h) ->
  wf_transaction tx /\ encoded_size tx (Z.of_nat (length blob)).
Proof.
  intros Hb H. unfold parse_and_validate_tx_from_blob in H. apply bind_Some in H as (tx' & E & [= -> _]).
  split; [eapply parse_typed; [apply typed_transaction|done..]|]. by exists blob.
Qed.
Lemma keeps_tx now junk blob kept rel : bytes blob -> (forall tx h, parse_and_validate_tx_from_blob blob = Some (tx, h) -> modern_alias tx) ->
  keeps (handle_incoming_tx m_testnet now junk blob kept rel).
Proof.
  intros Hb Hm. unfold handle_incoming_tx. destruct (_ <? _); [apply keeps_done|].
  destruct (parse_and_validate_tx_from_blob blob) as [[tx h]|] eqn:Ep; [|apply keeps_done]. destruct (_ || _); [apply keeps_done|].
  destruct (parse_tx_typed _ _ _ Hb Ep) as [Hwf Hsz]. apply keeps_the_core. intros c Hc. unfold mbind, N_bind.
  destruct (check_tx_semantic m_testnet (m_blockchain_storage c) tx kept) as [[|]|] eqn:Es; [|done..]. cbn [or_throw negb].
  destruct (semantic_storable _ _ _ Hwf (Hm _ _ eq_refl) Es) as [Hst Hnd]. unfold add_new_tx. apply keeps_the_core; [|done]. clear c Hc Es. intros c Hc.
  destruct (TxPool.have_tx _ _); [done|]. destruct (have_tx _ _); [done|].
  pose proof (fun Hp => add_tx_good (chain_view now (m_blockchain_storage c)) now junk tx (Z.of_nat (length blob)) (fun _ => false) kept rel
    (m_tx_pool (m_blockchain_storage c)) Hp Hst Hsz Hnd) as Hg.
  destruct (TxPool.add_tx _ _ _ _ _ _ _ _ _ _) as [[r p] tvc]. cbn [fst snd] in Hg.
  apply keeps_set_pool; [done|]. intros l HI. apply Hg, HI.
Qed.

Lemma update_checkpoints_valid now junk file c : valid_core c -> no_conflict file (m_blockchain_storage c) ->
  valid_core (update_checkpoints ndebug m_testnet m_fakechain now junk file c).1.
Proof.
  intros Hc Hno. unfold update_checkpoints. destruct (m_testnet || m_fakechain); [done|]. unfold mbind, N_bind. cbn [the_core].
  destruct (m_checkpoints_updating c); [done|]. cbn [change]. destruct (600 <=? _); [|done].
  unfold on_chain. cbn [m_blockchain_storage set_updating]. destruct Hc as [l HI]. pose proof (checkpoints_wp now junk file l _ HI Hno) as H.
  unfold wp in H. destruct (chain_update_checkpoints _ _ _ _ _) as [s [e|r]]; done.
Qed.
Lemma incoming_block_valid now junk stack keys rand file blob bvc upd c : bytes blob ->
  (forall b, parse_and_validate_block_from_blob blob = Some b -> alias_ok (miner_tx b)) -> valid_core c -> no_conflict file (m_blockchain_storage c) ->
  valid_core (handle_incoming_block ndebug m_testnet m_fakechain now junk stack keys rand file blob bvc upd c).1.
Proof.
  intros Hb Ha Hc Hno. pose proof (update_checkpoints_valid now junk file c Hc Hno) as H1. unfold handle_incoming_block, mbind at 1, N_bind at 1.
  destruct (update_checkpoints _ _ _ _ _ _ _) as [c1 [e|ok]]; cbn [fst] in H1; [done|]. destruct (negb ok); [done|]. destruct (_ <? _); [done|].
  destruct (parse_and_validate_block_from_blob blob) as [b|] eqn:Ep; [|done]. assert (Hok : block_ok b).
  { split; [eapply parse_typed; [apply typed_block|done..]|by apply Ha]. }
  revert c1 H1. apply keeps_bind; [by apply keeps_add_new_block|]. intros [r bvc']. apply keeps_bind; [|intros; apply keeps_done].
  destruct (_ && _); [apply keeps_update_template|apply keeps_done].
Qed.
Lemma keeps_found now junk stack keys rand b : block_ok b -> keeps (handle_block_found ndebug now junk stack keys rand b).
Proof.
  intros Hb. apply keeps_bind; [by apply keeps_change|]. intros _. apply keeps_bind; [by apply keeps_add_new_block|]. intros [r bvc].
  apply keeps_bind; [apply keeps_update_template|]. intros _. apply keeps_bind; [by apply keeps_change|]. intros _.
  destruct (m_verifivation_failed bvc); [apply keeps_done|]. destruct (m_added_to_main_chain bvc); [|apply keeps_done].
  apply keeps_the_core. intros c Hc. cbv zeta. destruct (get_transactions _ _) as [[r' txs] missed]. by repeat case_bool.
Qed.

(** What happens to a node: bytes of transactions and blocks arrive, with whatever is
    in the file of checkpoints as long as the chain agrees with it; batches are
    announced and finished; the miner finds blocks and asks for templates; timers
    fire.  Transactions that register aliases for addresses of the old form, and
    miner transactions that register unsigned ones, are left out: their aliases are
    not removed with them. *)
Inductive core_step (c : core) : core -> Prop :=
  | Core_tx now junk blob kept rel : bytes blob ->
      (forall tx h, parse_and_validate_tx_from_blob blob = Some (tx, h) -> modern_alias tx) ->
      core_step c (handle_incoming_tx m_testnet now junk blob kept rel c).1
  | Core_block now junk stack keys rand file blob bvc upd : bytes blob ->
      (forall b, parse_and_validate_block_from_blob blob = Some b -> alias_ok (miner_tx b)) -> no_conflict file (m_blockchain_storage c) ->
      core_step c (handle_incoming_block ndebug m_testnet m_fakechain now junk stack keys rand file blob bvc upd c).1
  | Core_found now junk stack keys rand b : block_ok b -> core_step c (handle_block_found ndebug now junk stack keys rand b c).1
  | Core_prepare n m entries : core_step c (prepare_incoming_blocks n m entries c).1
  | Core_cleanup : core_step c (cleanup_incoming_blocks c).1
  | Core_template now stack keys b ex_nonce : core_step c (get_block_template ndebug now stack keys b ex_nonce c).1
  | Core_relayed now blob : core_step c (on_transaction_relayed now blob c).1
  | Core_idle now stack keys rand relay template stuck : core_step c (on_idle ndebug now stack keys rand relay template stuck c).1.

Lemma core_step_valid c c' : valid_core c -> core_step c c' -> valid_core c'.
Proof.
  intros Hc. destruct 1; [by apply keeps_tx|by apply incoming_block_valid|by apply keeps_found|by apply keeps_prepare|by apply keeps_cleanup|
    by apply keeps_template|by apply keeps_relayed|by apply keeps_idle].
Qed.

(** A node with an empty database. *)
Definition fresh_core (hf : HardFork.HardFork) (points : Checkpoints.points) (m : Miner.miner) : core := MkCore (fresh_node hf points) m 0 false.


(** ** What is let into the pool *)

(** What was checked of a transaction of the network. *)
Record checked (s : Blockchain) (blob : list Z) (tx : transaction) : Prop := {
  ck_size : Z.of_nat (length blob) <= CRYPTONOTE_MAX_TX_SIZE;
  ck_parse : parse_binary read_transaction blob = Some tx;
  ck_inputs : vin (prefix tx) <> [] /\ Forall (fun i => exists x, i = In_to_key x) (vin (prefix tx));
  ck_images : NoDup (TxPool.tx_images tx);
  ck_domain : check_tx_inputs_keyimages_domain tx = Some true;
  ck_outs : check_outs_valid check_key tx = true;
  ck_amounts : check_money_overflow tx = true;
  ck_alias : check_alias m_testnet tx = true;
  ck_new : tx_exists (m_db s) (TxPool.tx_hash tx) = false
}.

End Properties.

(** ** A concrete node *)

(** Every key image is in the subgroup. *)
Definition sample_multiples : KeyMultiples := {| scalarmultKey _ _ := Some identity |}.
Definition sample_core : core := fresh_core HardFork.sample_fork [] Miner.idle_miner.
Definition sample_tx (blob : list Z) (c : core) : core * (core_error + bool * TxPool.tx_verification_context) :=
  @handle_incoming_tx truncating_FastHash sample_crypto TxVerify.sample_rct sample_multiples true 1546270000 (0, null_hash) blob true false c.
Definition sample_incoming (b : block) (c : core) : core * (core_error + bool * block_verification_context) :=
  @handle_incoming_block truncating_FastHash sample_crypto TxVerify.sample_rct sample_pow true true false 1546270000 (0, null_hash) 0 sample_keys 0 None
    (to_blob write_block b) new_bvc false c.
Definition sample_step : core -> core -> Prop :=
  @core_step truncating_FastHash sample_crypto TxVerify.sample_rct sample_pow sample_multiples true true false.
Lemma block_blob b : wf_block b -> bytes (to_blob write_block b) /\ parse_binary read_block (to_blob write_block b) = Some b.
Proof.
  intros H. destruct (rt_block b H) as (bs & E & Hb & _ & Hr). unfold to_blob, dump_binary. rewrite E. split; [done|].
  unfold parse_binary. specialize (Hr []). rewrite app_nil_r in Hr. cbn [default from_option]. unfold id. by rewrite Hr.
Qed.
Lemma sample_incoming_step b c : @block_ok truncating_FastHash sample_crypto b -> m_checkpoints (m_blockchain_storage c) = [] ->
  sample_step c (sample_incoming b c).1.
Proof.
  intros [Hwf Ha] Hck. destruct (block_blob b Hwf) as [Hb Hp]. apply Core_block; [exact Hb| |].
  - intros b' Hp'. unfold parse_and_validate_block_from_blob in Hp'. rewrite Hp in Hp'. by injection Hp' as <-.
  - intros points Hl. rewrite Hck in Hl. injection Hl as <-. intros pt Hin. by apply elem_of_nil in Hin.
Qed.
Lemma bytes_check l : forallb (fun z => (0 <=? z) && (z <? 256)) l = true -> bytes l.
Proof.
  intros H. apply Forall_forall. intros z Hz. rewrite forallb_forall in H. specialize (H z (proj1 (list_elem_of_In _ _) Hz)). words. lia.
Qed.
Lemma sample_tx_step c : sample_step c (sample_tx sample_blob c).1.
Proof.
  apply Core_tx; [apply bytes_check; vm_compute; reflexivity|]. intros tx h Hp.
  assert (E : @parse_and_validate_tx_from_blob truncating_FastHash sample_blob = Some (sample_spender, take 32 sample_blob)) by (vm_compute; reflexivity).
  rewrite E in Hp. injection Hp as <- _. intros a b d H. by vm_compute in H.
Qed.

(** A transaction and two blocks. *)
Definition sample_c1 : core := (sample_tx sample_blob sample_core).1.
Definition sample_c2 : core := (sample_incoming sample_first sample_c1).1.
Definition sample_c3 : core := (sample_incoming sample_main sample_c2).1.


(** ** Where the parts do not fit *)

(** The same transaction in two blobs of different sizes: the pool takes the size of
    the blob that arrived first, and the size of a block is the sum of what the pool
    has, so that two nodes can store different sizes for the same block. *)
Definition long_blob : list Z := 2 :: 128 :: 0 :: drop 2 sample_blob.
Example size_depends_on_encoding :
  parse_binary read_transaction long_blob = parse_binary read_transaction sample_blob /\
  (length long_blob = S (length sample_blob))%nat /\
  (forall c, c = (sample_tx long_blob sample_core).1 \/ c = (sample_tx sample_blob sample_core).1 ->
     size (TxPool.m_transactions (m_tx_pool (m_blockchain_storage c))) = 1%nat).
Proof.
  split; [vm_compute; reflexivity|]. split; [vm_compute; reflexivity|].
  assert (H1 : size (TxPool.m_transactions (m_tx_pool (m_blockchain_storage (sample_tx long_blob sample_core).1))) = 1%nat) by (vm_compute; reflexivity).
  assert (H2 : size (TxPool.m_transactions (m_tx_pool (m_blockchain_storage (sample_tx sample_blob sample_core).1))) = 1%nat) by (vm_compute; reflexivity).
  by intros c [-> | ->].
Qed.

(** An alias for an address of the old form, in hexadecimal digits, is let into the
    pool, but it is not removed when its transaction is. *)
Definition hex_digit (n : Z) : Z := if n <? 10 then 48 + n else 87 + n.
Definition old_address : list Z :=
  let blob := 0 :: repeat 7 64 in
  ((blob ++ [get_account_address_checksum (blob ++ [0])]) ≫= fun b => [hex_digit (b / 16); hex_digit (b mod 16)]).
Definition extra_nonce_field (bs : list Z) : list Z := 2 :: Varint.Varint.write_varint (Z.of_nat (length bs)) ++ bs.
Definition old_alias_tx : transaction :=
  let sig := signature_header ++ default [] (Base58.encode (repeat 1 64)) in
  MkTransaction (MkPrefix 2 0 [In_to_key (MkTxinToKey 0 [0; 1] (repeat 3 32))] []
    (extra_nonce_field (2 :: [97; 98; 99]) ++ extra_nonce_field (3 :: old_address) ++ extra_nonce_field (4 :: sig))) [] rct_null.
Definition signing_crypto : DbCrypto := {| check_key _ := true; check_signature _ _ _ := true; zeroCommit a := repeat (a mod 256) 32 |}.
Example old_alias_stays :
  @check_alias truncating_FastHash signing_crypto false old_alias_tx = true /\ alias_fields (extra (prefix old_alias_tx)) <> None /\
  @removable_alias truncating_FastHash signing_crypto old_alias_tx = None.
Proof. vm_compute. done. Qed.
End Core.
