(* ===== verification/CurveField.v ===== *)
(** * The field of the curve

    The arithmetic of src/crypto/crypto-ops.c modulo [p = 2^255 - 19].  An element is
    an array of ten [int32_t]s, with 26 and 25 bits in turn, and the code works on it
    with 32 and 64 bit integers.  Signed arithmetic that overflows is undefined in C:
    the model checks every sum, difference and product and has no result then.  So a
    theorem that an operation returns says that nothing overflows on arguments within
    the bounds that the comments of the code name.  Shifts of signed integers to the
    left are those of the compilers that define them: bits that do not fit are lost. *)
From S2P Require Import Prelude.
From Stdlib Require Import Ring ZArith Zmod.Zmod.

Module CurveField.

(** ** Signed integers *)

Definition int (w x : Z) : option Z := if (- 2 ^ (w - 1) <=? x) && (x <? 2 ^ (w - 1)) then Some x else None.
Abbreviation int32 := (int 32).
Abbreviation int64 := (int 64).
(** [x0 + x1 + ...], from the left *)
Definition sum64 (l : list Z) : option Z :=
  match l with
  | [] => Some 0
  | x :: l => foldl (fun a y => a ← a; int64 (a + y)) (Some x) l
  end.

(** ** The operations *)

(** [typedef int32_t fe[10]] *)
Record fe := Fe { fe_h0 : Z; fe_h1 : Z; fe_h2 : Z; fe_h3 : Z; fe_h4 : Z; fe_h5 : Z; fe_h6 : Z; fe_h7 : Z; fe_h8 : Z; fe_h9 : Z }.

Definition load_3 (s : list Z) : option Z :=
  in0 ← s !! 0%nat; in1 ← s !! 1%nat; in2 ← s !! 2%nat;
  Some (Z.lor (Z.lor in0 (in1 <<w 8)) (in2 <<w 16)).
Definition load_4 (s : list Z) : option Z :=
  in0 ← s !! 0%nat; in1 ← s !! 1%nat; in2 ← s !! 2%nat; in3 ← s !! 3%nat;
  Some (Z.lor (Z.lor (Z.lor in0 (in1 <<w 8)) (in2 <<w 16)) (in3 <<w 24)).

Definition fe_0 : fe := Fe 0 0 0 0 0 0 0 0 0 0.
Definition fe_1 : fe := Fe 1 0 0 0 0 0 0 0 0 0.

Definition fe_add (f g : fe) : option fe :=
  let '(Fe f0 f1 f2 f3 f4 f5 f6 f7 f8 f9) := f in
  let '(Fe g0 g1 g2 g3 g4 g5 g6 g7 g8 g9) := g in
  h0 ← int32 (f0 + g0);
  h1 ← int32 (f1 + g1);
  h2 ← int32 (f2 + g2);
  h3 ← int32 (f3 + g3);
  h4 ← int32 (f4 + g4);
  h5 ← int32 (f5 + g5);
  h6 ← int32 (f6 + g6);
  h7 ← int32 (f7 + g7);
  h8 ← int32 (f8 + g8);
  h9 ← int32 (f9 + g9);
  Some (Fe h0 h1 h2 h3 h4 h5 h6 h7 h8 h9).

Definition fe_sub (f g : fe) : option fe :=
  let '(Fe f0 f1 f2 f3 f4 f5 f6 f7 f8 f9) := f in
  let '(Fe g0 g1 g2 g3 g4 g5 g6 g7 g8 g9) := g in
  h0 ← int32 (f0 - g0);
  h1 ← int32 (f1 - g1);
  h2 ← int32 (f2 - g2);
  h3 ← int32 (f3 - g3);
  h4 ← int32 (f4 - g4);
  h5 ← int32 (f5 - g5);
  h6 ← int32 (f6 - g6);
  h7 ← int32 (f7 - g7);
  h8 ← int32 (f8 - g8);
  h9 ← int32 (f9 - g9);
  Some (Fe h0 h1 h2 h3 h4 h5 h6 h7 h8 h9).

Definition fe_neg (f : fe) : option fe :=
  let '(Fe f0 f1 f2 f3 f4 f5 f6 f7 f8 f9) := f in
  h0 ← int32 (-f0);
  h1 ← int32 (-f1);
  h2 ← int32 (-f2);
  h3 ← int32 (-f3);
  h4 ← int32 (-f4);
  h5 ← int32 (-f5);
  h6 ← int32 (-f6);
  h7 ← int32 (-f7);
  h8 ← int32 (-f8);
  h9 ← int32 (-f9);
  Some (Fe h0 h1 h2 h3 h4 h5 h6 h7 h8 h9).

(** [carry = (h + (1<<(w-1))) >> w; next += carry; h -= carry << w;] *)
Definition carry (w h next : Z) : option (Z * Z) :=
  t ← int64 (h + 2 ^ (w - 1));
  let carry := Z.shiftr t w in
  next ← int64 (next + carry);
  h ← int64 (h - i64 (Z.shiftl carry w));
  Some (h, next).
(** [carry9 = (h9 + (1<<24)) >> 25; h0 += carry9 * 19; h9 -= carry9 << 25;] *)
Definition carry9 (h9 h0 : Z) : option (Z * Z) :=
  t ← int64 (h9 + 2 ^ 24);
  let carry9 := Z.shiftr t 25 in
  t ← int64 (carry9 * 19);
  h0 ← int64 (h0 + t);
  h9 ← int64 (h9 - i64 (Z.shiftl carry9 25));
  Some (h9, h0).
(** The carries at the end of the products, and the stores to [h]. *)
Definition fe_carries (h0 h1 h2 h3 h4 h5 h6 h7 h8 h9 : Z) : option fe :=
  '(h0, h1) ← carry 26 h0 h1; '(h4, h5) ← carry 26 h4 h5;
  '(h1, h2) ← carry 25 h1 h2; '(h5, h6) ← carry 25 h5 h6;
  '(h2, h3) ← carry 26 h2 h3; '(h6, h7) ← carry 26 h6 h7;
  '(h3, h4) ← carry 25 h3 h4; '(h7, h8) ← carry 25 h7 h8;
  '(h4, h5) ← carry 26 h4 h5; '(h8, h9) ← carry 26 h8 h9;
  '(h9, h0) ← carry9 h9 h0;
  '(h0, h1) ← carry 26 h0 h1;
  Some (Fe (i32 h0) (i32 h1) (i32 h2) (i32 h3) (i32 h4) (i32 h5) (i32 h6) (i32 h7) (i32 h8) (i32 h9)).

Definition fe_mul (f g : fe) : option fe :=
  let '(Fe f0 f1 f2 f3 f4 f5 f6 f7 f8 f9) := f in
  let '(Fe g0 g1 g2 g3 g4 g5 g6 g7 g8 g9) := g in
  g1_19 ← int32 (19 * g1);
  g2_19 ← int32 (19 * g2);
  g3_19 ← int32 (19 * g3);
  g4_19 ← int32 (19 * g4);
  g5_19 ← int32 (19 * g5);
  g6_19 ← int32 (19 * g6);
  g7_19 ← int32 (19 * g7);
  g8_19 ← int32 (19 * g8);
  g9_19 ← int32 (19 * g9);
  f1_2 ← int32 (2 * f1);
  f3_2 ← int32 (2 * f3);
  f5_2 ← int32 (2 * f5);
  f7_2 ← int32 (2 * f7);
  f9_2 ← int32 (2 * f9);
  f0g0 ← int64 (f0 * g0);
  f0g1 ← int64 (f0 * g1);
  f0g2 ← int64 (f0 * g2);
  f0g3 ← int64 (f0 * g3);
  f0g4 ← int64 (f0 * g4);
  f0g5 ← int64 (f0 * g5);
  f0g6 ← int64 (f0 * g6);
  f0g7 ← int64 (f0 * g7);
  f0g8 ← int64 (f0 * g8);
  f0g9 ← int64 (f0 * g9);
  f1g0 ← int64 (f1 * g0);
  f1g1_2 ← int64 (f1_2 * g1);
  f1g2 ← int64 (f1 * g2);
  f1g3_2 ← int64 (f1_2 * g3);
  f1g4 ← int64 (f1 * g4);
  f1g5_2 ← int64 (f1_2 * g5);
  f1g6 ← int64 (f1 * g6);
  f1g7_2 ← int64 (f1_2 * g7);
  f1g8 ← int64 (f1 * g8);
  f1g9_38 ← int64 (f1_2 * g9_19);
  f2g0 ← int64 (f2 * g0);
  f2g1 ← int64 (f2 * g1);
  f2g2 ← int64 (f2 * g2);
  f2g3 ← int64 (f2 * g3);
  f2g4 ← int64 (f2 * g4);
  f2g5 ← int64 (f2 * g5);
  f2g6 ← int64 (f2 * g6);
  f2g7 ← int64 (f2 * g7);
  f2g8_19 ← int64 (f2 * g8_19);
  f2g9_19 ← int64 (f2 * g9_19);
  f3g0 ← int64 (f3 * g0);
  f3g1_2 ← int64 (f3_2 * g1);
  f3g2 ← int64 (f3 * g2);
  f3g3_2 ← int64 (f3_2 * g3);
  f3g4 ← int64 (f3 * g4);
  f3g5_2 ← int64 (f3_2 * g5);
  f3g6 ← int64 (f3 * g6);
  f3g7_38 ← int64 (f3_2 * g7_19);
  f3g8_19 ← int64 (f3 * g8_19);
  f3g9_38 ← int64 (f3_2 * g9_19);
  f4g0 ← int64 (f4 * g0);
  f4g1 ← int64 (f4 * g1);
  f4g2 ← int64 (f4 * g2);
  f4g3 ← int64 (f4 * g3);
  f4g4 ← int64 (f4 * g4);
  f4g5 ← int64 (f4 * g5);
  f4g6_19 ← int64 (f4 * g6_19);
  f4g7_19 ← int64 (f4 * g7_19);
  f4g8_19 ← int64 (f4 * g8_19);
  f4g9_19 ← int64 (f4 * g9_19);
  f5g0 ← int64 (f5 * g0);
  f5g1_2 ← int64 (f5_2 * g1);
  f5g2 ← int64 (f5 * g2);
  f5g3_2 ← int64 (f5_2 * g3);
  f5g4 ← int64 (f5 * g4);
  f5g5_38 ← int64 (f5_2 * g5_19);
  f5g6_19 ← int64 (f5 * g6_19);
  f5g7_38 ← int64 (f5_2 * g7_19);
  f5g8_19 ← int64 (f5 * g8_19);
  f5g9_38 ← int64 (f5_2 * g9_19);
  f6g0 ← int64 (f6 * g0);
  f6g1 ← int64 (f6 * g1);
  f6g2 ← int64 (f6 * g2);
  f6g3 ← int64 (f6 * g3);
  f6g4_19 ← int64 (f6 * g4_19);
  f6g5_19 ← int64 (f6 * g5_19);
  f6g6_19 ← int64 (f6 * g6_19);
  f6g7_19 ← int64 (f6 * g7_19);
  f6g8_19 ← int64 (f6 * g8_19);
  f6g9_19 ← int64 (f6 * g9_19);
  f7g0 ← int64 (f7 * g0);
  f7g1_2 ← int64 (f7_2 * g1);
  f7g2 ← int64 (f7 * g2);
  f7g3_38 ← int64 (f7_2 * g3_19);
  f7g4_19 ← int64 (f7 * g4_19);
  f7g5_38 ← int64 (f7_2 * g5_19);
  f7g6_19 ← int64 (f7 * g6_19);
  f7g7_38 ← int64 (f7_2 * g7_19);
  f7g8_19 ← int64 (f7 * g8_19);
  f7g9_38 ← int64 (f7_2 * g9_19);
  f8g0 ← int64 (f8 * g0);
  f8g1 ← int64 (f8 * g1);
  f8g2_19 ← int64 (f8 * g2_19);
  f8g3_19 ← int64 (f8 * g3_19);
  f8g4_19 ← int64 (f8 * g4_19);
  f8g5_19 ← int64 (f8 * g5_19);
  f8g6_19 ← int64 (f8 * g6_19);
  f8g7_19 ← int64 (f8 * g7_19);
  f8g8_19 ← int64 (f8 * g8_19);
  f8g9_19 ← int64 (f8 * g9_19);
  f9g0 ← int64 (f9 * g0);
  f9g1_38 ← int64 (f9_2 * g1_19);
  f9g2_19 ← int64 (f9 * g2_19);
  f9g3_38 ← int64 (f9_2 * g3_19);
  f9g4_19 ← int64 (f9 * g4_19);
  f9g5_38 ← int64 (f9_2 * g5_19);
  f9g6_19 ← int64 (f9 * g6_19);
  f9g7_38 ← int64 (f9_2 * g7_19);
  f9g8_19 ← int64 (f9 * g8_19);
  f9g9_38 ← int64 (f9_2 * g9_19);
  h0 ← sum64 [f0g0; f1g9_38; f2g8_19; f3g7_38; f4g6_19; f5g5_38; f6g4_19; f7g3_38; f8g2_19; f9g1_38];
  h1 ← sum64 [f0g1; f1g0; f2g9_19; f3g8_19; f4g7_19; f5g6_19; f6g5_19; f7g4_19; f8g3_19; f9g2_19];
  h2 ← sum64 [f0g2; f1g1_2; f2g0; f3g9_38; f4g8_19; f5g7_38; f6g6_19; f7g5_38; f8g4_19; f9g3_38];
  h3 ← sum64 [f0g3; f1g2; f2g1; f3g0; f4g9_19; f5g8_19; f6g7_19; f7g6_19; f8g5_19; f9g4_19];
  h4 ← sum64 [f0g4; f1g3_2; f2g2; f3g1_2; f4g0; f5g9_38; f6g8_19; f7g7_38; f8g6_19; f9g5_38];
  h5 ← sum64 [f0g5; f1g4; f2g3; f3g2; f4g1; f5g0; f6g9_19; f7g8_19; f8g7_19; f9g6_19];
  h6 ← sum64 [f0g6; f1g5_2; f2g4; f3g3_2; f4g2; f5g1_2; f6g0; f7g9_38; f8g8_19; f9g7_38];
  h7 ← sum64 [f0g7; f1g6; f2g5; f3g4; f4g3; f5g2; f6g1; f7g0; f8g9_19; f9g8_19];
  h8 ← sum64 [f0g8; f1g7_2; f2g6; f3g5_2; f4g4; f5g3_2; f6g2; f7g1_2; f8g0; f9g9_38];
  h9 ← sum64 [f0g9; f1g8; f2g7; f3g6; f4g5; f5g4; f6g3; f7g2; f8g1; f9g0];
  fe_carries h0 h1 h2 h3 h4 h5 h6 h7 h8 h9.

Definition fe_sq (f : fe) : option fe :=
  let '(Fe f0 f1 f2 f3 f4 f5 f6 f7 f8 f9) := f in
  f0_2 ← int32 (2 * f0);
  f1_2 ← int32 (2 * f1);
  f2_2 ← int32 (2 * f2);
  f3_2 ← int32 (2 * f3);
  f4_2 ← int32 (2 * f4);
  f5_2 ← int32 (2 * f5);
  f6_2 ← int32 (2 * f6);
  f7_2 ← int32 (2 * f7);
  f5_38 ← int32 (38 * f5);
  f6_19 ← int32 (19 * f6);
  f7_38 ← int32 (38 * f7);
  f8_19 ← int32 (19 * f8);
  f9_38 ← int32 (38 * f9);
  f0f0 ← int64 (f0 * f0);
  f0f1_2 ← int64 (f0_2 * f1);
  f0f2_2 ← int64 (f0_2 * f2);
  f0f3_2 ← int64 (f0_2 * f3);
  f0f4_2 ← int64 (f0_2 * f4);
  f0f5_2 ← int64 (f0_2 * f5);
  f0f6_2 ← int64 (f0_2 * f6);
  f0f7_2 ← int64 (f0_2 * f7);
  f0f8_2 ← int64 (f0_2 * f8);
  f0f9_2 ← int64 (f0_2 * f9);
  f1f1_2 ← int64 (f1_2 * f1);
  f1f2_2 ← int64 (f1_2 * f2);
  f1f3_4 ← int64 (f1_2 * f3_2);
  f1f4_2 ← int64 (f1_2 * f4);
  f1f5_4 ← int64 (f1_2 * f5_2);
  f1f6_2 ← int64 (f1_2 * f6);
  f1f7_4 ← int64 (f1_2 * f7_2);
  f1f8_2 ← int64 (f1_2 * f8);
  f1f9_76 ← int64 (f1_2 * f9_38);
  f2f2 ← int64 (f2 * f2);
  f2f3_2 ← int64 (f2_2 * f3);
  f2f4_2 ← int64 (f2_2 * f4);
  f2f5_2 ← int64 (f2_2 * f5);
  f2f6_2 ← int64 (f2_2 * f6);
  f2f7_2 ← int64 (f2_2 * f7);
  f2f8_38 ← int64 (f2_2 * f8_19);
  f2f9_38 ← int64 (f2 * f9_38);
  f3f3_2 ← int64 (f3_2 * f3);
  f3f4_2 ← int64 (f3_2 * f4);
  f3f5_4 ← int64 (f3_2 * f5_2);
  f3f6_2 ← int64 (f3_2 * f6);
  f3f7_76 ← int64 (f3_2 * f7_38);
  f3f8_38 ← int64 (f3_2 * f8_19);
  f3f9_76 ← int64 (f3_2 * f9_38);
  f4f4 ← int64 (f4 * f4);
  f4f5_2 ← int64 (f4_2 * f5);
  f4f6_38 ← int64 (f4_2 * f6_19);
  f4f7_38 ← int64 (f4 * f7_38);
  f4f8_38 ← int64 (f4_2 * f8_19);
  f4f9_38 ← int64 (f4 * f9_38);
  f5f5_38 ← int64 (f5 * f5_38);
  f5f6_38 ← int64 (f5_2 * f6_19);
  f5f7_76 ← int64 (f5_2 * f7_38);
  f5f8_38 ← int64 (f5_2 * f8_19);
  f5f9_76 ← int64 (f5_2 * f9_38);
  f6f6_19 ← int64 (f6 * f6_19);
  f6f7_38 ← int64 (f6 * f7_38);
  f6f8_38 ← int64 (f6_2 * f8_19);
  f6f9_38 ← int64 (f6 * f9_38);
  f7f7_38 ← int64 (f7 * f7_38);
  f7f8_38 ← int64 (f7_2 * f8_19);
  f7f9_76 ← int64 (f7_2 * f9_38);
  f8f8_19 ← int64 (f8 * f8_19);
  f8f9_38 ← int64 (f8 * f9_38);
  f9f9_38 ← int64 (f9 * f9_38);
  h0 ← sum64 [f0f0; f1f9_76; f2f8_38; f3f7_76; f4f6_38; f5f5_38];
  h1 ← sum64 [f0f1_2; f2f9_38; f3f8_38; f4f7_38; f5f6_38];
  h2 ← sum64 [f0f2_2; f1f1_2; f3f9_76; f4f8_38; f5f7_76; f6f6_19];
  h3 ← sum64 [f0f3_2; f1f2_2; f4f9_38; f5f8_38; f6f7_38];
  h4 ← sum64 [f0f4_2; f1f3_4; f2f2; f5f9_76; f6f8_38; f7f7_38];
  h5 ← sum64 [f0f5_2; f1f4_2; f2f3_2; f6f9_38; f7f8_38];
  h6 ← sum64 [f0f6_2; f1f5_4; f2f4_2; f3f3_2; f7f9_76; f8f8_19];
  h7 ← sum64 [f0f7_2; f1f6_2; f2f5_2; f3f4_2; f8f9_38];
  h8 ← sum64 [f0f8_2; f1f7_4; f2f6_2; f3f5_4; f4f4; f9f9_38];
  h9 ← sum64 [f0f9_2; f1f8_2; f2f7_2; f3f6_2; f4f5_2];
  fe_carries h0 h1 h2 h3 h4 h5 h6 h7 h8 h9.

Definition fe_sq2 (f : fe) : option fe :=
  let '(Fe f0 f1 f2 f3 f4 f5 f6 f7 f8 f9) := f in
  f0_2 ← int32 (2 * f0);
  f1_2 ← int32 (2 * f1);
  f2_2 ← int32 (2 * f2);
  f3_2 ← int32 (2 * f3);
  f4_2 ← int32 (2 * f4);
  f5_2 ← int32 (2 * f5);
  f6_2 ← int32 (2 * f6);
  f7_2 ← int32 (2 * f7);
  f5_38 ← int32 (38 * f5);
  f6_19 ← int32 (19 * f6);
  f7_38 ← int32 (38 * f7);
  f8_19 ← int32 (19 * f8);
  f9_38 ← int32 (38 * f9);
  f0f0 ← int64 (f0 * f0);
  f0f1_2 ← int64 (f0_2 * f1);
  f0f2_2 ← int64 (f0_2 * f2);
  f0f3_2 ← int64 (f0_2 * f3);
  f0f4_2 ← int64 (f0_2 * f4);
  f0f5_2 ← int64 (f0_2 * f5);
  f0f6_2 ← int64 (f0_2 * f6);
  f0f7_2 ← int64 (f0_2 * f7);
  f0f8_2 ← int64 (f0_2 * f8);
  f0f9_2 ← int64 (f0_2 * f9);
  f1f1_2 ← int64 (f1_2 * f1);
  f1f2_2 ← int64 (f1_2 * f2);
  f1f3_4 ← int64 (f1_2 * f3_2);
  f1f4_2 ← int64 (f1_2 * f4);
  f1f5_4 ← int64 (f1_2 * f5_2);
  f1f6_2 ← int64 (f1_2 * f6);
  f1f7_4 ← int64 (f1_2 * f7_2);
  f1f8_2 ← int64 (f1_2 * f8);
  f1f9_76 ← int64 (f1_2 * f9_38);
  f2f2 ← int64 (f2 * f2);
  f2f3_2 ← int64 (f2_2 * f3);
  f2f4_2 ← int64 (f2_2 * f4);
  f2f5_2 ← int64 (f2_2 * f5);
  f2f6_2 ← int64 (f2_2 * f6);
  f2f7_2 ← int64 (f2_2 * f7);
  f2f8_38 ← int64 (f2_2 * f8_19);
  f2f9_38 ← int64 (f2 * f9_38);
  f3f3_2 ← int64 (f3_2 * f3);
  f3f4_2 ← int64 (f3_2 * f4);
  f3f5_4 ← int64 (f3_2 * f5_2);
  f3f6_2 ← int64 (f3_2 * f6);
  f3f7_76 ← int64 (f3_2 * f7_38);
  f3f8_38 ← int64 (f3_2 * f8_19);
  f3f9_76 ← int64 (f3_2 * f9_38);
  f4f4 ← int64 (f4 * f4);
  f4f5_2 ← int64 (f4_2 * f5);
  f4f6_38 ← int64 (f4_2 * f6_19);
  f4f7_38 ← int64 (f4 * f7_38);
  f4f8_38 ← int64 (f4_2 * f8_19);
  f4f9_38 ← int64 (f4 * f9_38);
  f5f5_38 ← int64 (f5 * f5_38);
  f5f6_38 ← int64 (f5_2 * f6_19);
  f5f7_76 ← int64 (f5_2 * f7_38);
  f5f8_38 ← int64 (f5_2 * f8_19);
  f5f9_76 ← int64 (f5_2 * f9_38);
  f6f6_19 ← int64 (f6 * f6_19);
  f6f7_38 ← int64 (f6 * f7_38);
  f6f8_38 ← int64 (f6_2 * f8_19);
  f6f9_38 ← int64 (f6 * f9_38);
  f7f7_38 ← int64 (f7 * f7_38);
  f7f8_38 ← int64 (f7_2 * f8_19);
  f7f9_76 ← int64 (f7_2 * f9_38);
  f8f8_19 ← int64 (f8 * f8_19);
  f8f9_38 ← int64 (f8 * f9_38);
  f9f9_38 ← int64 (f9 * f9_38);
  h0 ← sum64 [f0f0; f1f9_76; f2f8_38; f3f7_76; f4f6_38; f5f5_38];
  h1 ← sum64 [f0f1_2; f2f9_38; f3f8_38; f4f7_38; f5f6_38];
  h2 ← sum64 [f0f2_2; f1f1_2; f3f9_76; f4f8_38; f5f7_76; f6f6_19];
  h3 ← sum64 [f0f3_2; f1f2_2; f4f9_38; f5f8_38; f6f7_38];
  h4 ← sum64 [f0f4_2; f1f3_4; f2f2; f5f9_76; f6f8_38; f7f7_38];
  h5 ← sum64 [f0f5_2; f1f4_2; f2f3_2; f6f9_38; f7f8_38];
  h6 ← sum64 [f0f6_2; f1f5_4; f2f4_2; f3f3_2; f7f9_76; f8f8_19];
  h7 ← sum64 [f0f7_2; f1f6_2; f2f5_2; f3f4_2; f8f9_38];
  h8 ← sum64 [f0f8_2; f1f7_4; f2f6_2; f3f5_4; f4f4; f9f9_38];
  h9 ← sum64 [f0f9_2; f1f8_2; f2f7_2; f3f6_2; f4f5_2];
  h0 ← int64 (h0 + h0);
  h1 ← int64 (h1 + h1);
  h2 ← int64 (h2 + h2);
  h3 ← int64 (h3 + h3);
  h4 ← int64 (h4 + h4);
  h5 ← int64 (h5 + h5);
  h6 ← int64 (h6 + h6);
  h7 ← int64 (h7 + h7);
  h8 ← int64 (h8 + h8);
  h9 ← int64 (h9 + h9);
  fe_carries h0 h1 h2 h3 h4 h5 h6 h7 h8 h9.

(** [carry = h >> w; next += carry; h -= carry << w;] on integers of [n] bits *)
Definition carry_floor (n w h next : Z) : option (Z * Z) :=
  let carry := Z.shiftr h w in
  next ← int n (next + carry);
  h ← int n (h - swrap n (Z.shiftl carry w));
  Some (h, next).
(** The stores of [fe_tobytes]. *)
Definition fe_store (h0 h1 h2 h3 h4 h5 h6 h7 h8 h9 : Z) : list Z :=
  [ u8 (Z.shiftr h0 0);
    u8 (Z.shiftr h0 8);
    u8 (Z.shiftr h0 16);
    u8 (Z.lor (Z.shiftr h0 24) (i32 (Z.shiftl h1 2)));
    u8 (Z.shiftr h1 6);
    u8 (Z.shiftr h1 14);
    u8 (Z.lor (Z.shiftr h1 22) (i32 (Z.shiftl h2 3)));
    u8 (Z.shiftr h2 5);
    u8 (Z.shiftr h2 13);
    u8 (Z.lor (Z.shiftr h2 21) (i32 (Z.shiftl h3 5)));
    u8 (Z.shiftr h3 3);
    u8 (Z.shiftr h3 11);
    u8 (Z.lor (Z.shiftr h3 19) (i32 (Z.shiftl h4 6)));
    u8 (Z.shiftr h4 2);
    u8 (Z.shiftr h4 10);
    u8 (Z.shiftr h4 18);
    u8 (Z.shiftr h5 0);
    u8 (Z.shiftr h5 8);
    u8 (Z.shiftr h5 16);
    u8 (Z.lor (Z.shiftr h5 24) (i32 (Z.shiftl h6 1)));
    u8 (Z.shiftr h6 7);
    u8 (Z.shiftr h6 15);
    u8 (Z.lor (Z.shiftr h6 23) (i32 (Z.shiftl h7 3)));
    u8 (Z.shiftr h7 5);
    u8 (Z.shiftr h7 13);
    u8 (Z.lor (Z.shiftr h7 21) (i32 (Z.shiftl h8 4)));
    u8 (Z.shiftr h8 4);
    u8 (Z.shiftr h8 12);
    u8 (Z.lor (Z.shiftr h8 20) (i32 (Z.shiftl h9 6)));
    u8 (Z.shiftr h9 2);
    u8 (Z.shiftr h9 10);
    u8 (Z.shiftr h9 18) ].
Definition fe_tobytes (h : fe) : option (list Z) :=
  let '(Fe h0 h1 h2 h3 h4 h5 h6 h7 h8 h9) := h in
  t ← int32 (19 * h9); t ← int32 (t + 2 ^ 24); let q := Z.shiftr t 25 in
  t ← int32 (h0 + q); let q := Z.shiftr t 26 in
  t ← int32 (h1 + q); let q := Z.shiftr t 25 in
  t ← int32 (h2 + q); let q := Z.shiftr t 26 in
  t ← int32 (h3 + q); let q := Z.shiftr t 25 in
  t ← int32 (h4 + q); let q := Z.shiftr t 26 in
  t ← int32 (h5 + q); let q := Z.shiftr t 25 in
  t ← int32 (h6 + q); let q := Z.shiftr t 26 in
  t ← int32 (h7 + q); let q := Z.shiftr t 25 in
  t ← int32 (h8 + q); let q := Z.shiftr t 26 in
  t ← int32 (h9 + q); let q := Z.shiftr t 25 in
  t ← int32 (19 * q); h0 ← int32 (h0 + t);
  '(h0, h1) ← carry_floor 32 26 h0 h1;
  '(h1, h2) ← carry_floor 32 25 h1 h2;
  '(h2, h3) ← carry_floor 32 26 h2 h3;
  '(h3, h4) ← carry_floor 32 25 h3 h4;
  '(h4, h5) ← carry_floor 32 26 h4 h5;
  '(h5, h6) ← carry_floor 32 25 h5 h6;
  '(h6, h7) ← carry_floor 32 26 h6 h7;
  '(h7, h8) ← carry_floor 32 25 h7 h8;
  '(h8, h9) ← carry_floor 32 26 h8 h9;
  h9 ← int32 (h9 - i32 (Z.shiftl (Z.shiftr h9 25) 25));
  Some (fe_store h0 h1 h2 h3 h4 h5 h6 h7 h8 h9).

Definition fe_isnegative (f : fe) : option Z :=
  s ← fe_tobytes f; s0 ← s !! 0%nat; Some (Z.land s0 1).
(** [((s[0] | ... | s[31]) - 1) >> 8) + 1] *)
Definition bytes_isnonzero (s : list Z) : option Z :=
  t ← int32 (foldl Z.lor 0 s - 1); int32 (Z.shiftr t 8 + 1).
Definition fe_isnonzero (f : fe) : option Z :=
  s ← fe_tobytes f; bytes_isnonzero s.

Definition fe_copy (f : fe) : fe := f.
(** [assert((((b - 1) & ~b) | ((b - 2) & ~(b - 1))) == (unsigned int) -1);] *)
Definition cmov_assert (b : Z) : bool :=
  Z.lor (Z.land (u32 (b - 1)) (u32 (Z.lnot b))) (Z.land (u32 (b - 2)) (u32 (Z.lnot (u32 (b - 1))))) =? u32 (-1).
(** [f ^ ((f ^ g) & b)], where [b] is unsigned *)
Definition cmov_limb (b f g : Z) : Z := Z.lxor f (i32 (Z.land (u32 (Z.lxor f g)) b)).
Definition fe_cmov (f g : fe) (b : Z) : option fe :=
  let '(Fe f0 f1 f2 f3 f4 f5 f6 f7 f8 f9) := f in
  let '(Fe g0 g1 g2 g3 g4 g5 g6 g7 g8 g9) := g in
  if negb (cmov_assert b) then None
  else
    let b := u32 (- b) in
    Some (Fe (cmov_limb b f0 g0) (cmov_limb b f1 g1) (cmov_limb b f2 g2) (cmov_limb b f3 g3) (cmov_limb b f4 g4) (cmov_limb b f5 g5) (cmov_limb b f6 g6) (cmov_limb b f7 g7) (cmov_limb b f8 g8) (cmov_limb b f9 g9)).

(** [for (i = 0; i < n; ++i) fe_sq(t, t);] *)
Fixpoint fe_sq_times (n : nat) (t : fe) : option fe :=
  match n with
  | O => Some t
  | S n => t ← fe_sq t; fe_sq_times n t
  end.
Definition fe_invert (z : fe) : option fe :=
  t0 ← fe_sq z;
  t1 ← fe_sq t0;
  t1 ← fe_sq t1;
  t1 ← fe_mul z t1;
  t0 ← fe_mul t0 t1;
  t2 ← fe_sq t0;
  t1 ← fe_mul t1 t2;
  t2 ← fe_sq t1;
  t2 ← fe_sq_times 4 t2;
  t1 ← fe_mul t2 t1;
  t2 ← fe_sq t1;
  t2 ← fe_sq_times 9 t2;
  t2 ← fe_mul t2 t1;
  t3 ← fe_sq t2;
  t3 ← fe_sq_times 19 t3;
  t2 ← fe_mul t3 t2;
  t2 ← fe_sq t2;
  t2 ← fe_sq_times 9 t2;
  t1 ← fe_mul t2 t1;
  t2 ← fe_sq t1;
  t2 ← fe_sq_times 49 t2;
  t2 ← fe_mul t2 t1;
  t3 ← fe_sq t2;
  t3 ← fe_sq_times 99 t3;
  t2 ← fe_mul t3 t2;
  t2 ← fe_sq t2;
  t2 ← fe_sq_times 49 t2;
  t1 ← fe_mul t2 t1;
  t1 ← fe_sq t1;
  t1 ← fe_sq_times 4 t1;
  fe_mul t1 t0.
Definition fe_divpowm1 (u v : fe) : option fe :=
  v3 ← fe_sq v;
  v3 ← fe_mul v3 v;
  uv7 ← fe_sq v3;
  uv7 ← fe_mul uv7 v;
  uv7 ← fe_mul uv7 u;
  t0 ← fe_sq uv7;
  t1 ← fe_sq t0;
  t1 ← fe_sq t1;
  t1 ← fe_mul uv7 t1;
  t0 ← fe_mul t0 t1;
  t0 ← fe_sq t0;
  t0 ← fe_mul t1 t0;
  t1 ← fe_sq t0;
  t1 ← fe_sq_times 4 t1;
  t0 ← fe_mul t1 t0;
  t1 ← fe_sq t0;
  t1 ← fe_sq_times 9 t1;
  t1 ← fe_mul t1 t0;
  t2 ← fe_sq t1;
  t2 ← fe_sq_times 19 t2;
  t1 ← fe_mul t2 t1;
  t1 ← fe_sq_times 10 t1;
  t0 ← fe_mul t1 t0;
  t1 ← fe_sq t0;
  t1 ← fe_sq_times 49 t1;
  t1 ← fe_mul t1 t0;
  t2 ← fe_sq t1;
  t2 ← fe_sq_times 99 t2;
  t1 ← fe_mul t2 t1;
  t1 ← fe_sq_times 50 t1;
  t0 ← fe_mul t1 t0;
  t0 ← fe_sq t0;
  t0 ← fe_sq t0;
  t0 ← fe_mul t0 uv7;
  t0 ← fe_mul t0 v3;
  fe_mul t0 u.

(** The loads of fe_frombytes.c; [top] is what is kept of the last three bytes. *)
Definition fe_load (top : Z -> Z) (s : list Z) : option (Z * Z * Z * Z * Z * Z * Z * Z * Z * Z) :=
  h0 ← load_4 s;
  h1 ← load_3 (drop 4 s); h2 ← load_3 (drop 7 s); h3 ← load_3 (drop 10 s); h4 ← load_3 (drop 13 s);
  h5 ← load_4 (drop 16 s);
  h6 ← load_3 (drop 20 s); h7 ← load_3 (drop 23 s); h8 ← load_3 (drop 26 s); h9 ← load_3 (drop 29 s);
  Some (h0, h1 <<w 6, h2 <<w 5, h3 <<w 3, h4 <<w 2, h5, h6 <<w 7, h7 <<w 5, h8 <<w 4, top h9 <<w 2).
Definition fe_reduce (h0 h1 h2 h3 h4 h5 h6 h7 h8 h9 : Z) : option fe :=
  '(h9, h0) ← carry9 h9 h0; '(h1, h2) ← carry 25 h1 h2; '(h3, h4) ← carry 25 h3 h4; '(h5, h6) ← carry 25 h5 h6; '(h7, h8) ← carry 25 h7 h8;
  '(h0, h1) ← carry 26 h0 h1; '(h2, h3) ← carry 26 h2 h3; '(h4, h5) ← carry 26 h4 h5; '(h6, h7) ← carry 26 h6 h7; '(h8, h9) ← carry 26 h8 h9;
  Some (Fe (i32 h0) (i32 h1) (i32 h2) (i32 h3) (i32 h4) (i32 h5) (i32 h6) (i32 h7) (i32 h8) (i32 h9)).

(** ** What the operations mean *)

Definition p : Z := 2 ^ 255 - 19.
Definition fe_val (f : fe) : Z :=
  let '(Fe h0 h1 h2 h3 h4 h5 h6 h7 h8 h9) := f in
  h0 + 2 ^ 26 * h1 + 2 ^ 51 * h2 + 2 ^ 77 * h3 + 2 ^ 102 * h4 + 2 ^ 128 * h5 + 2 ^ 153 * h6 + 2 ^ 179 * h7 + 2 ^ 204 * h8 + 2 ^ 230 * h9.

(** [|x| <= b] *)
Definition bnd (b x : Z) : Prop := - b <= x <= b.
(** The even limbs are bounded by [e], the odd ones by [o]. *)
Definition bounded (e o : Z) (f : fe) : Prop :=
  let '(Fe h0 h1 h2 h3 h4 h5 h6 h7 h8 h9) := f in
  bnd e h0 /\ bnd o h1 /\ bnd e h2 /\ bnd o h3 /\ bnd e h4 /\ bnd o h5 /\ bnd e h6 /\ bnd o h7 /\ bnd e h8 /\ bnd o h9.

(** There is a result, and it satisfies [Q]. *)
Definition returns {A} (m : option A) (Q : A -> Prop) : Prop := match m with Some x => Q x | None => False end.

Lemma returns_bind {A B} (m : option A) (k : A -> option B) Q : returns m (fun x => returns (k x) Q) -> returns (m ≫= k) Q.
Proof. by destruct m. Qed.
Lemma returns_mono {A} (m : option A) (P Q : A -> Prop) : returns m P -> (forall x, P x -> Q x) -> returns m Q.
Proof. destruct m; cbn; auto. Qed.
Lemma returns_seq {A B} (m : option A) (k : A -> option B) P Q : returns m P -> (forall x, P x -> returns (k x) Q) -> returns (m ≫= k) Q.
Proof. intros H1 H2. apply returns_bind. by eapply returns_mono. Qed.
Lemma returns_Some {A} (m : option A) Q : returns m Q <-> exists x, m = Some x /\ Q x.
Proof. destruct m as [y|]; cbn; [|by split; [|intros (? & ? & _)]]. split; [by exists y|]. intros (x & E & Hx). by injection E as ->. Qed.

Lemma int_fits w x : - 2 ^ (w - 1) <= x < 2 ^ (w - 1) -> int w x = Some x.
Proof. intros H. unfold int. rewrite (proj2 (Z.leb_le _ _)), (proj2 (Z.ltb_lt _ _)) by lia. done. Qed.
Lemma int_seq {A} w x (k : Z -> option A) Q : - 2 ^ (w - 1) <= x < 2 ^ (w - 1) -> (forall y, y = x -> returns (k y) Q) -> returns (y ← int w x; k y) Q.
Proof. intros H Hk. rewrite int_fits by done. cbn. by apply Hk. Qed.
Lemma mul_seq {A} w a b x y (k : Z -> option A) Q : bnd a x -> bnd b y -> (a * b <? 2 ^ (w - 1)) = true ->
  (forall z, z = x * y -> bnd (a * b) z -> returns (k z) Q) -> returns (z ← int w (x * y); k z) Q.
Proof.
  intros Hx Hy Hab Hk. apply Z.ltb_lt in Hab. assert (bnd (a * b) (x * y)) by (unfold bnd in *; nia).
  apply int_seq; [unfold bnd in *; lia|]. intros z ->. by apply Hk.
Qed.
Lemma scale_seq {A} w c b y (k : Z -> option A) Q : bnd b y -> (0 <=? c) && (c * b <? 2 ^ (w - 1)) = true ->
  (forall z, z = c * y -> bnd (c * b) z -> returns (k z) Q) -> returns (z ← int w (c * y); k z) Q.
Proof. intros Hy [Hc%Z.leb_le Hb]%andb_prop. apply mul_seq; [|done..]. unfold bnd. lia. Qed.

Lemma sum64_fold l bs x b : Forall2 bnd bs l -> bnd b x -> b + foldr Z.add 0 bs < 2 ^ 63 ->
  foldl (fun a y => a ← a; int64 (a + y)) (Some x) l = Some (x + foldr Z.add 0 l).
Proof.
  intros H. revert x b. induction H as [|c y bs l Hy Hl IH]; intros x b Hx Hb; cbn [foldl foldr] in *; [by rewrite Z.add_0_r|].
  assert (0 <= foldr Z.add 0 bs) by (clear -Hl; induction Hl; cbn; unfold bnd in *; lia).
  cbn [mbind option_bind]. rewrite int_fits by (change (2 ^ (64 - 1)) with (2 ^ 63); unfold bnd in *; lia).
  rewrite (IH _ (b + c)) by (unfold bnd in *; lia). f_equal. lia.
Qed.
Lemma sum64_seq {A} l bs (k : Z -> option A) Q : Forall2 bnd bs l -> (foldr Z.add 0 bs <? 2 ^ 63) = true ->
  (forall z, z = foldr Z.add 0 l -> bnd (foldr Z.add 0 bs) z -> returns (k z) Q) -> returns (z ← sum64 l; k z) Q.
Proof.
  intros H Hb%Z.ltb_lt Hk.
  assert (Hs : bnd (foldr Z.add 0 bs) (foldr Z.add 0 l)) by (clear -H; induction H; unfold bnd in *; cbn in *; lia).
  assert (E : sum64 l = Some (foldr Z.add 0 l)); [|rewrite E; by apply Hk]. destruct H as [|b x bs l Hx H]; [done|].
  unfold sum64. by rewrite (sum64_fold l bs x b).
Qed.

Lemma shiftr_spec x w : 0 <= w -> 2 ^ w * Z.shiftr x w <= x < 2 ^ w * Z.shiftr x w + 2 ^ w.
Proof. intros Hw. rewrite Z.shiftr_div_pow2 by done. pose proof (Z.div_mod x (2 ^ w)). pose proof (Z.mod_pos_bound x (2 ^ w)). lia. Qed.

(** A carry moves a multiple of the weight of the next limb to it. *)
Lemma carry_seq {A} w b b' h next (k : Z * Z -> option A) Q : bnd b h -> bnd b' next -> 1 <= w ->
  b + b' + 2 ^ w < 2 ^ 63 ->
  (forall c x y, x = h - 2 ^ w * c -> y = next + c -> - 2 ^ (w - 1) <= x < 2 ^ (w - 1) -> returns (k (x, y)) Q) ->
  returns (r ← carry w h next; k r) Q.
Proof.
  intros Hh Hn Hw Hb Hk. unfold bnd in *. assert (E1 : 2 ^ w = 2 * 2 ^ (w - 1)) by (rewrite <- Z.pow_succ_r by lia; f_equal; lia).
  assert (H1 : 1 <= 2 ^ (w - 1)) by (pose proof (Z.pow_pos_nonneg 2 (w - 1)); lia).
  change (2 ^ 63) with (2 ^ (64 - 1)) in Hb. unfold carry. pose proof (shiftr_spec (h + 2 ^ (w - 1)) w) as Hc. specialize (Hc ltac:(lia)).
  rewrite int_fits by lia. cbn [mbind option_bind]. set (c := Z.shiftr (h + 2 ^ (w - 1)) w) in *.
  assert (Hcb : - b - 2 ^ w <= c <= b + 2 ^ w).
  { destruct (Z.le_gt_cases 0 c) as [Hp|Hp]; [|assert (1 * (- c) <= 2 ^ w * (- c)) by (apply Z.mul_le_mono_nonneg_r; lia); lia].
    assert (1 * c <= 2 ^ w * c) by (apply Z.mul_le_mono_nonneg_r; lia). lia. }
  rewrite Z.shiftl_mul_pow2, (Z.mul_comm c) by lia. rewrite (int_fits _ (next + c)) by lia. cbn [mbind option_bind].
  rewrite (swrap_small 64) by lia. rewrite int_fits by lia. cbn [mbind option_bind].
  apply (Hk c); lia.
Qed.

Lemma carry9_seq {A} h9 h0 (k : Z * Z -> option A) Q : bnd 4100000000000000000 h9 -> bnd (2 ^ 33) h0 ->
  (forall c x y, x = h9 - 2 ^ 25 * c -> y = h0 + 19 * c -> - 2 ^ 24 <= x < 2 ^ 24 -> returns (k (x, y)) Q) ->
  returns (r ← carry9 h9 h0; k r) Q.
Proof.
  intros H9 H0 Hk. unfold bnd in *. unfold carry9. pose proof (shiftr_spec (h9 + 2 ^ 24) 25 ltac:(lia)) as Hc.
  rewrite (int_fits _ (h9 + 2 ^ 24)) by lia. cbn [mbind option_bind]. set (c := Z.shiftr (h9 + 2 ^ 24) 25) in *.
  rewrite Z.shiftl_mul_pow2, (Z.mul_comm c (2 ^ 25)), (Z.mul_comm c 19) by lia. rewrite (int_fits _ (19 * c)) by lia. cbn [mbind option_bind].
  rewrite (int_fits _ (h0 + 19 * c)) by lia. cbn [mbind option_bind].
  rewrite (swrap_small 64) by lia. rewrite int_fits by lia. cbn [mbind option_bind]. apply (Hk c); lia.
Qed.

Lemma i32_small x b : bnd b x -> b < 2 ^ 31 -> i32 x = x.
Proof. unfold bnd. intros. apply swrap_small; [change (2 ^ (32 - 1)) with (2 ^ 31)|]; lia. Qed.

Ltac carry_step w b b' :=
  apply (carry_seq w b b'); [unfold bnd in *; lia|unfold bnd in *; lia|lia|lia|];
  let c := fresh "c" in let x := fresh "x" in let y := fresh "y" in
  let Ex := fresh "Ex" in let Ey := fresh "Ey" in let Hx := fresh "Hx" in
  intros c x y Ex Ey Hx; cbn beta iota zeta.

(** The carries keep the value modulo [p] and make the limbs small. *)
Lemma fe_carries_ok h0 h1 h2 h3 h4 h5 h6 h7 h8 h9 :
  Forall (bnd 4000000000000000000) [h0; h1; h2; h3; h4; h5; h6; h7; h8; h9] ->
  returns (fe_carries h0 h1 h2 h3 h4 h5 h6 h7 h8 h9) (fun r => bounded (2 ^ 25) 16944988 r /\
    exists c, fe_val r = fe_val (Fe h0 h1 h2 h3 h4 h5 h6 h7 h8 h9) - p * c).
Proof.
  rewrite !Forall_cons. intros (H0 & H1 & H2 & H3 & H4 & H5 & H6 & H7 & H8 & H9 & _). unfold fe_carries.
  carry_step 26 4000000000000000000 4000000000000000000. carry_step 26 4000000000000000000 4000000000000000000.
  carry_step 25 4100000000000000000 4000000000000000000. carry_step 25 4100000000000000000 4000000000000000000.
  carry_step 26 4200000000000000000 4000000000000000000. carry_step 26 4200000000000000000 4000000000000000000.
  carry_step 25 4100000000000000000 40000000. carry_step 25 4100000000000000000 4000000000000000000.
  carry_step 26 140000000000 20000000. carry_step 26 4200000000000000000 4000000000000000000.
  apply carry9_seq; [unfold bnd in *; lia|unfold bnd in *; lia|]. intros c9 x9 y9 Ex9 Ey9 Hx9. cbn beta iota zeta.
  carry_step 26 4000000000000 20000000. unfold returns.
  repeat (rewrite (i32_small _ 40000000); [|unfold bnd in *; lia|lia]).
  split; [unfold bounded, bnd in *; split_and!; lia|]. exists c9. unfold fe_val, p. subst. ring.
Qed.

(** *** The products *)

Lemma bnd_weaken b b' x : bnd b x -> (b <=? b') = true -> bnd b' x.
Proof. unfold bnd. intros H Hb%Z.leb_le. lia. Qed.
Ltac product_step :=
  first [ eapply mul_seq; [eassumption|eassumption|vm_compute; reflexivity|]
        | eapply scale_seq; [eassumption|vm_compute; reflexivity|] ];
  let z := fresh "z" in let E := fresh "E" in let H := fresh "H" in
  intros z E H; match type of H with bnd ?e _ => let v := eval vm_compute in e in change e with v in H end.
Ltac sum_step :=
  eapply sum64_seq; [repeat (eapply Forall2_cons_2; [eassumption|]); apply Forall2_nil_2|vm_compute; reflexivity|];
  let z := fresh "h" in let E := fresh "E" in let H := fresh "H" in
  intros z E H; cbn [foldr] in E; match type of H with bnd ?e _ => let v := eval vm_compute in e in change e with v in H end.

(** The arguments of the products: limbs up to [1.65 * 2^26] and [1.65 * 2^25]. *)
Abbreviation wide := (bounded 110729625 55364812).
Abbreviation tight := (bounded (2 ^ 25) 16944988).

(** The part of a product that is folded back: what has weight [2^255] and more. *)
Definition mul_excess (f g : fe) : Z :=
  let '(Fe f0 f1 f2 f3 f4 f5 f6 f7 f8 f9) := f in
  let '(Fe g0 g1 g2 g3 g4 g5 g6 g7 g8 g9) := g in
  2 ^ 1 * f1 * g9 + 1 * f2 * g8 + 2 ^ 26 * f2 * g9 + 2 ^ 1 * f3 * g7 + 2 ^ 26 * f3 * g8 + 2 ^ 52 * f3 * g9 + 1 *
  f4 * g6 + 2 ^ 26 * f4 * g7 + 2 ^ 51 * f4 * g8 + 2 ^ 77 * f4 * g9 + 2 ^ 1 * f5 * g5 + 2 ^ 26 * f5 * g6 + 2 ^ 52
  * f5 * g7 + 2 ^ 77 * f5 * g8 + 2 ^ 103 * f5 * g9 + 1 * f6 * g4 + 2 ^ 26 * f6 * g5 + 2 ^ 51 * f6 * g6 + 2 ^ 77
  * f6 * g7 + 2 ^ 102 * f6 * g8 + 2 ^ 128 * f6 * g9 + 2 ^ 1 * f7 * g3 + 2 ^ 26 * f7 * g4 + 2 ^ 52 * f7 * g5 + 2
  ^ 77 * f7 * g6 + 2 ^ 103 * f7 * g7 + 2 ^ 128 * f7 * g8 + 2 ^ 154 * f7 * g9 + 1 * f8 * g2 + 2 ^ 26 * f8 * g3 +
  2 ^ 51 * f8 * g4 + 2 ^ 77 * f8 * g5 + 2 ^ 102 * f8 * g6 + 2 ^ 128 * f8 * g7 + 2 ^ 153 * f8 * g8 + 2 ^ 179 * f8
  * g9 + 2 ^ 1 * f9 * g1 + 2 ^ 26 * f9 * g2 + 2 ^ 52 * f9 * g3 + 2 ^ 77 * f9 * g4 + 2 ^ 103 * f9 * g5 + 2 ^ 128
  * f9 * g6 + 2 ^ 154 * f9 * g7 + 2 ^ 179 * f9 * g8 + 2 ^ 205 * f9 * g9.
Ltac products_done c f g :=
  eapply returns_mono;
  [ apply fe_carries_ok; repeat (apply Forall_cons_2; [eapply bnd_weaken; [eassumption|reflexivity]|]); apply Forall_nil_2
  | intros r [Hr [k Hk]]; split; [done|]; rewrite Hk; exists (k + c * mul_excess f g); unfold mul_excess, fe_val, p; subst; ring ].

Lemma fe_mul_ok f g : wide f -> wide g -> returns (fe_mul f g) (fun h => tight h /\ exists c, fe_val h = fe_val f * fe_val g - p * c).
Proof.
  destruct f as [f0 f1 f2 f3 f4 f5 f6 f7 f8 f9], g as [g0 g1 g2 g3 g4 g5 g6 g7 g8 g9].
  intros (F0 & F1 & F2 & F3 & F4 & F5 & F6 & F7 & F8 & F9) (G0 & G1 & G2 & G3 & G4 & G5 & G6 & G7 & G8 & G9). unfold fe_mul.
  do 114 product_step. do 10 sum_step.
  products_done 1 (Fe f0 f1 f2 f3 f4 f5 f6 f7 f8 f9) (Fe g0 g1 g2 g3 g4 g5 g6 g7 g8 g9).
Qed.

Lemma fe_sq_ok f : wide f -> returns (fe_sq f) (fun h => tight h /\ exists c, fe_val h = fe_val f * fe_val f - p * c).
Proof.
  destruct f as [f0 f1 f2 f3 f4 f5 f6 f7 f8 f9]. intros (F0 & F1 & F2 & F3 & F4 & F5 & F6 & F7 & F8 & F9). unfold fe_sq.
  do 68 product_step. do 10 sum_step.
  products_done 1 (Fe f0 f1 f2 f3 f4 f5 f6 f7 f8 f9) (Fe f0 f1 f2 f3 f4 f5 f6 f7 f8 f9).
Qed.

Lemma add_seq {A} w a b x y (k : Z -> option A) Q : bnd a x -> bnd b y -> (a + b <? 2 ^ (w - 1)) = true ->
  (forall z, z = x + y -> bnd (a + b) z -> returns (k z) Q) -> returns (z ← int w (x + y); k z) Q.
Proof. intros Hx Hy Hab%Z.ltb_lt Hk. unfold bnd in *. apply int_seq; [lia|]. intros z ->. apply Hk; lia. Qed.
Lemma sub_seq {A} w a b x y (k : Z -> option A) Q : bnd a x -> bnd b y -> (a + b <? 2 ^ (w - 1)) = true ->
  (forall z, z = x - y -> bnd (a + b) z -> returns (k z) Q) -> returns (z ← int w (x - y); k z) Q.
Proof. intros Hx Hy Hab%Z.ltb_lt Hk. unfold bnd in *. apply int_seq; [lia|]. intros z ->. apply Hk; lia. Qed.
Ltac add_step :=
  eapply add_seq; [eassumption|eassumption|vm_compute; reflexivity|];
  let z := fresh "z" in let E := fresh "E" in let H := fresh "H" in
  intros z E H; match type of H with bnd ?e _ => let v := eval vm_compute in e in change e with v in H end.

Lemma fe_sq2_ok f : wide f -> returns (fe_sq2 f) (fun h => tight h /\ exists c, fe_val h = 2 * (fe_val f * fe_val f) - p * c).
Proof.
  destruct f as [f0 f1 f2 f3 f4 f5 f6 f7 f8 f9]. intros (F0 & F1 & F2 & F3 & F4 & F5 & F6 & F7 & F8 & F9). unfold fe_sq2.
  do 68 product_step. do 10 sum_step. do 10 add_step.
  products_done 2 (Fe f0 f1 f2 f3 f4 f5 f6 f7 f8 f9) (Fe f0 f1 f2 f3 f4 f5 f6 f7 f8 f9).
Qed.

(** *** Sums *)

Lemma fe_add_ok e o e' o' f g : bounded e o f -> bounded e' o' g -> (e + e' <? 2 ^ 31) && (o + o' <? 2 ^ 31) = true ->
  returns (fe_add f g) (fun h => bounded (e + e') (o + o') h /\ fe_val h = fe_val f + fe_val g).
Proof.
  destruct f as [f0 f1 f2 f3 f4 f5 f6 f7 f8 f9], g as [g0 g1 g2 g3 g4 g5 g6 g7 g8 g9].
  intros (F0 & F1 & F2 & F3 & F4 & F5 & F6 & F7 & F8 & F9) (G0 & G1 & G2 & G3 & G4 & G5 & G6 & G7 & G8 & G9) [He Ho]%andb_prop. unfold fe_add.
  do 10 (eapply add_seq; [eassumption|eassumption|eassumption|]; intros). cbn [returns]. split; [by unfold bounded; split_and!|]. unfold fe_val. subst. ring.
Qed.
Lemma fe_sub_ok e o e' o' f g : bounded e o f -> bounded e' o' g -> (e + e' <? 2 ^ 31) && (o + o' <? 2 ^ 31) = true ->
  returns (fe_sub f g) (fun h => bounded (e + e') (o + o') h /\ fe_val h = fe_val f - fe_val g).
Proof.
  destruct f as [f0 f1 f2 f3 f4 f5 f6 f7 f8 f9], g as [g0 g1 g2 g3 g4 g5 g6 g7 g8 g9].
  intros (F0 & F1 & F2 & F3 & F4 & F5 & F6 & F7 & F8 & F9) (G0 & G1 & G2 & G3 & G4 & G5 & G6 & G7 & G8 & G9) [He Ho]%andb_prop. unfold fe_sub.
  do 10 (eapply sub_seq; [eassumption|eassumption|eassumption|]; intros). cbn [returns]. split; [by unfold bounded; split_and!|]. unfold fe_val. subst. ring.
Qed.
Lemma fe_neg_ok e o f : bounded e o f -> (e <? 2 ^ 31) && (o <? 2 ^ 31) = true ->
  returns (fe_neg f) (fun h => bounded e o h /\ fe_val h = - fe_val f).
Proof.
  destruct f as [f0 f1 f2 f3 f4 f5 f6 f7 f8 f9]. intros (F0 & F1 & F2 & F3 & F4 & F5 & F6 & F7 & F8 & F9) [He%Z.ltb_lt Ho%Z.ltb_lt]%andb_prop. unfold fe_neg.
  unfold bnd in *. do 10 (apply int_seq; [change (2 ^ (32 - 1)) with (2 ^ 31); lia|]; intros ? ->). cbn [returns].
  split; [unfold bounded, bnd; split_and!; lia|]. unfold fe_val. ring.
Qed.
(** *** Bytes *)

Lemma wrap_lor n a b : 0 <= n -> wrap n (Z.lor a b) = Z.lor (wrap n a) (wrap n b).
Proof. intros Hn. unfold wrap. rewrite <- !Z.land_ones by done. by rewrite Z.land_lor_distr_l. Qed.
Lemma wrap_swrap n m x : 0 <= n <= m -> 0 < m -> wrap n (swrap m x) = wrap n x.
Proof.
  intros Hn Hm. unfold wrap, swrap. assert (E : 2 ^ m = 2 ^ (m - n) * 2 ^ n) by (rewrite <- Z.pow_add_r by lia; f_equal; lia).
  rewrite (Z.mod_eq (x + 2 ^ (m - 1))) by (apply Z.pow_nonzero; lia).
  replace (x + 2 ^ (m - 1) - 2 ^ m * ((x + 2 ^ (m - 1)) / 2 ^ m) - 2 ^ (m - 1)) with (x + (- (2 ^ (m - n) * ((x + 2 ^ (m - 1)) / 2 ^ m))) * 2 ^ n) by lia.
  apply Z.mod_add, Z.pow_nonzero; lia.
Qed.
(** The byte in which one limb ends and the next one begins. *)
Lemma join_byte m k a b : 8 <= m -> 0 <= k <= 8 -> 0 <= a < 2 ^ k -> u8 (Z.lor a (swrap m (Z.shiftl b k))) = a + 2 ^ k * (b mod 2 ^ (8 - k)).
Proof.
  intros Hm Hk Ha. rewrite wrap_lor, wrap_swrap, Z.shiftl_mul_pow2 by lia.
  assert (2 ^ k <= 2 ^ 8) by (apply Z.pow_le_mono_r; lia). rewrite (wrap_small 8 a) by (unfold word; lia).
  unfold wrap. replace (2 ^ 8) with (2 ^ (8 - k) * 2 ^ k) by (rewrite <- Z.pow_add_r by lia; f_equal; lia).
  rewrite Z.mul_mod_distr_r by (apply Z.pow_nonzero; lia). rewrite lor_low_high by lia. lia.
Qed.
Ltac split_bytes := rewrite !join_byte by (lia || (rewrite Z.shiftr_div_pow2 by lia; dlia)); unfold wrap; rewrite ?Z.shiftr_div_pow2 by lia.

Lemma byte_at h a : 0 <= a -> (h / 2 ^ a) mod 2 ^ 8 = h / 2 ^ a - 256 * (h / 2 ^ (8 + a)).
Proof. intros Ha. rewrite Z.mod_eq, Z.div_div, <- Z.pow_add_r, (Z.add_comm a) by lia. done. Qed.
(** The value of stored bytes as a linear expression in the quotients of the limbs. *)
Ltac linear_bytes :=
  rewrite ?byte_at by lia;
  repeat match goal with
  | |- context [2 ^ (8 + ?a)] => let v := eval vm_compute in (8 + a) in change (8 + a) with v
  | |- context [2 ^ (8 - ?a)] => let v := eval vm_compute in (8 - a) in change (8 - a) with v
  end;
  repeat match goal with |- context [?x mod 2 ^ ?k] => rewrite (Z.mod_eq x (2 ^ k)) by lia end.

Definition digits (f : fe) : Prop :=
  let '(Fe h0 h1 h2 h3 h4 h5 h6 h7 h8 h9) := f in
  0 <= h0 < 2 ^ 26 /\ 0 <= h1 < 2 ^ 25 /\ 0 <= h2 < 2 ^ 26 /\ 0 <= h3 < 2 ^ 25 /\ 0 <= h4 < 2 ^ 26 /\
  0 <= h5 < 2 ^ 25 /\ 0 <= h6 < 2 ^ 26 /\ 0 <= h7 < 2 ^ 25 /\ 0 <= h8 < 2 ^ 26 /\ 0 <= h9 < 2 ^ 25.

Lemma bytes_of_value l v : bytes l -> length l = 32%nat -> le_val l = v -> l = le_bytes 32 v.
Proof. intros Hb Hl <-. rewrite <- Hl. by rewrite le_bytes_le_val. Qed.

Lemma fe_store_ok h0 h1 h2 h3 h4 h5 h6 h7 h8 h9 : digits (Fe h0 h1 h2 h3 h4 h5 h6 h7 h8 h9) ->
  fe_store h0 h1 h2 h3 h4 h5 h6 h7 h8 h9 = le_bytes 32 (fe_val (Fe h0 h1 h2 h3 h4 h5 h6 h7 h8 h9)).
Proof.
  intros (H0 & H1 & H2 & H3 & H4 & H5 & H6 & H7 & H8 & H9). apply bytes_of_value; [unfold fe_store; repeat (apply Forall_cons_2; [apply wrap_u8|]); apply Forall_nil_2|done|].
  unfold fe_store. split_bytes. cbn [le_val]. unfold fe_val. linear_bytes.
  rewrite (Z.div_small h4 (2 ^ 26)), (Z.div_small h9 (2 ^ 26)) by lia.
  rewrite ?Z.pow_0_r, ?Z.div_1_r. lia.
Qed.
Lemma carry_floor_seq {A} n w b b' h next (k : Z * Z -> option A) Q : bnd b h -> bnd b' next -> 0 <= w < n ->
  b + b' + 2 ^ w < 2 ^ (n - 1) ->
  (forall c x y, x = h - 2 ^ w * c -> y = next + c -> 0 <= x < 2 ^ w -> returns (k (x, y)) Q) ->
  returns (r ← carry_floor n w h next; k r) Q.
Proof.
  intros Hh Hn Hw Hb Hk. unfold bnd, carry_floor in *. pose proof (shiftr_spec h w) as Hc. specialize (Hc ltac:(lia)).
  set (c := Z.shiftr h w) in *. pose proof (Z.pow_pos_nonneg 2 w).
  assert (Hcb : - b - 2 ^ w <= c <= b + 2 ^ w).
  { destruct (Z.le_gt_cases 0 c) as [Hp|Hp]; [|assert (1 * (- c) <= 2 ^ w * (- c)) by (apply Z.mul_le_mono_nonneg_r; lia); lia].
    assert (1 * c <= 2 ^ w * c) by (apply Z.mul_le_mono_nonneg_r; lia). lia. }
  rewrite Z.shiftl_mul_pow2, (Z.mul_comm c) by lia. rewrite (int_fits _ (next + c)) by lia. cbn [mbind option_bind].
  rewrite swrap_small by lia. rewrite int_fits by lia. cbn [mbind option_bind]. apply (Hk c); lia.
Qed.
Ltac carry_floor_step n w b b' :=
  apply (carry_floor_seq n w b b'); [unfold bnd in *; lia|unfold bnd in *; lia|lia|lia|];
  let c := fresh "c" in let x := fresh "x" in let y := fresh "y" in
  let Ex := fresh "Ex" in let Ey := fresh "Ey" in let Hx := fresh "Hx" in
  intros c x y Ex Ey Hx; cbn beta iota zeta.
Ltac q_step q w :=
  apply int_seq; [lia|]; let t := fresh "t" in let Et := fresh "Et" in let Hq := fresh "Hq" in intros t Et; cbv zeta;
  pose proof (shiftr_spec t w ltac:(lia)) as Hq; set (q := Z.shiftr t w) in *; clearbody q; subst t.

(** The quotient of [fe_tobytes] is the right one. *)
Lemma tobytes_quotient h0 h1 h2 h3 h4 h5 h6 h7 h8 h9 q q0 :
  bounded 110729625 55364812 (Fe h0 h1 h2 h3 h4 h5 h6 h7 h8 h9) ->
  2 ^ 25 * q0 <= 19 * h9 + 2 ^ 24 < 2 ^ 25 * q0 + 2 ^ 25 ->
  2 ^ 255 * q <= fe_val (Fe h0 h1 h2 h3 h4 h5 h6 h7 h8 h9) + q0 < 2 ^ 255 * q + 2 ^ 255 ->
  0 <= fe_val (Fe h0 h1 h2 h3 h4 h5 h6 h7 h8 h9) - p * q < p /\ -3 <= q <= 3.
Proof.
  intros (H0 & H1 & H2 & H3 & H4 & H5 & H6 & H7 & H8 & H9) Hq0 Hq. unfold bnd, fe_val, p in *. 
  assert (Hb : -3 <= q <= 3) by lia. split; [|done].
  assert (q = -3 \/ q = -2 \/ q = -1 \/ q = 0 \/ q = 1 \/ q = 2 \/ q = 3) as [->|[->|[->|[->|[->|[->| ->]]]]]] by lia; lia.
Qed.
Lemma fe_tobytes_ok f : bounded 110729625 55364812 f -> returns (fe_tobytes f) (fun s => s = le_bytes 32 (fe_val f mod p)).
Proof.
  destruct f as [h0 h1 h2 h3 h4 h5 h6 h7 h8 h9]. intros Hf. pose proof (tobytes_quotient h0 h1 h2 h3 h4 h5 h6 h7 h8 h9) as HQ.
  pose proof Hf as (H0 & H1 & H2 & H3 & H4 & H5 & H6 & H7 & H8 & H9). unfold bnd in H0, H1, H2, H3, H4, H5, H6, H7, H8, H9. unfold fe_tobytes.
  apply int_seq; [lia|]. intros ? ->. q_step q0 25. q_step q1 26. q_step q2 25. q_step q3 26. q_step q4 25. q_step q5 26. q_step q6 25. q_step q7 26.
  q_step q8 25. q_step q9 26. q_step q 25.
  destruct (HQ q q0 Hf ltac:(lia)) as [Hr Hqb]; [unfold fe_val; lia|]. clear HQ.
  clear - Hf H0 H1 H2 H3 H4 H5 H6 H7 H8 H9 Hr Hqb.
  apply int_seq; [lia|]. intros ? ->. apply int_seq; [lia|]. intros h0' E0.
  carry_floor_step 32 26 110729725 55364812. carry_floor_step 32 25 55364822 110729625. carry_floor_step 32 26 110729635 55364812.
  carry_floor_step 32 25 55364822 110729625. carry_floor_step 32 26 110729635 55364812.
  carry_floor_step 32 25 55364822 110729625. carry_floor_step 32 26 110729635 55364812.
  carry_floor_step 32 25 55364822 110729625. carry_floor_step 32 26 110729635 55364812.
  pose proof (shiftr_spec y7 25 ltac:(lia)) as H10. set (c9 := Z.shiftr y7 25) in *. clearbody c9.
  rewrite Z.shiftl_mul_pow2, (Z.mul_comm c9), swrap_small by lia. apply int_seq; [lia|]. intros h9' E9. cbn [returns].
  rewrite fe_store_ok by (unfold digits; split_and!; lia). f_equal.
  assert (c9 = q) as -> by (unfold fe_val, p in *; lia).
  match goal with |- fe_val ?x = _ => assert (Ev : fe_val x = fe_val (Fe h0 h1 h2 h3 h4 h5 h6 h7 h8 h9) - p * q) by (unfold fe_val, p; lia) end.
  rewrite Ev. apply (Z.mod_unique_pos _ _ q); lia.
Qed.

Lemma p_pos : 1 < p. Proof. done. Qed.

Lemma le_val_zero l : bytes l -> le_val l = 0 <-> Forall (fun b => b = 0) l.
Proof.
  induction 1 as [|b l Hb Hl IH]; cbn [le_val]; [by split|]. rewrite Forall_cons, <- IH.
  pose proof (le_val_bound l Hl). words. lia.
Qed.
Lemma foldl_lor l a : 0 <= a < 256 -> bytes l -> 0 <= foldl Z.lor a l < 256 /\ (foldl Z.lor a l = 0 <-> a = 0 /\ Forall (fun b => b = 0) l).
Proof.
  intros Ha Hl. revert a Ha. induction Hl as [|b l Hb Hl IH]; intros a Ha; cbn [foldl]; [by rewrite Forall_nil; intuition|].
  assert (H : is_u8 (Z.lor a b)) by (apply lor_word; words; lia).
  destruct (IH (Z.lor a b)) as [H1 H2]; [by words|]. split; [done|]. rewrite H2, Forall_cons, Z.lor_eq_0_iff. tauto.
Qed.
Lemma bytes_isnonzero_ok l : bytes l -> bytes_isnonzero l = Some (if le_val l =? 0 then 0 else 1).
Proof.
  intros Hl. unfold bytes_isnonzero. destruct (foldl_lor l 0) as [H1 H2]; [lia|done|].
  rewrite int_fits by lia. cbn [mbind option_bind]. rewrite Z.shiftr_div_pow2 by lia.
  assert (E : le_val l = 0 <-> foldl Z.lor 0 l = 0) by (rewrite H2, le_val_zero by done; tauto).
  destruct (Z.eqb_spec (le_val l) 0) as [El|El].
  - apply E in El. by rewrite El.
  - assert (foldl Z.lor 0 l <> 0) by (by rewrite <- E). rewrite Z.div_small by lia. done.
Qed.

Lemma fe_isnonzero_ok f : bounded 110729625 55364812 f -> fe_isnonzero f = Some (if fe_val f mod p =? 0 then 0 else 1).
Proof.
  intros Hf%fe_tobytes_ok. apply returns_Some in Hf as (s & E & ->). unfold fe_isnonzero. rewrite E. cbn [mbind option_bind].
  rewrite bytes_isnonzero_ok by apply le_bytes_bytes. rewrite le_val_le_bytes, (Z.mod_small (_ mod _)); [done|].
  pose proof (Z.mod_pos_bound (fe_val f) p). unfold p in *. lia.
Qed.
Lemma fe_isnegative_ok f : bounded 110729625 55364812 f -> fe_isnegative f = Some ((fe_val f mod p) mod 2).
Proof.
  intros Hf%fe_tobytes_ok. apply returns_Some in Hf as (s & E & ->). unfold fe_isnegative. rewrite E. cbn [mbind option_bind].
  cbn [le_bytes lookup list_lookup mbind option_bind]. f_equal. rewrite (Z.land_ones _ 1) by lia. change (2 ^ 1) with 2.
  apply Z.mod_mod_divide. by exists 128.
Qed.

(** *** Conditional moves *)

Lemma lxor_lxor a b : Z.lxor a (Z.lxor a b) = b.
Proof. by rewrite <- Z.lxor_assoc, Z.lxor_nilpotent, Z.lxor_0_l. Qed.
Lemma swrap_wrap w x : 0 < w -> swrap w (wrap w x) = swrap w x.
Proof. intros Hw. unfold swrap, wrap. by rewrite Zplus_mod_idemp_l. Qed.
Lemma lxor_i32 f g : - 2 ^ 31 <= f < 2 ^ 31 -> - 2 ^ 31 <= g < 2 ^ 31 -> - 2 ^ 31 <= Z.lxor f g < 2 ^ 31.
Proof.
  intros Hf Hg. assert (H : forall x, - 2 ^ 31 <= x < 2 ^ 31 <-> forall i, 31 <= i -> Z.testbit x i = Z.testbit x 31).
  { clear. intros x. split.
    - intros Hx i Hi. destruct (Z.le_gt_cases 0 x).
      + rewrite !(testbit_word_high 31 x); unfold word; lia || done.
      + assert (Hn : forall j, 31 <= j -> Z.testbit x j = true); [|by rewrite !Hn by lia]. intros j Hj.
        assert (E : Z.testbit (Z.lnot x) j = false) by (apply (testbit_word_high 31); unfold word, Z.lnot; lia).
        rewrite Z.lnot_spec in E by lia. by apply negb_false_iff in E.
    - intros Hb. destruct (Z.testbit x 31) eqn:E31.
      + assert (H : word 31 (Z.lnot x)); [|unfold word, Z.lnot in H; lia]. apply word_bits; [lia|]. intros i Hi. rewrite Z.lnot_spec, Hb by lia. done.
      + assert (H : word 31 x); [|unfold word in H; lia]. apply word_bits; [lia|]. intros i Hi. by rewrite Hb. }
  apply H. intros i Hi. rewrite !Z.lxor_spec, (proj1 (H f) Hf i), (proj1 (H g) Hg i) by done. done.
Qed.
Lemma cmov_limb_ok f g (b : bool) : - 2 ^ 31 <= f < 2 ^ 31 -> - 2 ^ 31 <= g < 2 ^ 31 -> cmov_limb (u32 (- Z.b2z b)) f g = if b then g else f.
Proof.
  intros Hf Hg. unfold cmov_limb. destruct b; cbn [Z.b2z].
  - change (u32 (Z.opp 1)) with (Z.ones 32). rewrite Z.land_ones by lia. change (?x mod 2 ^ 32) with (u32 x). rewrite (wrap_wrap 32) by lia.
    rewrite swrap_wrap, swrap_small by (lia || by apply lxor_i32). apply lxor_lxor.
  - change (u32 (Z.opp 0)) with 0. rewrite Z.land_0_r. change (i32 0) with 0. apply Z.lxor_0_r.
Qed.
Lemma fe_cmov_ok e o f g b : bounded e o f -> bounded e o g -> e < 2 ^ 31 -> o < 2 ^ 31 -> fe_cmov f g (Z.b2z b) = Some (if b then g else f).
Proof.
  destruct f as [f0 f1 f2 f3 f4 f5 f6 f7 f8 f9], g as [g0 g1 g2 g3 g4 g5 g6 g7 g8 g9].
  intros (F0 & F1 & F2 & F3 & F4 & F5 & F6 & F7 & F8 & F9) (G0 & G1 & G2 & G3 & G4 & G5 & G6 & G7 & G8 & G9) He Ho. unfold bnd in *. unfold fe_cmov.
  replace (cmov_assert (Z.b2z b)) with true by by destruct b. cbn [negb]. cbv zeta. rewrite !cmov_limb_ok by lia. by destruct b.
Qed.
(** ** The field *)

Abbreviation fp := (Zmod p).
Definition F (f : fe) : fp := Zmod.of_Z p (fe_val f).

Lemma F_congr h a c : fe_val h = a - p * c -> F h = Zmod.of_Z p a.
Proof. intros E. unfold F. apply Zmod.of_Z_inj. rewrite E. replace (a - p * c) with (a + (- c) * p) by lia. by apply Z.mod_add. Qed.

Lemma mul_F f g : wide f -> wide g -> returns (fe_mul f g) (fun h => tight h /\ F h = Zmod.mul (F f) (F g)).
Proof. intros Hf Hg. eapply returns_mono; [by apply fe_mul_ok|]. intros h [Hh [c Hc]]. split; [done|]. rewrite (F_congr _ _ _ Hc). apply Zmod.of_Z_mul. Qed.
Lemma sq_F f : wide f -> returns (fe_sq f) (fun h => tight h /\ F h = Zmod.mul (F f) (F f)).
Proof. intros Hf. eapply returns_mono; [by apply fe_sq_ok|]. intros h [Hh [c Hc]]. split; [done|]. rewrite (F_congr _ _ _ Hc). apply Zmod.of_Z_mul. Qed.
Lemma sq2_F f : wide f -> returns (fe_sq2 f) (fun h => tight h /\ F h = Zmod.add (Zmod.mul (F f) (F f)) (Zmod.mul (F f) (F f))).
Proof.
  intros Hf. eapply returns_mono; [by apply fe_sq2_ok|]. intros h [Hh [c Hc]]. split; [done|]. rewrite (F_congr _ _ _ Hc).
  replace (2 * (fe_val f * fe_val f)) with (fe_val f * fe_val f + fe_val f * fe_val f) by lia. by rewrite Zmod.of_Z_add, Zmod.of_Z_mul.
Qed.
Lemma add_F e o e' o' f g : bounded e o f -> bounded e' o' g -> (e + e' <? 2 ^ 31) && (o + o' <? 2 ^ 31) = true ->
  returns (fe_add f g) (fun h => bounded (e + e') (o + o') h /\ F h = Zmod.add (F f) (F g)).
Proof. intros. eapply returns_mono; [by apply fe_add_ok|]. intros h [Hh Hv]. split; [done|]. unfold F. rewrite Hv. apply Zmod.of_Z_add. Qed.
Lemma sub_F e o e' o' f g : bounded e o f -> bounded e' o' g -> (e + e' <? 2 ^ 31) && (o + o' <? 2 ^ 31) = true ->
  returns (fe_sub f g) (fun h => bounded (e + e') (o + o') h /\ F h = Zmod.sub (F f) (F g)).
Proof. intros. eapply returns_mono; [by apply fe_sub_ok|]. intros h [Hh Hv]. split; [done|]. unfold F. rewrite Hv. apply Zmod.of_Z_sub. Qed.
Lemma neg_F e o f : bounded e o f -> (e <? 2 ^ 31) && (o <? 2 ^ 31) = true ->
  returns (fe_neg f) (fun h => bounded e o h /\ F h = Zmod.opp (F f)).
Proof. intros. eapply returns_mono; [by apply fe_neg_ok|]. intros h [Hh Hv]. split; [done|]. unfold F. rewrite Hv. apply Zmod.of_Z_opp. Qed.

Lemma bounded_weaken e o e' o' f : bounded e o f -> (e <=? e') && (o <=? o') = true -> bounded e' o' f.
Proof.
  destruct f. intros (?&?&?&?&?&?&?&?&?&?) [? ?]%andb_prop. unfold bounded. split_and!; by eapply bnd_weaken.
Qed.
Ltac widen := eapply bounded_weaken; [eassumption|vm_compute; reflexivity].

(** *** Powers *)

Definition power (z : fp) (e : Z) (f : fe) : Prop := wide f /\ F f = Zmod.pow z e.
Definition tight_power (z : fp) (e : Z) (f : fe) : Prop := tight f /\ F f = Zmod.pow z e.

Lemma power_tight z e f : tight_power z e f -> power z e f.
Proof. intros [Hf Ef]. split; [widen|done]. Qed.
Lemma power_mul z a b f g : 0 <= a -> 0 <= b -> power z a f -> power z b g -> returns (fe_mul f g) (tight_power z (a + b)).
Proof.
  intros Ha Hb [Hf Ef] [Hg Eg]. eapply returns_mono; [by apply mul_F|]. intros h [Hh Eh]. split; [done|].
  by rewrite Eh, Ef, Eg, Zmod.pow_add_r_nonneg.
Qed.
Lemma power_sq z a f : 0 <= a -> power z a f -> returns (fe_sq f) (tight_power z (2 * a)).
Proof.
  intros Ha [Hf Ef]. eapply returns_mono; [by apply sq_F|]. intros h [Hh Eh]. split; [done|].
  rewrite Eh, Ef, <- Zmod.pow_add_r_nonneg by done. f_equal. lia.
Qed.
Lemma power_sqs z n a f : 0 <= a -> tight_power z a f -> returns (fe_sq_times n f) (tight_power z (2 ^ Z.of_nat n * a)).
Proof.
  revert a f. induction n as [|n IH]; intros a f Ha Hf; cbn [fe_sq_times].
  - cbn [returns]. by replace (2 ^ Z.of_nat 0 * a) with a by lia.
  - eapply returns_seq; [by apply power_sq, power_tight|]. cbn beta. intros g Hg. eapply returns_mono; [apply IH; [|done]; lia|].
    intros h Hh. replace (2 ^ Z.of_nat (S n) * a) with (2 ^ Z.of_nat n * (2 * a)); [done|]. rewrite Nat2Z.inj_succ, Z.pow_succ_r by lia. lia.
Qed.
Ltac power_of := match goal with H : power _ _ ?f |- power _ _ ?f => exact H | H : tight_power _ _ ?f |- power _ _ ?f => exact (power_tight _ _ _ H) end.
Ltac power_step :=
  first [ eapply returns_seq; [first [ eapply power_mul; [| |power_of|power_of]; lia
                                     | eapply power_sq; [|power_of]; lia | eapply power_sqs; [|eassumption]; lia ]|]
        | eapply returns_mono; [eapply power_mul; [| |power_of|power_of]; lia|] ];
  let f := fresh "f" in let H := fresh "H" in
  cbn beta; intros f H; match type of H with tight_power _ ?e _ => let v := eval vm_compute in e in change e with v in H end.

Lemma pow_1_r (z : fp) : Zmod.pow z 1 = z.
Proof. apply Zmod.pow_1_r. Qed.

Ltac power_done := match goal with H : tight_power _ _ ?f |- tight_power _ _ ?f => exact H end.

Lemma fe_invert_ok z : wide z -> returns (fe_invert z) (tight_power (F z) (p - 2)).
Proof.
  intros Hz. assert (H1 : power (F z) 1 z) by (split; [done|by rewrite pow_1_r]). unfold fe_invert.
  do 31 power_step. power_done.
Qed.

Lemma fe_divpowm1_ok u v : wide u -> wide v -> returns (fe_divpowm1 u v) (fun r => tight r /\
  F r = Zmod.mul (Zmod.mul (Zmod.pow (Zmod.mul (Zmod.pow (F v) 7) (F u)) ((p - 5) / 8)) (Zmod.pow (F v) 3)) (F u)).
Proof.
  intros Hu Hv. unfold fe_divpowm1.
  eapply returns_seq; [by apply sq_F|]. intros v2 [H2 E2]. eapply returns_seq; [apply mul_F; [widen|done]|]. intros v3 [H3 E3].
  eapply returns_seq; [apply sq_F; widen|]. intros v6 [H6 E6]. eapply returns_seq; [apply mul_F; [widen|done]|]. intros v7 [H7 E7].
  eapply returns_seq; [apply mul_F; [widen|done]|]. intros uv7 [Huv7 Euv7].
  assert (P3 : F v3 = Zmod.pow (F v) 3) by (rewrite E3, E2; change 3 with (Z.succ (Z.succ 1)); rewrite !Zmod.pow_succ_nonneg_r, pow_1_r by lia; apply Zmod.mul_comm).
  assert (P7 : F v7 = Zmod.pow (F v) 7) by (rewrite E7, E6, P3, <- Zmod.pow_add_r_nonneg, Zmod.mul_comm, <- Zmod.pow_succ_nonneg_r by lia; done).
  clear E2 H2 E6 H6 H7 E7. assert (H1 : tight_power (F uv7) 1 uv7) by (split; [done|by rewrite pow_1_r]).
  do 29 power_step. match goal with H : tight_power _ _ ?f |- returns (mbind _ (fe_mul ?f _)) _ => destruct H as [Hf Ef] end.
  eapply returns_seq; [apply mul_F; widen|]. intros t [Ht Et]. eapply returns_mono; [apply mul_F; [widen|done]|].
  intros r [Hr Er]. split; [done|]. rewrite Er, Et, P3, Ef, Euv7, P7. done.
Qed.

(** *** Loading *)

Lemma load_3_ok s b0 b1 b2 r : s = b0 :: b1 :: b2 :: r -> bytes [b0; b1; b2] -> load_3 s = Some (b0 + 256 * b1 + 65536 * b2).
Proof.
  rewrite !Forall_cons. intros -> (H0 & H1 & H2 & _). unfold load_3. cbn [lookup list_lookup mbind option_bind]. f_equal. words.
  rewrite (Z.shiftl_mul_pow2 b1), (Z.shiftl_mul_pow2 b2), !Z.mod_small by lia. rewrite (lor_low_high b0 b1 8) by lia. rewrite (lor_low_high _ b2 16) by lia. lia.
Qed.
Lemma load_4_ok s b0 b1 b2 b3 r : s = b0 :: b1 :: b2 :: b3 :: r -> bytes [b0; b1; b2; b3] -> load_4 s = Some (b0 + 256 * b1 + 65536 * b2 + 16777216 * b3).
Proof.
  rewrite !Forall_cons. intros -> (H0 & H1 & H2 & H3 & _). unfold load_4. cbn [lookup list_lookup mbind option_bind]. f_equal. words.
  rewrite (Z.shiftl_mul_pow2 b1), (Z.shiftl_mul_pow2 b2), (Z.shiftl_mul_pow2 b3), !Z.mod_small by lia.
  rewrite (lor_low_high b0 b1 8) by lia. rewrite (lor_low_high _ b2 16) by lia. rewrite (lor_low_high _ b3 24) by lia. lia.
Qed.
Lemma fe_reduce_ok h0 h1 h2 h3 h4 h5 h6 h7 h8 h9 : Forall (bnd (2 ^ 32)) [h0; h1; h2; h3; h4; h5; h6; h7; h8; h9] ->
  returns (fe_reduce h0 h1 h2 h3 h4 h5 h6 h7 h8 h9) (fun r => tight r /\ F r = F (Fe h0 h1 h2 h3 h4 h5 h6 h7 h8 h9)).
Proof.
  rewrite !Forall_cons. intros (H0 & H1 & H2 & H3 & H4 & H5 & H6 & H7 & H8 & H9 & _). unfold fe_reduce.
  apply carry9_seq; [unfold bnd in *; lia|unfold bnd in *; lia|]. intros c9 x9 y9 Ex9 Ey9 Hx9. cbn beta iota zeta.
  do 4 carry_step 25 (2 ^ 33) (2 ^ 33). do 5 carry_step 26 (2 ^ 34) (2 ^ 34). unfold returns.
  repeat (rewrite (i32_small _ 40000000); [|unfold bnd in *; lia|lia]).
  split; [unfold bounded, bnd in *; split_and!; lia|]. apply (F_congr _ _ c9). unfold fe_val, p. subst. ring.
Qed.

(** A list of 32 bytes *)
Ltac split32 s Hl := do 32 (destruct s as [|? s]; [discriminate Hl|]); destruct s; [|discriminate Hl]; clear Hl.
Lemma fe_load_ok top s : bytes s -> length s = 32%nat -> (forall x, 0 <= x < 2 ^ 24 -> 0 <= top x < 2 ^ 24) ->
  exists h0 h1 h2 h3 h4 h5 h6 h7 h8 h9, fe_load top s = Some (h0, h1, h2, h3, h4, h5, h6, h7, h8, h9) /\
    0 <= h0 < 2 ^ 32 /\ 0 <= h1 <= (2 ^ 24 - 1) * 2 ^ 6 /\ 0 <= h2 <= (2 ^ 24 - 1) * 2 ^ 5 /\ 0 <= h3 <= (2 ^ 24 - 1) * 2 ^ 3 /\ 0 <= h4 <= (2 ^ 24 - 1) * 2 ^ 2 /\
    0 <= h5 < 2 ^ 32 /\ 0 <= h6 <= (2 ^ 24 - 1) * 2 ^ 7 /\ 0 <= h7 <= (2 ^ 24 - 1) * 2 ^ 5 /\ 0 <= h8 <= (2 ^ 24 - 1) * 2 ^ 4 /\
    h9 = 4 * top (le_val (drop 29 s)) /\ fe_val (Fe h0 h1 h2 h3 h4 h5 h6 h7 h8 h9) = le_val (take 29 s) + 2 ^ 232 * top (le_val (drop 29 s)).
Proof.
  intros Hb Hl Ht. split32 s Hl.
  repeat match goal with H : bytes (_ :: _) |- _ => apply Forall_cons in H as [? H] end. unfold fe_load. cbn [drop take].
  erewrite load_4_ok by (reflexivity || (repeat (apply Forall_cons_2; [done|]); apply Forall_nil_2)). cbn [mbind option_bind].
  do 4 (erewrite load_3_ok by (reflexivity || (repeat (apply Forall_cons_2; [done|]); apply Forall_nil_2)); cbn [mbind option_bind]).
  erewrite load_4_ok by (reflexivity || (repeat (apply Forall_cons_2; [done|]); apply Forall_nil_2)). cbn [mbind option_bind].
  do 4 (erewrite load_3_ok by (reflexivity || (repeat (apply Forall_cons_2; [done|]); apply Forall_nil_2)); cbn [mbind option_bind]).
  cbn [le_val]. words. rewrite !Z.shiftl_mul_pow2 by lia.
  match goal with |- context [top (?a + 256 * ?b + 65536 * ?c)] =>
    replace (a + 256 * (b + 256 * (c + 256 * 0))) with (a + 256 * b + 65536 * c) by lia; pose proof (Ht (a + 256 * b + 65536 * c) ltac:(lia)) as Htop;
    set (t := top (a + 256 * b + 65536 * c)) in *; clearbody t end.
  rewrite !Z.mod_small by lia. do 10 eexists. split; [reflexivity|]. unfold fe_val. split_and!; lia.
Qed.

(** [C15] The products of the field neither overflow nor leave the bounds of their
    results, and they are products modulo [2^255 - 19]: for arguments with limbs up to
    [1.65 * 2^26] and [1.65 * 2^25] in turn, [fe_mul], [fe_sq] and [fe_sq2] return
    limbs up to [2^25] and [1.01 * 2^24], which represent [f g], [f f] and [2 f f]. *)
Theorem fe_products_correct f g : wide f -> wide g ->
  returns (fe_mul f g) (fun h => tight h /\ fe_val h mod p = (fe_val f * fe_val g) mod p) /\
  returns (fe_sq f) (fun h => tight h /\ fe_val h mod p = (fe_val f * fe_val f) mod p) /\
  returns (fe_sq2 f) (fun h => tight h /\ fe_val h mod p = (2 * (fe_val f * fe_val f)) mod p).
Proof.
  assert (Hm : forall a c, (a - p * c) mod p = a mod p) by (intros a c; replace (a - p * c) with (a + (- c) * p) by lia; by apply Z.mod_add).
  intros Hf Hg. split; [|split].
  - eapply returns_mono; [by apply fe_mul_ok|]. intros h [Hh [c Hc]]. split; [done|]. by rewrite Hc.
  - eapply returns_mono; [by apply fe_sq_ok|]. intros h [Hh [c Hc]]. split; [done|]. by rewrite Hc.
  - eapply returns_mono; [by apply fe_sq2_ok|]. intros h [Hh [c Hc]]. split; [done|]. by rewrite Hc.
Qed.
Definition sample_fe : fe := Fe (-110729625) 55364812 110729625 (-55364812) 110729625 55364812 (-110729625) 55364812 110729625 (-55364812).
Lemma fe_products_correct_witness : wide sample_fe /\ returns (fe_sq2 sample_fe) (fun h => tight h /\ fe_val h mod p = (2 * (fe_val sample_fe * fe_val sample_fe)) mod p).
Proof.
  assert (H : wide sample_fe) by (unfold sample_fe, bounded, bnd; lia). split; [exact H|].
  exact (proj2 (proj2 (fe_products_correct sample_fe sample_fe H H))).
Defined.


(** The shift of [h4] in [fe_tobytes] leaves the range of [int32_t]. *)
Example tobytes_shift_overflows :
  returns (fe_tobytes (Fe 0 0 0 0 (2 ^ 25) 0 0 0 0 0)) (fun s => le_val s = 2 ^ 127) /\ int32 (Z.shiftl (2 ^ 25) 6) = None.
Proof. vm_compute. split; reflexivity. Qed.

End CurveField.
