(* ===== verification/CurveScalar.v ===== *)
(** * The scalars of the curve

    The arithmetic of src/crypto/crypto-ops.c modulo the order [l] of the base point, on
    numbers of 32 bytes that are cut into limbs of 21 bits.  As in [CurveField.v],
    operations on [int64_t] that overflow have no result. *)
From S2P Require Import Prelude CurveField.
From Stdlib Require Import Ring.
Import CurveField.

Module CurveScalar.

(** ** The operations *)

Definition sc_load (s : list Z) : option (list Z) :=
  t ← load_3 s; let s0 := Z.land 2097151 (Z.shiftr t 0) in
  t ← load_4 (drop 2 s); let s1 := Z.land 2097151 (Z.shiftr t 5) in
  t ← load_3 (drop 5 s); let s2 := Z.land 2097151 (Z.shiftr t 2) in
  t ← load_4 (drop 7 s); let s3 := Z.land 2097151 (Z.shiftr t 7) in
  t ← load_4 (drop 10 s); let s4 := Z.land 2097151 (Z.shiftr t 4) in
  t ← load_3 (drop 13 s); let s5 := Z.land 2097151 (Z.shiftr t 1) in
  t ← load_4 (drop 15 s); let s6 := Z.land 2097151 (Z.shiftr t 6) in
  t ← load_3 (drop 18 s); let s7 := Z.land 2097151 (Z.shiftr t 3) in
  t ← load_3 (drop 21 s); let s8 := Z.land 2097151 (Z.shiftr t 0) in
  t ← load_4 (drop 23 s); let s9 := Z.land 2097151 (Z.shiftr t 5) in
  t ← load_3 (drop 26 s); let s10 := Z.land 2097151 (Z.shiftr t 2) in
  t ← load_4 (drop 28 s); let s11 := Z.shiftr t 7 in
  Some [s0; s1; s2; s3; s4; s5; s6; s7; s8; s9; s10; s11].

Definition sc_load64 (s : list Z) : option (list Z) :=
  t ← load_3 s; let s0 := Z.land 2097151 (Z.shiftr t 0) in
  t ← load_4 (drop 2 s); let s1 := Z.land 2097151 (Z.shiftr t 5) in
  t ← load_3 (drop 5 s); let s2 := Z.land 2097151 (Z.shiftr t 2) in
  t ← load_4 (drop 7 s); let s3 := Z.land 2097151 (Z.shiftr t 7) in
  t ← load_4 (drop 10 s); let s4 := Z.land 2097151 (Z.shiftr t 4) in
  t ← load_3 (drop 13 s); let s5 := Z.land 2097151 (Z.shiftr t 1) in
  t ← load_4 (drop 15 s); let s6 := Z.land 2097151 (Z.shiftr t 6) in
  t ← load_3 (drop 18 s); let s7 := Z.land 2097151 (Z.shiftr t 3) in
  t ← load_3 (drop 21 s); let s8 := Z.land 2097151 (Z.shiftr t 0) in
  t ← load_4 (drop 23 s); let s9 := Z.land 2097151 (Z.shiftr t 5) in
  t ← load_3 (drop 26 s); let s10 := Z.land 2097151 (Z.shiftr t 2) in
  t ← load_4 (drop 28 s); let s11 := Z.land 2097151 (Z.shiftr t 7) in
  t ← load_4 (drop 31 s); let s12 := Z.land 2097151 (Z.shiftr t 4) in
  t ← load_3 (drop 34 s); let s13 := Z.land 2097151 (Z.shiftr t 1) in
  t ← load_4 (drop 36 s); let s14 := Z.land 2097151 (Z.shiftr t 6) in
  t ← load_3 (drop 39 s); let s15 := Z.land 2097151 (Z.shiftr t 3) in
  t ← load_3 (drop 42 s); let s16 := Z.land 2097151 (Z.shiftr t 0) in
  t ← load_4 (drop 44 s); let s17 := Z.land 2097151 (Z.shiftr t 5) in
  t ← load_3 (drop 47 s); let s18 := Z.land 2097151 (Z.shiftr t 2) in
  t ← load_4 (drop 49 s); let s19 := Z.land 2097151 (Z.shiftr t 7) in
  t ← load_4 (drop 52 s); let s20 := Z.land 2097151 (Z.shiftr t 4) in
  t ← load_3 (drop 55 s); let s21 := Z.land 2097151 (Z.shiftr t 1) in
  t ← load_4 (drop 57 s); let s22 := Z.land 2097151 (Z.shiftr t 6) in
  t ← load_4 (drop 60 s); let s23 := Z.shiftr t 3 in
  Some [s0; s1; s2; s3; s4; s5; s6; s7; s8; s9; s10; s11; s12; s13; s14; s15; s16; s17; s18; s19; s20; s21; s22; s23].

(** [s0 += s12 * 666643; s1 += s12 * 470296; s2 += s12 * 654183; s3 -= s12 * 997805;
    s4 += s12 * 136657; s5 -= s12 * 683901;] *)
Definition sc_fold (s a b c d e f : Z) : option (Z * Z * Z * Z * Z * Z) :=
  t ← int64 (s * 666643); a ← int64 (a + t);
  t ← int64 (s * 470296); b ← int64 (b + t);
  t ← int64 (s * 654183); c ← int64 (c + t);
  t ← int64 (s * 997805); d ← int64 (d - t);
  t ← int64 (s * 136657); e ← int64 (e + t);
  t ← int64 (s * 683901); f ← int64 (f - t);
  Some (a, b, c, d, e, f).
Definition sc_store (s0 s1 s2 s3 s4 s5 s6 s7 s8 s9 s10 s11 : Z) : list Z :=
  [ u8 (Z.shiftr s0 0);
    u8 (Z.shiftr s0 8);
    u8 (Z.lor (Z.shiftr s0 16) (i64 (Z.shiftl s1 5)));
    u8 (Z.shiftr s1 3);
    u8 (Z.shiftr s1 11);
    u8 (Z.lor (Z.shiftr s1 19) (i64 (Z.shiftl s2 2)));
    u8 (Z.shiftr s2 6);
    u8 (Z.lor (Z.shiftr s2 14) (i64 (Z.shiftl s3 7)));
    u8 (Z.shiftr s3 1);
    u8 (Z.shiftr s3 9);
    u8 (Z.lor (Z.shiftr s3 17) (i64 (Z.shiftl s4 4)));
    u8 (Z.shiftr s4 4);
    u8 (Z.shiftr s4 12);
    u8 (Z.lor (Z.shiftr s4 20) (i64 (Z.shiftl s5 1)));
    u8 (Z.shiftr s5 7);
    u8 (Z.lor (Z.shiftr s5 15) (i64 (Z.shiftl s6 6)));
    u8 (Z.shiftr s6 2);
    u8 (Z.shiftr s6 10);
    u8 (Z.lor (Z.shiftr s6 18) (i64 (Z.shiftl s7 3)));
    u8 (Z.shiftr s7 5);
    u8 (Z.shiftr s7 13);
    u8 (Z.shiftr s8 0);
    u8 (Z.shiftr s8 8);
    u8 (Z.lor (Z.shiftr s8 16) (i64 (Z.shiftl s9 5)));
    u8 (Z.shiftr s9 3);
    u8 (Z.shiftr s9 11);
    u8 (Z.lor (Z.shiftr s9 19) (i64 (Z.shiftl s10 2)));
    u8 (Z.shiftr s10 6);
    u8 (Z.lor (Z.shiftr s10 14) (i64 (Z.shiftl s11 7)));
    u8 (Z.shiftr s11 1);
    u8 (Z.shiftr s11 9);
    u8 (Z.shiftr s11 17) ].

(** The second half of all the operations: from twelve limbs to the bytes. *)
Definition sc_tail (s0 s1 s2 s3 s4 s5 s6 s7 s8 s9 s10 s11 : Z) : option (list Z) :=
  let s12 := 0 in
  '(s0, s1) ← carry 21 s0 s1; '(s2, s3) ← carry 21 s2 s3; '(s4, s5) ← carry 21 s4 s5; '(s6, s7) ← carry 21 s6 s7;
  '(s8, s9) ← carry 21 s8 s9; '(s10, s11) ← carry 21 s10 s11; '(s1, s2) ← carry 21 s1 s2; '(s3, s4) ← carry 21 s3 s4;
  '(s5, s6) ← carry 21 s5 s6; '(s7, s8) ← carry 21 s7 s8; '(s9, s10) ← carry 21 s9 s10; '(s11, s12) ← carry 21 s11 s12;
  '(s0, s1, s2, s3, s4, s5) ← sc_fold s12 s0 s1 s2 s3 s4 s5;
  let s12 := 0 in
  '(s0, s1) ← carry_floor 64 21 s0 s1; '(s1, s2) ← carry_floor 64 21 s1 s2; '(s2, s3) ← carry_floor 64 21 s2 s3;
  '(s3, s4) ← carry_floor 64 21 s3 s4; '(s4, s5) ← carry_floor 64 21 s4 s5; '(s5, s6) ← carry_floor 64 21 s5 s6;
  '(s6, s7) ← carry_floor 64 21 s6 s7; '(s7, s8) ← carry_floor 64 21 s7 s8; '(s8, s9) ← carry_floor 64 21 s8 s9;
  '(s9, s10) ← carry_floor 64 21 s9 s10; '(s10, s11) ← carry_floor 64 21 s10 s11; '(s11, s12) ← carry_floor 64 21 s11 s12;
  '(s0, s1, s2, s3, s4, s5) ← sc_fold s12 s0 s1 s2 s3 s4 s5;
  '(s0, s1) ← carry_floor 64 21 s0 s1; '(s1, s2) ← carry_floor 64 21 s1 s2; '(s2, s3) ← carry_floor 64 21 s2 s3;
  '(s3, s4) ← carry_floor 64 21 s3 s4; '(s4, s5) ← carry_floor 64 21 s4 s5; '(s5, s6) ← carry_floor 64 21 s5 s6;
  '(s6, s7) ← carry_floor 64 21 s6 s7; '(s7, s8) ← carry_floor 64 21 s7 s8; '(s8, s9) ← carry_floor 64 21 s8 s9;
  '(s9, s10) ← carry_floor 64 21 s9 s10; '(s10, s11) ← carry_floor 64 21 s10 s11;
  Some (sc_store s0 s1 s2 s3 s4 s5 s6 s7 s8 s9 s10 s11).
(** The first half of [sc_reduce] and [sc_mulsub]: from twenty-four limbs to twelve. *)
Definition sc_head (s : list Z) : option (list Z) :=
  match s with
  | [s0; s1; s2; s3; s4; s5; s6; s7; s8; s9; s10; s11; s12; s13; s14; s15; s16; s17; s18; s19; s20; s21; s22; s23] =>
      '(s11, s12, s13, s14, s15, s16) ← sc_fold s23 s11 s12 s13 s14 s15 s16;
      '(s10, s11, s12, s13, s14, s15) ← sc_fold s22 s10 s11 s12 s13 s14 s15;
      '(s9, s10, s11, s12, s13, s14) ← sc_fold s21 s9 s10 s11 s12 s13 s14;
      '(s8, s9, s10, s11, s12, s13) ← sc_fold s20 s8 s9 s10 s11 s12 s13;
      '(s7, s8, s9, s10, s11, s12) ← sc_fold s19 s7 s8 s9 s10 s11 s12;
      '(s6, s7, s8, s9, s10, s11) ← sc_fold s18 s6 s7 s8 s9 s10 s11;
      '(s6, s7) ← carry 21 s6 s7; '(s8, s9) ← carry 21 s8 s9; '(s10, s11) ← carry 21 s10 s11; '(s12, s13) ← carry 21 s12 s13;
      '(s14, s15) ← carry 21 s14 s15; '(s16, s17) ← carry 21 s16 s17; '(s7, s8) ← carry 21 s7 s8; '(s9, s10) ← carry 21 s9 s10;
      '(s11, s12) ← carry 21 s11 s12; '(s13, s14) ← carry 21 s13 s14; '(s15, s16) ← carry 21 s15 s16;
      '(s5, s6, s7, s8, s9, s10) ← sc_fold s17 s5 s6 s7 s8 s9 s10;
      '(s4, s5, s6, s7, s8, s9) ← sc_fold s16 s4 s5 s6 s7 s8 s9;
      '(s3, s4, s5, s6, s7, s8) ← sc_fold s15 s3 s4 s5 s6 s7 s8;
      '(s2, s3, s4, s5, s6, s7) ← sc_fold s14 s2 s3 s4 s5 s6 s7;
      '(s1, s2, s3, s4, s5, s6) ← sc_fold s13 s1 s2 s3 s4 s5 s6;
      '(s0, s1, s2, s3, s4, s5) ← sc_fold s12 s0 s1 s2 s3 s4 s5;
      let s12 := 0 in
      sc_tail s0 s1 s2 s3 s4 s5 s6 s7 s8 s9 s10 s11
  | _ => None
  end.

(** [x0*y0 + x1*y1 + ...] *)
Definition dot64 (l : list (Z * Z)) : option Z := ts ← mapM (fun '(x, y) => int64 (x * y)) l; sum64 ts.
Definition sc_products (a b c : list Z) : option (list Z) :=
  match a, b, c with
  | [a0; a1; a2; a3; a4; a5; a6; a7; a8; a9; a10; a11], [b0; b1; b2; b3; b4; b5; b6; b7; b8; b9; b10; b11], [c0; c1; c2; c3; c4; c5; c6; c7; c8; c9; c10; c11] =>
      t ← dot64 [(a0, b0)]; s0 ← int64 (c0 - t);
      t ← dot64 [(a0, b1); (a1, b0)]; s1 ← int64 (c1 - t);
      t ← dot64 [(a0, b2); (a1, b1); (a2, b0)]; s2 ← int64 (c2 - t);
      t ← dot64 [(a0, b3); (a1, b2); (a2, b1); (a3, b0)]; s3 ← int64 (c3 - t);
      t ← dot64 [(a0, b4); (a1, b3); (a2, b2); (a3, b1); (a4, b0)]; s4 ← int64 (c4 - t);
      t ← dot64 [(a0, b5); (a1, b4); (a2, b3); (a3, b2); (a4, b1); (a5, b0)]; s5 ← int64 (c5 - t);
      t ← dot64 [(a0, b6); (a1, b5); (a2, b4); (a3, b3); (a4, b2); (a5, b1); (a6, b0)]; s6 ← int64 (c6 - t);
      t ← dot64 [(a0, b7); (a1, b6); (a2, b5); (a3, b4); (a4, b3); (a5, b2); (a6, b1); (a7, b0)]; s7 ← int64 (c7 - t);
      t ← dot64 [(a0, b8); (a1, b7); (a2, b6); (a3, b5); (a4, b4); (a5, b3); (a6, b2); (a7, b1); (a8, b0)]; s8 ← int64 (c8 - t);
      t ← dot64 [(a0, b9); (a1, b8); (a2, b7); (a3, b6); (a4, b5); (a5, b4); (a6, b3); (a7, b2); (a8, b1); (a9, b0)]; s9 ← int64 (c9 - t);
      t ← dot64 [(a0, b10); (a1, b9); (a2, b8); (a3, b7); (a4, b6); (a5, b5); (a6, b4); (a7, b3); (a8, b2); (a9, b1); (a10, b0)]; s10 ← int64 (c10 - t);
      t ← dot64 [(a0, b11); (a1, b10); (a2, b9); (a3, b8); (a4, b7); (a5, b6); (a6, b5); (a7, b4); (a8, b3); (a9, b2); (a10, b1); (a11, b0)]; s11 ← int64 (c11 - t);
      t ← dot64 [(a1, b11); (a2, b10); (a3, b9); (a4, b8); (a5, b7); (a6, b6); (a7, b5); (a8, b4); (a9, b3); (a10, b2); (a11, b1)]; s12 ← int64 (- t);
      t ← dot64 [(a2, b11); (a3, b10); (a4, b9); (a5, b8); (a6, b7); (a7, b6); (a8, b5); (a9, b4); (a10, b3); (a11, b2)]; s13 ← int64 (- t);
      t ← dot64 [(a3, b11); (a4, b10); (a5, b9); (a6, b8); (a7, b7); (a8, b6); (a9, b5); (a10, b4); (a11, b3)]; s14 ← int64 (- t);
      t ← dot64 [(a4, b11); (a5, b10); (a6, b9); (a7, b8); (a8, b7); (a9, b6); (a10, b5); (a11, b4)]; s15 ← int64 (- t);
      t ← dot64 [(a5, b11); (a6, b10); (a7, b9); (a8, b8); (a9, b7); (a10, b6); (a11, b5)]; s16 ← int64 (- t);
      t ← dot64 [(a6, b11); (a7, b10); (a8, b9); (a9, b8); (a10, b7); (a11, b6)]; s17 ← int64 (- t);
      t ← dot64 [(a7, b11); (a8, b10); (a9, b9); (a10, b8); (a11, b7)]; s18 ← int64 (- t);
      t ← dot64 [(a8, b11); (a9, b10); (a10, b9); (a11, b8)]; s19 ← int64 (- t);
      t ← dot64 [(a9, b11); (a10, b10); (a11, b9)]; s20 ← int64 (- t);
      t ← dot64 [(a10, b11); (a11, b10)]; s21 ← int64 (- t);
      t ← int64 (- a11); s22 ← int64 (t * b11);
      let s23 := 0 in
      Some [s0; s1; s2; s3; s4; s5; s6; s7; s8; s9; s10; s11; s12; s13; s14; s15; s16; s17; s18; s19; s20; s21; s22; s23]
  | _, _, _ => None
  end.
Definition sc_carries (s : list Z) : option (list Z) :=
  match s with
  | [s0; s1; s2; s3; s4; s5; s6; s7; s8; s9; s10; s11; s12; s13; s14; s15; s16; s17; s18; s19; s20; s21; s22; s23] =>
      '(s0, s1) ← carry 21 s0 s1; '(s2, s3) ← carry 21 s2 s3; '(s4, s5) ← carry 21 s4 s5; '(s6, s7) ← carry 21 s6 s7;
      '(s8, s9) ← carry 21 s8 s9; '(s10, s11) ← carry 21 s10 s11; '(s12, s13) ← carry 21 s12 s13; '(s14, s15) ← carry 21 s14 s15;
      '(s16, s17) ← carry 21 s16 s17; '(s18, s19) ← carry 21 s18 s19; '(s20, s21) ← carry 21 s20 s21; '(s22, s23) ← carry 21 s22 s23;
      '(s1, s2) ← carry 21 s1 s2; '(s3, s4) ← carry 21 s3 s4; '(s5, s6) ← carry 21 s5 s6; '(s7, s8) ← carry 21 s7 s8;
      '(s9, s10) ← carry 21 s9 s10; '(s11, s12) ← carry 21 s11 s12; '(s13, s14) ← carry 21 s13 s14; '(s15, s16) ← carry 21 s15 s16;
      '(s17, s18) ← carry 21 s17 s18; '(s19, s20) ← carry 21 s19 s20; '(s21, s22) ← carry 21 s21 s22;
      Some [s0; s1; s2; s3; s4; s5; s6; s7; s8; s9; s10; s11; s12; s13; s14; s15; s16; s17; s18; s19; s20; s21; s22; s23]
  | _ => None
  end.

Definition sc_0 : list Z := replicate 32 0.
Definition sc_tail_list (s : list Z) : option (list Z) :=
  match s with
  | [s0; s1; s2; s3; s4; s5; s6; s7; s8; s9; s10; s11] => sc_tail s0 s1 s2 s3 s4 s5 s6 s7 s8 s9 s10 s11
  | _ => None
  end.
Definition sc_reduce (s : list Z) : option (list Z) := s ← sc_load64 s; sc_head s.
Definition sc_reduce32 (s : list Z) : option (list Z) := s ← sc_load s; sc_tail_list s.
Definition sc_add (a b : list Z) : option (list Z) :=
  a ← sc_load a; b ← sc_load b;
  s ← mapM (fun '(x, y) => int64 (x + y)) (zip a b); sc_tail_list s.
Definition sc_sub (a b : list Z) : option (list Z) :=
  a ← sc_load a; b ← sc_load b;
  s ← mapM (fun '(x, y) => int64 (x - y)) (zip a b); sc_tail_list s.
Definition sc_mulsub (a b c : list Z) : option (list Z) :=
  a ← sc_load a; b ← sc_load b; c ← sc_load c;
  s ← sc_products a b c; s ← sc_carries s; sc_head s.

Definition signum (a : Z) : option Z := n ← int64 (- a); int64 (Z.shiftr a 63 - Z.shiftr n 63).
Definition sc_check (s : list Z) : option Z :=
  s0 ← load_4 s; s1 ← load_4 (drop 4 s); s2 ← load_4 (drop 8 s); s3 ← load_4 (drop 12 s);
  s4 ← load_4 (drop 16 s); s5 ← load_4 (drop 20 s); s6 ← load_4 (drop 24 s); s7 ← load_4 (drop 28 s);
  g0 ← signum (1559614444 - s0); g1 ← signum (1477600026 - s1); g2 ← signum (2734136534 - s2); g3 ← signum (350157278 - s3);
  g4 ← signum (- s4); g5 ← signum (- s5); g6 ← signum (- s6); g7 ← signum (268435456 - s7);
  t ← sum64 [g0; i64 (Z.shiftl g1 1); i64 (Z.shiftl g2 2); i64 (Z.shiftl g3 3); i64 (Z.shiftl g4 4); i64 (Z.shiftl g5 5); i64 (Z.shiftl g6 6); i64 (Z.shiftl g7 7)];
  Some (i32 (Z.shiftr t 8)).
Definition sc_isnonzero (s : list Z) : option Z := bytes_isnonzero s.

(** ** What the operations mean *)

Definition l : Z := 2 ^ 252 + 27742317777372353535851937790883648493.
Definition val21 (s : list Z) : Z := foldr (fun x v => x + 2 ^ 21 * v) 0 s.

Lemma fold_seq {A} m b s a0 a1 a2 a3 a4 a5 (k : Z * Z * Z * Z * Z * Z -> option A) Q :
  bnd m s -> bnd b a0 -> bnd b a1 -> bnd b a2 -> bnd b a3 -> bnd b a4 -> bnd b a5 -> 997805 * m + b < 2 ^ 63 ->
  (forall b0 b1 b2 b3 b4 b5, b0 = a0 + 666643 * s -> b1 = a1 + 470296 * s -> b2 = a2 + 654183 * s -> b3 = a3 - 997805 * s ->
     b4 = a4 + 136657 * s -> b5 = a5 - 683901 * s -> returns (k (b0, b1, b2, b3, b4, b5)) Q) ->
  returns (r ← sc_fold s a0 a1 a2 a3 a4 a5; k r) Q.
Proof.
  intros Hs H0 H1 H2 H3 H4 H5 Hb Hk. unfold bnd in *. unfold sc_fold.
  do 12 (rewrite int_fits by lia; cbn [mbind option_bind]). apply Hk; lia.
Qed.
Ltac fold_step m b :=
  apply (fold_seq m b); [unfold bnd in *; lia..|];
  let x0 := fresh "x" in let x1 := fresh "x" in let x2 := fresh "x" in let x3 := fresh "x" in let x4 := fresh "x" in let x5 := fresh "x" in
  let e0 := fresh "Ex" in let e1 := fresh "Ex" in let e2 := fresh "Ex" in let e3 := fresh "Ex" in let e4 := fresh "Ex" in let e5 := fresh "Ex" in
  intros x0 x1 x2 x3 x4 x5 e0 e1 e2 e3 e4 e5; cbn beta iota zeta.

Lemma sc_store_ok s0 s1 s2 s3 s4 s5 s6 s7 s8 s9 s10 s11 :
  Forall (fun x => 0 <= x < 2 ^ 21) [s0; s1; s2; s3; s4; s5; s6; s7; s8; s9; s10] -> 0 <= s11 < 2 ^ 22 ->
  sc_store s0 s1 s2 s3 s4 s5 s6 s7 s8 s9 s10 s11 = le_bytes 32 (val21 [s0; s1; s2; s3; s4; s5; s6; s7; s8; s9; s10; s11]).
Proof.
  rewrite !Forall_cons. intros (H0 & H1 & H2 & H3 & H4 & H5 & H6 & H7 & H8 & H9 & H10 & _) H11.
  apply bytes_of_value; [unfold sc_store; repeat (apply Forall_cons_2; [apply wrap_u8|]); apply Forall_nil_2|done|].
  unfold sc_store. split_bytes. cbn [le_val]. unfold val21. cbn [foldr]. linear_bytes.
  rewrite (Z.div_small s7 (2 ^ 21)), (Z.div_small s11 (2 ^ 25)) by lia.
  rewrite ?Z.pow_0_r, ?Z.div_1_r. lia.
Qed.
Ltac floor_step b b' := carry_floor_step 64 21 b b'.

Lemma l_val : l = 2 ^ 252 + (- (666643 + 2 ^ 21 * 470296 + 2 ^ 42 * 654183 - 2 ^ 63 * 997805 + 2 ^ 84 * 136657 - 2 ^ 105 * 683901)).
Proof. done. Qed.

(** The second half of the operations reduces modulo [l], completely. *)
Lemma sc_tail_ok s0 s1 s2 s3 s4 s5 s6 s7 s8 s9 s10 s11 : Forall (bnd (2 ^ 60)) [s0; s1; s2; s3; s4; s5; s6; s7; s8; s9; s10; s11] ->
  returns (sc_tail s0 s1 s2 s3 s4 s5 s6 s7 s8 s9 s10 s11) (fun r => r = le_bytes 32 (val21 [s0; s1; s2; s3; s4; s5; s6; s7; s8; s9; s10; s11] mod l)).
Proof.
  rewrite !Forall_cons. intros (H0 & H1 & H2 & H3 & H4 & H5 & H6 & H7 & H8 & H9 & H10 & H11 & _). unfold sc_tail. cbv zeta.
  do 6 carry_step 21 (2 ^ 60) (2 ^ 60). do 6 carry_step 21 (2 ^ 61) (2 ^ 60).
  fold_step (2 ^ 41) (2 ^ 42).
  assert (HV : exists c, val21 [x11; x12; x13; x14; x15; x16; y7; x8; y8; x9; y9; x10] = val21 [s0; s1; s2; s3; s4; s5; s6; s7; s8; s9; s10; s11] - l * c)
    by (exists y10; unfold val21, l; cbn [foldr]; subst; ring).
  assert (HR : - 2 ^ 252 <= val21 [x11; x12; x13; x14; x15; x16; y7; x8; y8; x9; y9; x10] < 2 ^ 252) by (unfold val21; cbn [foldr]; unfold bnd in *; lia).
  assert (HB : Forall (bnd (2 ^ 61)) [x11; x12; x13; x14; x15; x16; y7; x8; y8; x9; y9; x10]) by (repeat (apply Forall_cons_2; [unfold bnd in *; lia|]); apply Forall_nil_2).
  revert HV HR HB. set (V := val21 [s0; s1; s2; s3; s4; s5; s6; s7; s8; s9; s10; s11]). clearbody V. clear. intros [c HV] HR HB.
  rewrite !Forall_cons in HB. destruct HB as (H0 & H1 & H2 & H3 & H4 & H5 & H6 & H7 & H8 & H9 & H10 & H11 & _).
  do 12 floor_step (2 ^ 62) (2 ^ 61).
  set (R := val21 [x; x0; x1; x2; x3; x4; x5; x6; x7; x17; x18; x19]).
  assert (HV2 : R + 2 ^ 252 * y13 = V - l * c) by (rewrite <- HV; unfold R, val21; cbn [foldr]; subst; ring).
  assert (HR2 : 0 <= R < 2 ^ 252) by (unfold R, val21; cbn [foldr]; lia).
  assert (Hy : y13 = 0 \/ y13 = -1) by lia.
  assert (HB : Forall (bnd (2 ^ 21)) [x; x0; x1; x2; x3; x4; x5; x6; x7; x17; x18; x19]) by (repeat (apply Forall_cons_2; [unfold bnd; lia|]); apply Forall_nil_2).
  assert (ER : R = val21 [x; x0; x1; x2; x3; x4; x5; x6; x7; x17; x18; x19]) by done. clearbody R. revert HV2 HR2 Hy HB ER. clear. intros HV2 HR2 Hy HB ER.
  rewrite !Forall_cons in HB. destruct HB as (H0 & H1 & H2 & H3 & H4 & H5 & H6 & H7 & H8 & H9 & H10 & H11 & _).
  fold_step 1 (2 ^ 21). do 11 floor_step (2 ^ 23) (2 ^ 23).
  cbn [returns].
  match goal with |- sc_store ?a0 ?a1 ?a2 ?a3 ?a4 ?a5 ?a6 ?a7 ?a8 ?a9 ?a10 ?a11 = _ =>
    set (W := val21 [a0; a1; a2; a3; a4; a5; a6; a7; a8; a9; a10; a11]);
    assert (HW : W = R + (2 ^ 252 - l) * y13) by (unfold W; rewrite ER; unfold val21, l; cbn [foldr]; subst; ring);
    assert (Hr : 0 <= W < l) by (rewrite HW; unfold l; destruct Hy as [-> | ->]; lia);
    assert (H11' : 0 <= a11 < 2 ^ 22) by (unfold W, val21, l in Hr; cbn [foldr] in Hr; lia)
  end.
  rewrite sc_store_ok by (done || (repeat (apply Forall_cons_2; [done|]); apply Forall_nil_2)). f_equal. fold W.
  apply (Z.mod_unique_pos _ _ (c + y13)); lia.
Qed.

Ltac forall_bnd := repeat (apply Forall_cons_2; [unfold bnd in *; lia|]); apply Forall_nil_2.

Lemma sc_tail_congr s0 s1 s2 s3 s4 s5 s6 s7 s8 s9 s10 s11 v c : Forall (bnd (2 ^ 60)) [s0; s1; s2; s3; s4; s5; s6; s7; s8; s9; s10; s11] ->
  val21 [s0; s1; s2; s3; s4; s5; s6; s7; s8; s9; s10; s11] = v - l * c ->
  returns (sc_tail s0 s1 s2 s3 s4 s5 s6 s7 s8 s9 s10 s11) (fun r => r = le_bytes 32 (v mod l)).
Proof.
  intros Hb E. eapply returns_mono; [by apply sc_tail_ok|]. cbn beta. intros r ->. f_equal. rewrite E.
  replace (v - l * c) with (v + (- c) * l) by lia. by apply Z.mod_add.
Qed.

(** Names the limb that the next step folds. *)
Ltac operand k := match goal with |- returns (mbind _ (sc_fold ?s _ _ _ _ _ _)) _ => pose (k := s) end.

Lemma sc_head_ok s : length s = 24%nat -> Forall (bnd (2 ^ 34)) s -> returns (sc_head s) (fun r => r = le_bytes 32 (val21 s mod l)).
Proof.
  intros Hl Hb. do 24 (destruct s as [|? s]; [discriminate Hl|]). destruct s; [|discriminate Hl]. clear Hl.
  rewrite !Forall_cons in Hb. repeat match goal with H : bnd _ _ /\ _ |- _ => destruct H as [? H] end. clear Hb. unfold sc_head.
  fold_step (2 ^ 34) (2 ^ 34). fold_step (2 ^ 34) (2 ^ 54). fold_step (2 ^ 34) (2 ^ 55). fold_step (2 ^ 34) (2 ^ 56).
  fold_step (2 ^ 34) (2 ^ 56). fold_step (2 ^ 34) (2 ^ 57).
  do 6 carry_step 21 (2 ^ 58) (2 ^ 58). do 5 carry_step 21 (2 ^ 58) (2 ^ 58).
  operand k17. fold_step (2 ^ 37) (2 ^ 60). operand k16. fold_step (2 ^ 37) (2 ^ 60). operand k15. fold_step (2 ^ 37) (2 ^ 60).
  operand k14. fold_step (2 ^ 37) (2 ^ 60). operand k13. fold_step (2 ^ 37) (2 ^ 60). operand k12. fold_step (2 ^ 37) (2 ^ 60).
  apply (sc_tail_congr _ _ _ _ _ _ _ _ _ _ _ _ _ (val21 [k12; k13; k14; k15; k16; k17; z17; z18; z19; z20; z21; z22])); [forall_bnd|].
  unfold val21, l, k12, k13, k14, k15, k16, k17. cbn [foldr]. subst. ring.
Qed.

(** *** Loading *)

Lemma bytes_drop n s : bytes s -> bytes (drop n s).
Proof. apply Forall_drop. Qed.
Lemma le_val_drop n s : bytes s -> (n <= length s)%nat -> le_val (drop n s) = le_val s / 256 ^ Z.of_nat n.
Proof.
  intros Hb Hn. rewrite <- (take_drop n s) at 2. rewrite le_val_app, length_take_le by lia.
  pose proof (le_val_bound (take n s) (Forall_take _ _ _ Hb)) as Ht. rewrite length_take_le in Ht by lia.
  rewrite Z.mul_comm, Z.div_add, Z.div_small by lia. done.
Qed.
Lemma le_val_take n s : bytes s -> (n <= length s)%nat -> le_val (take n s) = le_val s mod 256 ^ Z.of_nat n.
Proof.
  intros Hb Hn. rewrite <- (take_drop n s) at 2. rewrite le_val_app, length_take_le by lia.
  pose proof (le_val_bound (take n s) (Forall_take _ _ _ Hb)) as Ht. rewrite length_take_le in Ht by lia.
  rewrite Z.mul_comm, Z.mod_add, Z.mod_small by lia. done.
Qed.
Lemma load_3_val s : bytes s -> (3 <= length s)%nat -> load_3 s = Some (le_val s mod 2 ^ 24).
Proof.
  intros Hb Hl. replace (le_val s mod 2 ^ 24) with (le_val (take 3 s)) by (by rewrite le_val_take).
  destruct s as [|b0 [|b1 [|b2 s]]]; cbn in Hl; try lia. rewrite !Forall_cons in Hb. destruct Hb as (H0 & H1 & H2 & _).
  erewrite load_3_ok; [|done|repeat (apply Forall_cons_2; [done|]); apply Forall_nil_2]. f_equal. cbn [take le_val]. rewrite take_0. cbn [le_val]. lia.
Qed.
Lemma load_4_val s : bytes s -> (4 <= length s)%nat -> load_4 s = Some (le_val s mod 2 ^ 32).
Proof.
  intros Hb Hl. replace (le_val s mod 2 ^ 32) with (le_val (take 4 s)) by (by rewrite le_val_take).
  destruct s as [|b0 [|b1 [|b2 [|b3 s]]]]; cbn in Hl; try lia. rewrite !Forall_cons in Hb. destruct Hb as (H0 & H1 & H2 & H3 & _).
  erewrite load_4_ok; [|done|repeat (apply Forall_cons_2; [done|]); apply Forall_nil_2]. f_equal. cbn [take le_val]. rewrite take_0. cbn [le_val]. lia.
Qed.
(** The limb that starts at bit [8 n + r] *)
Lemma limb_val v n k r : 0 <= n -> 0 <= r -> r + 21 <= k -> Z.land 2097151 (Z.shiftr ((v / 256 ^ n) mod 2 ^ k) r) = (v / 2 ^ (8 * n + r)) mod 2 ^ 21.
Proof.
  intros Hn Hr Hk. rewrite Z.land_comm. change 2097151 with (Z.ones 21). rewrite Z.land_ones by lia.
  apply Z.bits_inj'. intros i Hi. destruct (Z.lt_ge_cases i 21); [|by rewrite !Z.mod_pow2_bits_high by lia].
  rewrite !Z.mod_pow2_bits_low by lia. rewrite Z.shiftr_spec, Z.mod_pow2_bits_low by lia.
  replace (256 ^ n) with (2 ^ (8 * n)) by (rewrite Z.pow_mul_r by lia; done).
  rewrite !Z.div_pow2_bits by lia. f_equal. lia.
Qed.
Lemma limb_top v n k r : 0 <= n -> 0 <= r <= k -> 0 <= v < 2 ^ (8 * n + k) -> Z.shiftr ((v / 256 ^ n) mod 2 ^ k) r = v / 2 ^ (8 * n + r).
Proof.
  intros Hn Hr Hv. replace (256 ^ n) with (2 ^ (8 * n)) by (rewrite Z.pow_mul_r by lia; done).
  rewrite Z.mod_small. - rewrite Z.shiftr_div_pow2, Z.div_div, <- Z.pow_add_r by lia. done.
  - split; [apply Z.div_pos; lia|]. apply Z.div_lt_upper_bound; [lia|]. rewrite <- Z.pow_add_r by lia. lia.
Qed.
Lemma limb_at v a : 0 <= a -> (v / 2 ^ a) mod 2 ^ 21 = v / 2 ^ a - 2 ^ 21 * (v / 2 ^ (21 + a)).
Proof. intros Ha. rewrite Z.mod_eq, Z.div_div, <- Z.pow_add_r, (Z.add_comm a) by lia. done. Qed.

Ltac load_step s :=
  first [rewrite (load_3_val (drop _ s)) | rewrite (load_4_val (drop _ s))]; [|by apply bytes_drop|rewrite length_drop; lia]; cbn [mbind option_bind]; cbv zeta.

Ltac limbs_done v :=
  repeat match goal with |- context [8 * Z.of_nat ?a + ?b] => let e := eval vm_compute in (8 * Z.of_nat a + b) in change (8 * Z.of_nat a + b) with e end;
  eexists; split; [reflexivity|]; split; [done|]; split;
  [ repeat (apply Forall_cons_2;
      [first [ match goal with |- 0 <= ?x mod ?m < _ => pose proof (Z.mod_pos_bound x m); lia end
             | split; [apply Z.div_pos; lia|apply Z.div_lt_upper_bound; lia] ]|]); apply Forall_nil_2
  | unfold val21; cbn [foldr]; rewrite !limb_at by lia;
    repeat match goal with |- context [21 + ?a] => let e := eval vm_compute in (21 + a) in change (21 + a) with e end;
    rewrite Z.pow_0_r, Z.div_1_r; lia ].

Lemma load_3_first s : bytes s -> (3 <= length s)%nat -> load_3 s = Some ((le_val s / 256 ^ Z.of_nat 0) mod 2 ^ 24).
Proof. intros. rewrite Z.div_1_r. by apply load_3_val. Qed.
Lemma sc_load_ok s : bytes s -> length s = 32%nat ->
  exists t, sc_load s = Some t /\ length t = 12%nat /\ Forall (fun x => 0 <= x < 2 ^ 25) t /\ val21 t = le_val s.
Proof.
  intros Hb Hl. pose proof (le_val_bound s Hb) as Hv. rewrite Hl in Hv. change (256 ^ Z.of_nat 32) with (2 ^ 256) in Hv. unfold sc_load.
  rewrite (load_3_first s) by (done || lia). cbn [mbind option_bind]. cbv zeta. do 11 load_step s. rewrite !le_val_drop by (done || lia).
  rewrite !limb_val by lia. rewrite limb_top by (lia || done). set (v := le_val s) in *.
  limbs_done v.
Qed.
Lemma sc_load64_ok s : bytes s -> length s = 64%nat ->
  exists t, sc_load64 s = Some t /\ length t = 24%nat /\ Forall (fun x => 0 <= x < 2 ^ 29) t /\ val21 t = le_val s.
Proof.
  intros Hb Hl. pose proof (le_val_bound s Hb) as Hv. rewrite Hl in Hv. change (256 ^ Z.of_nat 64) with (2 ^ 512) in Hv. unfold sc_load64.
  rewrite (load_3_first s) by (done || lia). cbn [mbind option_bind]. cbv zeta. do 23 load_step s. rewrite !le_val_drop by (done || lia).
  rewrite !limb_val by lia. rewrite limb_top by (lia || done). set (v := le_val s) in *.
  limbs_done v.
Qed.

(** *** Sums and products *)

Lemma sc_tail_list_ok s v c : length s = 12%nat -> Forall (bnd (2 ^ 60)) s -> val21 s = v - l * c -> sc_tail_list s = Some (le_bytes 32 (v mod l)).
Proof.
  intros Hl Hb E. do 12 (destruct s as [|? s]; [discriminate Hl|]). destruct s; [|discriminate Hl]. unfold sc_tail_list.
  pose proof (sc_tail_congr _ _ _ _ _ _ _ _ _ _ _ _ _ _ Hb E) as H. by apply returns_Some in H as (r & -> & ->).
Qed.
Lemma sc_reduce32_ok s : bytes s -> length s = 32%nat -> sc_reduce32 s = Some (le_bytes 32 (le_val s mod l)).
Proof.
  intros Hb Hl. destruct (sc_load_ok s Hb Hl) as (t & E & Ht & Hf & Hv). unfold sc_reduce32. rewrite E. cbn [mbind option_bind].
  apply (sc_tail_list_ok _ _ 0); [done|by eapply Forall_impl; [exact Hf|]; unfold bnd; cbn beta; intros; lia|lia].
Qed.
Lemma sc_reduce_ok s : bytes s -> length s = 64%nat -> sc_reduce s = Some (le_bytes 32 (le_val s mod l)).
Proof.
  intros Hb Hl. destruct (sc_load64_ok s Hb Hl) as (t & E & Ht & Hf & Hv). unfold sc_reduce. rewrite E. cbn [mbind option_bind].
  pose proof (sc_head_ok t Ht) as H. rewrite Hv in H.
  assert (Hb' : Forall (bnd (2 ^ 34)) t) by (eapply Forall_impl; [exact Hf|]; unfold bnd; cbn beta; intros; lia).
  apply H, returns_Some in Hb' as (r & -> & ->). done.
Qed.

Lemma mapM_zip (f : Z -> Z -> Z) m a b : length a = length b -> (forall x y, 0 <= x < 2 ^ 25 -> 0 <= y < 2 ^ 25 -> bnd m (f x y)) -> m < 2 ^ 63 ->
  Forall (fun x => 0 <= x < 2 ^ 25) a -> Forall (fun x => 0 <= x < 2 ^ 25) b ->
  exists s, mapM (fun '(x, y) => int64 (f x y)) (zip a b) = Some s /\ length s = length a /\ Forall (bnd m) s /\ s = zip_with f a b.
Proof.
  intros Hl Hf Hm Ha. revert b Hl. induction Ha as [|x a Hx Ha IH]; intros [|y b] Hl Hb; try discriminate Hl; [by exists []|].
  apply Forall_cons in Hb as [Hy Hb]. destruct (IH b) as (s & E & Hs & Hbs & ->); [by injection Hl|done|]. pose proof (Hf x y Hx Hy) as Hxy.
  cbn [zip_with mapM]. rewrite int_fits by (unfold bnd in Hxy; lia). cbn [mbind option_bind]. rewrite E. cbn [mbind option_bind].
  eexists. split; [done|]. cbn [length]. split; [by rewrite Hs|]. split; [by apply Forall_cons_2|done].
Qed.
Lemma val21_add a b : length a = length b -> val21 (zip_with Z.add a b) = val21 a + val21 b.
Proof. revert b. induction a as [|x a IH]; intros [|y b] Hl; try discriminate Hl; [done|]. injection Hl as Hl. unfold val21 in *. cbn [zip_with foldr]. rewrite IH by done. lia. Qed.
Lemma val21_sub a b : length a = length b -> val21 (zip_with Z.sub a b) = val21 a - val21 b.
Proof. revert b. induction a as [|x a IH]; intros [|y b] Hl; try discriminate Hl; [done|]. injection Hl as Hl. unfold val21 in *. cbn [zip_with foldr]. rewrite IH by done. lia. Qed.

Lemma sc_add_ok a b : bytes a -> bytes b -> length a = 32%nat -> length b = 32%nat -> sc_add a b = Some (le_bytes 32 ((le_val a + le_val b) mod l)).
Proof.
  intros Ha Hb Hla Hlb. destruct (sc_load_ok a Ha Hla) as (s & Es & Hs & Hfs & Hvs), (sc_load_ok b Hb Hlb) as (t & Et & Ht & Hft & Hvt).
  unfold sc_add. rewrite Es. cbn [mbind option_bind]. rewrite Et. cbn [mbind option_bind].
  destruct (mapM_zip Z.add (2 ^ 26) s t) as (r & -> & Hr & Hbr & ->); [by rewrite Hs|unfold bnd; lia|lia|done..|]. cbn [mbind option_bind].
  apply (sc_tail_list_ok _ _ 0); [by rewrite Hr|by eapply Forall_impl; [exact Hbr|]; unfold bnd; cbn beta; intros; lia|]. rewrite val21_add by by rewrite Hs. lia.
Qed.
Lemma sc_sub_ok a b : bytes a -> bytes b -> length a = 32%nat -> length b = 32%nat -> sc_sub a b = Some (le_bytes 32 ((le_val a - le_val b) mod l)).
Proof.
  intros Ha Hb Hla Hlb. destruct (sc_load_ok a Ha Hla) as (s & Es & Hs & Hfs & Hvs), (sc_load_ok b Hb Hlb) as (t & Et & Ht & Hft & Hvt).
  unfold sc_sub. rewrite Es. cbn [mbind option_bind]. rewrite Et. cbn [mbind option_bind].
  destruct (mapM_zip Z.sub (2 ^ 26) s t) as (r & -> & Hr & Hbr & ->); [by rewrite Hs|unfold bnd; lia|lia|done..|]. cbn [mbind option_bind].
  apply (sc_tail_list_ok _ _ 0); [by rewrite Hr|by eapply Forall_impl; [exact Hbr|]; unfold bnd; cbn beta; intros; lia|]. rewrite val21_sub by by rewrite Hs. lia.
Qed.

Definition dot (l : list (Z * Z)) : Z := foldr (fun '(x, y) v => x * y + v) 0 l.
Lemma dot64_ok t : (length t <= 12)%nat -> Forall (fun '(x, y) => 0 <= x < 2 ^ 25 /\ 0 <= y < 2 ^ 25) t -> dot64 t = Some (dot t) /\ 0 <= dot t < 2 ^ 54.
Proof.
  intros Hl Ht.
  assert (H : exists s, mapM (fun '(x, y) => int64 (x * y)) t = Some s /\ Forall2 bnd (replicate (length t) (2 ^ 50)) s /\ foldr Z.add 0 s = dot t /\ 0 <= dot t <= Z.of_nat (length t) * 2 ^ 50).
  { clear Hl. induction Ht as [|[x y] t [Hx Hy] Ht (s & E & Hb & Hs & Hd)]; [by exists []; split; [|split; [constructor|]]|].
    assert (0 <= x * y < 2 ^ 50) by nia. cbn [mapM]. rewrite int_fits by lia. cbn [mbind option_bind]. rewrite E. cbn [mbind option_bind].
    eexists. split; [done|]. split; [by apply Forall2_cons_2; [unfold bnd; lia|]|]. unfold dot in *. cbn [foldr length]. lia. }
  destruct H as (s & E & Hb & Hs & Hd). split; [|lia]. unfold dot64. rewrite E. cbn [mbind option_bind]. rewrite <- Hs.
  assert (Hsum : foldr Z.add 0 (replicate (length t) (2 ^ 50)) = Z.of_nat (length t) * 2 ^ 50) by (clear; induction (length t) as [|n IH]; [done|]; cbn [replicate foldr]; lia).
  assert (returns (z ← sum64 s; Some z) (fun z => z = foldr Z.add 0 s)) as H.
  { eapply sum64_seq; [exact Hb|apply Z.ltb_lt; lia|]. intros z -> _. done. }
  destruct (sum64 s); [by cbn in H; subst|done].
Qed.
Ltac split12 s Hl := do 12 (destruct s as [|? s]; [discriminate Hl|]); destruct s; [|discriminate Hl]; clear Hl.
Lemma dot_seq {A} t (k : Z -> option A) Q : (length t <= 12)%nat -> Forall (fun '(x, y) => 0 <= x < 2 ^ 25 /\ 0 <= y < 2 ^ 25) t ->
  (forall z, z = dot t -> 0 <= z < 2 ^ 54 -> returns (k z) Q) -> returns (z ← dot64 t; k z) Q.
Proof. intros Hl Ht Hk. destruct (dot64_ok t Hl Ht) as [E H]. rewrite E. by apply Hk. Qed.
Ltac dot_step :=
  apply dot_seq; [cbn [length]; lia|repeat (apply Forall_cons_2; [split; done|]); apply Forall_nil_2|];
  let z := fresh "t" in let Ez := fresh "Et" in let Hz := fresh "Hz" in intros z Ez Hz; unfold dot in Ez; cbn [foldr] in Ez;
  apply int_seq; [lia|]; let x := fresh "x" in let Ex := fresh "Ex" in intros x Ex.

Lemma sc_products_ok a b c : length a = 12%nat -> length b = 12%nat -> length c = 12%nat ->
  Forall (fun x => 0 <= x < 2 ^ 25) a -> Forall (fun x => 0 <= x < 2 ^ 25) b -> Forall (fun x => 0 <= x < 2 ^ 25) c ->
  returns (sc_products a b c) (fun s => length s = 24%nat /\ s !! 23%nat = Some 0 /\ Forall (bnd (2 ^ 54)) s /\ val21 s = val21 c - val21 a * val21 b).
Proof.
  intros Hla Hlb Hlc Ha Hb Hc. split12 a Hla. split12 b Hlb. split12 c Hlc.
  rewrite !Forall_cons in Ha, Hb, Hc. repeat match goal with H : (0 <= _ < _) /\ _ |- _ => destruct H as [? H] end. clear Ha Hb Hc. unfold sc_products.
  do 22 dot_step. apply int_seq; [lia|]. intros n En. apply int_seq; [nia|]. intros x22 E22. cbv zeta. cbn [returns].
  split; [done|]. split; [done|]. split; [repeat (apply Forall_cons_2; [unfold bnd; (lia || nia)|]); apply Forall_nil_2|].
  unfold val21. cbn [foldr]. subst. ring.
Qed.
Lemma sc_carries_ok s : length s = 24%nat -> s !! 23%nat = Some 0 -> Forall (bnd (2 ^ 54)) s ->
  returns (sc_carries s) (fun t => length t = 24%nat /\ Forall (bnd (2 ^ 34)) t /\ val21 t = val21 s).
Proof.
  intros Hl H23 Hb. do 24 (destruct s as [|? s]; [discriminate Hl|]). destruct s; [|discriminate Hl]. clear Hl. injection H23 as ->.
  rewrite !Forall_cons in Hb. repeat match goal with H : bnd _ _ /\ _ |- _ => destruct H as [? H] end. clear Hb. unfold sc_carries.
  do 12 carry_step 21 (2 ^ 54) (2 ^ 54). do 11 carry_step 21 (2 ^ 55) (2 ^ 54). cbn [returns].
  split; [done|]. split; [forall_bnd|]. unfold val21. cbn [foldr]. subst. ring.
Qed.
Lemma sc_mulsub_ok a b c : bytes a -> bytes b -> bytes c -> length a = 32%nat -> length b = 32%nat -> length c = 32%nat ->
  sc_mulsub a b c = Some (le_bytes 32 ((le_val c - le_val a * le_val b) mod l)).
Proof.
  intros Ha Hb Hc Hla Hlb Hlc. destruct (sc_load_ok a Ha Hla) as (s & Es & Hs & Hfs & Hvs), (sc_load_ok b Hb Hlb) as (t & Et & Ht & Hft & Hvt), (sc_load_ok c Hc Hlc) as (u & Eu & Hu & Hfu & Hvu).
  unfold sc_mulsub. rewrite Es. cbn [mbind option_bind]. rewrite Et. cbn [mbind option_bind]. rewrite Eu. cbn [mbind option_bind].
  pose proof (sc_products_ok s t u Hs Ht Hu Hfs Hft Hfu) as (x & -> & Hx & Hx23 & Hbx & Hvx)%returns_Some. cbn [mbind option_bind].
  pose proof (sc_carries_ok x Hx Hx23 Hbx) as (y & -> & Hy & Hby & Hvy)%returns_Some. cbn [mbind option_bind].
  pose proof (sc_head_ok y Hy Hby) as (z & -> & ->)%returns_Some. do 2 f_equal. by rewrite Hvy, Hvx, Hvs, Hvt, Hvu.
Qed.

(** *** Comparison with [l] *)

Lemma signum_ok a : bnd (2 ^ 62) a -> signum a = Some (Z.sgn a).
Proof.
  intros Ha. unfold bnd, signum in *. rewrite int_fits by lia. cbn [mbind option_bind]. rewrite !Z.shiftr_div_pow2 by lia.
  assert (H : forall x, - 2 ^ 62 <= x <= 2 ^ 62 -> x / 2 ^ 63 = if x <? 0 then -1 else 0).
  { clear. intros x Hx. destruct (Z.ltb_spec x 0); [|by apply Z.div_small; lia]. symmetry. apply (Z.div_unique_pos _ _ _ (x + 2 ^ 63)); lia. }
  rewrite !H by lia. destruct (Z.ltb_spec a 0), (Z.ltb_spec (- a) 0); try lia; rewrite int_fits by lia; f_equal; lia.
Qed.
Lemma sgn_cases x : exists g, Z.sgn x = g /\ -1 <= g <= 1 /\ ((0 < x /\ g = 1) \/ (x = 0 /\ g = 0) \/ (x < 0 /\ g = -1)).
Proof. exists (Z.sgn x). lia. Qed.
(** The signs of the differences of the words decide. *)
Lemma words_below_l w0 w1 w2 w3 w4 w5 w6 w7 :
  0 <= w0 < 2 ^ 32 -> 0 <= w1 < 2 ^ 32 -> 0 <= w2 < 2 ^ 32 -> 0 <= w3 < 2 ^ 32 -> 0 <= w4 < 2 ^ 32 -> 0 <= w5 < 2 ^ 32 -> 0 <= w6 < 2 ^ 32 -> 0 <= w7 < 2 ^ 32 ->
  (t ← sum64 [Z.sgn (1559614444 - w0); Z.sgn (1477600026 - w1) * 2 ^ 1; Z.sgn (2734136534 - w2) * 2 ^ 2; Z.sgn (350157278 - w3) * 2 ^ 3;
              Z.sgn (- w4) * 2 ^ 4; Z.sgn (- w5) * 2 ^ 5; Z.sgn (- w6) * 2 ^ 6; Z.sgn (268435456 - w7) * 2 ^ 7];
   Some (i32 (Z.shiftr t 8))) =
  Some (if w0 + 2 ^ 32 * w1 + 2 ^ 64 * w2 + 2 ^ 96 * w3 + 2 ^ 128 * w4 + 2 ^ 160 * w5 + 2 ^ 192 * w6 + 2 ^ 224 * w7 <? l then 0 else -1).
Proof.
  intros H0 H1 H2 H3 H4 H5 H6 H7.
  destruct (sgn_cases (1559614444 - w0)) as (g0 & -> & B0 & C0).
  destruct (sgn_cases (1477600026 - w1)) as (g1 & -> & B1 & C1).
  destruct (sgn_cases (2734136534 - w2)) as (g2 & -> & B2 & C2).
  destruct (sgn_cases (350157278 - w3)) as (g3 & -> & B3 & C3).
  destruct (sgn_cases (- w4)) as (g4 & -> & B4 & C4).
  destruct (sgn_cases (- w5)) as (g5 & -> & B5 & C5).
  destruct (sgn_cases (- w6)) as (g6 & -> & B6 & C6).
  destruct (sgn_cases (268435456 - w7)) as (g7 & -> & B7 & C7).
  set (v := w0 + 2 ^ 32 * w1 + 2 ^ 64 * w2 + 2 ^ 96 * w3 + 2 ^ 128 * w4 + 2 ^ 160 * w5 + 2 ^ 192 * w6 + 2 ^ 224 * w7).
  set (t := g0 + (g1 * 2 ^ 1 + (g2 * 2 ^ 2 + (g3 * 2 ^ 3 + (g4 * 2 ^ 4 + (g5 * 2 ^ 5 + (g6 * 2 ^ 6 + (g7 * 2 ^ 7 + 0)))))))).
  assert (Es : sum64 [g0; g1 * 2 ^ 1; g2 * 2 ^ 2; g3 * 2 ^ 3; g4 * 2 ^ 4; g5 * 2 ^ 5; g6 * 2 ^ 6; g7 * 2 ^ 7] = Some t).
  { clear C0 C1 C2 C3 C4 C5 C6 C7. unfold sum64. rewrite (sum64_fold _ (replicate 7 (2 ^ 7)) _ (2 ^ 7)); [done| |unfold bnd; lia|cbn; lia].
    repeat (apply Forall2_cons_2; [unfold bnd; lia|]). apply Forall2_nil_2. }
  assert (Ht : -255 <= t < 256 /\ (v < l <-> 0 <= t)).
  { clear Es. subst v t. unfold l.
    split; [clear C0 C1 C2 C3 C4 C5 C6 C7; lia|]. destruct C7 as [C7|[C7|C7]]; [clear C0 C1 C2 C3 C4 C5 C6; lia| |clear C0 C1 C2 C3 C4 C5 C6; lia].
    destruct C6 as [C6|[C6|C6]]; [clear C0 C1 C2 C3 C4 C5; lia| |clear C0 C1 C2 C3 C4 C5; lia].
    destruct C5 as [C5|[C5|C5]]; [clear C0 C1 C2 C3 C4; lia| |clear C0 C1 C2 C3 C4; lia]. destruct C4 as [C4|[C4|C4]]; [clear C0 C1 C2 C3; lia| |clear C0 C1 C2 C3; lia].
    destruct C3 as [C3|[C3|C3]]; [clear C0 C1 C2; lia| |clear C0 C1 C2; lia]. destruct C2 as [C2|[C2|C2]]; [clear C0 C1; lia| |clear C0 C1; lia].
    destruct C1 as [C1|[C1|C1]]; [clear C0; lia| |clear C0; lia]. lia. }
  rewrite Es. cbn [mbind option_bind]. f_equal. destruct Ht as [Ht Hv]. clear C0 C1 C2 C3 C4 C5 C6 C7. rewrite Z.shiftr_div_pow2 by lia. clearbody t v.
  destruct (Z.ltb_spec v l).
  - rewrite Z.div_small by lia. done.
  - replace (t / 2 ^ 8) with (-1); [done|]. apply (Z.div_unique_pos _ _ _ (t + 2 ^ 8)); lia.
Qed.
Lemma sc_check_ok s : bytes s -> length s = 32%nat -> sc_check s = Some (if le_val s <? l then 0 else -1).
Proof.
  intros Hb Hl. unfold sc_check. split32 s Hl.
  repeat match goal with H : bytes (_ :: _) |- _ => apply Forall_cons in H as [? H] end. cbn [drop].
  do 8 (erewrite load_4_ok by (reflexivity || (repeat (apply Forall_cons_2; [done|]); apply Forall_nil_2)); cbn [mbind option_bind]).
  words. repeat (rewrite signum_ok by (unfold bnd; lia); cbn [mbind option_bind]).
  rewrite !(swrap_small 64) by (done || rewrite Z.shiftl_mul_pow2 by lia; match goal with |- context [Z.sgn ?x] => destruct (Z.sgn_spec x) as [[_ ->]|[[_ ->]|[_ ->]]] end; lia).
  rewrite !Z.shiftl_mul_pow2 by lia. cbn [le_val].
  match goal with |- context [if ?v <? l then _ else _] =>
    match goal with |- context [sum64 [Z.sgn (_ - ?w0); Z.sgn (_ - ?w1) * _; Z.sgn (_ - ?w2) * _; Z.sgn (_ - ?w3) * _; Z.sgn (- ?w4) * _; Z.sgn (- ?w5) * _; Z.sgn (- ?w6) * _; Z.sgn (_ - ?w7) * _]] =>
      replace v with (w0 + 2 ^ 32 * w1 + 2 ^ 64 * w2 + 2 ^ 96 * w3 + 2 ^ 128 * w4 + 2 ^ 160 * w5 + 2 ^ 192 * w6 + 2 ^ 224 * w7) by lia;
      apply words_below_l; lia
    end
  end.
Qed.

Definition bytes32 (s : list Z) : Prop := bytes s /\ length s = 32%nat.

Lemma sc_isnonzero_ok s : bytes s -> sc_isnonzero s = Some (if le_val s =? 0 then 0 else 1).
Proof. apply bytes_isnonzero_ok. Qed.

Lemma bytes32_le_bytes z : bytes32 (le_bytes 32 z).
Proof. split; [apply le_bytes_bytes|apply length_le_bytes]. Qed.

End CurveScalar.
