(* ===== verification/CurvePrime.v ===== *)
(** * The prime of the curve

    [p = 2^255 - 19] is prime, by Pocklington's criterion: a number [n] is prime when
    [n - 1] has a factor above the root of [n] whose prime divisors all divide [r - 1] for
    every prime divisor [r] of [n], which powers of one number modulo [n] show. *)
From S2P Require Import Prelude CurveField.
From Stdlib Require Import Zpow_facts Zmod.Zmod.
From Bignums Require Import BigZ.BigZ.
Import CurveField.

Module CurvePrime.

Lemma prime_divisor n : 1 < n -> exists r, Z.prime r /\ (r | n).
Proof.
  intros Hn. induction (Z.lt_wf 1 n) as [n _ IH]. destruct (decide (Exists (fun d => n mod d = 0) (seqZ 2 (n - 2)))) as [H|H].
  - apply Exists_exists in H as (d & Hd%elem_of_seqZ & Hm). destruct (IH d) as (r & Hr & Hrd); [lia..|].
    exists r. split; [done|]. eapply Z.divide_trans; [done|]. by apply Z.mod_divide; [lia|].
  - exists n. split; [|done]. split; [done|]. intros d Hd Hdn. apply H, Exists_exists. exists d.
    split; [apply elem_of_seqZ; lia|]. by apply Z.mod_divide; [lia|].
Qed.

Lemma small_divisor n d : 1 < d < n -> (d | n) -> exists r, Z.prime r /\ (r | n) /\ r * r <= n.
Proof.
  intros Hd [e He]. assert (1 < e) by nia. assert (1 < Z.min d e) by lia. destruct (prime_divisor (Z.min d e)) as (r & Hr & Hrd); [done|].
  exists r. split; [done|]. pose proof (Z.prime_ge_2 r Hr). assert (Z.min d e = d /\ d <= e \/ Z.min d e = e /\ e <= d) as [[E Hle]|[E Hle]] by lia; rewrite E in Hrd.
  - split; [subst n; by apply Z.divide_mul_r|]. apply Z.divide_pos_le in Hrd; [nia|lia].
  - split; [subst n; by apply Z.divide_mul_l|]. apply Z.divide_pos_le in Hrd; [nia|lia].
Qed.

(** Powers modulo [n], on machine integers *)
Fixpoint big_pow (a : bigZ) (e : positive) (n : bigZ) : bigZ :=
  match e with
  | xH => BigZ.modulo a n
  | xO e => let x := big_pow a e n in BigZ.modulo (BigZ.mul x x) n
  | xI e => let x := big_pow a e n in BigZ.modulo (BigZ.mul a (BigZ.mul x x)) n
  end.
Lemma big_pow_spec a e n : BigZ.to_Z (big_pow a e n) = BigZ.to_Z a ^ Z.pos e mod BigZ.to_Z n.
Proof.
  induction e as [e IH|e IH|]; cbn [big_pow]; rewrite BigZ.spec_modulo, ?BigZ.spec_mul, ?IH.
  - rewrite Pos2Z.inj_xI, Z.pow_add_r, Z.pow_1_r, (Z.mul_comm 2), Z.pow_mul_r, Z.pow_2_r by lia.
    rewrite <- Zmult_mod_idemp_r, <- Zmult_mod, Zmult_mod_idemp_r. f_equal. lia.
  - by rewrite Pos2Z.inj_xO, (Z.mul_comm 2), Z.pow_mul_r, Z.pow_2_r, <- Zmult_mod by lia.
  - by rewrite Z.pow_1_r.
Qed.
(** [a^(n-1) = 1] modulo [n], and [a^((n-1)/q) - 1] is invertible. *)
Definition certificate (n q a : Z) : bool :=
  let n' := BigZ.of_Z n in let a' := BigZ.of_Z a in
  BigZ.eqb (BigZ.modulo (BigZ.sub n' BigZ.one) (BigZ.of_Z q)) BigZ.zero &&
  match n - 1, (n - 1) / q with
  | Z.pos e, Z.pos e' => BigZ.eqb (big_pow a' e n') BigZ.one && BigZ.eqb (BigZ.gcd (BigZ.sub (big_pow a' e' n') BigZ.one) n') BigZ.one
  | _, _ => false
  end.
Lemma certificate_spec n q a : certificate n q a = true ->
  (n - 1) mod q = 0 /\ a ^ (n - 1) mod n = 1 /\ Z.gcd (a ^ ((n - 1) / q) mod n - 1) n = 1.
Proof.
  unfold certificate. intros [H1 H2]%andb_prop. rewrite BigZ.spec_eqb, BigZ.spec_modulo, BigZ.spec_sub, !BigZ.spec_of_Z in H1. apply Z.eqb_eq in H1.
  destruct (n - 1) as [|e|] eqn:E; [done| |done]. destruct (Z.pos e / q) as [|e'|]; [done| |done].
  apply andb_prop in H2 as [H2 H3]. rewrite BigZ.spec_eqb, big_pow_spec, !BigZ.spec_of_Z in H2.
  rewrite BigZ.spec_eqb, BigZ.spec_gcd, BigZ.spec_sub, big_pow_spec, !BigZ.spec_of_Z in H3. apply Z.eqb_eq in H2, H3. rewrite <- E. split_and!; [exact H1|rewrite E; exact H2|exact H3].
Qed.

Lemma pow_congr_one r b k : 0 <= k -> b mod r = 1 mod r -> b ^ k mod r = 1 mod r.
Proof. intros Hk Hb. rewrite <- Z.mod_pow_l, Hb, Z.mod_pow_l, Z.pow_1_l; done. Qed.

(** A number with [b^q = 1] and [b^m = 1] modulo [r] for coprime [q] and [m] is [1]. *)
Lemma pow_coprime_one r b q m : 1 < r -> 0 < q -> 0 < m -> Z.coprime q m -> b ^ q mod r = 1 mod r -> b ^ m mod r = 1 mod r -> b mod r = 1 mod r.
Proof.
  intros Hr Hq Hm Hc Eq Em. apply Z.Bezout_coprime in Hc as (u & v & E).
  set (k := Z.abs u + Z.abs v). assert (E2 : (u + k * m) * q = (k * q - v) * m + 1) by lia.
  assert (0 <= u + k * m) by nia. assert (0 <= k * q - v) by nia.
  assert (H1 : b ^ ((u + k * m) * q) mod r = 1 mod r) by (rewrite Z.mul_comm, Z.pow_mul_r by lia; by apply pow_congr_one).
  rewrite E2, Z.pow_add_r, Z.pow_1_r, <- Z.mul_mod_idemp_l in H1 by nia.
  rewrite (Z.mul_comm (k * q - v)), Z.pow_mul_r, (pow_congr_one r (b ^ m)), Z.mul_mod_idemp_l, Z.mul_1_l in H1 by (lia || done). done.
Qed.

Lemma certificate_divides n q a r : 1 < n -> Z.prime q -> certificate n q a = true -> Z.prime r -> (r | n) -> (q | r - 1).
Proof.
  intros Hn Hq (Hd & H1 & Hg)%certificate_spec Hr Hrn.
  pose proof (Z.prime_ge_2 q Hq). pose proof (Z.prime_ge_2 r Hr). destruct (Z.BoolSpec_divide q (r - 1)) as [|Hnd]; [done|exfalso].
  set (b := a ^ ((n - 1) / q)). assert (Eb : b ^ q = a ^ (n - 1)).
  { unfold b. rewrite <- Z.pow_mul_r by (try apply Z.div_pos; lia). f_equal. rewrite Z.mul_comm, <- Z.divide_div_mul_exact, Z.mul_comm, Z.div_mul by (try apply Z.mod_divide; lia). done. }
  assert (Hmod : forall x, (x mod n) mod r = x mod r) by (intros x; by apply Z.mod_mod_divide).
  assert (Ebq : b ^ q mod r = 1 mod r) by (rewrite Eb, <- Hmod, H1; done).
  assert (Hb0 : b mod r <> 0).
  { intros E0. rewrite <- Z.mod_pow_l, E0, Z.pow_0_l, Z.mod_0_l, Z.mod_1_l in Ebq by lia. lia. }
  assert (Ebr : b ^ (r - 1) mod r = 1 mod r) by (rewrite Z.mod_1_l by lia; by apply Z.fermat_nz).
  assert (E1 : b mod r = 1 mod r) by (apply (pow_coprime_one r b q (r - 1)); try done; try lia; by apply Z.coprime_prime_l).
  assert (Hdiv : (r | a ^ ((n - 1) / q) mod n - 1)).
  { apply Z.mod_divide; [lia|]. rewrite <- Zminus_mod_idemp_l, Hmod. fold b. rewrite E1, Zminus_mod_idemp_l. done. }
  assert (r | 1) by (rewrite <- Hg; by apply Z.gcd_greatest). apply Z.divide_1_r_nonneg in H2; lia.
Qed.

(** The factor of [n - 1] is a prime or a product of two. *)
Lemma pocklington n q a : 1 < n -> n < q * q -> Z.prime q -> certificate n q a = true -> Z.prime n.
Proof.
  intros Hn Hqn Hq Hc. split; [done|]. intros d Hd Hdn. destruct (small_divisor n d Hd Hdn) as (r & Hr & Hrn & Hrr).
  pose proof (certificate_divides n q a r Hn Hq Hc Hr Hrn) as Hdiv. pose proof (Z.prime_ge_2 r Hr). pose proof (Z.prime_ge_2 q Hq).
  apply Z.divide_pos_le in Hdiv; [nia|lia].
Qed.
Lemma pocklington2 n q q' a : 1 < n -> n < (q * q') * (q * q') -> q <> q' -> Z.prime q -> Z.prime q' ->
  certificate n q a = true -> certificate n q' a = true -> Z.prime n.
Proof.
  intros Hn Hqn Hne Hq Hq' Hc Hc'. split; [done|]. intros d Hd Hdn. destruct (small_divisor n d Hd Hdn) as (r & Hr & Hrn & Hrr).
  pose proof (certificate_divides n q a r Hn Hq Hc Hr Hrn) as [e He]. pose proof (certificate_divides n q' a r Hn Hq' Hc' Hr Hrn) as Hdiv'.
  pose proof (Z.prime_ge_2 r Hr). pose proof (Z.prime_ge_2 q Hq). pose proof (Z.prime_ge_2 q' Hq').
  rewrite He in Hdiv'. apply Z.divide_prime_mul in Hdiv' as [[f Hf]|Hqq]; [|by apply Z.divide_prime_prime in Hqq|done].
  assert (E : r - 1 = f * (q * q')) by (rewrite He, Hf; lia). assert (0 < q * q') by nia. set (m := q * q') in *. clearbody m.
  assert (0 < f) by nia. assert (m <= r - 1) by nia. nia.
Qed.

(** Trial division *)
Definition no_divisor (n : Z) : bool := forallb (fun d => negb (n mod d =? 0)) (seqZ 2 (Z.sqrt n)).
Lemma trial n : 1 < n -> no_divisor n = true -> Z.prime n.
Proof.
  intros Hn H. split; [done|]. intros d Hd Hdn. destruct (small_divisor n d Hd Hdn) as (r & Hr & Hrn & Hrr).
  pose proof (Z.prime_ge_2 r Hr). apply Z.sqrt_le_square in Hrr; [|lia..].
  unfold no_divisor in H. rewrite forallb_forall in H. specialize (H r). rewrite <- list_elem_of_In, elem_of_seqZ in H.
  apply Z.mod_divide in Hrn; [|lia]. rewrite Hrn in H. discriminate H. lia.
Qed.

Lemma prime_75707 : Z.prime 75707. Proof. apply trial; [done|by vm_compute]. Qed.
Lemma prime_430751 : Z.prime 430751. Proof. apply trial; [done|by vm_compute]. Qed.
Lemma prime_4153 : Z.prime 4153. Proof. apply trial; [done|by vm_compute]. Qed.
Lemma prime_8574133 : Z.prime 8574133. Proof. apply trial; [done|by vm_compute]. Qed.
Lemma prime_127 : Z.prime 127. Proof. apply trial; [done|by vm_compute]. Qed.
Lemma prime_1919519569386763 : Z.prime 1919519569386763.
Proof. apply (pocklington2 _ 8574133 127 2); [done|done|done|apply prime_8574133|apply prime_127|by vm_compute..]. Qed.
Lemma prime_31757755568855353 : Z.prime 31757755568855353.
Proof. apply (pocklington2 _ 430751 4153 2); [done|done|done|apply prime_430751|apply prime_4153|by vm_compute..]. Qed.
Lemma prime_p3 : Z.prime 75445702479781427272750846543864801.
Proof. apply (pocklington2 _ 1919519569386763 75707 2); [done|done|done|apply prime_1919519569386763|apply prime_75707|by vm_compute..]. Qed.
Lemma prime_p2 : Z.prime 74058212732561358302231226437062788676166966415465897661863160754340907.
Proof. apply (pocklington2 _ 75445702479781427272750846543864801 31757755568855353 2); [done|done|done|apply prime_p3|apply prime_31757755568855353|by vm_compute..]. Qed.
Lemma prime_p : Z.prime p.
Proof. apply (pocklington _ 74058212732561358302231226437062788676166966415465897661863160754340907 2); [done|done|apply prime_p2|by vm_compute]. Qed.

End CurvePrime.
